(** * A shallow embedding of the segregated free-list allocator (allocator.c)

    The engine of [allocator.c] is rendered as Rocq functions over an explicit
    allocator state.  Conventions:

    - [size_t] values and addresses are numbers of type [N]; every [size_t]
      operation of the source is followed by its reduction modulo [2^64].
      Address arithmetic ([(void* )block + block->size], [block + sizeof])
      is plain addition, address [0] is the null pointer, and [ptr - sizeof]
      stops at [0]: the engine is meant to receive addresses it handed out,
      which lie above a header.
    - a [block_header_t] is a record; the headers living in memory form a
      finite map from block address to record ([hdrs]).  Memory that has never
      been written reads as zero.  Headers at different addresses are
      independent records: two headers less than a header apart, which only a
      wrapped request size can produce, do not overlap in the model.
    - payload bytes live in a second store ([bytes]); the two stores are kept
      apart, so a payload write never alters a header.  [memset] and [memcpy]
      fault when their range leaves the memory of the process.
    - the operating system ([sbrk], [mmap], [munmap]) is a small deterministic
      model carried inside the state: [sbrk] reads its argument as an
      [intptr_t] and moves the break up to a limit, or down to the start of
      the data segment when the increment is negative; mappings are handed
      out at increasing addresses up to a limit.
    - the loops of the source whose termination depends on the contents of
      memory (the list walk of [find_free_block], the recursion of [coalesce])
      take a fuel argument and report [OutOfFuel] when it is exhausted; the
      result of a completed call does not depend on the fuel (section Fuel). *)

From Stdlib Require Import NArith Lia List Bool.
From stdpp Require Import base numbers option list gmap relations.

Local Open Scope N_scope.

(** ** Outcomes of an engine call *)

Inductive outcome (A : Type) : Type :=
  | Done (a : A)
  | Fault
  | OutOfFuel.

Arguments Done {A} a.
Arguments Fault {A}.
Arguments OutOfFuel {A}.

Definition obind {A B : Type} (m : outcome A) (k : A -> outcome B) : outcome B :=
  match m with
  | Done a => k a
  | Fault => Fault
  | OutOfFuel => OutOfFuel
  end.

Notation "'let*' x ':=' m 'in' k" := (obind m (fun x => k))
  (at level 10, x pattern, m at level 200, k at level 200).

(** ** Configuration constants (allocator.c, lines 10-15) *)

Definition MIN_BLOCK_SIZE : N := 32.
Definition ALIGNMENT : N := 16.
Definition NUM_SIZE_CLASSES : nat := 10.
Definition MMAP_THRESHOLD : N := 128 * 1024.
Definition BRK_INCREMENT : N := 64 * 1024.

(** [sizeof(block_header_t)] on an LP64 target: three 8-byte words and two
    4-byte ints. *)
Definition HDR : N := 32.

Definition NULL : N := 0.
Definition two64 : N := 18446744073709551616.
Definition SIZE_MAX : N := 18446744073709551615.

(** [(void* )-1], the failure value of [sbrk] and [mmap]. *)
Definition SBRK_FAILED : N := SIZE_MAX.
Definition MAP_FAILED : N := SIZE_MAX.

(** ** [size_t] arithmetic *)

Definition wrap (x : N) : N := x mod two64.
Definition wadd (a b : N) : N := wrap (a + b).
Definition wsub (a b : N) : N := wrap (wrap a + (two64 - wrap b)).
Definition wmul (a b : N) : N := wrap (a * b).

(** ** Data model *)

Record block_header : Type := mk_header {
  size : N;       (* size of block, header included *)
  next : N;       (* next block in free list *)
  prev : N;       (* previous block in free list *)
  is_free : N;    (* 1 if free, 0 if allocated *)
  is_mmap : N     (* 1 if allocated via mmap *)
}.

Record mem_stats_t : Type := mk_stats {
  total_allocated : N;
  total_freed : N;
  current_usage : N;
  num_allocations : N;
  num_frees : N;
  num_splits : N;
  num_coalesces : N
}.

(** The operating system: the program break with its limit, and a region from
    which anonymous mappings are handed out. *)
Record os_state : Type := mk_os {
  brk_base : N;            (* the break when the process started *)
  brk : N;                 (* the current program break *)
  brk_limit : N;           (* the break cannot move beyond this *)
  mmap_next : N;           (* address of the next anonymous mapping *)
  mmap_limit : N;          (* mappings cannot extend beyond this *)
  maps : list (N * N)      (* live mappings: (address, length) *)
}.

Record state : Type := mk_state {
  free_lists : list N;              (* NUM_SIZE_CLASSES list heads *)
  stats : mem_stats_t;
  heap_start : N;
  heap_end : N;
  hdrs : gmap N block_header;       (* block headers in memory *)
  bytes : N -> N;                   (* payload bytes in memory *)
  os : os_state
}.

Definition zero_header : block_header := mk_header 0 0 0 0 0.
Definition zero_stats : mem_stats_t := mk_stats 0 0 0 0 0 0 0.

(** *** Reading and writing header fields through a block pointer *)

Definition hdr (s : state) (b : N) : block_header :=
  default zero_header (hdrs s !! b).

Definition with_hdrs (s : state) (h : gmap N block_header) : state :=
  mk_state (free_lists s) (stats s) (heap_start s) (heap_end s) h (bytes s) (os s).
Definition with_free_lists (s : state) (l : list N) : state :=
  mk_state l (stats s) (heap_start s) (heap_end s) (hdrs s) (bytes s) (os s).
Definition with_stats (s : state) (st : mem_stats_t) : state :=
  mk_state (free_lists s) st (heap_start s) (heap_end s) (hdrs s) (bytes s) (os s).
Definition with_heap (s : state) (lo hi : N) : state :=
  mk_state (free_lists s) (stats s) lo hi (hdrs s) (bytes s) (os s).
Definition with_bytes (s : state) (m : N -> N) : state :=
  mk_state (free_lists s) (stats s) (heap_start s) (heap_end s) (hdrs s) m (os s).
Definition with_os (s : state) (o : os_state) : state :=
  mk_state (free_lists s) (stats s) (heap_start s) (heap_end s) (hdrs s) (bytes s) o.

Definition store_hdr (s : state) (b : N) (h : block_header) : state :=
  with_hdrs s (<[b := h]> (hdrs s)).

Definition set_size (s : state) (b v : N) : state :=
  let h := hdr s b in store_hdr s b (mk_header v (next h) (prev h) (is_free h) (is_mmap h)).
Definition set_next (s : state) (b v : N) : state :=
  let h := hdr s b in store_hdr s b (mk_header (size h) v (prev h) (is_free h) (is_mmap h)).
Definition set_prev (s : state) (b v : N) : state :=
  let h := hdr s b in store_hdr s b (mk_header (size h) (next h) v (is_free h) (is_mmap h)).
Definition set_is_free (s : state) (b v : N) : state :=
  let h := hdr s b in store_hdr s b (mk_header (size h) (next h) (prev h) v (is_mmap h)).
Definition set_is_mmap (s : state) (b v : N) : state :=
  let h := hdr s b in store_hdr s b (mk_header (size h) (next h) (prev h) (is_free h) v).

(** [free_lists[i]] *)
Definition head (s : state) (i : nat) : N := nth i (free_lists s) NULL.
Definition set_head (s : state) (i : nat) (v : N) : state :=
  with_free_lists s (<[i := v]> (free_lists s)).

(** *** Statistics updates *)

Definition stats_alloc (st : mem_stats_t) (sz : N) : mem_stats_t :=
  mk_stats (wadd (total_allocated st) sz) (total_freed st)
           (wadd (current_usage st) sz)
           (wadd (num_allocations st) 1) (num_frees st)
           (num_splits st) (num_coalesces st).

Definition stats_free (st : mem_stats_t) (sz : N) : mem_stats_t :=
  mk_stats (total_allocated st) (wadd (total_freed st) sz)
           (wsub (current_usage st) sz)
           (num_allocations st) (wadd (num_frees st) 1)
           (num_splits st) (num_coalesces st).

Definition stats_split (st : mem_stats_t) : mem_stats_t :=
  mk_stats (total_allocated st) (total_freed st) (current_usage st)
           (num_allocations st) (num_frees st)
           (wadd (num_splits st) 1) (num_coalesces st).

Definition stats_coalesce (st : mem_stats_t) : mem_stats_t :=
  mk_stats (total_allocated st) (total_freed st) (current_usage st)
           (num_allocations st) (num_frees st)
           (num_splits st) (wadd (num_coalesces st) 1).

(** ** The operating system primitives *)

Definition PAGE_SIZE : N := 4096.
Definition page_round (len : N) : N := ((len + (PAGE_SIZE - 1)) / PAGE_SIZE) * PAGE_SIZE.

(** [sbrk(incr)]: the increment is an [intptr_t], so a [size_t] argument of
    [2^63] or more is a negative increment.  A non-negative increment moves
    the break up, and the call fails with [(void* )-1] when the limit would be
    exceeded; a negative increment moves the break down, and the call fails
    when the break would fall below the start of the data segment.  A
    successful call returns the old break. *)
Definition two63 : N := 9223372036854775808.

Definition sbrk (o : os_state) (incr : N) : N * os_state :=
  if incr <? two63
  then
    if brk o + incr <=? brk_limit o
    then (brk o, mk_os (brk_base o) (brk o + incr) (brk_limit o)
                       (mmap_next o) (mmap_limit o) (maps o))
    else (SBRK_FAILED, o)
  else
    if brk_base o + (two64 - incr) <=? brk o
    then (brk o, mk_os (brk_base o) (brk o - (two64 - incr)) (brk_limit o)
                       (mmap_next o) (mmap_limit o) (maps o))
    else (SBRK_FAILED, o).

(** [mmap(NULL, len, PROT_READ|PROT_WRITE, MAP_PRIVATE|MAP_ANONYMOUS, -1, 0)] *)
Definition mmap (o : os_state) (len : N) : N * os_state :=
  if (negb (len =? 0)) && (mmap_next o + page_round len <=? mmap_limit o)
  then (mmap_next o, mk_os (brk_base o) (brk o) (brk_limit o)
                           (mmap_next o + page_round len) (mmap_limit o)
                           ((mmap_next o, len) :: maps o))
  else (MAP_FAILED, o).

(** [munmap(addr, len)]: the mapping that starts at [addr] is returned to the
    system. *)
Definition munmap (o : os_state) (addr len : N) : os_state :=
  mk_os (brk_base o) (brk o) (brk_limit o) (mmap_next o) (mmap_limit o)
        (filter (fun m => negb (fst m =? addr)) (maps o)).

(** The bytes [addr .. addr+len) belong to the process: they lie in the data
    segment below the break or inside a live mapping. *)
Definition accessible (o : os_state) (addr len : N) : bool :=
  ((brk_base o <=? addr) && (addr + len <=? brk o))
  || existsb (fun m => (fst m <=? addr) && (addr + len <=? fst m + page_round (snd m)))
             (maps o).

(** [memset(p, c, n)] and [memcpy(dst, src, n)] on the payload store. *)
Definition memset (s : state) (p c n : N) : outcome state :=
  if accessible (os s) p n
  then Done (with_bytes s (fun a => if (p <=? a) && (a <? p + n) then c else bytes s a))
  else Fault.

Definition memcpy (s : state) (dst src n : N) : outcome state :=
  if accessible (os s) dst n && accessible (os s) src n
  then Done (with_bytes s (fun a => if (dst <=? a) && (a <? dst + n)
                                    then bytes s (src + (a - dst)) else bytes s a))
  else Fault.

(** ** Helpers of the engine *)

(** [align_size]: [(size + ALIGNMENT - 1) & ~(ALIGNMENT - 1)] *)
Definition align_size (sz : N) : N :=
  N.land (wsub (wadd sz ALIGNMENT) 1) (N.lnot (ALIGNMENT - 1) 64).

Definition get_size_class (sz : N) : nat :=
  if sz <=? 32 then 0%nat
  else if sz <=? 64 then 1%nat
  else if sz <=? 128 then 2%nat
  else if sz <=? 256 then 3%nat
  else if sz <=? 512 then 4%nat
  else if sz <=? 1024 then 5%nat
  else if sz <=? 2048 then 6%nat
  else if sz <=? 4096 then 7%nat
  else if sz <=? 8192 then 8%nat
  else 9%nat.

Definition truthy (v : N) : bool := negb (v =? 0).

Definition remove_from_free_list (s : state) (block : N) : state :=
  let class_idx := get_size_class (size (hdr s block)) in
  let s1 :=
    if truthy (prev (hdr s block))
    then set_next s (prev (hdr s block)) (next (hdr s block))
    else set_head s class_idx (next (hdr s block)) in
  let s2 :=
    if truthy (next (hdr s1 block))
    then set_prev s1 (next (hdr s1 block)) (prev (hdr s1 block))
    else s1 in
  let s3 := set_next s2 block NULL in
  set_prev s3 block NULL.

Definition add_to_free_list (s : state) (block : N) : state :=
  let class_idx := get_size_class (size (hdr s block)) in
  let s1 := set_next s block (head s class_idx) in
  let s2 := set_prev s1 block NULL in
  let s3 :=
    if truthy (head s2 class_idx)
    then set_prev s2 (head s2 class_idx) block
    else s2 in
  let s4 := set_head s3 class_idx block in
  set_is_free s4 block 1.

Fixpoint coalesce (fuel : nat) (s : state) (block : N) : outcome (N * state) :=
  match fuel with
  | O => OutOfFuel
  | S fuel' =>
    if (block =? NULL) || truthy (is_mmap (hdr s block)) then Done (block, s)
    else
      let block_end := block + size (hdr s block) in
      if (heap_end s <=? block_end) || (block_end <? heap_start s) then Done (block, s)
      else
        let next_block := block_end in
        if heap_end s <? next_block + HDR then Done (block, s)
        else if truthy (is_free (hdr s next_block))
                && negb (truthy (is_mmap (hdr s next_block)))
        then
          let s1 := remove_from_free_list s next_block in
          let s2 := set_size s1 block
                      (wadd (size (hdr s1 block)) (size (hdr s1 next_block))) in
          let s3 := with_stats s2 (stats_coalesce (stats s2)) in
          coalesce fuel' s3 block
        else Done (block, s)
  end.

Definition split_block (s : state) (block sz : N) : state :=
  let total_size := align_size (wadd sz HDR) in
  if wadd (wadd total_size HDR) MIN_BLOCK_SIZE <=? size (hdr s block)
  then
    let new_block := block + total_size in
    let s1 := set_size s new_block (wsub (size (hdr s block)) total_size) in
    let s2 := set_is_free s1 new_block 1 in
    let s3 := set_is_mmap s2 new_block 0 in
    let s4 := set_next s3 new_block NULL in
    let s5 := set_prev s4 new_block NULL in
    let s6 := set_size s5 block total_size in
    let s7 := add_to_free_list s6 new_block in
    with_stats s7 (stats_split (stats s7))
  else s.

Definition expand_heap (s : state) (sz : N) : N * state :=
  let alloc_size := if sz <? BRK_INCREMENT then BRK_INCREMENT else align_size sz in
  let '(old_brk, o1) := sbrk (os s) 0 in
  let s0 := with_os s o1 in
  if old_brk =? SBRK_FAILED then (NULL, s0)
  else
    let '(new_brk, o2) := sbrk (os s0) alloc_size in
    let s1 := with_os s0 o2 in
    if new_brk =? SBRK_FAILED then (NULL, s1)
    else
      let s2 := if heap_start s1 =? NULL
                then with_heap s1 old_brk (heap_end s1) else s1 in
      let '(cur_brk, o3) := sbrk (os s2) 0 in
      let s3 := with_heap (with_os s2 o3) (heap_start s2) cur_brk in
      let block := old_brk in
      let s4 := set_size s3 block alloc_size in
      let s5 := set_is_free s4 block 1 in
      let s6 := set_is_mmap s5 block 0 in
      let s7 := set_next s6 block NULL in
      let s8 := set_prev s7 block NULL in
      (block, s8).

(** The [while (current)] loop of [find_free_block]: [Done NULL] when the
    list is exhausted, [Done current] when a block fits. *)
Fixpoint scan_list (fuel : nat) (s : state) (current sz : N) : outcome N :=
  match fuel with
  | O => OutOfFuel
  | S fuel' =>
    if current =? NULL then Done NULL
    else if truthy (is_free (hdr s current)) && (sz <=? size (hdr s current))
    then Done current
    else scan_list fuel' s (next (hdr s current)) sz
  end.

(** The [for (i = start_class; i < NUM_SIZE_CLASSES; i++)] loop; [n] counts
    the classes still to be visited. *)
Fixpoint scan_classes (fuel : nat) (s : state) (i n : nat) (sz : N) : outcome N :=
  match n with
  | O => Done NULL
  | S n' =>
    let* found := scan_list fuel s (head s i) sz in
    if found =? NULL then scan_classes fuel s (S i) n' sz else Done found
  end.

Definition find_free_block (fuel : nat) (s : state) (sz : N) : outcome N :=
  let start_class := get_size_class sz in
  scan_classes fuel s start_class (NUM_SIZE_CLASSES - start_class) sz.

(** ** The four public operations *)

Definition mem_malloc (fuel : nat) (s : state) (sz : N) : outcome (N * state) :=
  if sz =? 0 then Done (NULL, s)
  else
    let total_size := align_size (wadd sz HDR) in
    if MMAP_THRESHOLD <=? total_size
    then
      let '(ptr, o1) := mmap (os s) total_size in
      let s1 := with_os s o1 in
      if ptr =? MAP_FAILED then Done (NULL, s1)
      else
        let block := ptr in
        let s2 := set_size s1 block total_size in
        let s3 := set_is_free s2 block 0 in
        let s4 := set_is_mmap s3 block 1 in
        let s5 := set_next s4 block NULL in
        let s6 := set_prev s5 block NULL in
        let s7 := with_stats s6 (stats_alloc (stats s6) total_size) in
        Done (block + HDR, s7)
    else
      let* found := find_free_block fuel s total_size in
      let '(block, s1) :=
        if found =? NULL then expand_heap s total_size else (found, s) in
      if block =? NULL then Done (NULL, s1)
      else
        let s2 := remove_from_free_list s1 block in
        let s3 := split_block s2 block sz in
        let s4 := set_is_free s3 block 0 in
        let s5 := with_stats s4 (stats_alloc (stats s4) (size (hdr s4 block))) in
        Done (block + HDR, s5).

Definition mem_free (fuel : nat) (s : state) (ptr : N) : outcome state :=
  if ptr =? NULL then Done s
  else
    let block := ptr - HDR in
    if truthy (is_mmap (hdr s block))
    then
      let s1 := with_stats s (stats_free (stats s) (size (hdr s block))) in
      let len := size (hdr s1 block) in
      Done (with_hdrs (with_os s1 (munmap (os s1) block len)) (delete block (hdrs s1)))
    else
      let s1 := with_stats s (stats_free (stats s) (size (hdr s block))) in
      let s2 := set_is_free s1 block 1 in
      let* (block', s3) := coalesce fuel s2 block in
      Done (add_to_free_list s3 block').

Definition mem_calloc (fuel : nat) (s : state) (nmemb sz : N) : outcome (N * state) :=
  if (nmemb =? 0) || (sz =? 0) then Done (NULL, s)
  else
    let total := wmul nmemb sz in
    if negb (total / nmemb =? sz) then Done (NULL, s)
    else
      let* (ptr, s1) := mem_malloc fuel s total in
      if truthy ptr
      then let* s2 := memset s1 ptr 0 total in Done (ptr, s2)
      else Done (ptr, s1).

Definition mem_realloc (fuel : nat) (s : state) (ptr sz : N) : outcome (N * state) :=
  if ptr =? NULL then mem_malloc fuel s sz
  else if sz =? 0 then let* s1 := mem_free fuel s ptr in Done (NULL, s1)
  else
    let block := ptr - HDR in
    let old_size := wsub (size (hdr s block)) HDR in
    if sz <=? old_size then Done (ptr, s)
    else
      let* (new_ptr, s1) := mem_malloc fuel s sz in
      if new_ptr =? NULL then Done (NULL, s1)
      else
        let* s2 := memcpy s1 new_ptr ptr old_size in
        let* s3 := mem_free fuel s2 ptr in
        Done (new_ptr, s3).

(** ** Administrative surface *)

Definition mem_get_stats (s : state) : mem_stats_t := stats s.

Definition mem_reset (s : state) : state :=
  with_free_lists (with_stats s zero_stats) (replicate NUM_SIZE_CLASSES NULL).

(** * Vocabulary of the specification *)

(** ** Reachable states and the initial state *)

(** The state left by a completed call ([d] when the call did not complete). *)
Definition state_of {A : Type} (r : outcome (A * state)) (d : state) : state :=
  match r with
  | Done (_, s) => s
  | _ => d
  end.

(** The same for a call that returns nothing. *)
Definition state_after (r : outcome state) (d : state) : state :=
  match r with
  | Done s => s
  | _ => d
  end.

(** The static initialisers of [allocator.c]: empty free lists, zeroed
    statistics, null heap bounds; no memory has been written yet. *)
Definition initial_state (o : os_state) : state :=
  mk_state (replicate NUM_SIZE_CLASSES NULL) zero_stats NULL NULL ∅ (fun _ => 0) o.

(** Addresses handed out by the system fit in 64 bits and the break is never
    the null address. *)
Definition os_ok (o : os_state) : Prop :=
  brk o ≠ 0 ∧ brk_limit o <= SIZE_MAX ∧ mmap_limit o <= SIZE_MAX.

(** One completed call of a public operation. *)
Inductive step (s s' : state) : Prop :=
  | step_malloc (fuel : nat) (n p : N) :
      mem_malloc fuel s n = Done (p, s') -> step s s'
  | step_free (fuel : nat) (p : N) :
      mem_free fuel s p = Done s' -> step s s'
  | step_calloc (fuel : nat) (nmemb sz p : N) :
      mem_calloc fuel s nmemb sz = Done (p, s') -> step s s'
  | step_realloc (fuel : nat) (p n q : N) :
      mem_realloc fuel s p n = Done (q, s') -> step s s'
  | step_reset :
      s' = mem_reset s -> step s s'.

Definition reachable (s : state) : Prop :=
  exists o, rtc step (initial_state o) s.

(** A concrete system: a break at 4096 with room for sixteen heap increments
    and a mapping area. *)
Definition fresh_os : os_state :=
  mk_os 4096 4096 (4096 + 16 * 65536) 1048576000 2097152000 [].
Definition fresh : state := initial_state fresh_os.

(** ** Sizes and counters *)

(** The total block size of a request: [align_size(size + sizeof(block_header_t))]. *)
Definition total_size (sz : N) : N := align_size (wadd sz HDR).

(** The statistics identity, in [size_t] arithmetic. *)
Definition usage_ok (st : mem_stats_t) : Prop :=
  current_usage st = wsub (total_allocated st) (total_freed st).

(** The three byte counters of two statistics records agree. *)
Definition same_usage (st st' : mem_stats_t) : Prop :=
  total_allocated st' = total_allocated st /\
  total_freed st' = total_freed st /\
  current_usage st' = current_usage st.

(** The byte counters after an allocation, respectively a release, of [sz]
    bytes. *)
Definition alloc_effect (st st' : mem_stats_t) (sz : N) : Prop :=
  total_allocated st' = wadd (total_allocated st) sz /\
  current_usage st' = wadd (current_usage st) sz /\
  total_freed st' = total_freed st.

Definition free_effect (st st' : mem_stats_t) (sz : N) : Prop :=
  total_freed st' = wadd (total_freed st) sz /\
  current_usage st' = wsub (current_usage st) sz /\
  total_allocated st' = total_allocated st.

(** The part of the system state that only [sbrk] may change, and only
    upward. *)
Definition os_grows (o o' : os_state) : Prop :=
  brk_base o' = brk_base o /\ brk_limit o' = brk_limit o /\
  mmap_limit o' = mmap_limit o /\ brk o <= brk o'.

(** ** Blocks, the coalescing test and the free lists *)

(** A block that is free and not mapped. *)
Definition free_block (s : state) (b : N) : bool :=
  truthy (is_free (hdr s b)) && negb (truthy (is_mmap (hdr s b))).

(** The test of [coalesce]: the successor of [b] lies in the heap region
    with its whole header, and is a free, unmapped block. *)
Definition forward_mergeable (s : state) (b : N) : bool :=
  let e := b + size (hdr s b) in
  negb ((heap_end s <=? e) || (e <? heap_start s))
  && negb (heap_end s <? e + HDR)
  && free_block s e.

(** What the coalescing test can see of a header. *)
Definition shape (s : state) (a : N) : N * N * N :=
  (size (hdr s a), is_free (hdr s a), is_mmap (hdr s a)).

(** The blocks that tile the heap region, found by stepping from
    [heap_start] from each block to the one that starts at its end. *)
Fixpoint walk_heap (fuel : nat) (s : state) (b : N) : list N :=
  match fuel with
  | O => []
  | S fuel' =>
    if (heap_start s <=? b) && (b <? heap_end s)
    then b :: walk_heap fuel' s (b + size (hdr s b))
    else []
  end.

(** Blocks of a well-formed heap are at least one alignment unit long, which
    bounds the number of steps. *)
Definition heap_blocks (s : state) : list N :=
  walk_heap (N.to_nat ((heap_end s - heap_start s) / ALIGNMENT)) s (heap_start s).

(** The members of the free list of class [i], following [next] pointers
    from the list head. *)
Fixpoint walk_list (fuel : nat) (s : state) (current : N) : list N :=
  match fuel with
  | O => []
  | S fuel' =>
    if current =? NULL then []
    else current :: walk_list fuel' s (next (hdr s current))
  end.

Definition free_list_members (fuel : nat) (s : state) (i : nat) : list N :=
  walk_list fuel s (head s i).

(** The claimed invariant of C2: no free, unmapped block of the heap region
    is immediately followed by another free, unmapped block. *)
Definition quiescent_coalesced (s : state) : Prop :=
  forall b, In b (heap_blocks s) -> free_block s b = true ->
    b + size (hdr s b) < heap_end s ->
    free_block s (b + size (hdr s b)) = false.

(** The memory [lo, hi) lies inside one free block of the heap. *)
Definition covered_by_one_free_block (s : state) (lo hi : N) : Prop :=
  exists b, In b (heap_blocks s) /\ free_block s b = true /\
            b <= lo /\ hi <= b + size (hdr s b).

(** The claimed invariant of C1: every free, unmapped block of the heap is a
    member of the free list of its size class. *)
Definition free_list_invariant (s : state) : Prop :=
  forall b, In b (heap_blocks s) -> free_block s b = true ->
    exists fuel, In b (free_list_members fuel s (get_size_class (size (hdr s b)))).

(** Every [size] field holds a 64-bit value. *)
Definition sizes_ok (s : state) : Prop := forall a, size (hdr s a) < two64.

(** ** Concrete systems and runs *)

(** The state reached from [fresh] by one call [mem_malloc(100)]. *)
Definition after_malloc_100 : state := state_of (mem_malloc 1 fresh 100) fresh.

(** A system whose break can move exactly once by one heap increment. *)
Definition tight_os : os_state :=
  mk_os 4096 4096 (4096 + 65536) 1048576000 2097152000 [].

(** The state reached from the initial state on [tight_os] by [mem_malloc(100)]. *)
Definition tight_after_malloc : state :=
  state_of (mem_malloc 1 (initial_state tight_os) 100) (initial_state tight_os).

(** Two blocks of 100 bytes are allocated, then released in allocation order. *)
Definition backward_neighbour_run : outcome (N * N * state) :=
  let* (p1, s1) := mem_malloc 1 fresh 100 in
  let* (p2, s2) := mem_malloc 1 s1 100 in
  let* s3 := mem_free 2 s2 p1 in
  let* s4 := mem_free 2 s3 p2 in
  Done (p1, p2, s4).

Definition backward_neighbour_state : state := state_of backward_neighbour_run fresh.

(** The system can extend the heap by one increment, and the heap recorded
    so far, if any, lies below the break. *)
Definition room (s : state) : Prop :=
  brk (os s) <> NULL /\
  brk (os s) + BRK_INCREMENT <= brk_limit (os s) /\
  brk_limit (os s) <= SIZE_MAX /\
  heap_start s <= brk (os s).

(** The recorded heap start is null or an address the break has passed. *)
Definition heap_below_brk (s : state) : Prop := heap_start s <= brk (os s).

(** [test_coalescing] with the release order of the specification, started
    in state [s]: reset, three blocks of 100 bytes, released middle, first,
    last. *)
Definition coalescing_scenario (s : state) : outcome (N * N * N * state) :=
  let s0 := mem_reset s in
  let* (ptr1, s1) := mem_malloc 1 s0 100 in
  let* (ptr2, s2) := mem_malloc 1 s1 100 in
  let* (ptr3, s3) := mem_malloc 1 s2 100 in
  let* s4 := mem_free 3 s3 ptr2 in
  let* s5 := mem_free 3 s4 ptr1 in
  let* s6 := mem_free 3 s5 ptr3 in
  Done (ptr1, ptr2, ptr3, s6).

Definition coalescing_final : state := state_of (coalescing_scenario fresh) fresh.

(** [test_splitting], started in state [s]: reset, allocate 100 bytes,
    release them, allocate 50 bytes. *)
Definition split_scenario (s : state) : outcome (N * N * state * state * state) :=
  let s0 := mem_reset s in
  let* (ptr1, s1) := mem_malloc 1 s0 100 in
  let* s2 := mem_free 2 s1 ptr1 in
  let* (ptr2, s3) := mem_malloc 1 s2 50 in
  Done (ptr1, ptr2, s1, s2, s3).

(** A small allocation followed by one that does not fit in what is left of
    the first heap increment. *)
Definition lost_block_run : outcome (N * N * state * state) :=
  let* (p1, s1) := mem_malloc 1 fresh 100 in
  let* (p2, s2) := mem_malloc 2 s1 70000 in
  Done (p1, p2, s1, s2).

Definition lost_block_state : state := state_of (mem_malloc 2 after_malloc_100 70000) fresh.

(** A request of [SIZE_MAX] bytes, then a resize of the block to 100 bytes. *)
Definition shrink_run : outcome (N * N * state * state) :=
  let* (p, s1) := mem_malloc 1 fresh SIZE_MAX in
  let* (q, s2) := mem_realloc 2 s1 p 100 in
  Done (p, q, s1, s2).

(** ** Well-formed heaps *)

(** [b] is a block of the tiling [T] whose [is_free] flag is set. *)
Definition free_tile (s : state) (T : gset N) (b : N) : Prop :=
  b ∈ T /\ is_free (hdr s b) <> 0.

(** No free list starts at [b]. *)
Definition detached (s : state) (b : N) : Prop := forall c, head s c <> b.

(** The state of the operating system is laid out as on a usual target: the
    data segment lies below the mapping area, and live mappings are disjoint
    ranges of the part of the mapping area already handed out. *)
Record os_inv (o : os_state) : Prop := {
  oi_brk : brk o <> 0;
  oi_base : brk_base o <= brk o;
  oi_brk_le : brk o <= brk_limit o;
  oi_limit : brk_limit o <= mmap_next o;
  oi_next : mmap_next o <= mmap_limit o;
  oi_max : mmap_limit o <= SIZE_MAX;
  oi_maps : forall a len, (a, len) ∈ maps o ->
      0 < len /\ brk_limit o <= a /\ a + page_round len <= mmap_next o;
  oi_disj : forall a len a' len', (a, len) ∈ maps o -> (a', len') ∈ maps o ->
      a <> a' -> a + page_round len <= a' \/ a' + page_round len' <= a;
  oi_align : mmap_next o mod ALIGNMENT = 0 ->
      forall a len, (a, len) ∈ maps o -> a mod ALIGNMENT = 0
}.

(** The heap region [heap_start, heap_end) is tiled by the blocks [T]; the
    free lists and the [next]/[prev] fields of free blocks form doubly linked
    chains of free blocks of one size class; blocks in use have null links.
    Only free blocks have a successor in a list, following [next] always
    ends, and blocks are aligned when the break is. *)
Record heap_inv (s : state) (T : gset N) : Prop := {
  hi_len : length (free_lists s) = NUM_SIZE_CLASSES;
  hi_in : forall b, b ∈ T ->
      heap_start s <= b /\ b + size (hdr s b) <= heap_end s;
  hi_min : forall b, b ∈ T -> MIN_BLOCK_SIZE <= size (hdr s b);
  hi_succ : forall b, b ∈ T ->
      b + size (hdr s b) = heap_end s \/ b + size (hdr s b) ∈ T;
  hi_disj : forall b b', b ∈ T -> b' ∈ T -> b <> b' ->
      b + size (hdr s b) <= b' \/ b' + size (hdr s b') <= b;
  hi_nomap : forall b, b ∈ T -> is_mmap (hdr s b) = 0;
  hi_head : forall c b, head s c = b -> b <> NULL ->
      free_tile s T b /\ prev (hdr s b) = NULL /\
      get_size_class (size (hdr s b)) = c;
  hi_next : forall t b, free_tile s T t -> next (hdr s t) = b -> b <> NULL ->
      free_tile s T b /\ prev (hdr s b) = t /\
      get_size_class (size (hdr s b)) = get_size_class (size (hdr s t));
  hi_prev : forall b t, free_tile s T b -> prev (hdr s b) = t -> t <> NULL ->
      free_tile s T t /\ next (hdr s t) = b;
  hi_used : forall b, b ∈ T -> is_free (hdr s b) = 0 ->
      next (hdr s b) = NULL /\ prev (hdr s b) = NULL;
  hi_heap : (heap_start s = NULL /\ heap_end s = NULL /\ T = ∅) \/
            (heap_start s <> NULL /\ heap_end s = brk (os s) /\
             brk_base (os s) <= heap_start s /\ heap_start s <= heap_end s);
  hi_os : os_inv (os s);
  hi_links : forall t, next (hdr s t) <> NULL -> free_tile s T t;
  hi_rank : exists rank : N -> nat,
      forall t, next (hdr s t) <> NULL -> (rank (next (hdr s t)) < rank t)%nat;
  hi_align : brk (os s) mod ALIGNMENT = 0 ->
      forall b, b ∈ T -> b mod ALIGNMENT = 0 /\ size (hdr s b) mod ALIGNMENT = 0
}.

(** Addresses whose headers the engine must leave alone: blocks of the tiling
    that are in use, and everything in the mapping area. *)
Definition guarded (s : state) (T : gset N) (a : N) : Prop :=
  (a ∈ T /\ is_free (hdr s a) = 0) \/ brk_limit (os s) <= a.

(** Passing from [s] with tiling [T] to [s'] with tiling [T'] leaves every
    guarded header other than that of [b] as it was, and guarded. *)
Definition preserves (s : state) (T : gset N) (s' : state) (T' : gset N) (b : N) : Prop :=
  forall a, guarded s T a -> a <> b -> hdr s' a = hdr s a /\ guarded s' T' a.

(** [b] is not the block behind any address a client may hold: neither a
    block of the tiling in use, nor the start of a live mapping. *)
Definition fresh_for (s : state) (T : gset N) (b : N) : Prop :=
  ~ (b ∈ T /\ is_free (hdr s b) = 0) /\ forall len, (b, len) ∉ maps (os s).

(** ** Well-behaved clients *)

(** A request size whose rounding does not wrap around: [n + 47 < 2^64]. *)
Definition request_ok (n : N) : Prop := n + HDR + (ALIGNMENT - 1) < two64.

(** The client's holdings are a finite map from the addresses it holds to the
    number of payload bytes it asked for.  The block behind a live address is
    either a block of the heap tiling that is in use, or a live mapping; it
    has room for the payload. *)
Record live_inv (s : state) (T : gset N) (live : gmap N N) : Prop := {
  li_room : forall p n, live !! p = Some n ->
      HDR <= p /\ n + HDR <= size (hdr s (p - HDR));
  li_kind : forall p n, live !! p = Some n ->
      (p - HDR ∈ T /\ is_free (hdr s (p - HDR)) = 0) \/
      (is_mmap (hdr s (p - HDR)) <> 0 /\
       (p - HDR, size (hdr s (p - HDR))) ∈ maps (os s))
}.

(** The heap is well formed and the client's addresses are backed by
    blocks. *)
Definition client_inv (s : state) (live : gmap N N) : Prop :=
  exists T, heap_inv s T /\ live_inv s T live.

(** The client's holdings after a call that returned [p] for [n] bytes. *)
Definition acquire (live : gmap N N) (p n : N) : gmap N N :=
  if decide (p = NULL) then live else <[p := n]> live.

(** One completed call of the public interface made by a well-behaved
    client: it releases and resizes only addresses it holds (or the null
    address), and it asks only for sizes whose rounding does not wrap around
    ([request_ok]; for [mem_calloc], products that overflow and are refused,
    or products that are [request_ok]). *)
Inductive ccall : state * gmap N N -> state * gmap N N -> Prop :=
  | ccall_malloc fuel s live n p s' :
      request_ok n ->
      mem_malloc fuel s n = Done (p, s') ->
      ccall (s, live) (s', acquire live p n)
  | ccall_free fuel s live p s' :
      p = NULL \/ is_Some (live !! p) ->
      mem_free fuel s p = Done s' ->
      ccall (s, live) (s', delete p live)
  | ccall_calloc fuel s live nmemb sz p s' :
      nmemb < two64 -> sz < two64 ->
      two64 <= nmemb * sz \/ request_ok (nmemb * sz) ->
      mem_calloc fuel s nmemb sz = Done (p, s') ->
      ccall (s, live) (s', acquire live p (nmemb * sz))
  | ccall_realloc fuel s live p n q s' :
      p = NULL \/ is_Some (live !! p) ->
      request_ok n ->
      mem_realloc fuel s p n = Done (q, s') ->
      ccall (s, live)
            (s', if decide (q = NULL)
                 then (if decide (n = 0) then delete p live else live)
                 else <[q := n]> (delete p live))
  | ccall_reset s live :
      ccall (s, live) (mem_reset s, live).

(** One action of a well-behaved client: a call of the public interface, or
    a store into the payload of a block it holds, here the filling of a range
    of the payload with a value. *)
Inductive cstep : state * gmap N N -> state * gmap N N -> Prop :=
  | cstep_call c c' :
      ccall c c' -> cstep c c'
  | cstep_write s live p n off len v s' :
      live !! p = Some n ->
      off + len <= n ->
      memset s (p + off) v len = Done s' ->
      cstep (s, live) (s', live).

(** The states a well-behaved client can bring about, with its holdings. *)
Definition client_reachable (o : os_state) (s : state) (live : gmap N N) : Prop :=
  rtc cstep (initial_state o, ∅) (s, live).

(** From one system state to another the break stays where it is, or moves up
    by at least [BRK_INCREMENT] and less than [MMAP_THRESHOLD]. *)
Definition brk_raised (o o' : os_state) : Prop :=
  brk o' = brk o \/
  (brk o + BRK_INCREMENT <= brk o' /\ brk o' < brk o + MMAP_THRESHOLD).

(** The break and the mapping cursor keep their residue modulo [ALIGNMENT]
    from one system state to another. *)
Definition same_residue (o o' : os_state) : Prop :=
  brk o' mod ALIGNMENT = brk o mod ALIGNMENT /\
  mmap_next o' mod ALIGNMENT = mmap_next o mod ALIGNMENT.

(** Two blocks of 100 and 200 bytes allocated from [fresh], both still held. *)
Definition two_blocks_state : state :=
  state_of (mem_malloc 1 after_malloc_100 200) fresh.
Definition two_blocks_live : gmap N N := <[4272 := 200]> (<[4128 := 100]> ∅).

(** The client fills the first block of [two_blocks_state] with the value 7. *)
Definition written_state : state :=
  state_after (memset two_blocks_state 4128 7 100) fresh.


(** A block of 256 KiB taken from [mmap] on [fresh], and the state after a
    further request of 100 bytes. *)
Definition mapped_state : state := state_of (mem_malloc 0 fresh (256 * 1024)) fresh.
Definition mapped_later_state : state := state_of (mem_malloc 1 mapped_state 100) fresh.

(** A request whose rounded size wraps to zero, made on [fresh]. *)
Definition zero_size_state : state :=
  state_of (mem_malloc 1 fresh (SIZE_MAX - 40)) fresh.

Arguments hdr : simpl never.
Arguments align_size : simpl never.
Arguments remove_from_free_list : simpl never.
Arguments add_to_free_list : simpl never.
Arguments split_block : simpl never.
Arguments expand_heap : simpl never.
Arguments find_free_block : simpl never.
Arguments mem_malloc : simpl never.
Arguments mem_free : simpl never.
Arguments mem_calloc : simpl never.
Arguments mem_realloc : simpl never.

(** * Inversion of completed calls *)

Lemma Done_inj {A : Type} (a b : A) : Done a = Done b -> a = b.
Proof. intros H. now injection H. Qed.

Lemma Done_pair_inj {A B : Type} (a a' : A) (b b' : B) :
  Done (a, b) = Done (a', b') -> a = a' /\ b = b'.
Proof. intros H. injection H. auto. Qed.

(** ** Projections of the state through its updates *)

Lemma free_lists_with_hdrs s h : free_lists (with_hdrs s h) = free_lists s.
Proof. reflexivity. Qed.
Lemma free_lists_with_free_lists s l : free_lists (with_free_lists s l) = l.
Proof. reflexivity. Qed.
Lemma free_lists_with_stats s st : free_lists (with_stats s st) = free_lists s.
Proof. reflexivity. Qed.
Lemma free_lists_with_heap s lo hi : free_lists (with_heap s lo hi) = free_lists s.
Proof. reflexivity. Qed.
Lemma free_lists_with_bytes s m : free_lists (with_bytes s m) = free_lists s.
Proof. reflexivity. Qed.
Lemma free_lists_with_os s o : free_lists (with_os s o) = free_lists s.
Proof. reflexivity. Qed.
Lemma free_lists_store_hdr s b h : free_lists (store_hdr s b h) = free_lists s.
Proof. reflexivity. Qed.
Lemma free_lists_set_size s b v : free_lists (set_size s b v) = free_lists s.
Proof. reflexivity. Qed.
Lemma free_lists_set_next s b v : free_lists (set_next s b v) = free_lists s.
Proof. reflexivity. Qed.
Lemma free_lists_set_prev s b v : free_lists (set_prev s b v) = free_lists s.
Proof. reflexivity. Qed.
Lemma free_lists_set_is_free s b v : free_lists (set_is_free s b v) = free_lists s.
Proof. reflexivity. Qed.
Lemma free_lists_set_is_mmap s b v : free_lists (set_is_mmap s b v) = free_lists s.
Proof. reflexivity. Qed.
Lemma free_lists_set_head s i v : free_lists (set_head s i v) = <[i := v]> (free_lists s).
Proof. reflexivity. Qed.
Lemma stats_with_hdrs s h : stats (with_hdrs s h) = stats s.
Proof. reflexivity. Qed.
Lemma stats_with_free_lists s l : stats (with_free_lists s l) = stats s.
Proof. reflexivity. Qed.
Lemma stats_with_stats s st : stats (with_stats s st) = st.
Proof. reflexivity. Qed.
Lemma stats_with_heap s lo hi : stats (with_heap s lo hi) = stats s.
Proof. reflexivity. Qed.
Lemma stats_with_bytes s m : stats (with_bytes s m) = stats s.
Proof. reflexivity. Qed.
Lemma stats_with_os s o : stats (with_os s o) = stats s.
Proof. reflexivity. Qed.
Lemma stats_store_hdr s b h : stats (store_hdr s b h) = stats s.
Proof. reflexivity. Qed.
Lemma stats_set_size s b v : stats (set_size s b v) = stats s.
Proof. reflexivity. Qed.
Lemma stats_set_next s b v : stats (set_next s b v) = stats s.
Proof. reflexivity. Qed.
Lemma stats_set_prev s b v : stats (set_prev s b v) = stats s.
Proof. reflexivity. Qed.
Lemma stats_set_is_free s b v : stats (set_is_free s b v) = stats s.
Proof. reflexivity. Qed.
Lemma stats_set_is_mmap s b v : stats (set_is_mmap s b v) = stats s.
Proof. reflexivity. Qed.
Lemma stats_set_head s i v : stats (set_head s i v) = stats s.
Proof. reflexivity. Qed.
Lemma heap_start_with_hdrs s h : heap_start (with_hdrs s h) = heap_start s.
Proof. reflexivity. Qed.
Lemma heap_start_with_free_lists s l : heap_start (with_free_lists s l) = heap_start s.
Proof. reflexivity. Qed.
Lemma heap_start_with_stats s st : heap_start (with_stats s st) = heap_start s.
Proof. reflexivity. Qed.
Lemma heap_start_with_heap s lo hi : heap_start (with_heap s lo hi) = lo.
Proof. reflexivity. Qed.
Lemma heap_start_with_bytes s m : heap_start (with_bytes s m) = heap_start s.
Proof. reflexivity. Qed.
Lemma heap_start_with_os s o : heap_start (with_os s o) = heap_start s.
Proof. reflexivity. Qed.
Lemma heap_start_store_hdr s b h : heap_start (store_hdr s b h) = heap_start s.
Proof. reflexivity. Qed.
Lemma heap_start_set_size s b v : heap_start (set_size s b v) = heap_start s.
Proof. reflexivity. Qed.
Lemma heap_start_set_next s b v : heap_start (set_next s b v) = heap_start s.
Proof. reflexivity. Qed.
Lemma heap_start_set_prev s b v : heap_start (set_prev s b v) = heap_start s.
Proof. reflexivity. Qed.
Lemma heap_start_set_is_free s b v : heap_start (set_is_free s b v) = heap_start s.
Proof. reflexivity. Qed.
Lemma heap_start_set_is_mmap s b v : heap_start (set_is_mmap s b v) = heap_start s.
Proof. reflexivity. Qed.
Lemma heap_start_set_head s i v : heap_start (set_head s i v) = heap_start s.
Proof. reflexivity. Qed.
Lemma heap_end_with_hdrs s h : heap_end (with_hdrs s h) = heap_end s.
Proof. reflexivity. Qed.
Lemma heap_end_with_free_lists s l : heap_end (with_free_lists s l) = heap_end s.
Proof. reflexivity. Qed.
Lemma heap_end_with_stats s st : heap_end (with_stats s st) = heap_end s.
Proof. reflexivity. Qed.
Lemma heap_end_with_heap s lo hi : heap_end (with_heap s lo hi) = hi.
Proof. reflexivity. Qed.
Lemma heap_end_with_bytes s m : heap_end (with_bytes s m) = heap_end s.
Proof. reflexivity. Qed.
Lemma heap_end_with_os s o : heap_end (with_os s o) = heap_end s.
Proof. reflexivity. Qed.
Lemma heap_end_store_hdr s b h : heap_end (store_hdr s b h) = heap_end s.
Proof. reflexivity. Qed.
Lemma heap_end_set_size s b v : heap_end (set_size s b v) = heap_end s.
Proof. reflexivity. Qed.
Lemma heap_end_set_next s b v : heap_end (set_next s b v) = heap_end s.
Proof. reflexivity. Qed.
Lemma heap_end_set_prev s b v : heap_end (set_prev s b v) = heap_end s.
Proof. reflexivity. Qed.
Lemma heap_end_set_is_free s b v : heap_end (set_is_free s b v) = heap_end s.
Proof. reflexivity. Qed.
Lemma heap_end_set_is_mmap s b v : heap_end (set_is_mmap s b v) = heap_end s.
Proof. reflexivity. Qed.
Lemma heap_end_set_head s i v : heap_end (set_head s i v) = heap_end s.
Proof. reflexivity. Qed.
Lemma os_with_hdrs s h : os (with_hdrs s h) = os s.
Proof. reflexivity. Qed.
Lemma os_with_free_lists s l : os (with_free_lists s l) = os s.
Proof. reflexivity. Qed.
Lemma os_with_stats s st : os (with_stats s st) = os s.
Proof. reflexivity. Qed.
Lemma os_with_heap s lo hi : os (with_heap s lo hi) = os s.
Proof. reflexivity. Qed.
Lemma os_with_bytes s m : os (with_bytes s m) = os s.
Proof. reflexivity. Qed.
Lemma os_with_os s o : os (with_os s o) = o.
Proof. reflexivity. Qed.
Lemma os_store_hdr s b h : os (store_hdr s b h) = os s.
Proof. reflexivity. Qed.
Lemma os_set_size s b v : os (set_size s b v) = os s.
Proof. reflexivity. Qed.
Lemma os_set_next s b v : os (set_next s b v) = os s.
Proof. reflexivity. Qed.
Lemma os_set_prev s b v : os (set_prev s b v) = os s.
Proof. reflexivity. Qed.
Lemma os_set_is_free s b v : os (set_is_free s b v) = os s.
Proof. reflexivity. Qed.
Lemma os_set_is_mmap s b v : os (set_is_mmap s b v) = os s.
Proof. reflexivity. Qed.
Lemma os_set_head s i v : os (set_head s i v) = os s.
Proof. reflexivity. Qed.

Create Rewrite HintDb proj_rw.
#[export] Hint Rewrite
  free_lists_with_hdrs free_lists_with_free_lists free_lists_with_stats free_lists_with_heap
  free_lists_with_bytes free_lists_with_os free_lists_store_hdr free_lists_set_size
  free_lists_set_next free_lists_set_prev free_lists_set_is_free free_lists_set_is_mmap
  free_lists_set_head stats_with_hdrs stats_with_free_lists stats_with_stats
  stats_with_heap stats_with_bytes stats_with_os stats_store_hdr
  stats_set_size stats_set_next stats_set_prev stats_set_is_free
  stats_set_is_mmap stats_set_head heap_start_with_hdrs heap_start_with_free_lists
  heap_start_with_stats heap_start_with_heap heap_start_with_bytes heap_start_with_os
  heap_start_store_hdr heap_start_set_size heap_start_set_next heap_start_set_prev
  heap_start_set_is_free heap_start_set_is_mmap heap_start_set_head heap_end_with_hdrs
  heap_end_with_free_lists heap_end_with_stats heap_end_with_heap heap_end_with_bytes
  heap_end_with_os heap_end_store_hdr heap_end_set_size heap_end_set_next
  heap_end_set_prev heap_end_set_is_free heap_end_set_is_mmap heap_end_set_head
  os_with_hdrs os_with_free_lists os_with_stats os_with_heap
  os_with_bytes os_with_os os_store_hdr os_set_size
  os_set_next os_set_prev os_set_is_free os_set_is_mmap
  os_set_head
  : proj_rw.

(** * Arithmetic of sizes *)

(** [lia] decides goals with division and remainder by a constant. *)
Ltac Zify.zify_post_hook ::= Z.to_euclidean_division_equations.

Lemma wrap_small x : x < two64 -> wrap x = x.
Proof. intros H. unfold wrap. now apply N.mod_small. Qed.

Lemma wrap_lt x : wrap x < two64.
Proof. unfold wrap. apply N.mod_lt. discriminate. Qed.

Lemma align_mask_spec y :
  y < two64 -> N.land y (N.lnot (ALIGNMENT - 1) 64) = 16 * (y / 16).
Proof.
  intros Hy. apply N.bits_inj. intros i.
  rewrite N.land_spec.
  replace (16 * (y / 16)) with (N.shiftl (N.shiftr y 4) 4)
    by (rewrite N.shiftl_mul_pow2, N.shiftr_div_pow2; change (2 ^ 4) with 16; lia).
  destruct (N.lt_ge_cases i 4) as [Hlo | Hhi].
  - rewrite N.shiftl_spec_low by assumption.
    rewrite N.lnot_spec_low by lia.
    change (ALIGNMENT - 1) with (N.ones 4).
    rewrite N.ones_spec_low by assumption.
    now rewrite andb_false_r.
  - rewrite N.shiftl_spec_high' by assumption.
    rewrite N.shiftr_spec'.
    replace (i - 4 + 4) with i by lia.
    destruct (N.lt_ge_cases i 64) as [Hi | Hi].
    + rewrite N.lnot_spec_low by assumption.
      change (ALIGNMENT - 1) with (N.ones 4).
      rewrite N.ones_spec_high by assumption.
      now rewrite andb_true_r.
    + assert (N.testbit y i = false) as ->; [| reflexivity].
      destruct (N.eq_dec y 0) as [-> | Hnz]; [apply N.bits_0 |].
      apply N.bits_above_log2.
      apply N.lt_le_trans with 64; [| assumption].
      apply N.log2_lt_pow2; [lia | exact Hy].
Qed.

Lemma align_size_spec x :
  align_size x = 16 * (((x + 15) mod two64) / 16).
Proof.
  unfold align_size.
  assert (wsub (wadd x ALIGNMENT) 1 = (x + 15) mod two64) as ->.
  { unfold wsub, wadd, wrap, ALIGNMENT, two64.
    lia. }
  apply align_mask_spec. apply N.mod_lt. discriminate.
Qed.

Lemma align_size_ge x : x + 15 < two64 -> x <= align_size x.
Proof.
  intros H. rewrite align_size_spec. rewrite N.mod_small by assumption. lia.
Qed.

Lemma align_size_le x : x + 15 < two64 -> align_size x <= x + 15.
Proof.
  intros H. rewrite align_size_spec. rewrite N.mod_small by assumption. lia.
Qed.

Lemma align_size_lt x : align_size x < two64.
Proof.
  rewrite align_size_spec.
  assert ((x + 15) mod two64 < two64) by (apply N.mod_lt; discriminate).
  unfold two64 in *. lia.
Qed.

Lemma total_size_fits n :
  n + 47 < two64 -> n + HDR <= total_size n.
Proof.
  intros H. unfold total_size, wadd, HDR in *.
  rewrite wrap_small by lia. apply align_size_ge. lia.
Qed.

(** The multiplication check of [mem_calloc] detects exactly the products that
    do not fit in a [size_t]. *)
Lemma mul_overflow_check a b :
  a <> 0 -> a < two64 -> b < two64 ->
  (wmul a b / a =? b) = (a * b <? two64).
Proof.
  intros Ha Hal Hbl. unfold wmul, wrap.
  destruct (N.ltb_spec (a * b) two64) as [Hlt | Hge].
  - rewrite N.mod_small by assumption.
    apply N.eqb_eq. rewrite N.mul_comm. now apply N.div_mul.
  - apply N.eqb_neq. intros Heq.
    assert (Hm : (a * b) mod two64 <= a * b - two64).
    { pose proof (N.Div0.mod_le (a * b - two64) two64) as Hle.
      replace ((a * b) mod two64) with ((a * b - two64) mod two64); [exact Hle |].
      replace (a * b) with ((a * b - two64) + 1 * two64) at 2 by lia.
      now rewrite N.Div0.mod_add. }
    assert (Hd : (a * b) mod two64 / a < b).
    { apply N.Div0.div_lt_upper_bound. lia. }
    lia.
Qed.

(** * Headers in memory: reading after writing *)

Lemma hdr_store_hdr s b h b' :
  hdr (store_hdr s b h) b' = if decide (b = b') then h else hdr s b'.
Proof.
  unfold hdr, store_hdr, with_hdrs; simpl.
  destruct (decide (b = b')) as [-> | Hne].
  - now rewrite lookup_insert_eq.
  - now rewrite lookup_insert_ne.
Qed.

(** * The statistics identity *)

Lemma usage_ok_zero : usage_ok zero_stats.
Proof. reflexivity. Qed.

Lemma same_usage_refl st : same_usage st st.
Proof. now repeat split. Qed.

Lemma stats_remove_from_free_list s b :
  stats (remove_from_free_list s b) = stats s.
Proof.
  unfold remove_from_free_list.
  destruct (truthy (prev (hdr s b))); simpl;
    match goal with |- context [if ?c then _ else _] => destruct c end;
    reflexivity.
Qed.

Lemma stats_add_to_free_list s b :
  stats (add_to_free_list s b) = stats s.
Proof.
  unfold add_to_free_list. simpl.
  match goal with |- context [if ?c then _ else _] => destruct c end; reflexivity.
Qed.

Lemma stats_split_block s b n :
  stats (split_block s b n) = stats s \/
  stats (split_block s b n) = stats_split (stats s).
Proof.
  unfold split_block.
  match goal with |- context [if ?c then _ else _] => destruct c end.
  - right. unfold with_stats; cbn [stats].
    now rewrite stats_add_to_free_list.
  - now left.
Qed.

Lemma stats_expand_heap s n : stats (snd (expand_heap s n)) = stats s.
Proof.
  unfold expand_heap.
  destruct (sbrk (os s) 0) as [old_brk o1].
  destruct (old_brk =? SBRK_FAILED); [reflexivity |].
  destruct (sbrk _ _) as [new_brk o2].
  destruct (new_brk =? SBRK_FAILED); [reflexivity |].
  destruct (sbrk _ 0) as [cur o3]. simpl.
  now destruct (heap_start s =? NULL).
Qed.

Lemma stats_coalesce_same fuel : forall s b b' s',
  coalesce fuel s b = Done (b', s') -> same_usage (stats s) (stats s').
Proof.
  induction fuel as [| fuel IH]; intros s b b' s' H; cbn [coalesce] in H;
    [discriminate |].
  repeat match type of H with
         | (if ?c then _ else _) = _ => destruct c
         end;
    try (apply Done_pair_inj in H as [<- <-]; apply same_usage_refl).
  apply IH in H.
  unfold with_stats, set_size, store_hdr, with_hdrs in H; cbn [stats] in H.
  rewrite stats_remove_from_free_list in H.
  destruct H as (H1 & H2 & H3). now repeat split.
Qed.

Lemma coalesce_block fuel : forall s b b' s',
  coalesce fuel s b = Done (b', s') -> b' = b.
Proof.
  induction fuel as [| fuel IH]; intros s b b' s' H; cbn [coalesce] in H;
    [discriminate |].
  repeat match type of H with
         | (if ?c then _ else _) = _ => destruct c
         end;
    try (now apply Done_pair_inj in H as [<- <-]).
  now apply IH in H.
Qed.

(** ** Header reads through the state updates *)

Lemma hdr_with_stats s st b : hdr (with_stats s st) b = hdr s b.
Proof. reflexivity. Qed.
Lemma hdr_with_os s o b : hdr (with_os s o) b = hdr s b.
Proof. reflexivity. Qed.
Lemma hdr_with_heap s lo hi b : hdr (with_heap s lo hi) b = hdr s b.
Proof. reflexivity. Qed.
Lemma hdr_with_bytes s m b : hdr (with_bytes s m) b = hdr s b.
Proof. reflexivity. Qed.
Lemma hdr_with_free_lists s l b : hdr (with_free_lists s l) b = hdr s b.
Proof. reflexivity. Qed.
Lemma hdr_set_head s i v b : hdr (set_head s i v) b = hdr s b.
Proof. reflexivity. Qed.

Lemma hdr_set_size s b v b' :
  hdr (set_size s b v) b' =
  if decide (b = b')
  then mk_header v (next (hdr s b)) (prev (hdr s b)) (is_free (hdr s b)) (is_mmap (hdr s b))
  else hdr s b'.
Proof. unfold set_size. apply hdr_store_hdr. Qed.

Lemma hdr_set_next s b v b' :
  hdr (set_next s b v) b' =
  if decide (b = b')
  then mk_header (size (hdr s b)) v (prev (hdr s b)) (is_free (hdr s b)) (is_mmap (hdr s b))
  else hdr s b'.
Proof. unfold set_next. apply hdr_store_hdr. Qed.

Lemma hdr_set_prev s b v b' :
  hdr (set_prev s b v) b' =
  if decide (b = b')
  then mk_header (size (hdr s b)) (next (hdr s b)) v (is_free (hdr s b)) (is_mmap (hdr s b))
  else hdr s b'.
Proof. unfold set_prev. apply hdr_store_hdr. Qed.

Lemma hdr_set_is_free s b v b' :
  hdr (set_is_free s b v) b' =
  if decide (b = b')
  then mk_header (size (hdr s b)) (next (hdr s b)) (prev (hdr s b)) v (is_mmap (hdr s b))
  else hdr s b'.
Proof. unfold set_is_free. apply hdr_store_hdr. Qed.

Lemma hdr_set_is_mmap s b v b' :
  hdr (set_is_mmap s b v) b' =
  if decide (b = b')
  then mk_header (size (hdr s b)) (next (hdr s b)) (prev (hdr s b)) (is_free (hdr s b)) v
  else hdr s b'.
Proof. unfold set_is_mmap. apply hdr_store_hdr. Qed.

Create Rewrite HintDb hdr_rw.
#[export] Hint Rewrite hdr_with_stats hdr_with_os hdr_with_heap hdr_with_bytes
  hdr_with_free_lists hdr_set_head hdr_set_size hdr_set_next hdr_set_prev
  hdr_set_is_free hdr_set_is_mmap : hdr_rw.

(** Normalises header reads and decides the address comparisons. *)
Ltac hdr_norm :=
  autorewrite with hdr_rw;
  repeat (rewrite decide_True by reflexivity);
  cbn [size next prev is_free is_mmap].

(** ** Effect of the public operations on the byte counters *)

Lemma alloc_effect_usage st st' sz :
  alloc_effect st st' sz -> usage_ok st -> usage_ok st'.
Proof.
  unfold alloc_effect, usage_ok. intros (H1 & H2 & H3) H.
  rewrite H1, H2, H3, H. unfold wsub, wadd, wrap, two64. lia.
Qed.

Lemma free_effect_usage st st' sz :
  free_effect st st' sz -> usage_ok st -> usage_ok st'.
Proof.
  unfold free_effect, usage_ok. intros (H1 & H2 & H3) H.
  rewrite H1, H2, H3, H. unfold wsub, wadd, wrap, two64. lia.
Qed.

Lemma same_usage_ok st st' : same_usage st st' -> usage_ok st -> usage_ok st'.
Proof.
  unfold same_usage, usage_ok. intros (H1 & H2 & H3) H. now rewrite H1, H2, H3.
Qed.

Lemma malloc_stats fuel s n p s' :
  mem_malloc fuel s n = Done (p, s') ->
  (p = NULL /\ same_usage (stats s) (stats s')) \/
  (p <> NULL /\ alloc_effect (stats s) (stats s') (size (hdr s' (p - HDR)))).
Proof.
  unfold mem_malloc. intros H.
  destruct (n =? 0); [apply Done_pair_inj in H as [<- <-]; left; split; [easy | apply same_usage_refl] |].
  destruct (MMAP_THRESHOLD <=? _).
  - destruct (mmap _ _) as [ptr o1].
    destruct (ptr =? MAP_FAILED); apply Done_pair_inj in H as [<- <-].
    + left. split; [easy | apply same_usage_refl].
    + right. split; [unfold HDR, NULL; lia |].
      replace (ptr + HDR - HDR) with ptr by lia.
      hdr_norm. now repeat split.
  - destruct (find_free_block _ _ _) as [found | |]; cbn [obind] in H; try discriminate.
    destruct (if found =? NULL then _ else _) as [block s1] eqn:E1.
    assert (Hs1 : stats s1 = stats s).
    { destruct (found =? NULL).
      - pose proof (stats_expand_heap s (align_size (wadd n HDR))) as Hx.
        now rewrite E1 in Hx.
      - now injection E1 as <- <-. }
    destruct (block =? NULL); apply Done_pair_inj in H as [<- <-].
    + left. split; [easy |]. rewrite Hs1. apply same_usage_refl.
    + right. split; [unfold HDR, NULL; lia |].
      replace (block + HDR - HDR) with block by lia.
      rewrite hdr_with_stats. unfold with_stats; cbn [stats].
      set (s3 := split_block _ _ _).
      assert (Hs3 : same_usage (stats s) (stats s3)).
      { subst s3.
        destruct (stats_split_block (remove_from_free_list s1 block) block n) as [-> | ->];
          rewrite stats_remove_from_free_list, Hs1;
          [apply same_usage_refl | now repeat split]. }
      destruct Hs3 as (H1 & H2 & H3).
      unfold alloc_effect, stats_alloc, set_is_free, store_hdr, with_hdrs; cbn.
      now rewrite H1, H2, H3.
Qed.

Lemma free_stats fuel s p s' :
  mem_free fuel s p = Done s' ->
  (p = NULL /\ s' = s) \/
  (p <> NULL /\ free_effect (stats s) (stats s') (size (hdr s (p - HDR)))).
Proof.
  unfold mem_free. intros H.
  destruct (p =? NULL) eqn:Ep.
  - left. apply N.eqb_eq in Ep. now apply Done_inj in H as <-.
  - right. apply N.eqb_neq in Ep. split; [assumption |].
    destruct (truthy (is_mmap (hdr s (p - HDR)))).
    + apply Done_inj in H as <-. now repeat split.
    + destruct (coalesce _ _ _) as [[b' s3] | |] eqn:Ec; cbn [obind] in H;
        try discriminate.
      apply Done_inj in H as <-.
      apply stats_coalesce_same in Ec. destruct Ec as (H1 & H2 & H3).
      unfold free_effect. rewrite stats_add_to_free_list.
      now rewrite H1, H2, H3.
Qed.

Lemma memset_stats s p c n s' :
  memset s p c n = Done s' ->
  stats s' = stats s /\ hdrs s' = hdrs s /\ free_lists s' = free_lists s /\
  os s' = os s /\ heap_start s' = heap_start s /\ heap_end s' = heap_end s.
Proof.
  unfold memset. destruct (accessible _ _ _); [| discriminate].
  intros [= <-]. now repeat split.
Qed.

Lemma memcpy_stats s d p n s' :
  memcpy s d p n = Done s' ->
  stats s' = stats s /\ hdrs s' = hdrs s /\ free_lists s' = free_lists s /\
  os s' = os s /\ heap_start s' = heap_start s /\ heap_end s' = heap_end s.
Proof.
  unfold memcpy. destruct (_ && _); [| discriminate].
  intros [= <-]. now repeat split.
Qed.

Lemma malloc_usage_ok fuel s n p s' :
  mem_malloc fuel s n = Done (p, s') -> usage_ok (stats s) -> usage_ok (stats s').
Proof.
  intros H. destruct (malloc_stats _ _ _ _ _ H) as [[_ Hs] | [_ Ha]].
  - now apply same_usage_ok.
  - now apply alloc_effect_usage with (sz := size (hdr s' (p - HDR))).
Qed.

Lemma free_usage_ok fuel s p s' :
  mem_free fuel s p = Done s' -> usage_ok (stats s) -> usage_ok (stats s').
Proof.
  intros H. destruct (free_stats _ _ _ _ H) as [[_ ->] | [_ Hf]].
  - auto.
  - now apply free_effect_usage with (sz := size (hdr s (p - HDR))).
Qed.

Lemma calloc_usage_ok fuel s nmemb sz p s' :
  mem_calloc fuel s nmemb sz = Done (p, s') ->
  usage_ok (stats s) -> usage_ok (stats s').
Proof.
  unfold mem_calloc. intros H Hok.
  destruct (_ || _); [now apply Done_pair_inj in H as [<- <-] |].
  destruct (negb _); [now apply Done_pair_inj in H as [<- <-] |].
  destruct (mem_malloc _ _ _) as [[ptr s1] | |] eqn:Em; cbn [obind] in H;
    try discriminate.
  apply malloc_usage_ok in Em; [| assumption].
  destruct (truthy ptr).
  - destruct (memset _ _ _ _) as [s2 | |] eqn:Es; cbn [obind] in H; try discriminate.
    apply Done_pair_inj in H as [<- <-]. apply memset_stats in Es as [-> _]. assumption.
  - now apply Done_pair_inj in H as [<- <-].
Qed.

Lemma realloc_usage_ok fuel s p n q s' :
  mem_realloc fuel s p n = Done (q, s') ->
  usage_ok (stats s) -> usage_ok (stats s').
Proof.
  unfold mem_realloc. intros H Hok.
  destruct (p =? NULL); [eapply malloc_usage_ok; eauto |].
  destruct (n =? 0).
  - destruct (mem_free _ _ _) as [s1 | |] eqn:Ef; cbn [obind] in H; try discriminate.
    apply Done_pair_inj in H as [<- <-]. eapply free_usage_ok; eauto.
  - destruct (n <=? _); [now apply Done_pair_inj in H as [<- <-] |].
    destruct (mem_malloc _ _ _) as [[np s1] | |] eqn:Em; cbn [obind] in H;
      try discriminate.
    apply malloc_usage_ok in Em; [| assumption].
    destruct (np =? NULL); [now apply Done_pair_inj in H as [<- <-] |].
    destruct (memcpy _ _ _ _) as [s2 | |] eqn:Ec; cbn [obind] in H; try discriminate.
    apply memcpy_stats in Ec as [Ec _].
    destruct (mem_free _ _ _) as [s3 | |] eqn:Ef; cbn [obind] in H; try discriminate.
    apply Done_pair_inj in H as [<- <-]. apply free_usage_ok in Ef; [assumption |].
    now rewrite Ec.
Qed.

Lemma step_usage_ok s s' :
  step s s' -> usage_ok (stats s) -> usage_ok (stats s').
Proof.
  intros [fuel n p H | fuel p H | fuel a b p H | fuel p n q H | ->] Hok.
  - eapply malloc_usage_ok; eauto.
  - eapply free_usage_ok; eauto.
  - eapply calloc_usage_ok; eauto.
  - eapply realloc_usage_ok; eauto.
  - apply usage_ok_zero.
Qed.

Lemma reachable_usage_ok s : reachable s -> usage_ok (stats s).
Proof.
  intros [o Hrtc].
  apply (rtc_ind_r (R := step) (fun t => usage_ok (stats t)) (initial_state o));
    [apply usage_ok_zero | | exact Hrtc].
  intros y z _ Hstep IH. now apply step_usage_ok with y.
Qed.

(** C3. In every state reachable through completed calls of the public
    operations, [current_usage] equals [total_allocated - total_freed] in
    [size_t] arithmetic; a successful [mem_malloc] adds the size of the block
    it hands out to [total_allocated] and to [current_usage]; a [mem_free] of
    a non-null address subtracts the size of the released block from
    [current_usage] and adds it to [total_freed]. *)
Theorem stats_identity s :
  reachable s ->
  current_usage (stats s) = wsub (total_allocated (stats s)) (total_freed (stats s)) /\
  (forall fuel n p s',
     mem_malloc fuel s n = Done (p, s') -> p <> NULL ->
     total_allocated (stats s') =
       wadd (total_allocated (stats s)) (size (hdr s' (p - HDR))) /\
     current_usage (stats s') =
       wadd (current_usage (stats s)) (size (hdr s' (p - HDR)))) /\
  (forall fuel p s',
     mem_free fuel s p = Done s' -> p <> NULL ->
     current_usage (stats s') =
       wsub (current_usage (stats s)) (size (hdr s (p - HDR))) /\
     total_freed (stats s') =
       wadd (total_freed (stats s)) (size (hdr s (p - HDR)))).
Proof.
  intros Hr. split; [exact (reachable_usage_ok s Hr) |]. split.
  - intros fuel n p s' H Hp.
    destruct (malloc_stats _ _ _ _ _ H) as [[Hn _] | [_ (H1 & H2 & _)]];
      [contradiction | now split].
  - intros fuel p s' H Hp.
    destruct (free_stats _ _ _ _ H) as [[Hn _] | [_ (H1 & H2 & _)]];
      [contradiction | now split].
Qed.

Lemma after_malloc_100_reachable : reachable after_malloc_100.
Proof.
  exists fresh_os. apply rtc_once.
  apply step_malloc with (fuel := 1%nat) (n := 100) (p := 4128).
  vm_compute. reflexivity.
Qed.

Lemma reachable_malloc fuel s n p s' :
  reachable s -> mem_malloc fuel s n = Done (p, s') -> reachable s'.
Proof.
  intros [o Hr] H. exists o. eapply rtc_r; [exact Hr |].
  eapply step_malloc; exact H.
Qed.

Lemma reachable_free fuel s p s' :
  reachable s -> mem_free fuel s p = Done s' -> reachable s'.
Proof.
  intros [o Hr] H. exists o. eapply rtc_r; [exact Hr |].
  eapply step_free; exact H.
Qed.

Lemma reachable_realloc fuel s p n q s' :
  reachable s -> mem_realloc fuel s p n = Done (q, s') -> reachable s'.
Proof.
  intros [o Hr] H. exists o. eapply rtc_r; [exact Hr |].
  eapply step_realloc; exact H.
Qed.

Lemma stats_identity_witness :
  current_usage (stats after_malloc_100) =
    wsub (total_allocated (stats after_malloc_100)) (total_freed (stats after_malloc_100)) /\
  (forall fuel n p s',
     mem_malloc fuel after_malloc_100 n = Done (p, s') -> p <> NULL ->
     total_allocated (stats s') =
       wadd (total_allocated (stats after_malloc_100)) (size (hdr s' (p - HDR))) /\
     current_usage (stats s') =
       wadd (current_usage (stats after_malloc_100)) (size (hdr s' (p - HDR)))) /\
  (forall fuel p s',
     mem_free fuel after_malloc_100 p = Done s' -> p <> NULL ->
     current_usage (stats s') =
       wsub (current_usage (stats after_malloc_100)) (size (hdr after_malloc_100 (p - HDR))) /\
     total_freed (stats s') =
       wadd (total_freed (stats after_malloc_100)) (size (hdr after_malloc_100 (p - HDR)))).
Proof.
  apply (stats_identity after_malloc_100).
  exists fresh_os. apply rtc_once.
  apply step_malloc with (fuel := 1%nat) (n := 100) (p := 4128).
  vm_compute. reflexivity.
Defined.

(** * Zero-initialised allocation *)

Lemma memset_zero s p n s' :
  memset s p 0 n = Done s' ->
  s' = with_bytes s (fun a => if (p <=? a) && (a <? p + n) then 0 else bytes s a) /\
  forall i, i < n -> bytes s' (p + i) = 0.
Proof.
  unfold memset. destruct (accessible _ _ _); [| discriminate].
  intros [= <-]. split; [reflexivity |].
  intros i Hi. cbn [bytes with_bytes].
  assert ((p <=? p + i) && (p + i <? p + n) = true) as ->; [| reflexivity].
  apply andb_true_iff. split; [apply N.leb_le | apply N.ltb_lt]; lia.
Qed.

Lemma calloc_guards_pass fuel s nmemb sz :
  nmemb <> 0 -> sz <> 0 -> nmemb < two64 -> sz < two64 -> nmemb * sz < two64 ->
  mem_calloc fuel s nmemb sz =
  (let* (ptr, s1) := mem_malloc fuel s (nmemb * sz) in
   if truthy ptr
   then let* s2 := memset s1 ptr 0 (nmemb * sz) in Done (ptr, s2)
   else Done (ptr, s1)).
Proof.
  intros Hn0 Hs0 Hn Hs Hfit. unfold mem_calloc.
  rewrite (mul_overflow_check nmemb sz Hn0 Hn Hs).
  apply N.eqb_neq in Hn0 as ->. apply N.eqb_neq in Hs0 as ->. cbn [orb].
  apply N.ltb_lt in Hfit as Hfit'. rewrite Hfit'. cbn [negb].
  unfold wmul. now rewrite wrap_small.
Qed.

(** What [mem_calloc] does on [size_t] arguments: a zero factor yields null;
    a product that does not fit in a [size_t] yields null and leaves the
    state alone; otherwise the call is [mem_malloc] of the product, returning
    null when that returns null, and when it returns an address and the
    payload range belongs to the process, the result is the state of that
    [mem_malloc] with the payload overwritten, every one of the [nmemb * sz]
    bytes at the returned address being 0. *)
Lemma calloc_contract fuel s nmemb sz :
  nmemb < two64 -> sz < two64 ->
  (nmemb = 0 \/ sz = 0 -> mem_calloc fuel s nmemb sz = Done (NULL, s)) /\
  (nmemb <> 0 -> sz <> 0 -> two64 <= nmemb * sz ->
     mem_calloc fuel s nmemb sz = Done (NULL, s)) /\
  (nmemb <> 0 -> sz <> 0 -> nmemb * sz < two64 ->
     (forall s1, mem_malloc fuel s (nmemb * sz) = Done (NULL, s1) ->
        mem_calloc fuel s nmemb sz = Done (NULL, s1)) /\
     (forall p s1, mem_malloc fuel s (nmemb * sz) = Done (p, s1) -> p <> NULL ->
        accessible (os s1) p (nmemb * sz) = true ->
        exists s', mem_calloc fuel s nmemb sz = Done (p, s')) /\
     (forall p s', mem_calloc fuel s nmemb sz = Done (p, s') ->
        exists s1, mem_malloc fuel s (nmemb * sz) = Done (p, s1) /\
          (p = NULL -> s' = s1) /\
          (p <> NULL ->
             s' = with_bytes s1 (fun a => if (p <=? a) && (a <? p + nmemb * sz)
                                          then 0 else bytes s1 a) /\
             forall i, i < nmemb * sz -> bytes s' (p + i) = 0))).
Proof.
  intros Hn Hs. split; [| split].
  - intros [-> | ->]; unfold mem_calloc.
    + reflexivity.
    + now rewrite orb_true_r.
  - intros Hn0 Hs0 Hov. unfold mem_calloc.
    rewrite (mul_overflow_check nmemb sz Hn0 Hn Hs).
    apply N.eqb_neq in Hn0 as ->. apply N.eqb_neq in Hs0 as ->. cbn [orb].
    apply N.ltb_ge in Hov as ->. reflexivity.
  - intros Hn0 Hs0 Hfit.
    rewrite (calloc_guards_pass fuel s nmemb sz Hn0 Hs0 Hn Hs Hfit).
    split; [| split].
    + intros s1 ->. reflexivity.
    + intros p s1 -> Hp Hacc. cbn [obind].
      assert (truthy p = true) as ->
        by (unfold truthy; now apply negb_true_iff, N.eqb_neq).
      unfold memset. rewrite Hacc. cbn [obind]. eauto.
    + intros p s' H.
      destruct (mem_malloc _ _ _) as [[ptr s1] | |]; cbn [obind] in H; try discriminate.
      unfold truthy in H. destruct (ptr =? 0) eqn:Ep; cbn [negb] in H.
      * apply Done_pair_inj in H as [<- <-]. apply N.eqb_eq in Ep as ->.
        exists s1. split; [reflexivity |]. split; [reflexivity | intros []; reflexivity].
      * destruct (memset _ _ _ _) as [s2 | |] eqn:Em; cbn [obind] in H; try discriminate.
        apply Done_pair_inj in H as [<- <-]. apply N.eqb_neq in Ep.
        exists s1. split; [reflexivity |]. split; [intros ?; contradiction |].
        intros _. now apply memset_zero.
Qed.

(** * Failure of the internal allocation *)

Lemma with_os_same s : with_os s (os s) = s.
Proof. now destruct s. Qed.

Lemma page_round_pos len : len <> 0 -> PAGE_SIZE <= page_round len.
Proof. unfold page_round, PAGE_SIZE. lia. Qed.

Lemma sbrk_failed o incr r o' :
  brk o <> SBRK_FAILED ->
  sbrk o incr = (r, o') -> r = SBRK_FAILED -> o' = o.
Proof.
  unfold sbrk. intros Hb H ->.
  destruct (incr <? two63); destruct (_ <=? _);
    apply pair_equal_spec in H as [Hr <-]; congruence.
Qed.

Lemma sbrk_zero o r o' : sbrk o 0 = (r, o') -> o' = o.
Proof.
  unfold sbrk. change (0 <? two63) with true. cbv iota.
  rewrite N.add_0_r. destruct (_ <=? _); intros [= _ <-];
    [now destruct o | reflexivity].
Qed.

Lemma mmap_failed o len r o' :
  mmap_limit o <= SIZE_MAX ->
  mmap o len = (r, o') -> r = MAP_FAILED -> o' = o.
Proof.
  unfold mmap, MAP_FAILED. intros Hl H ->.
  destruct (len =? 0) eqn:El; cbn [negb andb] in H; [now injection H as <- |].
  destruct (N.leb_spec (mmap_next o + page_round len) (mmap_limit o)) as [Hle | Hgt].
  - injection H as Hb _. apply N.eqb_neq in El.
    pose proof (page_round_pos len El). unfold PAGE_SIZE, SIZE_MAX in *. lia.
  - now injection H as <-.
Qed.

Lemma expand_heap_null s sz s1 :
  os_ok (os s) -> expand_heap s sz = (NULL, s1) -> s1 = s.
Proof.
  intros (Hb & Hl & _). unfold expand_heap.
  set (alloc_size := if sz <? BRK_INCREMENT then _ else _).
  destruct (sbrk (os s) 0) as [old_brk o1] eqn:E0.
  pose proof (sbrk_zero _ _ _ E0) as ->.
  assert (Hold : old_brk = SBRK_FAILED \/ old_brk = brk (os s)).
  { unfold sbrk in E0. change (0 <? two63) with true in E0. cbv iota in E0.
    destruct (_ <=? _) in E0; injection E0; auto. }
  clear E0. cbv zeta. rewrite with_os_same.
  destruct (old_brk =? SBRK_FAILED) eqn:Eo; [now intros [= <-] |].
  apply N.eqb_neq in Eo.
  assert (Hnf : brk (os s) <> SBRK_FAILED) by (destruct Hold; congruence).
  destruct (sbrk (os s) alloc_size) as [new_brk o2] eqn:E1.
  destruct (new_brk =? SBRK_FAILED) eqn:En.
  - apply N.eqb_eq in En. apply (sbrk_failed _ _ _ _ Hnf E1) in En as ->.
    rewrite with_os_same. now intros [= <-].
  - destruct (sbrk _ 0) as [cur o3]. intros H.
    apply (f_equal fst) in H. cbn [fst] in H.
    unfold SBRK_FAILED, SIZE_MAX, NULL in *.
    destruct Hold; congruence.
Qed.

Lemma malloc_null_unchanged fuel s n s1 :
  os_ok (os s) -> mem_malloc fuel s n = Done (NULL, s1) -> s1 = s.
Proof.
  intros Hok. unfold mem_malloc. intros H.
  destruct (n =? 0); [now apply Done_pair_inj in H as [_ <-] |].
  destruct (MMAP_THRESHOLD <=? _).
  - destruct (mmap _ _) as [ptr o1] eqn:Em.
    destruct (ptr =? MAP_FAILED) eqn:Ep.
    + apply Done_pair_inj in H as [_ <-]. apply N.eqb_eq in Ep.
      destruct Hok as (_ & _ & Hl).
      apply (mmap_failed _ _ _ _ Hl Em) in Ep as ->. apply with_os_same.
    + apply Done_pair_inj in H as [H _]. unfold HDR, NULL in H. lia.
  - destruct (find_free_block _ _ _) as [found | |]; cbn [obind] in H; try discriminate.
    destruct (found =? NULL) eqn:Ef.
    + destruct (expand_heap _ _) as [block s2] eqn:Ee.
      destruct (block =? NULL) eqn:Eb.
      * apply Done_pair_inj in H as [_ <-]. apply N.eqb_eq in Eb as ->.
        now apply expand_heap_null in Ee.
      * apply Done_pair_inj in H as [H _]. unfold HDR, NULL in H. lia.
    + rewrite Ef in H. apply Done_pair_inj in H as [H _]. unfold HDR, NULL in H. lia.
Qed.

(** C5. When the block at [p] is too small for the new size [n] and the
    internal [mem_malloc(n)] returns null, [mem_realloc] returns null and the
    allocator state after the call is the state before it: every header (the
    old block's size, flags and list pointers included), every payload byte,
    the free lists (so the old block is on none of them and still in use) and
    all seven statistics counters are the same. *)
Theorem realloc_failure_atomic fuel s p n s1 :
  os_ok (os s) ->
  p <> NULL ->
  wsub (size (hdr s (p - HDR))) HDR < n ->
  mem_malloc fuel s n = Done (NULL, s1) ->
  mem_realloc fuel s p n = Done (NULL, s) /\ s1 = s.
Proof.
  intros Hok Hp Hcap Hm.
  pose proof (malloc_null_unchanged _ _ _ _ Hok Hm) as ->.
  split; [| reflexivity]. unfold mem_realloc.
  apply N.eqb_neq in Hp as ->.
  assert ((n =? 0) = false) as -> by (apply N.eqb_neq; lia).
  assert ((n <=? wsub (size (hdr s (p - HDR))) HDR) = false) as ->
    by (apply N.leb_gt; assumption).
  rewrite Hm. reflexivity.
Qed.

Lemma realloc_failure_atomic_witness :
  mem_realloc 8 tight_after_malloc 4128 70000 = Done (NULL, tight_after_malloc) /\
  tight_after_malloc = tight_after_malloc.
Proof.
  apply (realloc_failure_atomic 8 tight_after_malloc 4128 70000 tight_after_malloc).
  - vm_compute. repeat split; discriminate.
  - discriminate.
  - vm_compute. reflexivity.
  - vm_compute. reflexivity.
Defined.

Lemma calloc_contract_witness :
  exists p s',
    mem_calloc 1 fresh 10 50 = Done (p, s') /\ p <> NULL /\
    forall i, i < 500 -> bytes s' (p + i) = 0.
Proof.
  destruct (calloc_contract 1 fresh 10 50 eq_refl eq_refl) as (_ & _ & H).
  destruct (H ltac:(discriminate) ltac:(discriminate) eq_refl) as (_ & Hdone & Hzero).
  destruct (mem_malloc 1 fresh (10 * 50)) as [[p s1] | |] eqn:Em;
    try (vm_compute in Em; discriminate).
  assert (Hp : p = 4128) by (vm_compute in Em; congruence).
  destruct (Hdone p s1 eq_refl) as [s' Hs'].
  - subst p. discriminate.
  - subst p. vm_compute in Em. injection Em as <-. vm_compute. reflexivity.
  - exists p, s'. split; [exact Hs' |].
    destruct (Hzero p s' Hs') as (s1' & _ & _ & Hnz).
    split; [subst p; discriminate |].
    apply Hnz. subst p. discriminate.
Defined.

(** * Large requests: the mapped path *)

Lemma os_remove_from_free_list s b : os (remove_from_free_list s b) = os s.
Proof.
  unfold remove_from_free_list. cbv zeta.
  destruct (truthy (prev (hdr s b)));
    match goal with |- context [if ?c then _ else _] => destruct c end;
    now autorewrite with proj_rw.
Qed.

Lemma os_add_to_free_list s b : os (add_to_free_list s b) = os s.
Proof.
  unfold add_to_free_list. cbv zeta.
  match goal with |- context [if ?c then _ else _] => destruct c end;
    now autorewrite with proj_rw.
Qed.

Lemma os_split_block s b n : os (split_block s b n) = os s.
Proof.
  unfold split_block. cbv zeta.
  match goal with |- context [if ?c then _ else _] => destruct c end;
    [| reflexivity].
  rewrite os_with_stats, os_add_to_free_list. now autorewrite with proj_rw.
Qed.

Lemma os_grows_refl o : os_grows o o.
Proof. unfold os_grows. repeat split; lia. Qed.

Lemma os_grows_trans o1 o2 o3 : os_grows o1 o2 -> os_grows o2 o3 -> os_grows o1 o3.
Proof. unfold os_grows. intros (A1 & B1 & C1 & D1) (A2 & B2 & C2 & D2).
  repeat split; try congruence. lia. Qed.

Lemma os_grows_ok o o' : os_grows o o' -> os_ok o -> os_ok o'.
Proof.
  unfold os_grows, os_ok. intros (A & B & C & D) (Hb & Hl & Hm).
  rewrite B, C. repeat split; try assumption. lia.
Qed.

Lemma sbrk_grows o incr r o' :
  incr < two63 -> sbrk o incr = (r, o') -> os_grows o o'.
Proof.
  unfold sbrk. intros Hi. apply N.ltb_lt in Hi as ->.
  destruct (_ <=? _); intros H; apply pair_equal_spec in H as [_ <-];
    unfold os_grows; cbn; repeat split; lia.
Qed.

Lemma sbrk_maps o incr r o' :
  sbrk o incr = (r, o') -> maps o' = maps o /\ mmap_next o' = mmap_next o.
Proof.
  unfold sbrk. destruct (incr <? two63); destruct (_ <=? _); intros H;
    apply pair_equal_spec in H as [_ <-]; now split.
Qed.

Lemma sbrk_result o incr r o' :
  sbrk o incr = (r, o') -> r = SBRK_FAILED \/ r = brk o.
Proof.
  unfold sbrk. destruct (incr <? two63); destruct (_ <=? _); intros H;
    apply pair_equal_spec in H as [<- _]; auto.
Qed.

(** The increment [expand_heap] passes to [sbrk] for a request below the
    mapping threshold is [BRK_INCREMENT] or the request rounded up: it is
    never a negative [intptr_t]. *)
Lemma alloc_size_positive t :
  t < MMAP_THRESHOLD ->
  BRK_INCREMENT <= (if t <? BRK_INCREMENT then BRK_INCREMENT else align_size t) /\
  (if t <? BRK_INCREMENT then BRK_INCREMENT else align_size t) < MMAP_THRESHOLD + ALIGNMENT.
Proof.
  intros Ht. destruct (N.ltb_spec t BRK_INCREMENT) as [Hlt | Hge].
  - unfold BRK_INCREMENT, MMAP_THRESHOLD, ALIGNMENT. lia.
  - assert (Hs : t + 15 < two64) by (unfold MMAP_THRESHOLD, two64 in *; lia).
    pose proof (align_size_ge t Hs). pose proof (align_size_le t Hs).
    unfold BRK_INCREMENT, MMAP_THRESHOLD, ALIGNMENT in *. lia.
Qed.

Lemma mmap_grows o len r o' : mmap o len = (r, o') -> os_grows o o'.
Proof.
  unfold mmap. destruct (_ && _); intros [= _ <-];
    unfold os_grows; cbn; repeat split; lia.
Qed.

(** [expand_heap] leaves the mappings alone, does not lower the break when
    the request is below the mapping threshold, as in [mem_malloc], and the
    block it returns starts at the old break. *)
Lemma expand_heap_os s t b s1 :
  expand_heap s t = (b, s1) ->
  (t < MMAP_THRESHOLD -> os_grows (os s) (os s1)) /\
  maps (os s1) = maps (os s) /\ mmap_next (os s1) = mmap_next (os s) /\
  (b = NULL \/ b = brk (os s)).
Proof.
  unfold expand_heap.
  set (alloc_size := if t <? BRK_INCREMENT then _ else _).
  destruct (sbrk (os s) 0) as [old_brk o1] eqn:E0.
  pose proof (sbrk_result _ _ _ _ E0) as Hold.
  pose proof (sbrk_zero _ _ _ E0) as ->. clear E0.
  cbv zeta. rewrite with_os_same.
  destruct (old_brk =? SBRK_FAILED) eqn:Eo.
  { intros [= <- <-]. split; [intros _; apply os_grows_refl |]. auto. }
  apply N.eqb_neq in Eo. destruct Hold as [? | ->]; [contradiction |].
  destruct (sbrk (os s) alloc_size) as [new_brk o2] eqn:E1.
  assert (Hg : t < MMAP_THRESHOLD -> os_grows (os s) o2).
  { intros Ht. apply (sbrk_grows _ alloc_size new_brk); [| exact E1].
    pose proof (alloc_size_positive t Ht) as [_ Hlt]. fold alloc_size in Hlt.
    unfold MMAP_THRESHOLD, ALIGNMENT, two63 in *. lia. }
  pose proof (sbrk_maps _ _ _ _ E1) as [Hm Hn].
  destruct (new_brk =? SBRK_FAILED).
  { intros [= <- <-]. rewrite os_with_os. auto. }
  match goal with |- context [sbrk ?o 0] => destruct (sbrk o 0) as [cur o3] eqn:E2 end.
  pose proof (sbrk_zero _ _ _ E2) as ->.
  intros H. apply pair_equal_spec in H as [<- <-].
  autorewrite with proj_rw.
  destruct (heap_start s =? NULL); autorewrite with proj_rw; auto.
Qed.

Lemma malloc_os fuel s n p s' :
  mem_malloc fuel s n = Done (p, s') -> os_grows (os s) (os s').
Proof.
  unfold mem_malloc. intros H.
  destruct (n =? 0); [apply Done_pair_inj in H as [_ <-]; apply os_grows_refl |].
  destruct (N.leb_spec MMAP_THRESHOLD (align_size (wadd n HDR))) as [Hbig | Hsmall].
  - destruct (mmap _ _) as [ptr o1] eqn:Em. apply mmap_grows in Em.
    destruct (ptr =? MAP_FAILED); apply Done_pair_inj in H as [_ <-];
      now autorewrite with proj_rw.
  - destruct (find_free_block _ _ _) as [found | |]; cbn [obind] in H; try discriminate.
    destruct (if found =? NULL then _ else _) as [block s1] eqn:E1.
    assert (Hs1 : os_grows (os s) (os s1)).
    { destruct (found =? NULL).
      - apply expand_heap_os in E1 as [Hg _]. now apply Hg.
      - apply pair_equal_spec in E1 as [_ <-]. apply os_grows_refl. }
    destruct (block =? NULL); apply Done_pair_inj in H as [_ <-]; [exact Hs1 |].
    autorewrite with proj_rw.
    now rewrite os_split_block, os_remove_from_free_list.
Qed.

Lemma coalesce_os fuel : forall s b b' s',
  coalesce fuel s b = Done (b', s') -> os s' = os s.
Proof.
  induction fuel as [| fuel IH]; intros s b b' s' H; cbn [coalesce] in H;
    [discriminate |].
  repeat match type of H with
         | (if ?c then _ else _) = _ => destruct c
         end;
    try (now apply Done_pair_inj in H as [_ <-]).
  apply IH in H. rewrite H. autorewrite with proj_rw.
  apply os_remove_from_free_list.
Qed.

Lemma free_os fuel s p s' :
  mem_free fuel s p = Done s' -> os_grows (os s) (os s').
Proof.
  unfold mem_free. intros H.
  destruct (p =? NULL); [apply Done_inj in H as <-; apply os_grows_refl |].
  destruct (truthy _).
  - apply Done_inj in H as <-. autorewrite with proj_rw.
    unfold os_grows, munmap; cbn. repeat split; lia.
  - destruct (coalesce _ _ _) as [[b' s3] | |] eqn:Ec; cbn [obind] in H;
      try discriminate.
    apply Done_inj in H as <-. apply coalesce_os in Ec.
    rewrite os_add_to_free_list, Ec. autorewrite with proj_rw.
    apply os_grows_refl.
Qed.

Lemma calloc_os fuel s nmemb sz p s' :
  mem_calloc fuel s nmemb sz = Done (p, s') -> os_grows (os s) (os s').
Proof.
  unfold mem_calloc. intros H.
  destruct (_ || _); [apply Done_pair_inj in H as [_ <-]; apply os_grows_refl |].
  destruct (negb _); [apply Done_pair_inj in H as [_ <-]; apply os_grows_refl |].
  destruct (mem_malloc _ _ _) as [[ptr s1] | |] eqn:Em; cbn [obind] in H;
    try discriminate.
  apply malloc_os in Em.
  destruct (truthy ptr).
  - destruct (memset _ _ _ _) as [s2 | |] eqn:Es; cbn [obind] in H; try discriminate.
    apply Done_pair_inj in H as [_ <-].
    apply memset_stats in Es as (_ & _ & _ & -> & _). assumption.
  - now apply Done_pair_inj in H as [_ <-].
Qed.

Lemma realloc_os fuel s p n q s' :
  mem_realloc fuel s p n = Done (q, s') -> os_grows (os s) (os s').
Proof.
  unfold mem_realloc. intros H.
  destruct (p =? NULL); [now apply malloc_os in H |].
  destruct (n =? 0).
  - destruct (mem_free _ _ _) as [s1 | |] eqn:Ef; cbn [obind] in H; try discriminate.
    apply Done_pair_inj in H as [_ <-]. now apply free_os in Ef.
  - destruct (n <=? _); [apply Done_pair_inj in H as [_ <-]; apply os_grows_refl |].
    destruct (mem_malloc _ _ _) as [[np s1] | |] eqn:Em; cbn [obind] in H;
      try discriminate.
    apply malloc_os in Em.
    destruct (np =? NULL); [now apply Done_pair_inj in H as [_ <-] |].
    destruct (memcpy _ _ _ _) as [s2 | |] eqn:Ec; cbn [obind] in H; try discriminate.
    apply memcpy_stats in Ec as (_ & _ & _ & Ec & _).
    destruct (mem_free _ _ _) as [s3 | |] eqn:Ef; cbn [obind] in H; try discriminate.
    apply Done_pair_inj in H as [_ <-]. apply free_os in Ef.
    rewrite Ec in Ef. now apply os_grows_trans with (os s1).
Qed.

Lemma step_os s s' : step s s' -> os_grows (os s) (os s').
Proof.
  intros [fuel n p H | fuel p H | fuel a b p H | fuel p n q H | ->].
  - now apply malloc_os in H.
  - now apply free_os in H.
  - now apply calloc_os in H.
  - now apply realloc_os in H.
  - apply os_grows_refl.
Qed.

(** On a sane system every reachable state has a sane system state. *)
Lemma reachable_os_ok o s :
  os_ok o -> rtc step (initial_state o) s -> os_ok (os s).
Proof.
  intros Hok Hr.
  apply (rtc_ind_r (R := step) (fun t => os_ok (os t)) (initial_state o));
    [exact Hok | | exact Hr].
  intros y z _ Hstep IH. apply step_os in Hstep. now apply os_grows_ok with (os y).
Qed.

Lemma free_mapped fuel s p :
  p <> NULL -> truthy (is_mmap (hdr s (p - HDR))) = true ->
  mem_free fuel s p =
  Done (with_hdrs
          (with_os (with_stats s (stats_free (stats s) (size (hdr s (p - HDR)))))
                   (munmap (os s) (p - HDR) (size (hdr s (p - HDR)))))
          (delete (p - HDR) (hdrs s))).
Proof.
  intros Hp Hm. unfold mem_free.
  apply N.eqb_neq in Hp as ->. rewrite Hm. reflexivity.
Qed.

Lemma munmap_gone o addr len len' : ~ In (addr, len') (maps (munmap o addr len)).
Proof.
  unfold munmap; cbn [maps]. intros Hin.
  apply list_elem_of_In, list_elem_of_filter in Hin as [Hne _].
  cbn [fst] in Hne. rewrite N.eqb_refl in Hne. now apply Hne.
Qed.

(** C9. A [mem_malloc] whose rounded block size reaches [MMAP_THRESHOLD] and
    that returns an address has taken its block from [mmap]: the header has
    [is_mmap = 1], [is_free = 0] and [size] equal to the rounded size, which
    is also the length of the mapping; free lists and program break are
    untouched, and the rounded size is added to [total_allocated] and
    [current_usage], one to [num_allocations].  Releasing that address, right
    away or in any later state in which the header of the block is still the
    one [mem_malloc] wrote, completes for any fuel; it adds the block size to
    [total_freed], subtracts it from [current_usage], adds one to
    [num_frees] and leaves the other four counters alone; it calls [munmap]
    on the block address with the whole block size as length, leaves no
    mapping at the block address, and changes neither the free lists, nor
    the heap bounds, nor any other header.  A [mem_malloc] whose rounded
    block size is below the threshold never creates a mapping. *)
Theorem large_request_path fuel s n p s' :
  mem_malloc fuel s n = Done (p, s') ->
  (MMAP_THRESHOLD <= total_size n -> p <> NULL ->
     p - HDR = mmap_next (os s) /\
     maps (os s') = (p - HDR, total_size n) :: maps (os s) /\
     hdr s' (p - HDR) = mk_header (total_size n) NULL NULL 0 1 /\
     free_lists s' = free_lists s /\
     brk (os s') = brk (os s) /\
     total_allocated (stats s') = wadd (total_allocated (stats s)) (total_size n) /\
     current_usage (stats s') = wadd (current_usage (stats s)) (total_size n) /\
     num_allocations (stats s') = wadd (num_allocations (stats s)) 1 /\
     forall t fuel', hdr t (p - HDR) = hdr s' (p - HDR) ->
       exists t',
         mem_free fuel' t p = Done t' /\
         total_freed (stats t') = wadd (total_freed (stats t)) (total_size n) /\
         current_usage (stats t') = wsub (current_usage (stats t)) (total_size n) /\
         num_frees (stats t') = wadd (num_frees (stats t)) 1 /\
         total_allocated (stats t') = total_allocated (stats t) /\
         num_allocations (stats t') = num_allocations (stats t) /\
         num_splits (stats t') = num_splits (stats t) /\
         num_coalesces (stats t') = num_coalesces (stats t) /\
         os t' = munmap (os t) (p - HDR) (total_size n) /\
         (forall len, ~ In (p - HDR, len) (maps (os t'))) /\
         free_lists t' = free_lists t /\
         heap_start t' = heap_start t /\ heap_end t' = heap_end t /\
         (forall a, a <> p - HDR -> hdr t' a = hdr t a)) /\
  (total_size n < MMAP_THRESHOLD ->
     maps (os s') = maps (os s) /\ mmap_next (os s') = mmap_next (os s) /\
     (p <> NULL ->
        exists found,
          find_free_block fuel s (total_size n) = Done found /\
          ((found <> NULL /\ p - HDR = found) \/
           (found = NULL /\ p - HDR = brk (os s))))).
Proof.
  intros H. split.
  - intros Hbig Hp. unfold mem_malloc in H. fold (total_size n) in H.
    destruct (n =? 0); [apply Done_pair_inj in H as [<- _]; contradiction |].
    apply N.leb_le in Hbig. rewrite Hbig in H.
    destruct (mmap (os s) (total_size n)) as [ptr o1] eqn:Em.
    destruct (ptr =? MAP_FAILED) eqn:Ep; [apply Done_pair_inj in H as [<- _]; contradiction |].
    apply Done_pair_inj in H as [<- <-].
    replace (ptr + HDR - HDR) with ptr by lia.
    apply N.eqb_neq in Ep.
    unfold mmap in Em.
    destruct (_ && _) in Em; injection Em as <- <-; [| contradiction].
    split; [reflexivity |]. split; [reflexivity |].
    assert (Hh : forall st,
      hdr (with_stats
             (set_prev (set_next (set_is_mmap (set_is_free
                (set_size (with_os s
                   (mk_os (brk_base (os s)) (brk (os s)) (brk_limit (os s))
                      (mmap_next (os s) + page_round (total_size n))
                      (mmap_limit (os s))
                      ((mmap_next (os s), total_size n) :: maps (os s))))
                   (mmap_next (os s)) (total_size n))
                (mmap_next (os s)) 0) (mmap_next (os s)) 1)
                (mmap_next (os s)) NULL) (mmap_next (os s)) NULL) st)
          (mmap_next (os s)) = mk_header (total_size n) NULL NULL 0 1).
    { intros st. hdr_norm. reflexivity. }
    split; [apply Hh |]. split; [reflexivity |]. split; [reflexivity |].
    split; [reflexivity |]. split; [reflexivity |]. split; [reflexivity |].
    intros t fuel' Ht. rewrite Hh in Ht.
    assert (Hm : truthy (is_mmap (hdr t (mmap_next (os s) + HDR - HDR))) = true).
    { replace (mmap_next (os s) + HDR - HDR) with (mmap_next (os s)) by lia.
      now rewrite Ht. }
    eexists. split.
    + apply free_mapped; [unfold HDR, NULL; lia | exact Hm].
    + replace (mmap_next (os s) + HDR - HDR) with (mmap_next (os s)) by lia.
      rewrite Ht. cbn [size].
      do 7 (split; [reflexivity |]).
      split; [reflexivity |].
      split; [intros len; apply munmap_gone |].
      split; [reflexivity |]. split; [reflexivity |]. split; [reflexivity |].
      intros a Ha. unfold hdr at 1. cbn [hdrs with_hdrs].
      now rewrite lookup_delete_ne by congruence.
  - intros Hsmall. unfold mem_malloc in H. fold (total_size n) in H.
    destruct (n =? 0).
    { apply Done_pair_inj in H as [<- <-].
      split; [reflexivity |]. split; [reflexivity |]. intros []; reflexivity. }
    apply N.leb_gt in Hsmall. rewrite Hsmall in H.
    destruct (find_free_block _ _ _) as [found | |]; cbn [obind] in H; try discriminate.
    destruct (if found =? NULL then _ else _) as [block s1] eqn:E1.
    assert (Hs1 : maps (os s1) = maps (os s) /\ mmap_next (os s1) = mmap_next (os s) /\
                  ((found <> NULL /\ block = found) \/
                   (found = NULL /\ (block = NULL \/ block = brk (os s))))).
    { destruct (found =? NULL) eqn:Ef.
      - apply N.eqb_eq in Ef.
        apply expand_heap_os in E1 as (_ & Hm & Hn & Hb). auto.
      - apply N.eqb_neq in Ef. apply pair_equal_spec in E1 as [<- <-]. auto. }
    destruct Hs1 as (Hm & Hn & Hsrc).
    destruct (block =? NULL) eqn:Eb; apply Done_pair_inj in H as [<- <-].
    + split; [assumption |]. split; [assumption |]. intros []; reflexivity.
    + autorewrite with proj_rw.
      rewrite os_split_block, os_remove_from_free_list.
      split; [assumption |]. split; [assumption |].
      intros _. exists found. split; [reflexivity |].
      replace (block + HDR - HDR) with block by lia.
      apply N.eqb_neq in Eb.
      destruct Hsrc as [[Hf ->] | [Hf [-> | ->]]]; try contradiction; auto.
Qed.

Lemma large_request_path_witness :
  hdr mapped_state 1048576000 = mk_header (total_size (256 * 1024)) NULL NULL 0 1 /\
  num_allocations (stats mapped_state) = 1 /\
  exists t',
    mem_free 0 mapped_later_state 1048576032 = Done t' /\
    total_freed (stats t') = total_size (256 * 1024) /\
    num_frees (stats t') = 1 /\
    free_lists t' = free_lists mapped_later_state.
Proof.
  assert (Em : mem_malloc 0 fresh (256 * 1024) = Done (1048576032, mapped_state))
    by (vm_compute; reflexivity).
  destruct (large_request_path 0 fresh (256 * 1024) _ _ Em) as [Hbig _].
  destruct Hbig as (_ & _ & Hh & _ & _ & _ & _ & Hn & Hfree).
  - vm_compute. discriminate.
  - discriminate.
  - split; [exact Hh |]. split; [exact Hn |].
    destruct (Hfree mapped_later_state 0%nat) as
      (t' & Hf & Htf & _ & Hnf & _ & _ & _ & _ & _ & _ & Hl & _);
      [vm_compute; reflexivity |].
    exists t'. split; [exact Hf |]. split; [exact Htf |]. split; [exact Hnf | exact Hl].
Defined.

(** * Requests close to [SIZE_MAX] *)

(** [mem_malloc] looks at the request only through its rounded block size. *)
Lemma malloc_same_total fuel s n n' :
  n <> 0 -> n' <> 0 -> total_size n = total_size n' ->
  mem_malloc fuel s n = mem_malloc fuel s n'.
Proof.
  intros Hn Hn' Ht. unfold mem_malloc, split_block.
  fold (total_size n). fold (total_size n'). rewrite Ht.
  apply N.eqb_neq in Hn as ->. apply N.eqb_neq in Hn' as ->.
  reflexivity.
Qed.

Lemma total_size_wrapped n :
  SIZE_MAX - HDR - 15 < n -> n <= SIZE_MAX ->
  total_size n = 0 \/ total_size n = 16 \/ total_size n = 32.
Proof.
  intros Hlo Hhi. unfold total_size. rewrite align_size_spec.
  unfold wadd, wrap, SIZE_MAX, HDR, two64 in *. lia.
Qed.

(** C10. [mem_malloc] computes the block size as
    [align_size(size + sizeof(block_header_t))] in wrapping arithmetic: for
    every request above [SIZE_MAX - HDR - 15] the computed size is at most 32
    (it is 32 for [SIZE_MAX]), below the sum of request and header, and on
    the fresh allocator the call returns a non-null address whose block has
    exactly that size, with a payload capacity below the request. *)
Theorem malloc_size_wraps n :
  SIZE_MAX - HDR - 15 < n -> n <= SIZE_MAX ->
  total_size n <= 32 /\
  total_size n < n + HDR /\
  total_size SIZE_MAX = 32 /\
  exists p s',
    mem_malloc 1 fresh n = Done (p, s') /\
    p <> NULL /\
    size (hdr s' (p - HDR)) = total_size n /\
    size (hdr s' (p - HDR)) - HDR < n.
Proof.
  intros Hlo Hhi.
  assert (Hn : n <> 0) by (unfold SIZE_MAX, HDR in Hlo; lia).
  assert (Hbig : 32 < n) by (unfold SIZE_MAX, HDR in Hlo; lia).
  destruct (total_size_wrapped n Hlo Hhi) as [Ht | [Ht | Ht]].
  - split; [rewrite Ht; lia |]. split; [rewrite Ht; unfold HDR; lia |].
    split; [reflexivity |].
    rewrite (malloc_same_total 1 fresh n (SIZE_MAX - 46) Hn) by
      (discriminate || (rewrite Ht; reflexivity)).
    rewrite Ht. exists 4128.
    eexists. split; [vm_compute; reflexivity |].
    split; [discriminate |]. split; [reflexivity |].
    change (0 - HDR < n). unfold HDR. lia.
  - split; [rewrite Ht; lia |]. split; [rewrite Ht; unfold HDR; lia |].
    split; [reflexivity |].
    rewrite (malloc_same_total 1 fresh n (SIZE_MAX - 30) Hn) by
      (discriminate || (rewrite Ht; reflexivity)).
    rewrite Ht. exists 4128.
    eexists. split; [vm_compute; reflexivity |].
    split; [discriminate |]. split; [reflexivity |].
    change (16 - HDR < n). unfold HDR. lia.
  - split; [rewrite Ht; lia |]. split; [rewrite Ht; unfold HDR; lia |].
    split; [reflexivity |].
    rewrite (malloc_same_total 1 fresh n SIZE_MAX Hn) by
      (discriminate || (rewrite Ht; reflexivity)).
    rewrite Ht. exists 4128.
    eexists. split; [vm_compute; reflexivity |].
    split; [discriminate |]. split; [reflexivity |].
    change (32 - HDR < n). unfold HDR. lia.
Qed.

Lemma malloc_size_wraps_witness :
  total_size SIZE_MAX <= 32 /\
  total_size SIZE_MAX < SIZE_MAX + HDR /\
  total_size SIZE_MAX = 32 /\
  exists p s',
    mem_malloc 1 fresh SIZE_MAX = Done (p, s') /\
    p <> NULL /\
    size (hdr s' (p - HDR)) = total_size SIZE_MAX /\
    size (hdr s' (p - HDR)) - HDR < SIZE_MAX.
Proof.
  apply (malloc_size_wraps SIZE_MAX).
  - reflexivity.
  - discriminate.
Defined.

(** * Forward coalescing on release *)

Lemma shape_set_next s b v a : shape (set_next s b v) a = shape s a.
Proof. unfold shape. rewrite hdr_set_next. now case_decide; subst. Qed.

Lemma shape_set_prev s b v a : shape (set_prev s b v) a = shape s a.
Proof. unfold shape. rewrite hdr_set_prev. now case_decide; subst. Qed.

Lemma shape_set_head s i v a : shape (set_head s i v) a = shape s a.
Proof. reflexivity. Qed.

Lemma shape_remove_from_free_list s b a :
  shape (remove_from_free_list s b) a = shape s a.
Proof.
  unfold remove_from_free_list. cbv zeta.
  rewrite shape_set_prev, shape_set_next.
  destruct (truthy (prev (hdr s b)));
    match goal with |- context [if ?c then _ else _] => destruct c end;
    now rewrite ?shape_set_prev, ?shape_set_next, ?shape_set_head.
Qed.

Lemma shape_add_to_free_list s b a :
  is_free (hdr s b) = 1 ->
  shape (add_to_free_list s b) a = shape s a.
Proof.
  intros Hf. unfold add_to_free_list. cbv zeta.
  set (s2 := set_prev (set_next s b _) b NULL).
  assert (H2 : forall x, shape s2 x = shape s x)
    by (intros x; subst s2; now rewrite shape_set_prev, shape_set_next).
  set (s3 := if truthy _ then _ else s2).
  assert (H3 : forall x, shape s3 x = shape s x).
  { intros x. subst s3. destruct (truthy _); [rewrite shape_set_prev |]; apply H2. }
  unfold shape at 1. rewrite hdr_set_is_free, hdr_set_head.
  case_decide as Hab.
  - subst a. cbn [size is_free is_mmap].
    pose proof (H3 b) as Hb. unfold shape in Hb.
    injection Hb as Hs Hfr Hm. unfold shape. now rewrite Hs, Hm, Hf.
  - apply H3.
Qed.

Lemma heap_bounds_remove_from_free_list s b :
  heap_start (remove_from_free_list s b) = heap_start s /\
  heap_end (remove_from_free_list s b) = heap_end s.
Proof.
  unfold remove_from_free_list. cbv zeta.
  destruct (truthy (prev (hdr s b)));
    match goal with |- context [if ?c then _ else _] => destruct c end;
    now autorewrite with proj_rw.
Qed.

Lemma heap_bounds_add_to_free_list s b :
  heap_start (add_to_free_list s b) = heap_start s /\
  heap_end (add_to_free_list s b) = heap_end s.
Proof.
  unfold add_to_free_list. cbv zeta.
  match goal with |- context [if ?c then _ else _] => destruct c end;
    now autorewrite with proj_rw.
Qed.

(** The coalescing test depends on the heap bounds and on shapes only. *)
Lemma forward_mergeable_shape s s' b :
  heap_start s' = heap_start s -> heap_end s' = heap_end s ->
  (forall a, shape s' a = shape s a) ->
  forward_mergeable s' b = forward_mergeable s b.
Proof.
  intros Hs He Hsh. unfold forward_mergeable, free_block.
  pose proof (Hsh b) as Hb. unfold shape in Hb. injection Hb as Hsz _ _.
  rewrite Hsz, Hs, He. cbv zeta.
  pose proof (Hsh (b + size (hdr s b))) as Hx. unfold shape in Hx.
  injection Hx as _ Hfr Hm. now rewrite Hfr, Hm.
Qed.

(** When [coalesce] returns, the block it returns is the block it was given,
    the successor of that block fails the coalescing test, and no flag of any
    header has changed. *)
Lemma coalesce_exit fuel : forall s b b' s',
  coalesce fuel s b = Done (b', s') ->
  b <> NULL -> truthy (is_mmap (hdr s b)) = false ->
  forward_mergeable s' b = false /\
  heap_start s' = heap_start s /\ heap_end s' = heap_end s /\
  (forall a, is_free (hdr s' a) = is_free (hdr s a) /\
             is_mmap (hdr s' a) = is_mmap (hdr s a)).
Proof.
  induction fuel as [| fuel IH]; intros s b b' s' H Hb Hm; cbn [coalesce] in H;
    [discriminate |].
  apply N.eqb_neq in Hb as Hb'. rewrite Hb', Hm in H. cbn [orb] in H.
  destruct (_ || _) eqn:E1.
  { apply Done_pair_inj in H as [_ <-].
    unfold forward_mergeable. cbv zeta. rewrite E1. now repeat split. }
  destruct (heap_end s <? _) eqn:E2.
  { apply Done_pair_inj in H as [_ <-].
    unfold forward_mergeable. cbv zeta. rewrite E1, E2. now repeat split. }
  destruct (_ && _) eqn:E3.
  2:{ apply Done_pair_inj in H as [_ <-].
      unfold forward_mergeable, free_block. cbv zeta.
      rewrite E1, E2, E3. now repeat split. }
  set (nb := b + size (hdr s b)) in *.
  set (s1 := remove_from_free_list s nb) in *.
  pose proof (shape_remove_from_free_list s nb) as Hsh1. fold s1 in Hsh1.
  destruct (heap_bounds_remove_from_free_list s nb) as [Hhs Hhe].
  fold s1 in Hhs, Hhe.
  apply IH in H; [| assumption |].
  - destruct H as (Hfm & Hs & He & Hfl).
    split; [exact Hfm |].
    rewrite heap_start_with_stats, heap_start_set_size in Hs.
    rewrite heap_end_with_stats, heap_end_set_size in He.
    split; [congruence |]. split; [congruence |].
    intros a. destruct (Hfl a) as [Hf1 Hm1].
    rewrite hdr_with_stats, hdr_set_size in Hf1, Hm1.
    pose proof (Hsh1 a) as Ha. unfold shape in Ha. injection Ha as _ Hfa Hma.
    case_decide; subst; cbn [is_free is_mmap] in *; split; congruence.
  - rewrite hdr_with_stats, hdr_set_size. rewrite decide_True by reflexivity.
    cbn [is_mmap].
    pose proof (Hsh1 b) as Ha. unfold shape in Ha. injection Ha as _ _ Hma.
    now rewrite Hma.
Qed.

(** C2 (as amended). When [mem_free] of a block that is not mapped returns,
    the released block is free and the block that starts at its end fails
    the coalescing test: it lies outside the heap region, or is in use, or is
    mapped.  Nothing is said about the block before the released one. *)
Theorem free_forward_coalesced fuel s p s' :
  HDR < p ->
  truthy (is_mmap (hdr s (p - HDR))) = false ->
  mem_free fuel s p = Done s' ->
  free_block s' (p - HDR) = true /\
  forward_mergeable s' (p - HDR) = false.
Proof.
  intros Hp Hm H. unfold mem_free in H.
  assert ((p =? NULL) = false) as Hp0 by (apply N.eqb_neq; unfold NULL, HDR in *; lia).
  rewrite Hp0, Hm in H.
  set (b := p - HDR) in *.
  set (s2 := set_is_free _ b 1) in H.
  assert (Hm2 : is_mmap (hdr s2 b) = is_mmap (hdr s b)).
  { subst s2. rewrite hdr_set_is_free, decide_True by reflexivity. reflexivity. }
  assert (Hf2 : is_free (hdr s2 b) = 1).
  { subst s2. rewrite hdr_set_is_free, decide_True by reflexivity. reflexivity. }
  destruct (coalesce fuel s2 b) as [[b' s3] | |] eqn:Ec; cbn [obind] in H;
    try discriminate.
  apply Done_inj in H as <-.
  pose proof (coalesce_block _ _ _ _ _ Ec) as ->.
  apply coalesce_exit in Ec as (Hfm & Hs & He & Hfl).
  - destruct (Hfl b) as [Hf3 Hm3].
    assert (Hsh : forall a, shape (add_to_free_list s3 b) a = shape s3 a)
      by (intros a; apply shape_add_to_free_list; congruence).
    destruct (heap_bounds_add_to_free_list s3 b) as [Hs' He'].
    split.
    + unfold free_block. pose proof (Hsh b) as Hb. unfold shape in Hb.
      injection Hb as _ Hfb Hmb. rewrite Hfb, Hmb, Hf3, Hm3, Hf2, Hm2, Hm.
      reflexivity.
    + now rewrite (forward_mergeable_shape s3 _ b Hs' He' Hsh).
  - subst b. unfold NULL, HDR in *. lia.
  - unfold truthy in *. now rewrite Hm2.
Qed.

Lemma backward_neighbour_reachable : reachable backward_neighbour_state.
Proof.
  pose (s2 := state_of (mem_malloc 1 after_malloc_100 100) fresh).
  pose (s3 := state_after (mem_free 2 s2 4128) fresh).
  apply (reachable_free 2 s3 4272); [| vm_compute; reflexivity].
  apply (reachable_free 2 s2 4128); [| vm_compute; reflexivity].
  apply (reachable_malloc 1 after_malloc_100 100 4272); [| vm_compute; reflexivity].
  apply after_malloc_100_reachable.
Qed.

(** C2 (counterexample). After two blocks were allocated and released in
    allocation order, the first block is free and immediately followed in the
    heap by the second, which is free as well. *)
Lemma coalescing_invariant_fails :
  reachable backward_neighbour_state /\
  heap_blocks backward_neighbour_state = [4096; 4240] /\
  free_block backward_neighbour_state 4096 = true /\
  4096 + size (hdr backward_neighbour_state 4096) = 4240 /\
  free_block backward_neighbour_state 4240 = true /\
  ~ quiescent_coalesced backward_neighbour_state.
Proof.
  split; [apply backward_neighbour_reachable |].
  split; [vm_compute; reflexivity |].
  split; [vm_compute; reflexivity |].
  split; [vm_compute; reflexivity |].
  split; [vm_compute; reflexivity |].
  intros Hq. specialize (Hq 4096).
  assert (free_block backward_neighbour_state
            (4096 + size (hdr backward_neighbour_state 4096)) = false) as Hc.
  { apply Hq.
    - assert (heap_blocks backward_neighbour_state = [4096; 4240]) as ->
        by (vm_compute; reflexivity).
      now left.
    - vm_compute; reflexivity.
    - vm_compute; reflexivity. }
  vm_compute in Hc. discriminate.
Qed.

Lemma free_forward_coalesced_witness :
  exists s',
    mem_free 2 after_malloc_100 4128 = Done s' /\
    free_block s' (4128 - HDR) = true /\
    forward_mergeable s' (4128 - HDR) = false.
Proof.
  destruct (mem_free 2 after_malloc_100 4128) as [s' | |] eqn:Ef;
    try (vm_compute in Ef; discriminate).
  exists s'. split; [reflexivity |].
  apply (free_forward_coalesced 2 after_malloc_100 4128 s').
  - reflexivity.
  - vm_compute. reflexivity.
  - exact Ef.
Defined.

(** * Free blocks and the free lists *)

Lemma walk_list_null fuel s : walk_list fuel s NULL = [].
Proof. now destruct fuel. Qed.

Lemma nth_replicate_same {A : Type} (n i : nat) (x : A) : nth i (replicate n x) x = x.
Proof.
  revert i. induction n as [| n IH]; intros [| i]; cbn; auto.
Qed.

(** C1 (the code at the failing input). After [mem_malloc(100)] the free
    remainder of the heap increment is the only member of the class-9 list.
    The following [mem_malloc(70000)] extends the heap and calls
    [remove_from_free_list] on the fresh block, which stores that block's
    null [next] pointer into the class-9 list head: the remainder is still a
    free, unmapped block of the heap, but every free list is empty, so the
    invariant fails in a reachable state. *)
Theorem expand_heap_loses_free_block :
  exists p1 p2 s1 s2,
    lost_block_run = Done (p1, p2, s1, s2) /\
    free_list_members 2 s1 9 = [p1 - HDR + total_size 100] /\
    reachable s2 /\
    In (p1 - HDR + total_size 100) (heap_blocks s2) /\
    free_block s2 (p1 - HDR + total_size 100) = true /\
    (forall fuel i, free_list_members fuel s2 i = []) /\
    ~ free_list_invariant s2.
Proof.
  exists 4128, 69664, after_malloc_100, lost_block_state.
  assert (Hl : forall fuel i, free_list_members fuel lost_block_state i = []).
  { intros fuel i. unfold free_list_members, head.
    assert (free_lists lost_block_state = replicate NUM_SIZE_CLASSES NULL) as ->
      by (vm_compute; reflexivity).
    rewrite nth_replicate_same. apply walk_list_null. }
  assert (Hin : In (4128 - HDR + total_size 100) (heap_blocks lost_block_state)).
  { assert (heap_blocks lost_block_state = [4096; 4240; 69632]) as ->
      by (vm_compute; reflexivity).
    right; left. vm_compute. reflexivity. }
  split; [vm_compute; reflexivity |].
  split; [vm_compute; reflexivity |].
  split.
  { apply (reachable_malloc 2 after_malloc_100 70000 69664);
      [apply after_malloc_100_reachable | vm_compute; reflexivity]. }
  split; [exact Hin |].
  split; [vm_compute; reflexivity |].
  split; [exact Hl |].
  intros Hinv. destruct (Hinv _ Hin) as [fuel Hmem]; [vm_compute; reflexivity |].
  rewrite (Hl fuel) in Hmem. exact Hmem.
Qed.

(** * Resizing a block obtained from a wrapped request *)

(** C6 (the code at the failing input). [mem_malloc(SIZE_MAX)] returns an
    address whose block is 32 bytes long, header included; resizing that
    block to 100 bytes, which is at most the size it was requested with,
    allocates a new block, releases the old one and returns a different
    address. *)
Theorem shrink_after_wrapped_request :
  exists p q s1 s2,
    shrink_run = Done (p, q, s1, s2) /\
    p <> NULL /\
    100 <= SIZE_MAX /\
    size (hdr s1 (p - HDR)) = HDR /\
    q <> p /\
    free_block s2 (p - HDR) = true /\
    num_frees (stats s2) = 1.
Proof.
  do 4 eexists. split; [vm_compute; reflexivity |].
  repeat match goal with |- _ /\ _ => split end;
    vm_compute; (reflexivity || discriminate).
Qed.

(** * The shrink law away from the wrap-around *)

Lemma scan_list_fits fuel : forall s cur sz b,
  scan_list fuel s cur sz = Done b -> b <> NULL -> sz <= size (hdr s b).
Proof.
  induction fuel as [| fuel IH]; intros s cur sz b H Hb; cbn [scan_list] in H;
    [discriminate |].
  destruct (cur =? NULL); [apply Done_inj in H; congruence |].
  destruct (truthy _ && (sz <=? size (hdr s cur))) eqn:E.
  - apply Done_inj in H as <-. apply andb_true_iff in E as [_ E].
    now apply N.leb_le.
  - now apply IH in H.
Qed.

Lemma scan_classes_fits fuel s sz : forall n i b,
  scan_classes fuel s i n sz = Done b -> b <> NULL -> sz <= size (hdr s b).
Proof.
  induction n as [| n IH]; intros i b H Hb; cbn [scan_classes] in H.
  - apply Done_inj in H. congruence.
  - destruct (scan_list _ _ _ _) as [found | |] eqn:E; cbn [obind] in H;
      try discriminate.
    destruct (found =? NULL) eqn:Ef.
    + now apply IH in H.
    + apply Done_inj in H as <-. now apply scan_list_fits in E.
Qed.

Lemma find_free_block_fits fuel s sz b :
  find_free_block fuel s sz = Done b -> b <> NULL -> sz <= size (hdr s b).
Proof. unfold find_free_block. apply scan_classes_fits. Qed.

Lemma sizes_ok_shape s s' :
  (forall a, shape s' a = shape s a) -> sizes_ok s -> sizes_ok s'.
Proof.
  intros Hsh Hok a. pose proof (Hsh a) as H. unfold shape in H.
  injection H as -> _ _. apply Hok.
Qed.

Lemma sizes_ok_set_size s b v : v < two64 -> sizes_ok s -> sizes_ok (set_size s b v).
Proof.
  intros Hv Hok a. rewrite hdr_set_size. case_decide; [assumption | apply Hok].
Qed.

Lemma sizes_ok_set_next s b v : sizes_ok s -> sizes_ok (set_next s b v).
Proof. apply sizes_ok_shape. intros a. apply shape_set_next. Qed.

Lemma sizes_ok_set_prev s b v : sizes_ok s -> sizes_ok (set_prev s b v).
Proof. apply sizes_ok_shape. intros a. apply shape_set_prev. Qed.

Lemma sizes_ok_set_is_free s b v : sizes_ok s -> sizes_ok (set_is_free s b v).
Proof.
  intros Hok a. rewrite hdr_set_is_free. case_decide; apply Hok.
Qed.

Lemma sizes_ok_set_is_mmap s b v : sizes_ok s -> sizes_ok (set_is_mmap s b v).
Proof.
  intros Hok a. rewrite hdr_set_is_mmap. case_decide; apply Hok.
Qed.

Lemma sizes_ok_remove_from_free_list s b :
  sizes_ok s -> sizes_ok (remove_from_free_list s b).
Proof. apply sizes_ok_shape. intros a. apply shape_remove_from_free_list. Qed.

Lemma size_add_to_free_list s b a :
  size (hdr (add_to_free_list s b) a) = size (hdr s a).
Proof.
  unfold add_to_free_list. cbv zeta.
  rewrite hdr_set_is_free, hdr_set_head.
  set (s2 := set_prev (set_next s b _) b NULL).
  assert (H2 : forall x, shape s2 x = shape s x)
    by (intros x; subst s2; now rewrite shape_set_prev, shape_set_next).
  set (s3 := if truthy _ then _ else s2).
  assert (H3 : forall x, shape s3 x = shape s x).
  { intros x. subst s3. destruct (truthy _); [rewrite shape_set_prev |]; apply H2. }
  case_decide as Hab; [subst a; cbn [size] |].
  - pose proof (H3 b) as Hb. unfold shape in Hb. now injection Hb.
  - pose proof (H3 a) as Ha. unfold shape in Ha. now injection Ha.
Qed.

Lemma sizes_ok_add_to_free_list s b :
  sizes_ok s -> sizes_ok (add_to_free_list s b).
Proof. intros Hok a. rewrite size_add_to_free_list. apply Hok. Qed.

Lemma sizes_ok_with_stats s st : sizes_ok s -> sizes_ok (with_stats s st).
Proof. auto. Qed.

Lemma wadd_lt a b : wadd a b < two64.
Proof. apply wrap_lt. Qed.

Lemma wsub_lt a b : wsub a b < two64.
Proof. apply wrap_lt. Qed.

Lemma sizes_ok_split_block s b n : sizes_ok s -> sizes_ok (split_block s b n).
Proof.
  intros Hok. unfold split_block. cbv zeta.
  match goal with |- context [if ?c then _ else _] => destruct c end;
    [| assumption].
  apply sizes_ok_with_stats, sizes_ok_add_to_free_list.
  apply sizes_ok_set_size; [apply align_size_lt |].
  apply sizes_ok_set_prev, sizes_ok_set_next, sizes_ok_set_is_mmap,
    sizes_ok_set_is_free.
  apply sizes_ok_set_size; [apply wsub_lt | assumption].
Qed.

Lemma sizes_ok_expand_heap s t : sizes_ok s -> sizes_ok (snd (expand_heap s t)).
Proof.
  intros Hok. unfold expand_heap.
  set (alloc_size := if t <? BRK_INCREMENT then _ else _).
  assert (Ha : alloc_size < two64).
  { subst alloc_size. destruct (t <? BRK_INCREMENT); [reflexivity | apply align_size_lt]. }
  destruct (sbrk (os s) 0) as [old_brk o1]. cbv zeta.
  destruct (old_brk =? SBRK_FAILED); [exact Hok |].
  destruct (sbrk _ alloc_size) as [new_brk o2].
  destruct (new_brk =? SBRK_FAILED); [exact Hok |].
  match goal with |- context [sbrk ?o 0] => destruct (sbrk o 0) as [cur o3] end.
  cbn [snd].
  apply sizes_ok_set_prev, sizes_ok_set_next, sizes_ok_set_is_mmap,
    sizes_ok_set_is_free.
  apply sizes_ok_set_size; [exact Ha |].
  intros a. rewrite hdr_with_heap, hdr_with_os.
  destruct (heap_start _ =? NULL); apply Hok.
Qed.

Lemma sizes_ok_coalesce fuel : forall s b b' s',
  coalesce fuel s b = Done (b', s') -> sizes_ok s -> sizes_ok s'.
Proof.
  induction fuel as [| fuel IH]; intros s b b' s' H Hok; cbn [coalesce] in H;
    [discriminate |].
  repeat match type of H with
         | (if ?c then _ else _) = _ => destruct c
         end;
    try (now apply Done_pair_inj in H as [_ <-]).
  apply IH in H; [assumption |].
  apply sizes_ok_with_stats, sizes_ok_set_size; [apply wadd_lt |].
  now apply sizes_ok_remove_from_free_list.
Qed.

Lemma sizes_ok_malloc fuel s n p s' :
  mem_malloc fuel s n = Done (p, s') -> sizes_ok s -> sizes_ok s'.
Proof.
  unfold mem_malloc. intros H Hok.
  destruct (n =? 0); [now apply Done_pair_inj in H as [_ <-] |].
  destruct (MMAP_THRESHOLD <=? _).
  - destruct (mmap _ _) as [ptr o1].
    destruct (ptr =? MAP_FAILED); apply Done_pair_inj in H as [_ <-]; [exact Hok |].
    apply sizes_ok_with_stats, sizes_ok_set_prev, sizes_ok_set_next,
      sizes_ok_set_is_mmap, sizes_ok_set_is_free.
    apply sizes_ok_set_size; [apply align_size_lt | exact Hok].
  - destruct (find_free_block _ _ _) as [found | |]; cbn [obind] in H; try discriminate.
    destruct (if found =? NULL then _ else _) as [block s1] eqn:E1.
    assert (Hs1 : sizes_ok s1).
    { destruct (found =? NULL).
      - pose proof (sizes_ok_expand_heap s (align_size (wadd n HDR)) Hok) as Hx.
        now rewrite E1 in Hx.
      - now apply pair_equal_spec in E1 as [_ <-]. }
    destruct (block =? NULL); apply Done_pair_inj in H as [_ <-]; [exact Hs1 |].
    apply sizes_ok_with_stats, sizes_ok_set_is_free, sizes_ok_split_block.
    now apply sizes_ok_remove_from_free_list.
Qed.

Lemma sizes_ok_free fuel s p s' :
  mem_free fuel s p = Done s' -> sizes_ok s -> sizes_ok s'.
Proof.
  unfold mem_free. intros H Hok.
  destruct (p =? NULL); [now apply Done_inj in H as <- |].
  destruct (truthy _).
  - apply Done_inj in H as <-. intros a. unfold hdr. cbn [hdrs with_hdrs].
    destruct (decide (p - HDR = a)) as [-> | Hne].
    + rewrite lookup_delete_eq. reflexivity.
    + rewrite lookup_delete_ne by assumption. apply Hok.
  - destruct (coalesce _ _ _) as [[b' s3] | |] eqn:Ec; cbn [obind] in H;
      try discriminate.
    apply Done_inj in H as <-. apply sizes_ok_add_to_free_list.
    apply sizes_ok_coalesce in Ec; [assumption |].
    now apply sizes_ok_set_is_free, sizes_ok_with_stats.
Qed.

Lemma sizes_ok_step s s' : step s s' -> sizes_ok s -> sizes_ok s'.
Proof.
  intros [fuel n p H | fuel p H | fuel a b p H | fuel p n q H | ->] Hok.
  - eapply sizes_ok_malloc; eauto.
  - eapply sizes_ok_free; eauto.
  - unfold mem_calloc in H.
    destruct (_ || _); [now apply Done_pair_inj in H as [_ <-] |].
    destruct (negb _); [now apply Done_pair_inj in H as [_ <-] |].
    destruct (mem_malloc _ _ _) as [[ptr s1] | |] eqn:Em; cbn [obind] in H;
      try discriminate.
    apply sizes_ok_malloc in Em; [| assumption].
    destruct (truthy ptr); [| now apply Done_pair_inj in H as [_ <-]].
    destruct (memset _ _ _ _) as [s2 | |] eqn:Es; cbn [obind] in H; try discriminate.
    apply Done_pair_inj in H as [_ <-].
    apply memset_stats in Es as (_ & Hh & _).
    intros x. unfold hdr. rewrite Hh. apply Em.
  - unfold mem_realloc in H.
    destruct (p =? NULL); [eapply sizes_ok_malloc; eauto |].
    destruct (n =? 0).
    { destruct (mem_free _ _ _) as [s1 | |] eqn:Ef; cbn [obind] in H; try discriminate.
      apply Done_pair_inj in H as [_ <-]. eapply sizes_ok_free; eauto. }
    destruct (n <=? _); [now apply Done_pair_inj in H as [_ <-] |].
    destruct (mem_malloc _ _ _) as [[np s1] | |] eqn:Em; cbn [obind] in H;
      try discriminate.
    apply sizes_ok_malloc in Em; [| assumption].
    destruct (np =? NULL); [now apply Done_pair_inj in H as [_ <-] |].
    destruct (memcpy _ _ _ _) as [s2 | |] eqn:Ec; cbn [obind] in H; try discriminate.
    apply memcpy_stats in Ec as (_ & Hh & _).
    destruct (mem_free _ _ _) as [s3 | |] eqn:Ef; cbn [obind] in H; try discriminate.
    apply Done_pair_inj in H as [_ <-].
    eapply sizes_ok_free; [exact Ef |].
    intros x. unfold hdr. rewrite Hh. apply Em.
  - exact Hok.
Qed.

Lemma reachable_sizes_ok s : reachable s -> sizes_ok s.
Proof.
  intros [o Hr].
  apply (rtc_ind_r (R := step) sizes_ok (initial_state o)); [| | exact Hr].
  - intros a. reflexivity.
  - intros y z _ Hstep IH. now apply sizes_ok_step with y.
Qed.

Lemma size_split_block s b n :
  size (hdr (split_block s b n) b) = total_size n \/
  size (hdr (split_block s b n) b) = size (hdr s b).
Proof.
  unfold split_block. cbv zeta. fold (total_size n).
  match goal with |- context [if ?c then _ else _] => destruct c end;
    [left | now right].
  rewrite hdr_with_stats, size_add_to_free_list, hdr_set_size.
  now rewrite decide_True by reflexivity.
Qed.

Lemma expand_heap_size s t b s1 :
  t + 15 < two64 ->
  expand_heap s t = (b, s1) -> b <> NULL -> t <= size (hdr s1 b).
Proof.
  intros Ht. unfold expand_heap.
  set (alloc_size := if t <? BRK_INCREMENT then _ else _).
  assert (Ha : t <= alloc_size).
  { subst alloc_size. destruct (N.ltb_spec t BRK_INCREMENT); [lia |].
    now apply align_size_ge. }
  destruct (sbrk (os s) 0) as [old_brk o1]. cbv zeta.
  destruct (old_brk =? SBRK_FAILED); [intros [= <- _] []; reflexivity |].
  destruct (sbrk _ alloc_size) as [new_brk o2].
  destruct (new_brk =? SBRK_FAILED); [intros [= <- _] []; reflexivity |].
  match goal with |- context [sbrk ?o 0] => destruct (sbrk o 0) as [cur o3] end.
  intros H _. apply pair_equal_spec in H as [<- <-].
  hdr_norm. exact Ha.
Qed.

(** A block handed out by [mem_malloc] is at least as long as the rounded
    size of the request. *)
Lemma malloc_block_size fuel s n p s' :
  mem_malloc fuel s n = Done (p, s') -> p <> NULL ->
  total_size n <= size (hdr s' (p - HDR)).
Proof.
  unfold mem_malloc. fold (total_size n). intros H Hp.
  destruct (n =? 0); [apply Done_pair_inj in H as [<- _]; contradiction |].
  destruct (N.leb_spec MMAP_THRESHOLD (total_size n)) as [Hbig | Hsmall].
  - destruct (mmap _ _) as [ptr o1].
    destruct (ptr =? MAP_FAILED); apply Done_pair_inj in H as [<- <-];
      [contradiction |].
    replace (ptr + HDR - HDR) with ptr by lia.
    hdr_norm. lia.
  - destruct (find_free_block _ _ _) as [found | |] eqn:Ef; cbn [obind] in H;
      try discriminate.
    destruct (if found =? NULL then _ else _) as [block s1] eqn:E1.
    destruct (block =? NULL) eqn:Eb; apply Done_pair_inj in H as [<- <-];
      [contradiction |].
    apply N.eqb_neq in Eb.
    replace (block + HDR - HDR) with block by lia.
    assert (Hs1 : total_size n <= size (hdr s1 block)).
    { destruct (found =? NULL).
      - apply expand_heap_size in E1; [assumption | | assumption].
        unfold MMAP_THRESHOLD, two64 in *. lia.
      - apply pair_equal_spec in E1 as [<- <-].
        now apply find_free_block_fits in Ef. }
    rewrite hdr_with_stats, hdr_set_is_free, decide_True by reflexivity.
    cbn [size].
    pose proof (shape_remove_from_free_list s1 block block) as Hsh.
    unfold shape in Hsh. injection Hsh as Hsz _ _.
    destruct (size_split_block (remove_from_free_list s1 block) block n) as [-> | ->];
      [lia | now rewrite Hsz].
Qed.

(** The shrink law where the request does not wrap: in a reachable state, a
    block obtained for [a] bytes with [a + HDR + 15] below [2^64] is resized
    in place to any [b] with [0 < b <= a]. *)
Lemma realloc_shrink_in_place fuel fuel' s a p s' b :
  reachable s ->
  a + HDR + 15 < two64 ->
  mem_malloc fuel s a = Done (p, s') -> p <> NULL ->
  0 < b -> b <= a ->
  mem_realloc fuel' s' p b = Done (p, s').
Proof.
  intros Hr Ha Hm Hp Hb Hba.
  pose proof (malloc_block_size _ _ _ _ _ Hm Hp) as Hsz.
  pose proof (total_size_fits a) as Hfit.
  assert (Hok : sizes_ok s')
    by (eapply sizes_ok_malloc; [exact Hm | now apply reachable_sizes_ok]).
  specialize (Hok (p - HDR)).
  unfold mem_realloc.
  apply N.eqb_neq in Hp as ->.
  assert ((b =? 0) = false) as -> by (apply N.eqb_neq; lia).
  assert ((b <=? wsub (size (hdr s' (p - HDR))) HDR) = true) as ->; [| reflexivity].
  apply N.leb_le. unfold wsub, wrap, HDR, two64 in *. lia.
Qed.

(** * Fuel

    A call that completes with some fuel completes with the same result with
    any larger fuel: the result of a completed call does not depend on the
    fuel it was given. *)

Lemma scan_list_mono fuel : forall fuel' s cur sz r,
  scan_list fuel s cur sz = Done r -> (fuel <= fuel')%nat ->
  scan_list fuel' s cur sz = Done r.
Proof.
  induction fuel as [| fuel IH]; intros fuel' s cur sz r H Hle;
    cbn [scan_list] in H; [discriminate |].
  destruct fuel' as [| fuel']; [lia |]. cbn [scan_list].
  destruct (cur =? NULL); [assumption |].
  destruct (_ && _); [assumption |].
  apply IH; [assumption | lia].
Qed.

Lemma scan_classes_mono fuel fuel' s sz : forall n i r,
  scan_classes fuel s i n sz = Done r -> (fuel <= fuel')%nat ->
  scan_classes fuel' s i n sz = Done r.
Proof.
  induction n as [| n IH]; intros i r H Hle; cbn [scan_classes] in *;
    [assumption |].
  destruct (scan_list fuel _ _ _) as [found | |] eqn:E; cbn [obind] in H;
    try discriminate.
  rewrite (scan_list_mono _ _ _ _ _ _ E Hle). cbn [obind].
  destruct (found =? NULL); [now apply IH | assumption].
Qed.

Lemma coalesce_mono fuel : forall fuel' s b r,
  coalesce fuel s b = Done r -> (fuel <= fuel')%nat ->
  coalesce fuel' s b = Done r.
Proof.
  induction fuel as [| fuel IH]; intros fuel' s b r H Hle;
    cbn [coalesce] in H; [discriminate |].
  destruct fuel' as [| fuel']; [lia |]. cbn [coalesce].
  repeat match type of H with
         | (if ?c then _ else _) = _ => destruct c
         end; try assumption.
  apply IH; [assumption | lia].
Qed.

Section FuelMonotone.

Variables fuel fuel' : nat.
Hypothesis fuel_le : (fuel <= fuel')%nat.

Lemma find_free_block_mono s sz r :
  find_free_block fuel s sz = Done r -> find_free_block fuel' s sz = Done r.
Proof.
  unfold find_free_block. intros H. now apply scan_classes_mono with fuel.
Qed.

Lemma coalesce_fuel_le s b r :
  coalesce fuel s b = Done r -> coalesce fuel' s b = Done r.
Proof. intros H. now apply coalesce_mono with fuel. Qed.

Lemma mem_malloc_mono s n r :
  mem_malloc fuel s n = Done r -> mem_malloc fuel' s n = Done r.
Proof.
  unfold mem_malloc. intros H.
  destruct (n =? 0); [assumption |].
  destruct (MMAP_THRESHOLD <=? _); [assumption |].
  destruct (find_free_block fuel _ _) as [found | |] eqn:E; cbn [obind] in H;
    try discriminate.
  now rewrite (find_free_block_mono _ _ _ E).
Qed.

Lemma mem_free_mono s p r :
  mem_free fuel s p = Done r -> mem_free fuel' s p = Done r.
Proof.
  unfold mem_free. intros H.
  destruct (p =? NULL); [assumption |].
  destruct (truthy _); [assumption |].
  destruct (coalesce fuel _ _) as [[b' s3] | |] eqn:E; cbn [obind] in H;
    try discriminate.
  now rewrite (coalesce_fuel_le _ _ _ E).
Qed.

Lemma mem_calloc_mono s nmemb sz r :
  mem_calloc fuel s nmemb sz = Done r -> mem_calloc fuel' s nmemb sz = Done r.
Proof.
  unfold mem_calloc. intros H.
  destruct (_ || _); [assumption |].
  destruct (negb _); [assumption |].
  destruct (mem_malloc fuel _ _) as [[ptr s1] | |] eqn:E; cbn [obind] in H;
    try discriminate.
  now rewrite (mem_malloc_mono _ _ _ E).
Qed.

Lemma mem_realloc_mono s p n r :
  mem_realloc fuel s p n = Done r -> mem_realloc fuel' s p n = Done r.
Proof.
  unfold mem_realloc. intros H.
  destruct (p =? NULL); [now apply mem_malloc_mono |].
  destruct (n =? 0).
  { destruct (mem_free fuel _ _) as [s1 | |] eqn:E; cbn [obind] in H;
      try discriminate.
    now rewrite (mem_free_mono _ _ _ E). }
  destruct (n <=? _); [assumption |].
  destruct (mem_malloc fuel _ _) as [[np s1] | |] eqn:E; cbn [obind] in H;
    try discriminate.
  rewrite (mem_malloc_mono _ _ _ E). cbn [obind].
  destruct (np =? NULL); [assumption |].
  destruct (memcpy _ _ _ _) as [s2 | |]; cbn [obind] in *; try discriminate.
  destruct (mem_free fuel _ _) as [s3 | |] eqn:E3; cbn [obind] in H;
    try discriminate.
  now rewrite (mem_free_mono _ _ _ E3).
Qed.

End FuelMonotone.

(** * Zero-initialised allocation of a product that wraps when rounded *)

(** [mem_calloc] faults when [mem_malloc] returns a block whose payload range
    leaves the memory of the process. *)
Lemma calloc_faults fuel s nmemb sz p s1 :
  nmemb <> 0 -> sz <> 0 -> nmemb < two64 -> sz < two64 -> nmemb * sz < two64 ->
  mem_malloc fuel s (nmemb * sz) = Done (p, s1) -> p <> NULL ->
  accessible (os s1) p (nmemb * sz) = false ->
  mem_calloc fuel s nmemb sz = Fault.
Proof.
  intros Hn0 Hs0 Hn Hs Hfit Em Hp Hacc.
  rewrite (calloc_guards_pass fuel s nmemb sz Hn0 Hs0 Hn Hs Hfit), Em.
  cbn [obind].
  assert (truthy p = true) as ->
    by (unfold truthy; now apply negb_true_iff, N.eqb_neq).
  unfold memset. rewrite Hacc. reflexivity.
Qed.

(** A request above [SIZE_MAX - HDR - 15], made on the fresh allocator, gets
    the first block of the heap, and its payload range leaves the memory of
    the process. *)
Lemma malloc_wrapped_fresh fuel n :
  SIZE_MAX - HDR - 15 < n -> n <= SIZE_MAX ->
  exists s1,
    mem_malloc (S fuel) fresh n = Done (4128, s1) /\
    size (hdr s1 (4128 - HDR)) = total_size n /\
    accessible (os s1) 4128 n = false.
Proof.
  intros Hlo Hhi.
  assert (Hn : n <> 0) by (unfold SIZE_MAX, HDR in Hlo; lia).
  assert (Hfuel : (1 <= S fuel)%nat) by lia.
  assert (Hacc : forall s1,
    os s1 = mk_os 4096 (4096 + BRK_INCREMENT) (4096 + 16 * 65536)
                  1048576000 2097152000 [] ->
    accessible (os s1) 4128 n = false).
  { intros s1 ->. unfold accessible. cbn [brk_base brk maps existsb].
    rewrite orb_false_r. apply andb_false_iff. right. apply N.leb_gt.
    unfold SIZE_MAX, HDR, BRK_INCREMENT in *. lia. }
  destruct (total_size_wrapped n Hlo Hhi) as [Ht | [Ht | Ht]].
  - exists (state_of (mem_malloc 1 fresh (SIZE_MAX - 46)) fresh).
    split; [| split].
    + apply (mem_malloc_mono 1 (S fuel) Hfuel).
      rewrite (malloc_same_total 1 fresh n (SIZE_MAX - 46) Hn) by
        (discriminate || (rewrite Ht; reflexivity)).
      vm_compute. reflexivity.
    + rewrite Ht. vm_compute. reflexivity.
    + apply Hacc. vm_compute. reflexivity.
  - exists (state_of (mem_malloc 1 fresh (SIZE_MAX - 30)) fresh).
    split; [| split].
    + apply (mem_malloc_mono 1 (S fuel) Hfuel).
      rewrite (malloc_same_total 1 fresh n (SIZE_MAX - 30) Hn) by
        (discriminate || (rewrite Ht; reflexivity)).
      vm_compute. reflexivity.
    + rewrite Ht. vm_compute. reflexivity.
    + apply Hacc. vm_compute. reflexivity.
  - exists (state_of (mem_malloc 1 fresh SIZE_MAX) fresh).
    split; [| split].
    + apply (mem_malloc_mono 1 (S fuel) Hfuel).
      rewrite (malloc_same_total 1 fresh n SIZE_MAX Hn) by
        (discriminate || (rewrite Ht; reflexivity)).
      vm_compute. reflexivity.
    + rewrite Ht. vm_compute. reflexivity.
    + apply Hacc. vm_compute. reflexivity.
Qed.

(** C4 (the code at the failing inputs).  The overflow check of [mem_calloc]
    lets through every product that fits in a [size_t], including those that
    [mem_malloc] cannot serve.  For factors whose product lies above
    [SIZE_MAX - HDR - 15], as for [(SIZE_MAX, 1)], the product does not
    overflow; on the fresh allocator [mem_malloc] of the product returns a
    non-null address whose block is at most 32 bytes long, header included,
    and the payload range does not belong to the process; [mem_calloc] then
    faults in its [memset], for any fuel, where the contract promises the
    behaviour of the allocation with zeroed payload bytes. *)
Theorem calloc_faults_on_wrapped_product fuel nmemb sz :
  nmemb <> 0 -> sz <> 0 -> nmemb < two64 -> sz < two64 ->
  SIZE_MAX - HDR - 15 < nmemb * sz -> nmemb * sz <= SIZE_MAX ->
  (exists p s1,
     mem_malloc (S fuel) fresh (nmemb * sz) = Done (p, s1) /\
     p <> NULL /\
     size (hdr s1 (p - HDR)) <= 32 /\
     accessible (os s1) p (nmemb * sz) = false) /\
  mem_calloc (S fuel) fresh nmemb sz = Fault.
Proof.
  intros Hn0 Hs0 Hn Hs Hlo Hhi.
  destruct (malloc_wrapped_fresh fuel (nmemb * sz) Hlo Hhi) as (s1 & Em & Hsz & Hacc).
  assert (Hfit : nmemb * sz < two64) by (unfold SIZE_MAX, two64 in *; lia).
  split.
  - exists 4128, s1. split; [exact Em |]. split; [discriminate |].
    split; [| exact Hacc]. rewrite Hsz.
    destruct (total_size_wrapped (nmemb * sz) Hlo Hhi) as [Ht | [Ht | Ht]];
      rewrite Ht; lia.
  - apply (calloc_faults (S fuel) fresh nmemb sz 4128 s1); try assumption.
    discriminate.
Qed.

Lemma calloc_faults_on_wrapped_product_witness :
  (exists p s1,
     mem_malloc 1 fresh (SIZE_MAX * 1) = Done (p, s1) /\
     p <> NULL /\
     size (hdr s1 (p - HDR)) <= 32 /\
     accessible (os s1) p (SIZE_MAX * 1) = false) /\
  mem_calloc 1 fresh SIZE_MAX 1 = Fault.
Proof.
  apply (calloc_faults_on_wrapped_product 0 SIZE_MAX 1).
  - discriminate.
  - discriminate.
  - reflexivity.
  - reflexivity.
  - reflexivity.
  - discriminate.
Defined.

(** * Heap extension and the class-9 list *)

Lemma expand_heap_header s t b s1 :
  expand_heap s t = (b, s1) -> b <> NULL ->
  hdr s1 b = mk_header (if t <? BRK_INCREMENT then BRK_INCREMENT else align_size t)
                       NULL NULL 1 0 /\
  free_lists s1 = free_lists s.
Proof.
  unfold expand_heap.
  set (alloc_size := if t <? BRK_INCREMENT then _ else _).
  destruct (sbrk (os s) 0) as [old_brk o1]. cbv zeta.
  destruct (old_brk =? SBRK_FAILED); [intros [= <- _] []; reflexivity |].
  destruct (sbrk _ alloc_size) as [new_brk o2].
  destruct (new_brk =? SBRK_FAILED); [intros [= <- _] []; reflexivity |].
  match goal with |- context [sbrk ?o 0] => destruct (sbrk o 0) as [cur o3] end.
  intros H _. apply pair_equal_spec in H as [<- <-].
  split; [hdr_norm; reflexivity |].
  autorewrite with proj_rw. now destruct (heap_start s =? NULL).
Qed.

Lemma nth_insert_same (l : list N) (i : nat) (v : N) :
  v = NULL -> nth i (<[i := v]> l) NULL = NULL.
Proof.
  intros ->. revert i. induction l as [| x l IH]; intros [| i]; cbn; auto.
Qed.

(** Whenever [mem_malloc] has extended the heap by a block of more than 8192
    bytes, its call of [remove_from_free_list] on that block, which is on no
    list, leaves the class-9 list head null, whatever the list held before. *)
Lemma fresh_block_removal_clears_class9 s t b s1 :
  8192 < t -> t + 15 < two64 ->
  expand_heap s t = (b, s1) -> b <> NULL ->
  head (remove_from_free_list s1 b) 9 = NULL.
Proof.
  intros Ht Ht' He Hb.
  pose proof (expand_heap_size _ _ _ _ Ht' He Hb) as Hsz.
  destruct (expand_heap_header _ _ _ _ He Hb) as [Hh _].
  unfold remove_from_free_list. cbv zeta.
  assert (Hc : get_size_class (size (hdr s1 b)) = 9%nat).
  { unfold get_size_class.
    repeat match goal with
           | |- context [?a <=? ?c] =>
               let E := fresh in destruct (N.leb_spec a c) as [E | E]; [lia |]
           end.
    reflexivity. }
  rewrite Hc, Hh. cbn [prev next truthy N.eqb negb NULL].
  rewrite hdr_set_head, Hh. cbn [prev next truthy N.eqb negb NULL].
  unfold head. autorewrite with proj_rw. now apply nth_insert_same.
Qed.

(** * List operations on singleton and empty free lists *)

Lemma header_eta h : mk_header (size h) (next h) (prev h) (is_free h) (is_mmap h) = h.
Proof. now destruct h. Qed.

Lemma remove_singleton s b :
  next (hdr s b) = NULL -> prev (hdr s b) = NULL ->
  free_lists (remove_from_free_list s b) =
    <[get_size_class (size (hdr s b)) := NULL]> (free_lists s) /\
  stats (remove_from_free_list s b) = stats s /\
  heap_start (remove_from_free_list s b) = heap_start s /\
  heap_end (remove_from_free_list s b) = heap_end s /\
  os (remove_from_free_list s b) = os s /\
  forall a, hdr (remove_from_free_list s b) a = hdr s a.
Proof.
  intros Hn Hp. unfold remove_from_free_list. cbv zeta.
  rewrite Hp, Hn. cbn [truthy N.eqb NULL negb].
  rewrite hdr_set_head, Hn. cbn [truthy N.eqb NULL negb].
  autorewrite with proj_rw.
  repeat (split; [reflexivity |]).
  intros a. rewrite hdr_set_prev. case_decide as Ha.
  - subst a. rewrite hdr_set_next, decide_True by reflexivity.
    cbn [size next prev is_free is_mmap]. rewrite hdr_set_head.
    rewrite <- Hn at 1. rewrite <- Hp at 1. apply header_eta.
  - rewrite hdr_set_next, decide_False by assumption. apply hdr_set_head.
Qed.

Lemma add_to_empty s b :
  head s (get_size_class (size (hdr s b))) = NULL ->
  free_lists (add_to_free_list s b) =
    <[get_size_class (size (hdr s b)) := b]> (free_lists s) /\
  stats (add_to_free_list s b) = stats s /\
  heap_start (add_to_free_list s b) = heap_start s /\
  heap_end (add_to_free_list s b) = heap_end s /\
  os (add_to_free_list s b) = os s /\
  forall a, hdr (add_to_free_list s b) a =
    if decide (b = a)
    then mk_header (size (hdr s b)) NULL NULL 1 (is_mmap (hdr s b))
    else hdr s a.
Proof.
  intros Hh. unfold add_to_free_list. cbv zeta.
  assert (Hh2 : head (set_prev (set_next s b (head s (get_size_class (size (hdr s b))))) b NULL)
                  (get_size_class (size (hdr s b))) = NULL) by exact Hh.
  rewrite Hh2. cbn [truthy N.eqb NULL negb].
  autorewrite with proj_rw.
  repeat (split; [reflexivity |]).
  intros a. rewrite hdr_set_is_free. case_decide as Ha.
  - rewrite hdr_set_head, hdr_set_prev, decide_True by reflexivity.
    cbn [size next prev is_free is_mmap].
    rewrite hdr_set_next, decide_True by reflexivity.
    cbn [size next prev is_free is_mmap]. now rewrite Hh.
  - rewrite hdr_set_head, hdr_set_prev, decide_False by assumption.
    now rewrite hdr_set_next, decide_False by assumption.
Qed.

(** * Splitting *)

Lemma split_block_spec s b n :
  wadd (wadd (total_size n) HDR) MIN_BLOCK_SIZE <= size (hdr s b) ->
  total_size n <> 0 ->
  head s (get_size_class (wsub (size (hdr s b)) (total_size n))) = NULL ->
  free_lists (split_block s b n) =
    <[get_size_class (wsub (size (hdr s b)) (total_size n)) := b + total_size n]>
      (free_lists s) /\
  stats (split_block s b n) = stats_split (stats s) /\
  heap_start (split_block s b n) = heap_start s /\
  heap_end (split_block s b n) = heap_end s /\
  os (split_block s b n) = os s /\
  forall a, hdr (split_block s b n) a =
    if decide (b + total_size n = a)
    then mk_header (wsub (size (hdr s b)) (total_size n)) NULL NULL 1 0
    else if decide (b = a)
    then mk_header (total_size n) (next (hdr s b)) (prev (hdr s b))
                   (is_free (hdr s b)) (is_mmap (hdr s b))
    else hdr s a.
Proof.
  intros Hc Ht Hh. unfold split_block. fold (total_size n). cbv zeta.
  apply N.leb_le in Hc. rewrite Hc.
  set (nb := b + total_size n).
  assert (Hnb : nb <> b) by (subst nb; lia).
  set (s6 := set_size _ b (total_size n)).
  assert (H6 : forall a, hdr s6 a =
    if decide (nb = a)
    then mk_header (wsub (size (hdr s b)) (total_size n)) NULL NULL 1 0
    else if decide (b = a)
    then mk_header (total_size n) (next (hdr s b)) (prev (hdr s b))
                   (is_free (hdr s b)) (is_mmap (hdr s b))
    else hdr s a).
  { intros a. subst s6. rewrite hdr_set_size.
    destruct (decide (b = a)) as [<- | Hba].
    - rewrite decide_False by assumption.
      rewrite hdr_set_prev, decide_False by assumption.
      rewrite hdr_set_next, decide_False by assumption.
      rewrite hdr_set_is_mmap, decide_False by assumption.
      rewrite hdr_set_is_free, decide_False by assumption.
      rewrite hdr_set_size, decide_False by assumption. reflexivity.
    - rewrite hdr_set_prev. case_decide as Hna; [| ].
      + rewrite hdr_set_next, decide_True by reflexivity. cbn [size next prev is_free is_mmap].
        rewrite hdr_set_is_mmap, decide_True by reflexivity. cbn [size next prev is_free is_mmap].
        rewrite hdr_set_is_free, decide_True by reflexivity. cbn [size next prev is_free is_mmap].
        rewrite hdr_set_size, decide_True by reflexivity. reflexivity.
      + rewrite hdr_set_next, decide_False by assumption.
        rewrite hdr_set_is_mmap, decide_False by assumption.
        rewrite hdr_set_is_free, decide_False by assumption.
        rewrite hdr_set_size, decide_False by assumption. reflexivity. }
  assert (Hsz : size (hdr s6 nb) = wsub (size (hdr s b)) (total_size n))
    by (rewrite H6, decide_True by reflexivity; reflexivity).
  assert (Hfl : free_lists s6 = free_lists s)
    by (subst s6; now autorewrite with proj_rw).
  destruct (add_to_empty s6 nb) as (A1 & A2 & A3 & A4 & A5 & A6).
  { rewrite Hsz. unfold head. rewrite Hfl. exact Hh. }
  autorewrite with proj_rw. rewrite A1, A2, A3, A4, A5, Hsz, Hfl.
  subst s6. autorewrite with proj_rw.
  repeat (split; [reflexivity |]).
  intros a. rewrite hdr_with_stats, A6.
  case_decide as Hna.
  - rewrite H6, decide_True by reflexivity. reflexivity.
  - rewrite H6, decide_False by assumption. reflexivity.
Qed.

(** * Heap extension *)

Lemma sbrk_ok o incr :
  incr < two63 ->
  brk o + incr <= brk_limit o ->
  exists o', sbrk o incr = (brk o, o') /\
             brk o' = brk o + incr /\ brk_limit o' = brk_limit o.
Proof.
  intros Hi H. unfold sbrk. apply N.ltb_lt in Hi as ->. apply N.leb_le in H as ->.
  eexists. split; [reflexivity |]. now split.
Qed.

Lemma expand_heap_spec s t :
  let alloc_size := if t <? BRK_INCREMENT then BRK_INCREMENT else align_size t in
  brk (os s) <> NULL ->
  alloc_size <> 0 ->
  alloc_size < two63 ->
  brk (os s) + alloc_size <= brk_limit (os s) ->
  brk_limit (os s) <= SIZE_MAX ->
  exists s1,
    expand_heap s t = (brk (os s), s1) /\
    free_lists s1 = free_lists s /\
    stats s1 = stats s /\
    heap_start s1 = (if heap_start s =? NULL then brk (os s) else heap_start s) /\
    heap_end s1 = brk (os s) + alloc_size /\
    brk (os s1) = brk (os s) + alloc_size /\
    forall a, hdr s1 a =
      if decide (brk (os s) = a) then mk_header alloc_size NULL NULL 1 0 else hdr s a.
Proof.
  intros alloc_size Hb Ha Hpos Hroom Hlim. unfold expand_heap. fold alloc_size.
  destruct (sbrk_ok (os s) 0) as (o1 & E0 & _ & _); [reflexivity | lia |].
  rewrite E0. apply sbrk_zero in E0 as ->. cbv zeta. rewrite with_os_same.
  assert ((brk (os s) =? SBRK_FAILED) = false) as Hnf
    by (apply N.eqb_neq; unfold SBRK_FAILED, SIZE_MAX in *; lia).
  rewrite Hnf.
  destruct (sbrk_ok (os s) alloc_size Hpos Hroom) as (o2 & E1 & Hb2 & Hl2).
  rewrite E1, Hnf.
  set (s2 := if heap_start (with_os s o2) =? NULL then _ else _).
  assert (F : os s2 = o2 /\ free_lists s2 = free_lists s /\ stats s2 = stats s /\
              heap_start s2 = (if heap_start s =? NULL then brk (os s) else heap_start s) /\
              forall a, hdr s2 a = hdr s a).
  { subst s2. rewrite heap_start_with_os.
    destruct (heap_start s =? NULL); autorewrite with proj_rw; auto. }
  destruct F as (F0 & F1 & F2 & F3 & F4).
  rewrite F0.
  destruct (sbrk_ok o2 0) as (o3 & E2 & Hb3 & _); [reflexivity | lia |].
  rewrite E2. rewrite N.add_0_r in Hb3.
  eexists. split; [reflexivity |].
  autorewrite with proj_rw.
  rewrite F1, F2, F3, Hb3, Hb2.
  repeat (split; [reflexivity |]).
  intros a.
  rewrite hdr_set_prev. case_decide as Hba.
  - rewrite hdr_set_next, decide_True by reflexivity. cbn [size next prev is_free is_mmap].
    rewrite hdr_set_is_mmap, decide_True by reflexivity. cbn [size next prev is_free is_mmap].
    rewrite hdr_set_is_free, decide_True by reflexivity. cbn [size next prev is_free is_mmap].
    rewrite hdr_set_size, decide_True by reflexivity. reflexivity.
  - rewrite hdr_set_next, decide_False by assumption.
    rewrite hdr_set_is_mmap, decide_False by assumption.
    rewrite hdr_set_is_free, decide_False by assumption.
    rewrite hdr_set_size, decide_False by assumption.
    rewrite hdr_with_heap, hdr_with_os. apply F4.
Qed.

(** * Searching the free lists *)

Lemma scan_list_null fuel s sz : scan_list (S fuel) s NULL sz = Done NULL.
Proof. reflexivity. Qed.

Lemma scan_list_head fuel s b sz :
  b <> NULL -> truthy (is_free (hdr s b)) = true -> sz <= size (hdr s b) ->
  scan_list (S fuel) s b sz = Done b.
Proof.
  intros Hb Hf Hs. cbn [scan_list].
  apply N.eqb_neq in Hb as ->. apply N.leb_le in Hs as ->. now rewrite Hf.
Qed.

Lemma scan_classes_none fuel s sz : forall n i,
  (forall j, (i <= j < i + n)%nat -> head s j = NULL) ->
  scan_classes (S fuel) s i n sz = Done NULL.
Proof.
  induction n as [| n IH]; intros i H; cbn [scan_classes]; [reflexivity |].
  rewrite (H i) by lia. rewrite scan_list_null. cbn [obind].
  change (NULL =? NULL) with true. cbv iota.
  apply IH. intros j Hj. apply H. lia.
Qed.

Lemma scan_classes_last fuel s sz b : forall n i,
  (forall j, (i <= j < i + n)%nat -> head s j = NULL) ->
  head s (i + n) = b ->
  b <> NULL -> truthy (is_free (hdr s b)) = true -> sz <= size (hdr s b) ->
  scan_classes (S fuel) s i (S n) sz = Done b.
Proof.
  induction n as [| n IH]; intros i H Hh Hb Hf Hs; cbn [scan_classes].
  - rewrite Nat.add_0_r in Hh. rewrite Hh.
    rewrite scan_list_head by assumption. cbn [obind].
    now apply N.eqb_neq in Hb as ->.
  - rewrite (H i) by lia. rewrite scan_list_null. cbn [obind].
    change (NULL =? NULL) with true. cbv iota.
    apply (IH (S i)); try assumption.
    + intros j Hj. apply H. lia.
    + now replace (S i + n)%nat with (i + S n)%nat by lia.
Qed.

Lemma get_size_class_le sz : (get_size_class sz <= 9)%nat.
Proof. unfold get_size_class. repeat (destruct (_ <=? _); [lia |]). lia. Qed.

Lemma find_free_block_none fuel s sz :
  (forall j, (get_size_class sz <= j < 10)%nat -> head s j = NULL) ->
  find_free_block (S fuel) s sz = Done NULL.
Proof.
  intros H. unfold find_free_block. apply scan_classes_none.
  intros j Hj. apply H. pose proof (get_size_class_le sz). unfold NUM_SIZE_CLASSES in *. lia.
Qed.

Lemma find_free_block_class9 fuel s sz b :
  (forall j, (get_size_class sz <= j < 9)%nat -> head s j = NULL) ->
  head s 9 = b ->
  b <> NULL -> truthy (is_free (hdr s b)) = true -> sz <= size (hdr s b) ->
  find_free_block (S fuel) s sz = Done b.
Proof.
  intros H Hh Hb Hf Hs. unfold find_free_block.
  pose proof (get_size_class_le sz) as Hc.
  replace (NUM_SIZE_CLASSES - get_size_class sz)%nat
    with (S (9 - get_size_class sz)) by (unfold NUM_SIZE_CLASSES; lia).
  apply scan_classes_last; try assumption.
  - intros j Hj. apply H. lia.
  - now replace (get_size_class sz + (9 - get_size_class sz))%nat with 9%nat by lia.
Qed.

(** * One step of [coalesce] *)

Lemma coalesce_stop fuel s b :
  b <> NULL -> truthy (is_mmap (hdr s b)) = false ->
  forward_mergeable s b = false ->
  coalesce (S fuel) s b = Done (b, s).
Proof.
  intros Hb Hm Hf. cbn [coalesce].
  apply N.eqb_neq in Hb as ->. rewrite Hm. cbn [orb].
  unfold forward_mergeable, free_block in Hf. cbv zeta in Hf.
  destruct (_ || _); [reflexivity |].
  destruct (heap_end s <? _); [reflexivity |].
  cbn [negb andb] in Hf. now rewrite Hf.
Qed.

Lemma coalesce_merge fuel s b :
  b <> NULL -> truthy (is_mmap (hdr s b)) = false ->
  forward_mergeable s b = true ->
  coalesce (S fuel) s b =
  let nb := b + size (hdr s b) in
  let s1 := remove_from_free_list s nb in
  let s2 := set_size s1 b (wadd (size (hdr s1 b)) (size (hdr s1 nb))) in
  coalesce fuel (with_stats s2 (stats_coalesce (stats s2))) b.
Proof.
  intros Hb Hm Hf. cbn [coalesce].
  apply N.eqb_neq in Hb as ->. rewrite Hm. cbn [orb].
  unfold forward_mergeable, free_block in Hf. cbv zeta in Hf.
  destruct (_ || _); [discriminate |].
  destruct (heap_end s <? _); [discriminate |].
  cbn [negb andb] in Hf. now rewrite Hf.
Qed.

(** * [mem_malloc] on the heap path *)

Lemma get_size_class_large sz : 8192 < sz -> get_size_class sz = 9%nat.
Proof.
  intros H. unfold get_size_class.
  repeat match goal with
         | |- context [?a <=? ?c] =>
             let E := fresh in destruct (N.leb_spec a c) as [E | E]; [lia |]
         end.
  reflexivity.
Qed.

Lemma nth_insert_null (l : list N) (i : nat) : nth i (<[i := NULL]> l) NULL = NULL.
Proof. now apply nth_insert_same. Qed.

(** A request served by extending the heap by one increment. *)
Lemma malloc_expand_spec fuel s n :
  n <> 0 -> total_size n <> 0 ->
  total_size n + 8192 + HDR + MIN_BLOCK_SIZE < BRK_INCREMENT ->
  find_free_block fuel s (total_size n) = Done NULL ->
  brk (os s) <> NULL ->
  brk (os s) + BRK_INCREMENT <= brk_limit (os s) ->
  brk_limit (os s) <= SIZE_MAX ->
  exists s',
    mem_malloc fuel s n = Done (brk (os s) + HDR, s') /\
    free_lists s' = <[9%nat := brk (os s) + total_size n]> (free_lists s) /\
    stats s' = stats_alloc (stats_split (stats s)) (total_size n) /\
    heap_start s' = (if heap_start s =? NULL then brk (os s) else heap_start s) /\
    heap_end s' = brk (os s) + BRK_INCREMENT /\
    forall a, hdr s' a =
      if decide (brk (os s) + total_size n = a)
      then mk_header (BRK_INCREMENT - total_size n) NULL NULL 1 0
      else if decide (brk (os s) = a)
      then mk_header (total_size n) NULL NULL 0 0
      else hdr s a.
Proof.
  intros Hn Ht Hsmall Hfind Hb Hroom Hlim.
  set (B := brk (os s)) in *. set (T := total_size n) in *.
  unfold mem_malloc. fold (total_size n). fold T.
  apply N.eqb_neq in Hn as ->.
  assert ((MMAP_THRESHOLD <=? T) = false) as ->
    by (apply N.leb_gt; unfold MMAP_THRESHOLD, BRK_INCREMENT, HDR, MIN_BLOCK_SIZE in *; lia).
  rewrite Hfind. cbn [obind]. change (NULL =? NULL) with true. cbv iota.
  destruct (expand_heap_spec s T) as (s1 & E & F1 & F2 & F3 & F4 & F5 & F6);
    try assumption.
  { destruct (T <? BRK_INCREMENT) eqn:Elt; [discriminate |].
    apply N.ltb_ge in Elt. unfold BRK_INCREMENT, HDR, MIN_BLOCK_SIZE in *. lia. }
  { destruct (T <? BRK_INCREMENT) eqn:Elt; [reflexivity |].
    apply N.ltb_ge in Elt. unfold BRK_INCREMENT, HDR, MIN_BLOCK_SIZE in *. lia. }
  { destruct (T <? BRK_INCREMENT) eqn:Elt; [assumption |].
    apply N.ltb_ge in Elt. unfold BRK_INCREMENT, HDR, MIN_BLOCK_SIZE in *. lia. }
  assert (Hlt : (T <? BRK_INCREMENT) = true)
    by (apply N.ltb_lt; unfold BRK_INCREMENT, HDR, MIN_BLOCK_SIZE in *; lia).
  rewrite Hlt in *. fold B in E, F3, F4, F5, F6.
  rewrite E. apply N.eqb_neq in Hb as Hb'. rewrite Hb'.
  assert (H1B : hdr s1 B = mk_header BRK_INCREMENT NULL NULL 1 0)
    by (rewrite F6, decide_True by reflexivity; reflexivity).
  destruct (remove_singleton s1 B) as (R1 & R2 & R3 & R4 & R5 & R6);
    [now rewrite H1B | now rewrite H1B |].
  rewrite H1B in R1. cbn [size] in R1.
  change (get_size_class BRK_INCREMENT) with 9%nat in R1.
  set (s2 := remove_from_free_list s1 B) in *.
  assert (H2B : hdr s2 B = mk_header BRK_INCREMENT NULL NULL 1 0)
    by (now rewrite R6).
  assert (Hws : wsub BRK_INCREMENT T = BRK_INCREMENT - T).
  { unfold wsub, wrap, two64, BRK_INCREMENT, HDR, MIN_BLOCK_SIZE in *. lia. }
  destruct (split_block_spec s2 B n) as (S1 & S2 & S3 & S4 & S5 & S6).
  { fold T. rewrite H2B. cbn [size].
    unfold wadd, wrap, two64, BRK_INCREMENT, HDR, MIN_BLOCK_SIZE in *. lia. }
  { exact Ht. }
  { fold T. rewrite H2B. cbn [size]. rewrite Hws.
    rewrite get_size_class_large
      by (unfold BRK_INCREMENT, HDR, MIN_BLOCK_SIZE in *; lia).
    unfold head. rewrite R1. apply nth_insert_null. }
  fold T in S1, S6. rewrite H2B in S1, S6. cbn [size next prev is_free is_mmap] in S1, S6.
  rewrite Hws in S1, S6.
  rewrite get_size_class_large in S1
    by (unfold BRK_INCREMENT, HDR, MIN_BLOCK_SIZE in *; lia).
  set (s3 := split_block s2 B n) in *.
  eexists. split; [reflexivity |].
  autorewrite with proj_rw.
  rewrite S1, R1, list_insert_insert_eq, F1.
  split; [reflexivity |].
  split.
  { rewrite S2, R2, F2. f_equal.
    rewrite hdr_set_is_free, decide_True by reflexivity. cbn [size].
    rewrite S6. rewrite decide_False by lia. rewrite decide_True by reflexivity.
    reflexivity. }
  split; [now rewrite S3, R3, F3 |].
  split; [now rewrite S4, R4, F4 |].
  intros a. rewrite hdr_with_stats, hdr_set_is_free.
  destruct (decide (B = a)) as [<- | Hne].
  - rewrite decide_False by lia. rewrite S6.
    rewrite decide_False by lia. rewrite decide_True by reflexivity. reflexivity.
  - rewrite S6. case_decide; [reflexivity |].
    rewrite decide_False by assumption.
    rewrite R6, F6. now rewrite decide_False by assumption.
Qed.

(** A request served from a free block that is alone on its list and large
    enough to be split, the remainder staying in the same size class. *)
Lemma malloc_reuse_spec fuel s n b sz :
  n <> 0 -> total_size n <> 0 -> total_size n < MMAP_THRESHOLD ->
  find_free_block fuel s (total_size n) = Done b -> b <> NULL ->
  hdr s b = mk_header sz NULL NULL 1 0 ->
  sz < two64 ->
  total_size n + HDR + MIN_BLOCK_SIZE <= sz ->
  get_size_class (sz - total_size n) = get_size_class sz ->
  exists s',
    mem_malloc fuel s n = Done (b + HDR, s') /\
    free_lists s' = <[get_size_class sz := b + total_size n]> (free_lists s) /\
    stats s' = stats_alloc (stats_split (stats s)) (total_size n) /\
    heap_start s' = heap_start s /\
    heap_end s' = heap_end s /\
    forall a, hdr s' a =
      if decide (b + total_size n = a)
      then mk_header (sz - total_size n) NULL NULL 1 0
      else if decide (b = a)
      then mk_header (total_size n) NULL NULL 0 0
      else hdr s a.
Proof.
  intros Hn Ht Hsmall Hfind Hb Hh Hsz Hfit Hcls.
  set (T := total_size n) in *.
  unfold mem_malloc. fold (total_size n). fold T.
  apply N.eqb_neq in Hn as ->.
  apply N.leb_gt in Hsmall as ->.
  rewrite Hfind. cbn [obind].
  apply N.eqb_neq in Hb as Hb'. rewrite Hb', Hb'.
  destruct (remove_singleton s b) as (R1 & R2 & R3 & R4 & R5 & R6);
    [now rewrite Hh | now rewrite Hh |].
  rewrite Hh in R1. cbn [size] in R1.
  set (s2 := remove_from_free_list s b) in *.
  assert (H2 : hdr s2 b = mk_header sz NULL NULL 1 0) by (now rewrite R6).
  assert (Hws : wsub sz T = sz - T).
  { unfold wsub, wrap, two64, HDR, MIN_BLOCK_SIZE in *. lia. }
  destruct (split_block_spec s2 b n) as (S1 & S2 & S3 & S4 & S5 & S6).
  { fold T. rewrite H2. cbn [size].
    unfold wadd, wrap, two64, HDR, MIN_BLOCK_SIZE in *. lia. }
  { exact Ht. }
  { fold T. rewrite H2. cbn [size]. rewrite Hws, Hcls.
    unfold head. rewrite R1. apply nth_insert_null. }
  fold T in S1, S6. rewrite H2 in S1, S6. cbn [size next prev is_free is_mmap] in S1, S6.
  rewrite Hws in S1, S6. rewrite Hcls in S1.
  set (s3 := split_block s2 b n) in *.
  eexists. split; [reflexivity |].
  autorewrite with proj_rw.
  rewrite S1, R1, list_insert_insert_eq.
  split; [reflexivity |].
  split.
  { rewrite S2, R2. f_equal.
    rewrite hdr_set_is_free, decide_True by reflexivity. cbn [size].
    rewrite S6. rewrite decide_False by lia. rewrite decide_True by reflexivity.
    reflexivity. }
  split; [now rewrite S3, R3 |].
  split; [now rewrite S4, R4 |].
  intros a. rewrite hdr_with_stats, hdr_set_is_free.
  destruct (decide (b = a)) as [<- | Hne].
  - rewrite decide_False by lia. rewrite S6.
    rewrite decide_False by lia. rewrite decide_True by reflexivity. reflexivity.
  - rewrite S6. case_decide; [reflexivity |].
    rewrite decide_False by assumption. apply R6.
Qed.

(** * [mem_free] of a heap block *)

(** The successor of the block is not mergeable: the block goes to its list
    as it is. *)
Lemma free_no_merge_spec fuel s p :
  HDR < p ->
  is_mmap (hdr s (p - HDR)) = 0 ->
  size (hdr s (p - HDR)) <> 0 ->
  forward_mergeable s (p - HDR) = false ->
  head s (get_size_class (size (hdr s (p - HDR)))) = NULL ->
  exists s',
    mem_free (S fuel) s p = Done s' /\
    free_lists s' = <[get_size_class (size (hdr s (p - HDR))) := p - HDR]> (free_lists s) /\
    stats s' = stats_free (stats s) (size (hdr s (p - HDR))) /\
    heap_start s' = heap_start s /\
    heap_end s' = heap_end s /\
    forall a, hdr s' a =
      if decide (p - HDR = a)
      then mk_header (size (hdr s (p - HDR))) NULL NULL 1 0
      else hdr s a.
Proof.
  intros Hp Hm Hsz Hnf Hh. set (b := p - HDR) in *.
  unfold mem_free. fold b.
  assert ((p =? NULL) = false) as -> by (apply N.eqb_neq; unfold NULL, HDR in *; lia).
  rewrite Hm. cbn [truthy N.eqb negb].
  set (s2 := set_is_free _ b 1).
  assert (H2 : forall a, hdr s2 a =
            if decide (b = a)
            then mk_header (size (hdr s b)) (next (hdr s b)) (prev (hdr s b)) 1 0
            else hdr s a).
  { intros a. subst s2. rewrite hdr_set_is_free, !hdr_with_stats, Hm. reflexivity. }
  assert (Hfm : forward_mergeable s2 b = false).
  { rewrite <- Hnf. unfold forward_mergeable, free_block. cbv zeta.
    rewrite (H2 b), decide_True by reflexivity. cbn [size].
    rewrite (H2 (b + size (hdr s b))), decide_False by lia.
    subst s2. now autorewrite with proj_rw. }
  rewrite coalesce_stop; [| subst b; unfold NULL, HDR in *; lia | | exact Hfm ].
  2:{ rewrite (H2 b), decide_True by reflexivity. reflexivity. }
  cbn [obind].
  destruct (add_to_empty s2 b) as (A1 & A2 & A3 & A4 & A5 & A6).
  { rewrite (H2 b), decide_True by reflexivity. cbn [size].
    subst s2. unfold head in *. now autorewrite with proj_rw. }
  rewrite (H2 b), decide_True in A1, A6 by reflexivity.
  cbn [size is_mmap] in A1, A6.
  eexists. split; [reflexivity |].
  rewrite A1, A2, A3, A4. subst s2. autorewrite with proj_rw.
  repeat (split; [reflexivity |]).
  intros a. rewrite A6. case_decide; [reflexivity |].
  rewrite hdr_set_is_free, decide_False by assumption. reflexivity.
Qed.

(** The successor of the block is free and alone on its list, and the block
    after it is not mergeable: one merge. *)
Lemma free_merge_spec fuel s p se :
  HDR < p ->
  is_mmap (hdr s (p - HDR)) = 0 ->
  size (hdr s (p - HDR)) <> 0 ->
  hdr s (p - HDR + size (hdr s (p - HDR))) = mk_header se NULL NULL 1 0 ->
  se <> 0 ->
  size (hdr s (p - HDR)) + se < two64 ->
  heap_start s <= p - HDR + size (hdr s (p - HDR)) ->
  p - HDR + size (hdr s (p - HDR)) + HDR <= heap_end s ->
  (heap_end s <= p - HDR + size (hdr s (p - HDR)) + se \/
   free_block s (p - HDR + size (hdr s (p - HDR)) + se) = false) ->
  nth (get_size_class (size (hdr s (p - HDR)) + se))
      (<[get_size_class se := NULL]> (free_lists s)) NULL = NULL ->
  exists s',
    mem_free (S (S fuel)) s p = Done s' /\
    free_lists s' =
      <[get_size_class (size (hdr s (p - HDR)) + se) := p - HDR]>
        (<[get_size_class se := NULL]> (free_lists s)) /\
    stats s' = stats_coalesce (stats_free (stats s) (size (hdr s (p - HDR)))) /\
    heap_start s' = heap_start s /\
    heap_end s' = heap_end s /\
    forall a, hdr s' a =
      if decide (p - HDR = a)
      then mk_header (size (hdr s (p - HDR)) + se) NULL NULL 1 0
      else hdr s a.
Proof.
  intros Hp Hm Hsz He Hse Hsum Hlo Hhi Hstop Hh. set (b := p - HDR) in *.
  set (sb := size (hdr s b)) in *. set (e := b + sb) in *.
  assert (Hbe : b <> e) by (subst e; lia).
  assert (Hb0 : b <> NULL) by (subst b; unfold NULL, HDR in *; lia).
  unfold mem_free. fold b.
  assert ((p =? NULL) = false) as -> by (apply N.eqb_neq; unfold NULL, HDR in *; lia).
  rewrite Hm. cbn [truthy N.eqb negb]. fold sb.
  set (s2 := set_is_free _ b 1).
  assert (H2 : forall a, hdr s2 a =
            if decide (b = a)
            then mk_header sb (next (hdr s b)) (prev (hdr s b)) 1 0
            else hdr s a).
  { intros a. subst s2. rewrite hdr_set_is_free, !hdr_with_stats, Hm. reflexivity. }
  assert (B2 : heap_start s2 = heap_start s /\ heap_end s2 = heap_end s /\
               free_lists s2 = free_lists s /\
               stats s2 = stats_free (stats s) sb)
    by (subst s2; now autorewrite with proj_rw).
  destruct B2 as (B2s & B2e & B2l & B2t).
  assert (H2b : hdr s2 b = mk_header sb (next (hdr s b)) (prev (hdr s b)) 1 0)
    by (rewrite H2, decide_True by reflexivity; reflexivity).
  assert (H2e : hdr s2 e = mk_header se NULL NULL 1 0)
    by (rewrite H2, decide_False by assumption; exact He).
  rewrite coalesce_merge; [| exact Hb0 | now rewrite H2b |].
  2:{ unfold forward_mergeable, free_block. cbv zeta.
      rewrite H2b. cbn [size]. fold e. rewrite H2e, B2s, B2e.
      cbn [is_free is_mmap truthy N.eqb negb andb].
      assert ((heap_end s <=? e) = false) as -> by (apply N.leb_gt; unfold HDR in *; lia).
      assert ((e <? heap_start s) = false) as -> by (apply N.ltb_ge; lia).
      assert ((heap_end s <? e + HDR) = false) as -> by (apply N.ltb_ge; lia).
      reflexivity. }
  cbv zeta. rewrite H2b. cbn [size]. fold e.
  destruct (remove_singleton s2 e) as (R1 & R2 & R3 & R4 & R5 & R6);
    [now rewrite H2e | now rewrite H2e |].
  rewrite H2e in R1. cbn [size] in R1.
  set (s3 := remove_from_free_list s2 e) in *.
  rewrite (R6 b), (R6 e), H2b, H2e. cbn [size].
  assert (Hw : wadd sb se = sb + se) by (unfold wadd; now apply wrap_small).
  rewrite Hw.
  set (s4 := with_stats (set_size s3 b (sb + se)) _).
  assert (H4 : forall a, hdr s4 a =
            if decide (b = a)
            then mk_header (sb + se) (next (hdr s b)) (prev (hdr s b)) 1 0
            else hdr s a).
  { intros a. subst s4. rewrite hdr_with_stats, hdr_set_size, (R6 b), H2b.
    cbn [next prev is_free is_mmap].
    case_decide; [reflexivity |]. rewrite R6, H2. now rewrite decide_False by assumption. }
  assert (B4 : heap_start s4 = heap_start s /\ heap_end s4 = heap_end s /\
               free_lists s4 = <[get_size_class se := NULL]> (free_lists s) /\
               stats s4 = stats_coalesce (stats_free (stats s) sb)).
  { subst s4. autorewrite with proj_rw. now rewrite R1, R2, R3, R4, B2s, B2e, B2l, B2t. }
  destruct B4 as (B4s & B4e & B4l & B4t).
  assert (H4b : hdr s4 b = mk_header (sb + se) (next (hdr s b)) (prev (hdr s b)) 1 0)
    by (rewrite H4, decide_True by reflexivity; reflexivity).
  rewrite coalesce_stop; [| exact Hb0 | now rewrite H4b |].
  2:{ unfold forward_mergeable, free_block. cbv zeta.
      rewrite H4b. cbn [size]. rewrite B4s, B4e.
      replace (b + (sb + se)) with (e + se) by (subst e; lia).
      destruct Hstop as [Hend | Hnf].
      - assert ((heap_end s <=? e + se) = true) as -> by (apply N.leb_le; exact Hend).
        reflexivity.
      - rewrite (H4 (e + se)), decide_False by lia.
        unfold free_block in Hnf. rewrite Hnf. now rewrite andb_false_r. }
  cbn [obind].
  destruct (add_to_empty s4 b) as (A1 & A2 & A3 & A4 & A5 & A6).
  { rewrite H4b. cbn [size]. unfold head. rewrite B4l. exact Hh. }
  rewrite H4b in A1, A6. cbn [size is_mmap] in A1, A6.
  eexists. split; [reflexivity |].
  rewrite A1, A2, A3, A4, B4l, B4t, B4s, B4e.
  repeat (split; [reflexivity |]).
  intros a. rewrite A6. case_decide; [reflexivity |].
  rewrite H4. now rewrite decide_False by assumption.
Qed.

(** * The heap start stays below the break *)

Lemma heap_start_split_block s b n : heap_start (split_block s b n) = heap_start s.
Proof.
  unfold split_block. cbv zeta.
  match goal with |- context [if ?c then _ else _] => destruct c end;
    [| reflexivity].
  rewrite heap_start_with_stats.
  destruct (heap_bounds_add_to_free_list
              (set_size (set_prev (set_next (set_is_mmap (set_is_free
                 (set_size s (b + align_size (wadd n HDR))
                    (wsub (size (hdr s b)) (align_size (wadd n HDR))))
                 (b + align_size (wadd n HDR)) 1) (b + align_size (wadd n HDR)) 0)
                 (b + align_size (wadd n HDR)) NULL) (b + align_size (wadd n HDR)) NULL)
                 b (align_size (wadd n HDR)))
              (b + align_size (wadd n HDR))) as [-> _].
  now autorewrite with proj_rw.
Qed.

Lemma expand_heap_heap_start s t b s1 :
  expand_heap s t = (b, s1) ->
  heap_start s1 = heap_start s \/ heap_start s1 = brk (os s).
Proof.
  unfold expand_heap.
  set (alloc_size := if t <? BRK_INCREMENT then _ else _).
  destruct (sbrk (os s) 0) as [old_brk o1] eqn:E0.
  pose proof (sbrk_result _ _ _ _ E0) as Hold. clear E0. cbv zeta.
  destruct (old_brk =? SBRK_FAILED) eqn:Eo; [intros [= _ <-]; now left |].
  apply N.eqb_neq in Eo. destruct Hold as [? | ->]; [contradiction |].
  destruct (sbrk _ alloc_size) as [new_brk o2].
  destruct (new_brk =? SBRK_FAILED); [intros [= _ <-]; now left |].
  match goal with |- context [sbrk ?o 0] => destruct (sbrk o 0) as [cur o3] end.
  intros H. apply pair_equal_spec in H as [_ <-].
  autorewrite with proj_rw.
  destruct (heap_start s =? NULL); autorewrite with proj_rw; auto.
Qed.

Lemma heap_start_coalesce fuel : forall s b b' s',
  coalesce fuel s b = Done (b', s') -> heap_start s' = heap_start s.
Proof.
  induction fuel as [| fuel IH]; intros s b b' s' H; cbn [coalesce] in H;
    [discriminate |].
  repeat match type of H with
         | (if ?c then _ else _) = _ => destruct c
         end;
    try (now apply Done_pair_inj in H as [_ <-]).
  apply IH in H. rewrite H. autorewrite with proj_rw.
  apply heap_bounds_remove_from_free_list.
Qed.

Lemma heap_below_brk_malloc fuel s n p s' :
  mem_malloc fuel s n = Done (p, s') -> heap_below_brk s -> heap_below_brk s'.
Proof.
  unfold heap_below_brk. intros H Hle.
  pose proof (malloc_os _ _ _ _ _ H) as (_ & _ & _ & Hg).
  unfold mem_malloc in H.
  destruct (n =? 0); [now apply Done_pair_inj in H as [_ <-] |].
  destruct (MMAP_THRESHOLD <=? _).
  - destruct (mmap _ _) as [ptr o1].
    destruct (ptr =? MAP_FAILED); apply Done_pair_inj in H as [_ <-];
      autorewrite with proj_rw in *; lia.
  - destruct (find_free_block _ _ _) as [found | |]; cbn [obind] in H; try discriminate.
    destruct (if found =? NULL then _ else _) as [block s1] eqn:E1.
    assert (Hs1 : heap_start s1 = heap_start s \/ heap_start s1 = brk (os s)).
    { destruct (found =? NULL).
      - now apply expand_heap_heap_start in E1.
      - apply pair_equal_spec in E1 as [_ <-]. now left. }
    destruct (block =? NULL); apply Done_pair_inj in H as [_ <-].
    + destruct Hs1 as [-> | ->]; lia.
    + autorewrite with proj_rw in *.
      rewrite heap_start_split_block.
      destruct (heap_bounds_remove_from_free_list s1 block) as [-> _].
      destruct Hs1 as [-> | ->]; lia.
Qed.

Lemma heap_below_brk_free fuel s p s' :
  mem_free fuel s p = Done s' -> heap_below_brk s -> heap_below_brk s'.
Proof.
  unfold heap_below_brk. intros H Hle.
  pose proof (free_os _ _ _ _ H) as (_ & _ & _ & Hg).
  unfold mem_free in H.
  destruct (p =? NULL); [now apply Done_inj in H as <- |].
  destruct (truthy _).
  - apply Done_inj in H as <-. autorewrite with proj_rw in *. lia.
  - destruct (coalesce _ _ _) as [[b' s3] | |] eqn:Ec; cbn [obind] in H;
      try discriminate.
    apply Done_inj in H as <-. apply heap_start_coalesce in Ec.
    destruct (heap_bounds_add_to_free_list s3 b') as [Hs _].
    rewrite Hs, Ec. autorewrite with proj_rw. lia.
Qed.

Lemma heap_below_brk_step s s' : step s s' -> heap_below_brk s -> heap_below_brk s'.
Proof.
  intros [fuel n p H | fuel p H | fuel a b p H | fuel p n q H | ->] Hle.
  - eapply heap_below_brk_malloc; eauto.
  - eapply heap_below_brk_free; eauto.
  - unfold mem_calloc in H.
    destruct (_ || _); [now apply Done_pair_inj in H as [_ <-] |].
    destruct (negb _); [now apply Done_pair_inj in H as [_ <-] |].
    destruct (mem_malloc _ _ _) as [[ptr s1] | |] eqn:Em; cbn [obind] in H;
      try discriminate.
    apply heap_below_brk_malloc in Em; [| assumption].
    destruct (truthy ptr); [| now apply Done_pair_inj in H as [_ <-]].
    destruct (memset _ _ _ _) as [s2 | |] eqn:Es; cbn [obind] in H; try discriminate.
    apply Done_pair_inj in H as [_ <-].
    apply memset_stats in Es as (_ & _ & _ & Ho & Hs & _).
    unfold heap_below_brk in *. now rewrite Ho, Hs.
  - unfold mem_realloc in H.
    destruct (p =? NULL); [eapply heap_below_brk_malloc; eauto |].
    destruct (n =? 0).
    { destruct (mem_free _ _ _) as [s1 | |] eqn:Ef; cbn [obind] in H; try discriminate.
      apply Done_pair_inj in H as [_ <-]. eapply heap_below_brk_free; eauto. }
    destruct (n <=? _); [now apply Done_pair_inj in H as [_ <-] |].
    destruct (mem_malloc _ _ _) as [[np s1] | |] eqn:Em; cbn [obind] in H;
      try discriminate.
    apply heap_below_brk_malloc in Em; [| assumption].
    destruct (np =? NULL); [now apply Done_pair_inj in H as [_ <-] |].
    destruct (memcpy _ _ _ _) as [s2 | |] eqn:Ec; cbn [obind] in H; try discriminate.
    apply memcpy_stats in Ec as (_ & _ & _ & Ho & Hs & _).
    destruct (mem_free _ _ _) as [s3 | |] eqn:Ef; cbn [obind] in H; try discriminate.
    apply Done_pair_inj in H as [_ <-].
    eapply heap_below_brk_free; [exact Ef |].
    unfold heap_below_brk in *. now rewrite Ho, Hs.
  - exact Hle.
Qed.

(** On a sane system, every reachable state in which the break can still
    move by one increment is a state the scenarios can start from. *)
Lemma reachable_room o s :
  os_ok o -> rtc step (initial_state o) s ->
  brk (os s) + BRK_INCREMENT <= brk_limit (os s) ->
  room s.
Proof.
  intros Hok Hr Hroom.
  destruct (reachable_os_ok o s Hok Hr) as (Hb & Hl & _).
  repeat split; try assumption.
  apply (rtc_ind_r (R := step) heap_below_brk (initial_state o)); [| | exact Hr].
  - unfold heap_below_brk. cbn. unfold NULL. lia.
  - intros y z _ Hstep IH. now apply heap_below_brk_step with y.
Qed.

(** * The scenarios *)

Lemma head_reset s j : head (mem_reset s) j = NULL.
Proof. unfold head, mem_reset. autorewrite with proj_rw. apply nth_replicate_same. Qed.

(** Rewrites a header read through the description of the state it is read
    from, deciding the address comparisons by arithmetic. *)
Ltac hdr_eval :=
  repeat match goal with
         | H : forall a, hdr ?s a = _ |- context [hdr ?s ?x] =>
             rewrite (H x);
             repeat first [rewrite decide_True by lia | rewrite decide_False by lia]
         end.

(** Heads of an explicit list of free lists. *)
Ltac heads_null :=
  let j := fresh "j" in let Hj := fresh "Hj" in
  intros j Hj; unfold head;
  match goal with H : free_lists _ = _ |- _ => rewrite H end;
  do 10 (destruct j as [| j]; [try lia; try reflexivity |]); lia.

(** C7 (counterexample). At the end of the scenario run on the fresh system
    the memory of the three blocks is not inside a single free block. *)
Lemma coalescing_scenario_not_single_block :
  exists ptr1 ptr2 ptr3 s,
    coalescing_scenario fresh = Done (ptr1, ptr2, ptr3, s) /\
    ~ (2 <= num_coalesces (stats s) /\
       covered_by_one_free_block s (ptr1 - HDR) (ptr3 - HDR + total_size 100)).
Proof.
  exists 4128, 4272, 4416, coalescing_final.
  split; [vm_compute; reflexivity |].
  intros [_ (b & Hin & _ & Hlo & Hhi)].
  assert (heap_blocks coalescing_final = [4096; 4384]) as Hb
    by (vm_compute; reflexivity).
  rewrite Hb in Hin.
  destruct Hin as [<- | [<- | []]].
  - vm_compute in Hhi. now apply Hhi.
  - vm_compute in Hlo. now apply Hlo.
Qed.

(** C7 (as amended). Started in any state in which the system can extend the
    heap by one increment, the scenario completes with a coalesce counter of
    exactly 2, and the memory of the three blocks then lies in two free
    blocks: the first block grown over the middle one (two rounded block
    sizes), and the last block grown over the free remainder up to the end of
    the heap.  The two are adjacent and were not merged; each is alone on the
    free list of its size class. *)
Theorem coalescing_scenario_result s :
  room s ->
  exists ptr1 ptr2 ptr3 s',
    coalescing_scenario s = Done (ptr1, ptr2, ptr3, s') /\
    ptr1 = brk (os s) + HDR /\
    ptr2 = ptr1 + total_size 100 /\
    ptr3 = ptr2 + total_size 100 /\
    num_coalesces (stats s') = 2 /\
    hdr s' (ptr1 - HDR) = mk_header (2 * total_size 100) NULL NULL 1 0 /\
    hdr s' (ptr3 - HDR) = mk_header (BRK_INCREMENT - 2 * total_size 100) NULL NULL 1 0 /\
    ptr1 - HDR + size (hdr s' (ptr1 - HDR)) = ptr3 - HDR /\
    ptr3 - HDR + size (hdr s' (ptr3 - HDR)) = heap_end s' /\
    walk_heap 3 s' (ptr1 - HDR) = [ptr1 - HDR; ptr3 - HDR] /\
    free_list_members 2 s' 4 = [ptr1 - HDR] /\
    free_list_members 2 s' 9 = [ptr3 - HDR].
Proof.
  intros (Hb & Hroom & Hlim & Hhs). set (B := brk (os s)) in *.
  unfold coalescing_scenario. cbv zeta.
  assert (T100 : total_size 100 = 144) by (vm_compute; reflexivity).
  assert (HB0 : 0 < B) by (unfold NULL in Hb; lia).
  (* ptr1 = mem_malloc(100) *)
  destruct (malloc_expand_spec 1 (mem_reset s) 100)
    as (s1 & E1 & L1 & St1 & Hs1 & He1 & H1); try assumption.
  { discriminate. }
  { rewrite T100. discriminate. }
  { rewrite T100. reflexivity. }
  { apply find_free_block_none. intros j _. apply head_reset. }
  change (brk (os (mem_reset s))) with B in *.
  change (heap_start (mem_reset s)) with (heap_start s) in Hs1.
  rewrite T100 in *.
  change (free_lists (mem_reset s)) with (replicate NUM_SIZE_CLASSES NULL) in L1.
  cbn in L1.
  change (stats (mem_reset s)) with zero_stats in St1.
  rewrite E1. cbn [obind].
  assert (Hs1' : heap_start s1 <= B).
  { rewrite Hs1. destruct (heap_start s =? NULL); lia. }
  (* ptr2 = mem_malloc(100) *)
  assert (F1R : hdr s1 (B + 144) = mk_header 65392 NULL NULL 1 0).
  { hdr_eval. reflexivity. }
  destruct (malloc_reuse_spec 1 s1 100 (B + 144) 65392)
    as (s2 & E2 & L2 & St2 & Hs2 & He2 & H2).
  { discriminate. }
  { rewrite T100. discriminate. }
  { rewrite T100. reflexivity. }
  { rewrite T100. apply find_free_block_class9.
    - heads_null.
    - unfold head. rewrite L1. reflexivity.
    - unfold NULL. lia.
    - now rewrite F1R.
    - rewrite F1R. cbn [size]. lia. }
  { unfold NULL. lia. }
  { exact F1R. }
  { reflexivity. }
  { rewrite T100. unfold HDR, MIN_BLOCK_SIZE. lia. }
  { rewrite T100. reflexivity. }
  rewrite T100 in *. rewrite L1 in L2. cbn in L2. rewrite St1 in St2.
  rewrite E2. cbn [obind].
  (* ptr3 = mem_malloc(100) *)
  assert (F2R : hdr s2 (B + 144 + 144) = mk_header 65248 NULL NULL 1 0).
  { hdr_eval. reflexivity. }
  destruct (malloc_reuse_spec 1 s2 100 (B + 144 + 144) 65248)
    as (s3 & E3 & L3 & St3 & Hs3 & He3 & H3).
  { discriminate. }
  { rewrite T100. discriminate. }
  { rewrite T100. reflexivity. }
  { rewrite T100. apply find_free_block_class9.
    - heads_null.
    - unfold head. rewrite L2. reflexivity.
    - unfold NULL. lia.
    - now rewrite F2R.
    - rewrite F2R. cbn [size]. lia. }
  { unfold NULL. lia. }
  { exact F2R. }
  { reflexivity. }
  { rewrite T100. unfold HDR, MIN_BLOCK_SIZE. lia. }
  { rewrite T100. reflexivity. }
  rewrite T100 in *. rewrite L2 in L3. cbn in L3. rewrite St2 in St3.
  rewrite E3. cbn [obind].
  assert (Hs3' : heap_start s3 <= B) by (rewrite Hs3, Hs2; exact Hs1').
  assert (He3' : heap_end s3 = B + BRK_INCREMENT) by (now rewrite He3, He2).
  assert (F3A1 : hdr s3 B = mk_header 144 NULL NULL 0 0) by (hdr_eval; reflexivity).
  assert (F3A2 : hdr s3 (B + 144) = mk_header 144 NULL NULL 0 0)
    by (hdr_eval; reflexivity).
  assert (F3A3 : hdr s3 (B + 144 + 144) = mk_header 144 NULL NULL 0 0)
    by (hdr_eval; reflexivity).
  assert (F3R : hdr s3 (B + 144 + 144 + 144) = mk_header 65104 NULL NULL 1 0)
    by (hdr_eval; reflexivity).
  (* mem_free(ptr2) *)
  assert (Hp2 : B + 144 + HDR - HDR = B + 144) by lia.
  destruct (free_no_merge_spec 2 s3 (B + 144 + HDR))
    as (s4 & E4 & L4 & St4 & Hs4 & He4 & H4).
  { unfold HDR. lia. }
  { now rewrite Hp2, F3A2. }
  { now rewrite Hp2, F3A2. }
  { rewrite Hp2. unfold forward_mergeable, free_block. cbv zeta.
    rewrite F3A2. cbn [size]. rewrite F3A3. cbn [is_free truthy N.eqb negb andb].
    now rewrite andb_false_r. }
  { rewrite Hp2, F3A2. unfold head. rewrite L3. reflexivity. }
  rewrite Hp2, F3A2 in L4, St4, H4. cbn [size] in L4, St4, H4.
  rewrite L3 in L4. cbn in L4. rewrite St3 in St4.
  rewrite E4. cbn [obind].
  (* mem_free(ptr1) *)
  assert (Hp1 : B + HDR - HDR = B) by lia.
  assert (F4A1 : hdr s4 B = mk_header 144 NULL NULL 0 0) by (hdr_eval; reflexivity).
  assert (F4A2 : hdr s4 (B + 144) = mk_header 144 NULL NULL 1 0)
    by (hdr_eval; reflexivity).
  assert (F4A3 : hdr s4 (B + 144 + 144) = mk_header 144 NULL NULL 0 0)
    by (hdr_eval; reflexivity).
  destruct (free_merge_spec 1 s4 (B + HDR) 144)
    as (s5 & E5 & L5 & St5 & Hs5 & He5 & H5).
  { unfold HDR. lia. }
  { now rewrite Hp1, F4A1. }
  { now rewrite Hp1, F4A1. }
  { rewrite Hp1, F4A1. exact F4A2. }
  { discriminate. }
  { rewrite Hp1, F4A1. reflexivity. }
  { rewrite Hp1, F4A1, Hs4. cbn [size]. lia. }
  { rewrite Hp1, F4A1, He4, He3'. cbn [size]. unfold HDR, BRK_INCREMENT. lia. }
  { right. rewrite Hp1, F4A1. cbn [size]. unfold free_block. now rewrite F4A3. }
  { rewrite Hp1, F4A1, L4. reflexivity. }
  rewrite Hp1, F4A1 in L5, St5, H5. cbn [size] in L5, St5, H5.
  rewrite L4 in L5. cbn in L5. rewrite St4 in St5.
  rewrite E5. cbn [obind].
  (* mem_free(ptr3) *)
  assert (Hp3 : B + 144 + 144 + HDR - HDR = B + 144 + 144) by lia.
  assert (F5A3 : hdr s5 (B + 144 + 144) = mk_header 144 NULL NULL 0 0)
    by (hdr_eval; reflexivity).
  assert (F5R : hdr s5 (B + 144 + 144 + 144) = mk_header 65104 NULL NULL 1 0).
  { hdr_eval. reflexivity. }
  destruct (free_merge_spec 1 s5 (B + 144 + 144 + HDR) 65104)
    as (s6 & E6 & L6 & St6 & Hs6 & He6 & H6).
  { unfold HDR. lia. }
  { now rewrite Hp3, F5A3. }
  { now rewrite Hp3, F5A3. }
  { rewrite Hp3, F5A3. exact F5R. }
  { discriminate. }
  { rewrite Hp3, F5A3. reflexivity. }
  { rewrite Hp3, F5A3, Hs5, Hs4. cbn [size]. lia. }
  { rewrite Hp3, F5A3, He5, He4, He3'. cbn [size]. unfold HDR, BRK_INCREMENT. lia. }
  { left. rewrite Hp3, F5A3, He5, He4, He3'. cbn [size]. unfold BRK_INCREMENT. lia. }
  { rewrite Hp3, F5A3, L5. reflexivity. }
  rewrite Hp3, F5A3 in L6, St6, H6. cbn [size] in L6, St6, H6.
  rewrite L5 in L6. cbn in L6. rewrite St5 in St6.
  rewrite E6. cbn [obind].
  assert (F6A1 : hdr s6 B = mk_header 288 NULL NULL 1 0) by (hdr_eval; reflexivity).
  assert (F6A3 : hdr s6 (B + 144 + 144) = mk_header 65248 NULL NULL 1 0)
    by (hdr_eval; reflexivity).
  assert (He6' : heap_end s6 = B + BRK_INCREMENT)
    by (now rewrite He6, He5, He4, He3').
  assert (Hs6' : heap_start s6 <= B) by (now rewrite Hs6, Hs5, Hs4).
  exists (B + HDR), (B + 144 + HDR), (B + 144 + 144 + HDR), s6.
  split; [reflexivity |].
  split; [reflexivity |].
  split; [unfold HDR; lia |].
  split; [unfold HDR; lia |].
  split; [rewrite St6; reflexivity |].
  rewrite Hp1, Hp3.
  split; [exact F6A1 |].
  split; [exact F6A3 |].
  split; [rewrite F6A1; cbn [size]; lia |].
  split; [rewrite F6A3, He6'; cbn [size]; unfold BRK_INCREMENT; lia |].
  split.
  { cbn [walk_heap]. rewrite F6A1. cbn [size].
    replace (B + 288) with (B + 144 + 144) by lia.
    rewrite F6A3. cbn [size]. rewrite He6'.
    assert ((heap_start s6 <=? B) && (B <? B + BRK_INCREMENT) = true) as ->.
    { apply andb_true_iff. split; [apply N.leb_le | apply N.ltb_lt];
        unfold BRK_INCREMENT; lia. }
    assert ((heap_start s6 <=? B + 144 + 144)
            && (B + 144 + 144 <? B + BRK_INCREMENT) = true) as ->.
    { apply andb_true_iff. split; [apply N.leb_le | apply N.ltb_lt];
        unfold BRK_INCREMENT; lia. }
    assert ((heap_start s6 <=? B + 144 + 144 + 65248)
            && (B + 144 + 144 + 65248 <? B + BRK_INCREMENT) = false) as ->.
    { apply andb_false_iff. right. apply N.ltb_ge. unfold BRK_INCREMENT. lia. }
    reflexivity. }
  split.
  { assert (head s6 4 = B) as Hh by (unfold head; rewrite L6; reflexivity).
    unfold free_list_members. rewrite Hh. cbn [walk_list].
    assert ((B =? NULL) = false) as -> by (apply N.eqb_neq; unfold NULL; lia).
    rewrite F6A1. reflexivity. }
  { assert (head s6 9 = B + 144 + 144) as Hh by (unfold head; rewrite L6; reflexivity).
    unfold free_list_members. rewrite Hh. cbn [walk_list].
    assert ((B + 144 + 144 =? NULL) = false) as ->
      by (apply N.eqb_neq; unfold NULL; lia).
    rewrite F6A3. reflexivity. }
Qed.

Lemma room_fresh : room fresh.
Proof. unfold room. vm_compute. repeat split; discriminate. Qed.

Lemma coalescing_scenario_result_witness :
  exists ptr1 ptr2 ptr3 s',
    coalescing_scenario fresh = Done (ptr1, ptr2, ptr3, s') /\
    ptr1 = brk (os fresh) + HDR /\
    ptr2 = ptr1 + total_size 100 /\
    ptr3 = ptr2 + total_size 100 /\
    num_coalesces (stats s') = 2 /\
    hdr s' (ptr1 - HDR) = mk_header (2 * total_size 100) NULL NULL 1 0 /\
    hdr s' (ptr3 - HDR) = mk_header (BRK_INCREMENT - 2 * total_size 100) NULL NULL 1 0 /\
    ptr1 - HDR + size (hdr s' (ptr1 - HDR)) = ptr3 - HDR /\
    ptr3 - HDR + size (hdr s' (ptr3 - HDR)) = heap_end s' /\
    walk_heap 3 s' (ptr1 - HDR) = [ptr1 - HDR; ptr3 - HDR] /\
    free_list_members 2 s' 4 = [ptr1 - HDR] /\
    free_list_members 2 s' 9 = [ptr3 - HDR].
Proof. apply (coalescing_scenario_result fresh). apply room_fresh. Defined.

(** C8 (counterexample). After the scenario run on the fresh system the
    split counter is not 1. *)
Lemma split_scenario_not_one :
  exists ptr1 ptr2 s1 s2 s3,
    split_scenario fresh = Done (ptr1, ptr2, s1, s2, s3) /\
    num_splits (stats s3) <> 1.
Proof.
  do 5 eexists. split; [vm_compute; reflexivity |].
  vm_compute. discriminate.
Qed.

(** C8 (as amended). Started in any state in which the system can extend the
    heap by one increment, the scenario completes with a split counter of
    exactly 2.  The first [mem_malloc] splits the fresh heap increment
    (counter 1); the release merges the block with the free remainder into a
    block of the whole increment (coalesce counter 1); the second
    [mem_malloc] is carved out of that block at the same address
    (counter 2). *)
Theorem split_scenario_result s :
  room s ->
  exists s1 s2 s3,
    split_scenario s =
      Done (brk (os s) + HDR, brk (os s) + HDR, s1, s2, s3) /\
    num_splits (stats s1) = 1 /\
    size (hdr s1 (brk (os s))) = total_size 100 /\
    num_splits (stats s2) = 1 /\
    num_coalesces (stats s2) = 1 /\
    size (hdr s2 (brk (os s))) = BRK_INCREMENT /\
    size (hdr s3 (brk (os s))) = total_size 50 /\
    num_splits (stats s3) = 2.
Proof.
  intros (Hb & Hroom & Hlim & Hhs). set (B := brk (os s)) in *.
  unfold split_scenario. cbv zeta.
  assert (T100 : total_size 100 = 144) by (vm_compute; reflexivity).
  assert (T50 : total_size 50 = 96) by (vm_compute; reflexivity).
  (* mem_malloc(100) *)
  destruct (malloc_expand_spec 1 (mem_reset s) 100)
    as (s1 & E1 & L1 & St1 & Hs1 & He1 & H1); try assumption.
  { discriminate. }
  { rewrite T100. discriminate. }
  { rewrite T100. reflexivity. }
  { apply find_free_block_none. intros j _. apply head_reset. }
  change (brk (os (mem_reset s))) with B in *.
  change (heap_start (mem_reset s)) with (heap_start s) in Hs1.
  rewrite T100 in *.
  change (free_lists (mem_reset s)) with (replicate NUM_SIZE_CLASSES NULL) in L1.
  cbn [replicate NUM_SIZE_CLASSES] in L1. cbn in L1.
  change (stats (mem_reset s)) with zero_stats in St1.
  rewrite E1. cbn [obind].
  assert (Hs1' : heap_start s1 <= B).
  { rewrite Hs1. destruct (heap_start s =? NULL); lia. }
  (* mem_free(ptr1) *)
  assert (HpB : B + HDR - HDR = B) by lia.
  assert (F1B : hdr s1 B = mk_header 144 NULL NULL 0 0).
  { hdr_eval. reflexivity. }
  assert (F1R : hdr s1 (B + 144) = mk_header (BRK_INCREMENT - 144) NULL NULL 1 0).
  { hdr_eval. reflexivity. }
  destruct (free_merge_spec 0 s1 (B + HDR) (BRK_INCREMENT - 144))
    as (s2 & E2 & L2 & St2 & Hs2 & He2 & H2).
  { unfold HDR, NULL in *. lia. }
  { now rewrite HpB, F1B. }
  { now rewrite HpB, F1B. }
  { rewrite HpB, F1B. exact F1R. }
  { discriminate. }
  { rewrite HpB, F1B. reflexivity. }
  { rewrite HpB, F1B. cbn [size]. lia. }
  { rewrite HpB, F1B, He1. cbn [size]. unfold HDR, BRK_INCREMENT. lia. }
  { left. rewrite HpB, F1B, He1. cbn [size]. unfold BRK_INCREMENT. lia. }
  { rewrite HpB, F1B, L1. reflexivity. }
  rewrite HpB, F1B in L2, St2, H2. cbn [size] in L2, St2, H2.
  rewrite L1 in L2. cbn in L2. rewrite St1 in St2.
  rewrite E2. cbn [obind].
  (* mem_malloc(50) *)
  assert (F2B : hdr s2 B = mk_header BRK_INCREMENT NULL NULL 1 0).
  { hdr_eval. reflexivity. }
  destruct (malloc_reuse_spec 1 s2 50 B BRK_INCREMENT)
    as (s3 & E3 & L3 & St3 & Hs3 & He3 & H3).
  { discriminate. }
  { rewrite T50. discriminate. }
  { rewrite T50. reflexivity. }
  { rewrite T50. apply find_free_block_class9.
    - heads_null.
    - unfold head. rewrite L2. reflexivity.
    - exact Hb.
    - now rewrite F2B.
    - rewrite F2B. cbn [size]. unfold BRK_INCREMENT. lia. }
  { exact Hb. }
  { exact F2B. }
  { reflexivity. }
  { rewrite T50. unfold HDR, MIN_BLOCK_SIZE, BRK_INCREMENT. lia. }
  { rewrite T50. reflexivity. }
  rewrite T50 in *. rewrite St2 in St3.
  rewrite E3. cbn [obind].
  exists s1, s2, s3. split; [reflexivity |].
  split; [rewrite St1; reflexivity |].
  split; [rewrite F1B; reflexivity |].
  split; [rewrite St2; reflexivity |].
  split; [rewrite St2; reflexivity |].
  split; [rewrite F2B; reflexivity |].
  split; [hdr_eval; reflexivity |].
  rewrite St3. reflexivity.
Qed.

Lemma split_scenario_result_witness :
  exists s1 s2 s3,
    split_scenario fresh =
      Done (brk (os fresh) + HDR, brk (os fresh) + HDR, s1, s2, s3) /\
    num_splits (stats s1) = 1 /\
    size (hdr s1 (brk (os fresh))) = total_size 100 /\
    num_splits (stats s2) = 1 /\
    num_coalesces (stats s2) = 1 /\
    size (hdr s2 (brk (os fresh))) = BRK_INCREMENT /\
    size (hdr s3 (brk (os fresh))) = total_size 50 /\
    num_splits (stats s3) = 2.
Proof. apply (split_scenario_result fresh). apply room_fresh. Defined.

(** * The heap invariant and well-behaved clients

    The rest of the file follows a well-behaved client: it releases and
    resizes only addresses it holds, it asks only for sizes whose rounding
    does not wrap around, and between calls it stores only into the payload
    of blocks it holds ([ccall], [cstep]).  [heap_inv] describes the heap such
    a client can produce: the region between [heap_start] and [heap_end] is
    tiled by blocks, and the free lists are doubly linked chains of free tiles
    of the right class.  Chains no free list reaches any more are allowed,
    since [expand_heap] and [mem_reset] leave such chains behind.  The
    invariant is carried through every operation, and the properties of the
    public interface are read off it. *)

(** ** Header fields through the state updates *)

Lemma size_set_size s b v a :
  size (hdr (set_size s b v) a) = if decide (b = a) then v else size (hdr s a).
Proof. rewrite hdr_set_size. now case_decide; subst. Qed.
Lemma next_set_size s b v a : next (hdr (set_size s b v) a) = next (hdr s a).
Proof. rewrite hdr_set_size. now case_decide; subst. Qed.
Lemma prev_set_size s b v a : prev (hdr (set_size s b v) a) = prev (hdr s a).
Proof. rewrite hdr_set_size. now case_decide; subst. Qed.
Lemma is_free_set_size s b v a : is_free (hdr (set_size s b v) a) = is_free (hdr s a).
Proof. rewrite hdr_set_size. now case_decide; subst. Qed.
Lemma is_mmap_set_size s b v a : is_mmap (hdr (set_size s b v) a) = is_mmap (hdr s a).
Proof. rewrite hdr_set_size. now case_decide; subst. Qed.
Lemma size_set_next s b v a : size (hdr (set_next s b v) a) = size (hdr s a).
Proof. rewrite hdr_set_next. now case_decide; subst. Qed.
Lemma next_set_next s b v a :
  next (hdr (set_next s b v) a) = if decide (b = a) then v else next (hdr s a).
Proof. rewrite hdr_set_next. now case_decide; subst. Qed.
Lemma prev_set_next s b v a : prev (hdr (set_next s b v) a) = prev (hdr s a).
Proof. rewrite hdr_set_next. now case_decide; subst. Qed.
Lemma is_free_set_next s b v a : is_free (hdr (set_next s b v) a) = is_free (hdr s a).
Proof. rewrite hdr_set_next. now case_decide; subst. Qed.
Lemma is_mmap_set_next s b v a : is_mmap (hdr (set_next s b v) a) = is_mmap (hdr s a).
Proof. rewrite hdr_set_next. now case_decide; subst. Qed.
Lemma size_set_prev s b v a : size (hdr (set_prev s b v) a) = size (hdr s a).
Proof. rewrite hdr_set_prev. now case_decide; subst. Qed.
Lemma next_set_prev s b v a : next (hdr (set_prev s b v) a) = next (hdr s a).
Proof. rewrite hdr_set_prev. now case_decide; subst. Qed.
Lemma prev_set_prev s b v a :
  prev (hdr (set_prev s b v) a) = if decide (b = a) then v else prev (hdr s a).
Proof. rewrite hdr_set_prev. now case_decide; subst. Qed.
Lemma is_free_set_prev s b v a : is_free (hdr (set_prev s b v) a) = is_free (hdr s a).
Proof. rewrite hdr_set_prev. now case_decide; subst. Qed.
Lemma is_mmap_set_prev s b v a : is_mmap (hdr (set_prev s b v) a) = is_mmap (hdr s a).
Proof. rewrite hdr_set_prev. now case_decide; subst. Qed.
Lemma size_set_is_free s b v a : size (hdr (set_is_free s b v) a) = size (hdr s a).
Proof. rewrite hdr_set_is_free. now case_decide; subst. Qed.
Lemma next_set_is_free s b v a : next (hdr (set_is_free s b v) a) = next (hdr s a).
Proof. rewrite hdr_set_is_free. now case_decide; subst. Qed.
Lemma prev_set_is_free s b v a : prev (hdr (set_is_free s b v) a) = prev (hdr s a).
Proof. rewrite hdr_set_is_free. now case_decide; subst. Qed.
Lemma is_free_set_is_free s b v a :
  is_free (hdr (set_is_free s b v) a) = if decide (b = a) then v else is_free (hdr s a).
Proof. rewrite hdr_set_is_free. now case_decide; subst. Qed.
Lemma is_mmap_set_is_free s b v a : is_mmap (hdr (set_is_free s b v) a) = is_mmap (hdr s a).
Proof. rewrite hdr_set_is_free. now case_decide; subst. Qed.
Lemma size_set_is_mmap s b v a : size (hdr (set_is_mmap s b v) a) = size (hdr s a).
Proof. rewrite hdr_set_is_mmap. now case_decide; subst. Qed.
Lemma next_set_is_mmap s b v a : next (hdr (set_is_mmap s b v) a) = next (hdr s a).
Proof. rewrite hdr_set_is_mmap. now case_decide; subst. Qed.
Lemma prev_set_is_mmap s b v a : prev (hdr (set_is_mmap s b v) a) = prev (hdr s a).
Proof. rewrite hdr_set_is_mmap. now case_decide; subst. Qed.
Lemma is_free_set_is_mmap s b v a : is_free (hdr (set_is_mmap s b v) a) = is_free (hdr s a).
Proof. rewrite hdr_set_is_mmap. now case_decide; subst. Qed.
Lemma is_mmap_set_is_mmap s b v a :
  is_mmap (hdr (set_is_mmap s b v) a) = if decide (b = a) then v else is_mmap (hdr s a).
Proof. rewrite hdr_set_is_mmap. now case_decide; subst. Qed.

Create Rewrite HintDb fld_rw.
#[export] Hint Rewrite hdr_with_stats hdr_with_os hdr_with_heap hdr_with_bytes
  hdr_with_free_lists hdr_set_head
  size_set_size next_set_size prev_set_size is_free_set_size is_mmap_set_size size_set_next next_set_next prev_set_next is_free_set_next is_mmap_set_next size_set_prev next_set_prev prev_set_prev is_free_set_prev is_mmap_set_prev size_set_is_free next_set_is_free prev_set_is_free is_free_set_is_free is_mmap_set_is_free size_set_is_mmap next_set_is_mmap prev_set_is_mmap is_free_set_is_mmap is_mmap_set_is_mmap : fld_rw.

(** * The list operations, field by field *)

Lemma truthy_true v : truthy v = true <-> v <> 0.
Proof. unfold truthy. rewrite negb_true_iff, N.eqb_neq. tauto. Qed.

Lemma truthy_false v : truthy v = false <-> v = 0.
Proof. unfold truthy. rewrite negb_false_iff, N.eqb_eq. tauto. Qed.


(** Decides the address comparisons left by header reads. *)
Ltac addr_cases :=
  repeat case_decide; subst; try reflexivity; try congruence;
  try (exfalso; intuition congruence); try (intuition congruence).

Lemma size_remove s b a : size (hdr (remove_from_free_list s b) a) = size (hdr s a).
Proof.
  unfold remove_from_free_list.
  repeat match goal with |- context [if ?c then _ else _] => destruct c end;
    now autorewrite with fld_rw.
Qed.

Lemma is_free_remove s b a : is_free (hdr (remove_from_free_list s b) a) = is_free (hdr s a).
Proof.
  unfold remove_from_free_list.
  repeat match goal with |- context [if ?c then _ else _] => destruct c end;
    now autorewrite with fld_rw.
Qed.

Lemma is_mmap_remove s b a : is_mmap (hdr (remove_from_free_list s b) a) = is_mmap (hdr s a).
Proof.
  unfold remove_from_free_list.
  repeat match goal with |- context [if ?c then _ else _] => destruct c end;
    now autorewrite with fld_rw.
Qed.

Lemma next_remove s b a :
  next (hdr (remove_from_free_list s b) a) =
  if decide (a = b) then NULL
  else if decide (prev (hdr s b) <> 0 /\ a = prev (hdr s b)) then next (hdr s b)
  else next (hdr s a).
Proof.
  unfold remove_from_free_list.
  set (p := prev (hdr s b)). set (n := next (hdr s b)).
  destruct (truthy p) eqn:Ep.
  - apply truthy_true in Ep.
    assert (Hn : next (hdr (set_next s p n) b) = n).
    { autorewrite with fld_rw. now case_decide. }
    assert (Hp : prev (hdr (set_next s p n) b) = p) by now autorewrite with fld_rw.
    rewrite Hn, Hp. clear Hn Hp. clearbody p n.
    destruct (truthy n); autorewrite with fld_rw;
      addr_cases.
  - apply truthy_false in Ep.
    autorewrite with fld_rw. fold n p. clearbody p n.
    destruct (truthy n); autorewrite with fld_rw;
      addr_cases.
Qed.

Lemma prev_remove s b a :
  prev (hdr (remove_from_free_list s b) a) =
  if decide (a = b) then NULL
  else if decide (next (hdr s b) <> 0 /\ a = next (hdr s b)) then prev (hdr s b)
  else prev (hdr s a).
Proof.
  unfold remove_from_free_list.
  set (p := prev (hdr s b)). set (n := next (hdr s b)).
  destruct (truthy p) eqn:Ep.
  - apply truthy_true in Ep.
    assert (Hn : next (hdr (set_next s p n) b) = n).
    { autorewrite with fld_rw. now case_decide. }
    assert (Hp : prev (hdr (set_next s p n) b) = p) by now autorewrite with fld_rw.
    rewrite Hn, Hp. clear Hn Hp. clearbody p n.
    destruct (truthy n) eqn:En;
      [apply truthy_true in En | apply truthy_false in En];
      autorewrite with fld_rw;
      addr_cases.
  - apply truthy_false in Ep.
    autorewrite with fld_rw. fold n p. clearbody p n.
    destruct (truthy n) eqn:En;
      [apply truthy_true in En | apply truthy_false in En];
      autorewrite with fld_rw;
      addr_cases.
Qed.

Lemma free_lists_remove s b :
  free_lists (remove_from_free_list s b) =
  if decide (prev (hdr s b) = 0)
  then <[get_size_class (size (hdr s b)) := next (hdr s b)]> (free_lists s)
  else free_lists s.
Proof.
  unfold remove_from_free_list.
  set (p := prev (hdr s b)). set (n := next (hdr s b)).
  destruct (truthy p) eqn:Ep;
    [apply truthy_true in Ep | apply truthy_false in Ep];
    case_decide; try tauto; try congruence;
    repeat match goal with |- context [if ?c then _ else _] => destruct c end;
    now autorewrite with proj_rw.
Qed.


Lemma head_set_next s b v i : head (set_next s b v) i = head s i.
Proof. reflexivity. Qed.
Lemma head_set_prev s b v i : head (set_prev s b v) i = head s i.
Proof. reflexivity. Qed.
Lemma head_set_size s b v i : head (set_size s b v) i = head s i.
Proof. reflexivity. Qed.
Lemma head_set_is_free s b v i : head (set_is_free s b v) i = head s i.
Proof. reflexivity. Qed.
Lemma head_set_is_mmap s b v i : head (set_is_mmap s b v) i = head s i.
Proof. reflexivity. Qed.
Lemma head_with_stats s st i : head (with_stats s st) i = head s i.
Proof. reflexivity. Qed.

#[export] Hint Rewrite head_set_next head_set_prev head_set_size head_set_is_free
  head_set_is_mmap head_with_stats : fld_rw.

Lemma size_add s b a : size (hdr (add_to_free_list s b) a) = size (hdr s a).
Proof.
  unfold add_to_free_list.
  repeat match goal with |- context [if ?c then _ else _] => destruct c end;
    now autorewrite with fld_rw.
Qed.

Lemma is_mmap_add s b a : is_mmap (hdr (add_to_free_list s b) a) = is_mmap (hdr s a).
Proof.
  unfold add_to_free_list.
  repeat match goal with |- context [if ?c then _ else _] => destruct c end;
    now autorewrite with fld_rw.
Qed.

Lemma is_free_add s b a :
  is_free (hdr (add_to_free_list s b) a) = if decide (a = b) then 1 else is_free (hdr s a).
Proof.
  unfold add_to_free_list.
  repeat match goal with |- context [if truthy ?c then _ else _] => destruct (truthy c) end;
    autorewrite with fld_rw; addr_cases.
Qed.

Lemma next_add s b a :
  next (hdr (add_to_free_list s b) a) =
  if decide (a = b) then head s (get_size_class (size (hdr s b))) else next (hdr s a).
Proof.
  unfold add_to_free_list.
  repeat match goal with |- context [if truthy ?c then _ else _] => destruct (truthy c) end;
    autorewrite with fld_rw; addr_cases.
Qed.

Lemma prev_add s b a :
  prev (hdr (add_to_free_list s b) a) =
  let h := head s (get_size_class (size (hdr s b))) in
  if decide (h <> 0 /\ a = h) then b
  else if decide (a = b) then NULL else prev (hdr s a).
Proof.
  unfold add_to_free_list. cbv zeta. autorewrite with fld_rw.
  set (h := head s _). 
  destruct (truthy h) eqn:Eh;
    [apply truthy_true in Eh | apply truthy_false in Eh];
    clearbody h; autorewrite with fld_rw; addr_cases.
Qed.

Lemma free_lists_add s b :
  free_lists (add_to_free_list s b) =
  <[get_size_class (size (hdr s b)) := b]> (free_lists s).
Proof.
  unfold add_to_free_list.
  repeat match goal with |- context [if truthy ?c then _ else _] => destruct (truthy c) end;
    now autorewrite with proj_rw fld_rw.
Qed.

(** * Preservation of the heap invariant by the list operations *)

Lemma head_insert (l : list N) (c c' : nat) (v : N) :
  (c < length l)%nat ->
  nth c' (<[c := v]> l) NULL = if decide (c' = c) then v else nth c' l NULL.
Proof.
  intros Hc. rewrite !nth_lookup. case_decide as E.
  - subst. now rewrite list_lookup_insert_eq.
  - now rewrite list_lookup_insert_ne by (unfold NULL in *; congruence).
Qed.

Lemma class_lt_len s T sz :
  heap_inv s T -> (get_size_class sz < length (free_lists s))%nat.
Proof.
  intros I. rewrite (hi_len _ _ I). pose proof (get_size_class_le sz).
  unfold NUM_SIZE_CLASSES. lia.
Qed.

Lemma tile_nonnull s T b : heap_inv s T -> b ∈ T -> b <> NULL.
Proof.
  intros I Hb. destruct (hi_heap _ _ I) as [(_ & _ & ->) | (Hs & _ & _)].
  - set_solver.
  - pose proof (hi_in _ _ I b Hb). unfold NULL in *. lia.
Qed.

Lemma head_remove s T b c :
  heap_inv s T ->
  head (remove_from_free_list s b) c =
  if decide (prev (hdr s b) = 0 /\ c = get_size_class (size (hdr s b)))
  then next (hdr s b) else head s c.
Proof.
  intros I. unfold head. rewrite free_lists_remove.
  case_decide as Ep.
  - rewrite head_insert by (eapply class_lt_len; eauto).
    repeat case_decide; try reflexivity; exfalso; tauto.
  - case_decide; [exfalso; tauto | reflexivity].
Qed.

Lemma remove_inv s T b :
  heap_inv s T -> free_tile s T b ->
  heap_inv (remove_from_free_list s b) T /\
  next (hdr (remove_from_free_list s b) b) = NULL /\
  prev (hdr (remove_from_free_list s b) b) = NULL /\
  detached (remove_from_free_list s b) b.
Proof.
  intros I Fb.
  pose proof (tile_nonnull _ _ _ I (proj1 Fb)) as Hb0.
  assert (HP : prev (hdr s b) <> NULL ->
               free_tile s T (prev (hdr s b)) /\ next (hdr s (prev (hdr s b))) = b).
  { intros Hp. now apply (hi_prev _ _ I b). }
  assert (HN : next (hdr s b) <> NULL ->
               free_tile s T (next (hdr s b)) /\ prev (hdr s (next (hdr s b))) = b /\
               get_size_class (size (hdr s (next (hdr s b)))) =
               get_size_class (size (hdr s b))).
  { intros Hn. now apply (hi_next _ _ I b). }
  assert (FT : forall x, free_tile (remove_from_free_list s b) T x <-> free_tile s T x).
  { intros x. unfold free_tile. now rewrite is_free_remove. }
  destruct (heap_bounds_remove_from_free_list s b) as [Hhs Hhe].
  set (p := prev (hdr s b)) in *. set (n := next (hdr s b)) in *.
  split; [| split; [| split]].
  - constructor.
    + rewrite free_lists_remove. case_decide; rewrite ?length_insert; apply (hi_len _ _ I).
    + intros x Hx. rewrite size_remove, Hhs, Hhe. now apply (hi_in _ _ I).
    + intros x Hx. rewrite size_remove. now apply (hi_min _ _ I).
    + intros x Hx. rewrite size_remove, Hhe. now apply (hi_succ _ _ I).
    + intros x y Hx Hy Hxy. rewrite !size_remove. now apply (hi_disj _ _ I).
    + intros x Hx. rewrite is_mmap_remove. now apply (hi_nomap _ _ I).
    + (* heads *)
      intros c x Hc Hx. rewrite (head_remove _ T) in Hc by assumption.
      fold p n in Hc. rewrite FT, prev_remove, size_remove. fold p n.
      case_decide as E.
      * destruct E as [Ep Ec]. subst x. destruct (HN Hx) as (Fn & Pn & Cn).
        split; [exact Fn |].
        assert (n <> b) by (intros Enb; rewrite Enb in Pn; fold p in Pn; (unfold NULL in *; congruence)).
        split; [| (unfold NULL in *; congruence)].
        rewrite decide_False by assumption.
        rewrite decide_True by (split; [assumption | reflexivity]). exact Ep.
      * destruct (hi_head _ _ I c x Hc Hx) as (Fx & Px & Cx).
        assert (x <> b).
        { intros ->. apply E. split; [exact Px | now symmetry]. }
        split; [exact Fx |]. split; [| exact Cx].
        rewrite decide_False by assumption.
        case_decide as E2; [| exact Px].
        destruct E2 as [Hn0 ->]. destruct (HN Hn0) as (_ & Pn & _).
        rewrite Pn in Px. contradiction.
    + (* next *)
      intros t x Ft Hx Hx0. apply FT in Ft.
      rewrite next_remove in Hx. fold p n in Hx.
      rewrite FT, prev_remove, !size_remove. fold p n.
      case_decide as Etb; [unfold NULL in *; (unfold NULL in *; congruence) |].
      case_decide as E.
      * destruct E as [Hp0 ->]. subst x.
        destruct (HN Hx0) as (Fn & Pn & Cn). destruct (HP Hp0) as (Fp & Np).
        destruct (hi_next _ _ I p b Fp Np Hb0) as (_ & _ & Cb).
        split; [exact Fn |].
        assert (n <> b) by (intros Enb; rewrite Enb in Pn; fold p in Pn; (unfold NULL in *; congruence)).
        split; [| (unfold NULL in *; congruence)].
        rewrite decide_False by assumption.
        now rewrite decide_True by (split; [assumption | reflexivity]).
      * destruct (hi_next _ _ I t x Ft Hx Hx0) as (Fx & Px & Cx).
        assert (x <> b).
        { intros ->. fold p in Px. apply E. split; [| now symmetry].
          rewrite Px. now apply (tile_nonnull s T t I), Ft. }
        split; [exact Fx |]. split; [| exact Cx].
        rewrite decide_False by assumption.
        case_decide as E2; [| exact Px].
        destruct E2 as [Hn0 ->]. destruct (HN Hn0) as (_ & Pn & _). (unfold NULL in *; congruence).
    + (* prev *)
      intros x t Fx Ht Ht0. apply FT in Fx.
      rewrite prev_remove in Ht. fold p n in Ht.
      rewrite FT, next_remove. fold p n.
      case_decide as Exb; [unfold NULL in *; (unfold NULL in *; congruence) |].
      case_decide as E.
      * destruct E as [Hn0 ->]. subst t.
        destruct (HP Ht0) as (Fp & Np).
        split; [exact Fp |].
        assert (p <> b) by (intros Epb; rewrite Epb in Np; fold n in Np; (unfold NULL in *; congruence)).
        rewrite decide_False by assumption.
        now rewrite decide_True by (split; [assumption | reflexivity]).
      * destruct (hi_prev _ _ I x t Fx Ht Ht0) as (Ft & Nt).
        assert (t <> b).
        { intros ->. fold n in Nt. apply E. split; [| now symmetry].
          rewrite Nt. now apply (tile_nonnull s T x I), Fx. }
        split; [exact Ft |].
        rewrite decide_False by assumption.
        case_decide as E2; [| exact Nt].
        destruct E2 as [Hp0 ->]. destruct (HP Hp0) as (_ & Np). (unfold NULL in *; congruence).
    + (* blocks in use *)
      intros x Hx Hfx. rewrite is_free_remove in Hfx.
      destruct (hi_used _ _ I x Hx Hfx) as [Nx Px].
      assert (x <> b) by (intros ->; now apply Fb).
      rewrite next_remove, prev_remove. fold p n.
      split; rewrite (decide_False (P := x = b)) by assumption;
        (case_decide as E; [| assumption]); destruct E as [H0 ->].
      * destruct (HP H0) as [[_ Fp] _]. contradiction.
      * destruct (HN H0) as [[_ Fn] _]. contradiction.
    + rewrite os_remove_from_free_list, Hhs, Hhe. apply (hi_heap _ _ I).
    + rewrite os_remove_from_free_list. apply (hi_os _ _ I).
    + (* only free blocks have a successor *)
      intros t Ht. rewrite next_remove in Ht. fold p n in Ht. apply FT.
      case_decide as Etb; [(unfold NULL in *; congruence) |].
      case_decide as E; [| now apply (hi_links _ _ I)].
      destruct E as [Hp0 ->]. now apply HP.
    + (* following [next] ends *)
      destruct (hi_rank _ _ I) as [rank Hr]. exists rank.
      intros t Ht. rewrite next_remove in Ht |- *. fold p n in Ht |- *.
      case_decide as Etb; [(unfold NULL in *; congruence) |].
      case_decide as E; [| now apply Hr].
      destruct E as [Hp0 ->]. destruct (HP Hp0) as [_ Np].
      pose proof (Hr p) as R1. rewrite Np in R1. specialize (R1 Hb0).
      pose proof (Hr b Ht) as R2. fold n in R2. lia.
    + intros Hbrk x Hx. rewrite os_remove_from_free_list in Hbrk. rewrite size_remove.
      now apply (hi_align _ _ I).
  - rewrite next_remove. now rewrite decide_True.
  - rewrite prev_remove. now rewrite decide_True.
  - intros c Hc. rewrite (head_remove _ T) in Hc by assumption. fold p n in Hc.
    case_decide as E.
    + destruct E as [Ep _]. destruct (HN ltac:((unfold NULL in *; congruence))) as (_ & Pn & _).
      rewrite Hc in Pn. fold p in Pn. (unfold NULL in *; congruence).
    + destruct (hi_head _ _ I c b Hc Hb0) as (_ & Pb & Cb).
      apply E. split; [exact Pb | now symmetry].
Qed.

Lemma head_add s T b c :
  heap_inv s T ->
  head (add_to_free_list s b) c =
  if decide (c = get_size_class (size (hdr s b))) then b else head s c.
Proof.
  intros I. unfold head. rewrite free_lists_add.
  apply head_insert. eapply class_lt_len; eauto.
Qed.

Ltac nullc := unfold NULL in *; congruence.

Lemma add_inv s T b :
  heap_inv s T -> free_tile s T b ->
  next (hdr s b) = NULL -> prev (hdr s b) = NULL -> detached s b ->
  heap_inv (add_to_free_list s b) T /\
  head (add_to_free_list s b) (get_size_class (size (hdr s b))) = b.
Proof.
  intros I Fb Nb Pb Db.
  pose proof (tile_nonnull _ _ _ I (proj1 Fb)) as Hb0.
  set (c := get_size_class (size (hdr s b))) in *.
  set (h := head s c) in *.
  assert (Hhb : h <> b) by apply Db.
  assert (HH : h <> NULL -> free_tile s T h /\ prev (hdr s h) = NULL /\
                            get_size_class (size (hdr s h)) = c).
  { intros Hh. now apply (hi_head _ _ I c h). }
  assert (FT : forall x, free_tile (add_to_free_list s b) T x <-> free_tile s T x).
  { intros x. unfold free_tile. rewrite is_free_add. case_decide; [subst | tauto].
    split; [intros _; exact Fb | intros [Hx _]; split; [exact Hx | discriminate]]. }
  assert (NoN : forall t, free_tile s T t -> next (hdr s t) <> b).
  { intros t Ft Ht. destruct (hi_next _ _ I t b Ft Ht Hb0) as (_ & Pt & _).
    pose proof (tile_nonnull _ _ _ I (proj1 Ft)). nullc. }
  assert (NoP : forall t, free_tile s T t -> prev (hdr s t) <> b).
  { intros t Ft Ht. destruct (hi_prev _ _ I t b Ft Ht Hb0) as (_ & Nt).
    pose proof (tile_nonnull _ _ _ I (proj1 Ft)). nullc. }
  destruct (heap_bounds_add_to_free_list s b) as [Hhs Hhe].
  split; [| rewrite (head_add _ T) by assumption; now rewrite decide_True].
  constructor.
  - rewrite free_lists_add, length_insert. apply (hi_len _ _ I).
  - intros x Hx. rewrite size_add, Hhs, Hhe. now apply (hi_in _ _ I).
  - intros x Hx. rewrite size_add. now apply (hi_min _ _ I).
  - intros x Hx. rewrite size_add, Hhe. now apply (hi_succ _ _ I).
  - intros x y Hx Hy Hxy. rewrite !size_add. now apply (hi_disj _ _ I).
  - intros x Hx. rewrite is_mmap_add. now apply (hi_nomap _ _ I).
  - (* heads *)
    intros c' x Hc Hx. rewrite (head_add _ T) in Hc by assumption. fold c in Hc.
    rewrite FT, prev_add, size_add. cbv zeta. fold c h.
    case_decide as Ec.
    + subst x c'. split; [exact Fb |]. split; [| reflexivity].
      rewrite decide_False by (intros [_ E]; now apply Hhb).
      now rewrite decide_True.
    + destruct (hi_head _ _ I c' x Hc Hx) as (Fx & Px & Cx).
      split; [exact Fx |]. split; [| exact Cx].
      assert (x <> b) by (intros ->; now apply (Db c')).
      case_decide as E.
      * destruct E as [Hh0 ->]. destruct (HH Hh0) as (_ & _ & Ch). nullc.
      * now rewrite decide_False.
  - (* next *)
    intros t x Ft Hx Hx0. apply FT in Ft.
    rewrite next_add in Hx. fold c h in Hx.
    rewrite FT, prev_add, !size_add. cbv zeta. fold c h.
    case_decide as Etb.
    + subst t x. destruct (HH Hx0) as (Fh & Ph & Ch).
      split; [exact Fh |]. split; [| exact Ch].
      now rewrite decide_True by (split; [assumption | reflexivity]).
    + destruct (hi_next _ _ I t x Ft Hx Hx0) as (Fx & Px & Cx).
      split; [exact Fx |]. split; [| exact Cx].
      assert (x <> b) by (intros ->; now apply (NoN t)).
      case_decide as E.
      * destruct E as [Hh0 ->]. destruct (HH Hh0) as (_ & Ph & _).
        pose proof (tile_nonnull _ _ _ I (proj1 Ft)). nullc.
      * now rewrite decide_False.
  - (* prev *)
    intros x t Fx Ht Ht0. apply FT in Fx.
    rewrite prev_add in Ht. cbv zeta in Ht. fold c h in Ht.
    rewrite FT, next_add. fold c h.
    case_decide as E.
    + destruct E as [Hh0 ->]. subst t. split; [exact Fb |].
      now rewrite decide_True.
    + case_decide as Exb; [nullc |].
      destruct (hi_prev _ _ I x t Fx Ht Ht0) as (Ft & Nt).
      split; [exact Ft |].
      assert (t <> b).
      { intros ->. pose proof (tile_nonnull _ _ _ I (proj1 Fx)). nullc. }
      now rewrite decide_False.
  - (* blocks in use *)
    intros x Hx Hfx. rewrite is_free_add in Hfx.
    case_decide as Exb; [discriminate |].
    destruct (hi_used _ _ I x Hx Hfx) as [Nx Px].
    rewrite next_add, prev_add. cbv zeta. fold c h.
    rewrite (decide_False (P := x = b)) by assumption.
    split; [exact Nx |].
    case_decide as E; [| now rewrite decide_False].
    destruct E as [Hh0 ->]. destruct (HH Hh0) as ([_ Fh] & _). contradiction.
  - rewrite os_add_to_free_list, Hhs, Hhe. apply (hi_heap _ _ I).
  - rewrite os_add_to_free_list. apply (hi_os _ _ I).
  - (* only free blocks have a successor *)
    intros t Ht. rewrite next_add in Ht. apply FT.
    case_decide as Etb; [now subst | now apply (hi_links _ _ I)].
  - (* following [next] ends *)
    destruct (hi_rank _ _ I) as [rank Hr].
    exists (fun a => if decide (a = b) then S (rank h) else rank a).
    intros t Ht. rewrite next_add in Ht |- *. fold c h in Ht |- *.
    destruct (decide (t = b)) as [-> | Htb].
    + rewrite decide_False by assumption. lia.
    + assert (Ft : free_tile s T t) by now apply (hi_links _ _ I).
      rewrite decide_False by (now apply NoN). now apply Hr.
  - intros Hbrk x Hx. rewrite os_add_to_free_list in Hbrk. rewrite size_add.
    now apply (hi_align _ _ I).
Qed.

(** * Frames *)

Lemma hdr_ext (h h' : block_header) :
  size h = size h' -> next h = next h' -> prev h = prev h' ->
  is_free h = is_free h' -> is_mmap h = is_mmap h' -> h = h'.
Proof. destruct h, h'; cbn; congruence. Qed.

Lemma preserves_refl s T b : preserves s T s T b.
Proof. intros a G _. now split. Qed.

Lemma preserves_trans s T s1 T1 s2 T2 b :
  preserves s T s1 T1 b -> preserves s1 T1 s2 T2 b -> preserves s T s2 T2 b.
Proof.
  intros P1 P2 a G Hab. destruct (P1 a G Hab) as [E1 G1].
  destruct (P2 a G1 Hab) as [E2 G2]. split; [congruence | exact G2].
Qed.

(** A state that agrees with [s] on headers, list heads, heap bounds and
    system state satisfies the same invariant. *)
Lemma heap_inv_ext s s' T :
  (forall a, hdr s' a = hdr s a) -> free_lists s' = free_lists s ->
  heap_start s' = heap_start s -> heap_end s' = heap_end s -> os s' = os s ->
  heap_inv s T -> heap_inv s' T.
Proof.
  intros Hh Hl Hs He Ho I.
  assert (Hd : forall c, head s' c = head s c) by (intros c; unfold head; now rewrite Hl).
  assert (FT : forall x, free_tile s' T x <-> free_tile s T x).
  { intros x. unfold free_tile. now rewrite Hh. }
  constructor.
  - rewrite Hl. apply (hi_len _ _ I).
  - intros x Hx. rewrite Hh, Hs, He. now apply (hi_in _ _ I).
  - intros x Hx. rewrite Hh. now apply (hi_min _ _ I).
  - intros x Hx. rewrite Hh, He. now apply (hi_succ _ _ I).
  - intros x y Hx Hy Hxy. rewrite !Hh. now apply (hi_disj _ _ I).
  - intros x Hx. rewrite Hh. now apply (hi_nomap _ _ I).
  - intros c x Hc Hx. rewrite Hd in Hc. rewrite FT, Hh. now apply (hi_head _ _ I).
  - intros t x Ft Hx Hx0. rewrite FT in *. rewrite Hh in Hx. rewrite !Hh.
    now apply (hi_next _ _ I t).
  - intros x t Fx Ht Ht0. rewrite FT in *. rewrite Hh in Ht. rewrite Hh.
    now apply (hi_prev _ _ I x).
  - intros x Hx Hfx. rewrite Hh in *. now apply (hi_used _ _ I).
  - rewrite Hs, He, Ho. apply (hi_heap _ _ I).
  - rewrite Ho. apply (hi_os _ _ I).
  - intros t Ht. rewrite Hh in Ht. apply FT. now apply (hi_links _ _ I).
  - destruct (hi_rank _ _ I) as [rank Hr]. exists rank.
    intros t Ht. rewrite Hh in *. now apply Hr.
  - intros Hbrk x Hx. rewrite Ho in Hbrk. rewrite Hh. now apply (hi_align _ _ I).
Qed.

Lemma preserves_ext s s' T b :
  (forall a, hdr s' a = hdr s a) -> os s' = os s -> preserves s T s' T b.
Proof.
  intros Hh Ho a G _. split; [apply Hh |].
  unfold guarded in *. now rewrite Hh, Ho.
Qed.

Lemma heap_inv_with_stats s T st : heap_inv s T -> heap_inv (with_stats s st) T.
Proof. now apply heap_inv_ext. Qed.

(** No free block points to a block whose own links are null. *)
Lemma no_next_to s T b :
  heap_inv s T -> b ∈ T -> prev (hdr s b) = NULL ->
  forall t, free_tile s T t -> next (hdr s t) <> b.
Proof.
  intros I Hb Pb t Ft Ht.
  pose proof (tile_nonnull _ _ _ I Hb) as Hb0.
  destruct (hi_next _ _ I t b Ft Ht Hb0) as (_ & Pt & _).
  pose proof (tile_nonnull _ _ _ I (proj1 Ft)). nullc.
Qed.

Lemma no_prev_to s T b :
  heap_inv s T -> b ∈ T -> next (hdr s b) = NULL ->
  forall t, free_tile s T t -> prev (hdr s t) <> b.
Proof.
  intros I Hb Nb t Ft Ht.
  pose proof (tile_nonnull _ _ _ I Hb) as Hb0.
  destruct (hi_prev _ _ I t b Ft Ht Hb0) as (Fb & Nt).
  pose proof (tile_nonnull _ _ _ I (proj1 Ft)). nullc.
Qed.

(** * Marking a block free, and in use *)

Lemma mark_free_inv s T b :
  heap_inv s T -> b ∈ T -> is_free (hdr s b) = 0 ->
  heap_inv (set_is_free s b 1) T /\ free_tile (set_is_free s b 1) T b /\
  next (hdr (set_is_free s b 1) b) = NULL /\
  prev (hdr (set_is_free s b 1) b) = NULL /\
  detached (set_is_free s b 1) b.
Proof.
  intros I Hb Ub.
  destruct (hi_used _ _ I b Hb Ub) as [Nb Pb].
  assert (FT : forall x, free_tile s T x -> free_tile (set_is_free s b 1) T x).
  { intros x [Hx Fx]. split; [exact Hx |]. autorewrite with fld_rw.
    case_decide; [discriminate | exact Fx]. }
  assert (FT' : forall x, free_tile (set_is_free s b 1) T x -> x <> b -> free_tile s T x).
  { intros x [Hx Fx] Hxb. split; [exact Hx |]. autorewrite with fld_rw in Fx.
    now rewrite decide_False in Fx by congruence. }
  split; [| split; [| split; [| split]]].
  - constructor.
    + apply (hi_len _ _ I).
    + intros x Hx. autorewrite with fld_rw. now apply (hi_in _ _ I).
    + intros x Hx. autorewrite with fld_rw. now apply (hi_min _ _ I).
    + intros x Hx. autorewrite with fld_rw. now apply (hi_succ _ _ I).
    + intros x y Hx Hy Hxy. autorewrite with fld_rw. now apply (hi_disj _ _ I).
    + intros x Hx. autorewrite with fld_rw. now apply (hi_nomap _ _ I).
    + intros c x Hc Hx. autorewrite with fld_rw in *.
      destruct (hi_head _ _ I c x Hc Hx) as (Fx & Px & Cx). auto.
    + intros t x Ft Hx Hx0. autorewrite with fld_rw in *.
      destruct (decide (t = b)) as [-> | Htb]; [nullc |].
      destruct (hi_next _ _ I t x (FT' _ Ft Htb) Hx Hx0) as (Fx & Px & Cx). auto.
    + intros x t Fx Ht Ht0. autorewrite with fld_rw in *.
      destruct (decide (x = b)) as [-> | Hxb]; [nullc |].
      destruct (hi_prev _ _ I x t (FT' _ Fx Hxb) Ht Ht0) as (Ft & Nt). auto.
    + intros x Hx Fx. autorewrite with fld_rw in *.
      case_decide; [discriminate |]. now apply (hi_used _ _ I).
    + apply (hi_heap _ _ I).
    + apply (hi_os _ _ I).
    + intros t Ht. autorewrite with fld_rw in Ht. apply FT. now apply (hi_links _ _ I).
    + destruct (hi_rank _ _ I) as [rank Hr]. exists rank.
      intros t Ht. autorewrite with fld_rw in *. now apply Hr.
    + intros Hbrk x Hx. autorewrite with fld_rw. now apply (hi_align _ _ I).
  - split; [exact Hb |]. autorewrite with fld_rw. now rewrite decide_True.
  - now autorewrite with fld_rw.
  - now autorewrite with fld_rw.
  - intros c Hc. autorewrite with fld_rw in Hc.
    destruct (hi_head _ _ I c b Hc (tile_nonnull _ _ _ I Hb)) as ([_ Fb] & _).
    contradiction.
Qed.

Lemma mark_used_inv s T b :
  heap_inv s T -> free_tile s T b ->
  next (hdr s b) = NULL -> prev (hdr s b) = NULL -> detached s b ->
  heap_inv (set_is_free s b 0) T.
Proof.
  intros I Fb Nb Pb Db.
  assert (FT : forall x, free_tile (set_is_free s b 0) T x -> free_tile s T x /\ x <> b).
  { intros x [Hx Fx]. autorewrite with fld_rw in Fx.
    case_decide; [contradiction |]. split; [now split | congruence]. }
  assert (FT' : forall x, free_tile s T x -> x <> b -> free_tile (set_is_free s b 0) T x).
  { intros x [Hx Fx] Hxb. split; [exact Hx |]. autorewrite with fld_rw.
    now rewrite decide_False by congruence. }
  constructor.
  - apply (hi_len _ _ I).
  - intros x Hx. autorewrite with fld_rw. now apply (hi_in _ _ I).
  - intros x Hx. autorewrite with fld_rw. now apply (hi_min _ _ I).
  - intros x Hx. autorewrite with fld_rw. now apply (hi_succ _ _ I).
  - intros x y Hx Hy Hxy. autorewrite with fld_rw. now apply (hi_disj _ _ I).
  - intros x Hx. autorewrite with fld_rw. now apply (hi_nomap _ _ I).
  - intros c x Hc Hx. autorewrite with fld_rw in *.
    destruct (hi_head _ _ I c x Hc Hx) as (Fx & Px & Cx).
    split; [| now split]. apply FT'; [exact Fx |]. intros ->. now apply (Db c).
  - intros t x Ft Hx Hx0. autorewrite with fld_rw in *.
    destruct (FT _ Ft) as [Ft0 Htb].
    destruct (hi_next _ _ I t x Ft0 Hx Hx0) as (Fx & Px & Cx).
    split; [| now split]. apply FT'; [exact Fx |]. intros ->.
    now apply (no_next_to _ _ _ I (proj1 Fb) Pb t Ft0).
  - intros x t Fx Ht Ht0. autorewrite with fld_rw in *.
    destruct (FT _ Fx) as [Fx0 Hxb].
    destruct (hi_prev _ _ I x t Fx0 Ht Ht0) as (Ft & Nt).
    split; [| exact Nt]. apply FT'; [exact Ft |]. intros ->.
    now apply (no_prev_to _ _ _ I (proj1 Fb) Nb x Fx0).
  - intros x Hx Fx. autorewrite with fld_rw in *.
    case_decide; [subst; now split |]. now apply (hi_used _ _ I).
  - apply (hi_heap _ _ I).
  - apply (hi_os _ _ I).
  - intros t Ht. autorewrite with fld_rw in Ht. apply FT'; [now apply (hi_links _ _ I) |].
    intros ->. unfold NULL in *. congruence.
  - destruct (hi_rank _ _ I) as [rank Hr]. exists rank.
    intros t Ht. autorewrite with fld_rw in *. now apply Hr.
  - intros Hbrk x Hx. autorewrite with fld_rw. now apply (hi_align _ _ I).
Qed.

Lemma tile_below_limit s T b : heap_inv s T -> b ∈ T -> b < brk_limit (os s).
Proof.
  intros I Hb. pose proof (hi_in _ _ I b Hb). pose proof (hi_min _ _ I b Hb).
  destruct (hi_heap _ _ I) as [(_ & _ & ->) | (_ & He & _)]; [set_solver |].
  pose proof (oi_brk_le _ (hi_os _ _ I)). unfold MIN_BLOCK_SIZE in *. lia.
Qed.

Lemma guarded_not_free s T a : heap_inv s T -> guarded s T a -> ~ free_tile s T a.
Proof.
  intros I [[_ Ha] | Ha] [Hx Fx]; [contradiction |].
  pose proof (tile_below_limit _ _ _ I Hx). lia.
Qed.

(** An update that touches only free blocks of the tiling and [b] itself
    preserves the guarded headers. *)
Lemma preserves_touch s T s' b :
  heap_inv s T ->
  (forall a, ~ free_tile s T a -> a <> b -> hdr s' a = hdr s a) ->
  os s' = os s -> preserves s T s' T b.
Proof.
  intros I Hh Ho a G Hab.
  assert (E : hdr s' a = hdr s a) by (apply Hh; [now apply guarded_not_free | exact Hab]).
  split; [exact E |]. unfold guarded in *. now rewrite E, Ho.
Qed.

Lemma preserves_remove s T b :
  heap_inv s T -> free_tile s T b -> preserves s T (remove_from_free_list s b) T b.
Proof.
  intros I Fb. apply preserves_touch; [exact I | | apply os_remove_from_free_list].
  intros a Ha Hab. apply hdr_ext.
  - apply size_remove.
  - rewrite next_remove. rewrite decide_False by assumption.
    case_decide as E; [| reflexivity]. destruct E as [Hp ->].
    exfalso. apply Ha. now apply (hi_prev _ _ I b).
  - rewrite prev_remove. rewrite decide_False by assumption.
    case_decide as E; [| reflexivity]. destruct E as [Hp ->].
    exfalso. apply Ha. now apply (hi_next _ _ I b).
  - apply is_free_remove.
  - apply is_mmap_remove.
Qed.

Lemma preserves_add s T b :
  heap_inv s T -> preserves s T (add_to_free_list s b) T b.
Proof.
  intros I. apply preserves_touch; [exact I | | apply os_add_to_free_list].
  intros a Ha Hab. apply hdr_ext.
  - apply size_add.
  - rewrite next_add. now rewrite decide_False.
  - rewrite prev_add. cbv zeta.
    case_decide as E; [| now rewrite decide_False].
    destruct E as [Hh E]. exfalso. apply Ha. rewrite E.
    now apply (hi_head _ _ I (get_size_class (size (hdr s b)))).
  - rewrite is_free_add. now rewrite decide_False.
  - apply is_mmap_add.
Qed.

Lemma preserves_set_is_free s T b v :
  heap_inv s T -> preserves s T (set_is_free s b v) T b.
Proof.
  intros I. apply preserves_touch; [exact I | | reflexivity].
  intros a _ Hab. rewrite hdr_set_is_free. now rewrite decide_False by congruence.
Qed.

Lemma preserves_free s T s' T' b x :
  heap_inv s T -> free_tile s T b -> preserves s T s' T' b -> preserves s T s' T' x.
Proof.
  intros I Fb P a G _. apply P; [exact G |].
  intros ->. now apply (guarded_not_free _ _ _ I G).
Qed.

(** * Carving a free block in two *)

Section Carve.
Variables (s s6 : state) (T : gset N) (b total : N).
Hypothesis I : heap_inv s T.
Hypothesis Fb : free_tile s T b.
Hypothesis Nb : next (hdr s b) = NULL.
Hypothesis Pb : prev (hdr s b) = NULL.
Hypothesis Db : detached s b.
Hypothesis Htot : MIN_BLOCK_SIZE <= total.
Hypothesis Hfit : total + HDR + MIN_BLOCK_SIZE <= size (hdr s b).
Hypothesis Halign : total mod ALIGNMENT = 0.
Hypothesis H6 : forall a, hdr s6 a =
  if decide (b + total = a)
  then mk_header (size (hdr s b) - total) NULL NULL 1 0
  else if decide (b = a)
  then mk_header total (next (hdr s b)) (prev (hdr s b))
                 (is_free (hdr s b)) (is_mmap (hdr s b))
  else hdr s a.
Hypothesis Hfl : free_lists s6 = free_lists s.
Hypothesis Hhs : heap_start s6 = heap_start s.
Hypothesis Hhe : heap_end s6 = heap_end s.
Hypothesis Hos : os s6 = os s.

Lemma carve_fresh : b + total ∉ T.
Proof.
  clear - I Fb Htot Hfit.
  intros Hn. pose proof Fb as [Hb _].
  pose proof (hi_disj _ _ I b (b + total) Hb Hn) as D.
  pose proof (hi_min _ _ I _ Hn).
  unfold MIN_BLOCK_SIZE, HDR in *. lia.
Qed.

Lemma carve_other a : a <> b -> a <> b + total -> hdr s6 a = hdr s a.
Proof.
  clear - H6. intros H1 H2. rewrite H6. now rewrite !decide_False by congruence. Qed.

Lemma carve_new :
  hdr s6 (b + total) = mk_header (size (hdr s b) - total) NULL NULL 1 0.
Proof.
  clear - H6. rewrite H6. now rewrite decide_True. Qed.

Lemma carve_old :
  hdr s6 b = mk_header total NULL NULL (is_free (hdr s b)) (is_mmap (hdr s b)).
Proof.
  clear - Nb Pb Htot H6.
  rewrite H6. rewrite decide_False by (unfold MIN_BLOCK_SIZE in *; lia).
  rewrite decide_True by reflexivity. now rewrite Nb, Pb.
Qed.

Lemma carve_tile a : a ∈ T -> a <> b -> hdr s6 a = hdr s a.
Proof.
  clear - I Fb Htot Hfit H6.
  intros Ha Hab. apply carve_other; [exact Hab |].
  intros ->. now apply carve_fresh.
Qed.

Lemma carve_free a :
  free_tile s6 ({[b + total]} ∪ T) a -> a <> b -> a <> b + total -> free_tile s T a.
Proof.
  clear - H6.
  intros [Ha Fa] H1 H2. rewrite carve_other in Fa by assumption.
  split; [set_solver | exact Fa].
Qed.

Lemma carve_free' a : free_tile s T a -> free_tile s6 ({[b + total]} ∪ T) a.
Proof.
  clear - I Fb Nb Pb Htot Hfit H6.
  intros [Ha Fa]. split; [set_solver |].
  destruct (decide (a = b)) as [-> | Hab].
  - now rewrite carve_old.
  - now rewrite carve_tile.
Qed.

Lemma carve_inv :
  heap_inv s6 ({[b + total]} ∪ T).
Proof.
  clear - I Fb Nb Pb Db Htot Hfit Halign H6 Hfl Hhs Hhe Hos.
  pose proof carve_fresh as Hfresh.
  pose proof carve_new as Hnew. pose proof carve_old as Hold.
  pose proof Fb as [Hb Hfb].
  pose proof (hi_in _ _ I b Hb) as Hinb.
  pose proof (tile_nonnull _ _ _ I Hb) as Hb0.
  assert (Hd : forall c, head s6 c = head s c) by (intros c; unfold head; now rewrite Hfl).
  assert (SZ : forall x, x ∈ ({[b + total]} ∪ T : gset N) ->
     (x = b + total /\ size (hdr s6 x) = size (hdr s b) - total) \/
     (x = b /\ size (hdr s6 x) = total) \/
     (x ∈ T /\ x <> b /\ hdr s6 x = hdr s x)).
  { intros x Hx. destruct (decide (x = b + total)) as [-> | H1].
    - left. now rewrite Hnew.
    - right. destruct (decide (x = b)) as [-> | H2].
      + left. now rewrite Hold.
      + right. split; [set_solver |]. split; [exact H2 |]. now apply carve_other. }
  constructor.
  - rewrite Hfl. apply (hi_len _ _ I).
  - intros x Hx. rewrite Hhs, Hhe.
    destruct (SZ x Hx) as [[-> E] | [[-> E] | (Hx' & _ & E)]]; rewrite E.
    + unfold MIN_BLOCK_SIZE, HDR in *. lia.
    + unfold MIN_BLOCK_SIZE, HDR in *. lia.
    + now apply (hi_in _ _ I).
  - intros x Hx.
    destruct (SZ x Hx) as [[-> E] | [[-> E] | (Hx' & _ & E)]]; rewrite E.
    + unfold MIN_BLOCK_SIZE, HDR in *. lia.
    + exact Htot.
    + now apply (hi_min _ _ I).
  - intros x Hx. rewrite Hhe.
    destruct (SZ x Hx) as [[-> E] | [[-> E] | (Hx' & _ & E)]]; rewrite E.
    + replace (b + total + (size (hdr s b) - total)) with (b + size (hdr s b))
        by (unfold MIN_BLOCK_SIZE, HDR in *; lia).
      destruct (hi_succ _ _ I b Hb); [now left | right; set_solver].
    + right. set_solver.
    + destruct (hi_succ _ _ I x Hx'); [now left | right; set_solver].
  - intros x y Hx Hy Hxy.
    destruct (SZ x Hx) as [[-> Ex] | [[-> Ex] | (Hx' & Hxb & Ex)]];
    destruct (SZ y Hy) as [[-> Ey] | [[-> Ey] | (Hy' & Hyb & Ey)]];
    rewrite ?Ex, ?Ey; try congruence; unfold MIN_BLOCK_SIZE, HDR in *; try lia.
    + pose proof (hi_disj _ _ I b y Hb Hy' ltac:(congruence)). lia.
    + pose proof (hi_disj _ _ I b y Hb Hy' ltac:(congruence)). lia.
    + pose proof (hi_disj _ _ I x b Hx' Hb ltac:(congruence)). lia.
    + pose proof (hi_disj _ _ I x b Hx' Hb ltac:(congruence)). lia.
    + now apply (hi_disj _ _ I).
  - intros x Hx.
    destruct (SZ x Hx) as [[-> E] | [[-> E] | (Hx' & _ & E)]].
    + now rewrite Hnew.
    + rewrite Hold. cbn. now apply (hi_nomap _ _ I).
    + rewrite E. now apply (hi_nomap _ _ I).
  - intros c x Hc Hx. rewrite Hd in Hc.
    destruct (hi_head _ _ I c x Hc Hx) as (Fx & Px & Cx).
    assert (x <> b) by (intros ->; now apply (Db c)).
    rewrite (carve_tile x (proj1 Fx)) by assumption.
    split; [now apply carve_free' | now split].
  - intros t x Ft Hx Hx0.
    destruct (decide (t = b + total)) as [-> | H1]; [rewrite Hnew in Hx; cbn in Hx; nullc |].
    destruct (decide (t = b)) as [-> | H2]; [rewrite Hold in Hx; cbn in Hx; nullc |].
    pose proof (carve_free t Ft H2 H1) as Ft0.
    rewrite (carve_other t) in * by assumption.
    destruct (hi_next _ _ I t x Ft0 Hx Hx0) as (Fx & Px & Cx).
    assert (x <> b) by (intros ->; now apply (no_next_to _ _ _ I Hb Pb t Ft0)).
    rewrite (carve_tile x (proj1 Fx)) by assumption.
    split; [now apply carve_free' | now split].
  - intros x t Fx Ht Ht0.
    destruct (decide (x = b + total)) as [-> | H1]; [rewrite Hnew in Ht; cbn in Ht; nullc |].
    destruct (decide (x = b)) as [-> | H2]; [rewrite Hold in Ht; cbn in Ht; nullc |].
    pose proof (carve_free x Fx H2 H1) as Fx0.
    rewrite (carve_other x) in * by assumption.
    destruct (hi_prev _ _ I x t Fx0 Ht Ht0) as (Ft & Nt).
    assert (t <> b) by (intros ->; now apply (no_prev_to _ _ _ I Hb Nb x Fx0)).
    rewrite (carve_tile t (proj1 Ft)) by assumption.
    split; [now apply carve_free' | exact Nt].
  - intros x Hx Ux.
    destruct (SZ x Hx) as [[-> E] | [[-> E] | (Hx' & _ & E)]].
    + rewrite Hnew in Ux. discriminate.
    + rewrite Hold in Ux. cbn in Ux. contradiction.
    + rewrite E in *. now apply (hi_used _ _ I).
  - rewrite Hhs, Hhe, Hos.
    destruct (hi_heap _ _ I) as [(_ & _ & ->) | H]; [set_solver | now right].
  - rewrite Hos. apply (hi_os _ _ I).
  - intros t Ht.
    destruct (decide (t = b + total)) as [-> | H1]; [rewrite Hnew in Ht; now cbn in Ht |].
    destruct (decide (t = b)) as [-> | H2]; [rewrite Hold in Ht; now cbn in Ht |].
    rewrite (carve_other t) in Ht by assumption.
    now apply carve_free', (hi_links _ _ I).
  - destruct (hi_rank _ _ I) as [rank Hr]. exists rank. intros t Ht.
    destruct (decide (t = b + total)) as [-> | H1]; [rewrite Hnew in Ht; now cbn in Ht |].
    destruct (decide (t = b)) as [-> | H2]; [rewrite Hold in Ht; now cbn in Ht |].
    rewrite (carve_other t) in Ht |- * by assumption. now apply Hr.
  - intros Hbrk x Hx. rewrite Hos in Hbrk.
    pose proof (hi_align _ _ I Hbrk b Hb) as [Ab Asb].
    destruct (SZ x Hx) as [[-> E] | [[-> E] | (Hx' & _ & E)]]; rewrite E.
    + unfold ALIGNMENT, MIN_BLOCK_SIZE, HDR in *. lia.
    + split; assumption.
    + now apply (hi_align _ _ I).
Qed.

Lemma carve_detached : detached s6 b /\ detached s6 (b + total).
Proof.
  clear - I Fb Db Htot Hfit Hfl.
  assert (Hd : forall c, head s6 c = head s c) by (intros c; unfold head; now rewrite Hfl).
  split; intros c Hc; rewrite Hd in Hc.
  - now apply (Db c).
  - assert (b + total <> NULL) by (unfold NULL, MIN_BLOCK_SIZE in *; lia).
    destruct (hi_head _ _ I c _ Hc H) as ([Hn _] & _). now apply carve_fresh.
Qed.

Lemma carve_preserves : preserves s T s6 ({[b + total]} ∪ T) b.
Proof.
  clear - I Fb Htot Hfit H6 Hos.
  intros a G Hab.
  assert (a <> b + total).
  { intros ->. destruct G as [[Ha _] | Ha]; [now apply carve_fresh |].
    pose proof (tile_below_limit _ _ _ I (proj1 Fb)).
    pose proof (hi_in _ _ I b (proj1 Fb)).
    destruct (hi_heap _ _ I) as [(_ & _ & E) | (_ & He & _)];
      [pose proof Fb as [Hb _]; rewrite E in Hb; set_solver |].
    pose proof (oi_brk_le _ (hi_os _ _ I)). unfold HDR, MIN_BLOCK_SIZE in *. lia. }
  assert (E : hdr s6 a = hdr s a) by now apply carve_other.
  split; [exact E |]. unfold guarded in *. rewrite E, Hos.
  destruct G as [[Ha Ua] | Ha]; [left; split; [set_solver | exact Ua] | now right].
Qed.

End Carve.

(** * [split_block] *)

Lemma request_total n : request_ok n -> n + HDR <= total_size n /\ total_size n <= n + HDR + 15.
Proof.
  unfold request_ok, ALIGNMENT, HDR. intros H.
  split; [apply (total_size_fits n); lia |].
  unfold total_size, wadd, HDR. rewrite wrap_small by lia.
  pose proof (align_size_le (n + 32)). lia.
Qed.

Lemma total_size_aligned n : total_size n mod ALIGNMENT = 0.
Proof. unfold total_size. rewrite align_size_spec. unfold ALIGNMENT. lia. Qed.

Lemma tile_size_lt s T b : heap_inv s T -> b ∈ T -> b + size (hdr s b) < two64.
Proof.
  intros I Hb. pose proof (hi_in _ _ I b Hb).
  destruct (hi_heap _ _ I) as [(_ & _ & ->) | (_ & He & _)]; [set_solver |].
  pose proof (hi_os _ _ I) as [].
  unfold SIZE_MAX, two64 in *. lia.
Qed.

Lemma split_inv s T b n :
  heap_inv s T -> free_tile s T b ->
  next (hdr s b) = NULL -> prev (hdr s b) = NULL -> detached s b ->
  request_ok n -> total_size n < MMAP_THRESHOLD ->
  exists T',
    heap_inv (split_block s b n) T' /\
    free_tile (split_block s b n) T' b /\
    next (hdr (split_block s b n) b) = NULL /\
    prev (hdr (split_block s b n) b) = NULL /\
    detached (split_block s b n) b /\
    preserves s T (split_block s b n) T' b /\
    (total_size n <= size (hdr s b) -> total_size n <= size (hdr (split_block s b n) b)) /\
    size (hdr (split_block s b n) b) <= size (hdr s b) /\
    (forall a, a ∈ T' -> b < a -> b + size (hdr (split_block s b n) b) <= a).
Proof.
  intros I Fb Nb Pb Db Hn Hsmall.
  destruct (request_total n Hn) as [Hlo Hhi].
  pose proof (tile_size_lt _ _ _ I (proj1 Fb)) as Hlt.
  unfold split_block. fold (total_size n). cbv zeta.
  assert (Hw : wadd (wadd (total_size n) HDR) MIN_BLOCK_SIZE =
               total_size n + HDR + MIN_BLOCK_SIZE).
  { unfold wadd. rewrite (wrap_small (total_size n + HDR))
      by (unfold MMAP_THRESHOLD, HDR, two64 in *; lia).
    apply wrap_small. unfold MMAP_THRESHOLD, HDR, MIN_BLOCK_SIZE, two64 in *. lia. }
  rewrite Hw.
  destruct (N.leb_spec (total_size n + HDR + MIN_BLOCK_SIZE) (size (hdr s b))) as [Hfit | Hno].
  2:{ exists T.
      split; [exact I |]. split; [exact Fb |]. split; [exact Nb |].
      split; [exact Pb |]. split; [exact Db |]. split; [apply preserves_refl |].
      split; [auto |]. split; [lia |].
      intros a Ha Hba. pose proof (hi_disj _ _ I b a (proj1 Fb) Ha). lia. }
  assert (Hs : wsub (size (hdr s b)) (total_size n) = size (hdr s b) - total_size n).
  { unfold wsub, wrap, two64 in *. lia. }
  rewrite Hs.
  set (nb := b + total_size n).
  assert (Hnb : nb <> b) by (subst nb; unfold HDR in *; lia).
  set (s6 := set_size _ b (total_size n)).
  assert (H6 : forall a, hdr s6 a =
    if decide (nb = a)
    then mk_header (size (hdr s b) - total_size n) NULL NULL 1 0
    else if decide (b = a)
    then mk_header (total_size n) (next (hdr s b)) (prev (hdr s b))
                   (is_free (hdr s b)) (is_mmap (hdr s b))
    else hdr s a).
  { intros a. subst s6. rewrite hdr_set_size.
    destruct (decide (b = a)) as [<- | Hba].
    - rewrite decide_False by assumption.
      rewrite hdr_set_prev, decide_False by assumption.
      rewrite hdr_set_next, decide_False by assumption.
      rewrite hdr_set_is_mmap, decide_False by assumption.
      rewrite hdr_set_is_free, decide_False by assumption.
      rewrite hdr_set_size, decide_False by assumption. reflexivity.
    - rewrite hdr_set_prev. case_decide as Hna; [| ].
      + rewrite hdr_set_next, decide_True by reflexivity. cbn [size next prev is_free is_mmap].
        rewrite hdr_set_is_mmap, decide_True by reflexivity. cbn [size next prev is_free is_mmap].
        rewrite hdr_set_is_free, decide_True by reflexivity. cbn [size next prev is_free is_mmap].
        rewrite hdr_set_size, decide_True by reflexivity. reflexivity.
      + rewrite hdr_set_next, decide_False by assumption.
        rewrite hdr_set_is_mmap, decide_False by assumption.
        rewrite hdr_set_is_free, decide_False by assumption.
        rewrite hdr_set_size, decide_False by assumption. reflexivity. }
  assert (Hfl : free_lists s6 = free_lists s) by (subst s6; now autorewrite with proj_rw).
  assert (Hhs : heap_start s6 = heap_start s) by (subst s6; now autorewrite with proj_rw).
  assert (Hhe : heap_end s6 = heap_end s) by (subst s6; now autorewrite with proj_rw).
  assert (Hos : os s6 = os s) by (subst s6; now autorewrite with proj_rw).
  clearbody s6.
  assert (Htot : MIN_BLOCK_SIZE <= total_size n) by (unfold MIN_BLOCK_SIZE, HDR in *; lia).
  pose proof (total_size_aligned n) as Hal.
  assert (I6 : heap_inv s6 ({[nb]} ∪ T)) by (apply (carve_inv s s6 T b (total_size n)); assumption).
  assert (Hfresh : nb ∉ T) by (apply (carve_fresh s T b (total_size n)); assumption).
  assert (Hnew : hdr s6 nb = mk_header (size (hdr s b) - total_size n) NULL NULL 1 0)
    by (apply (carve_new s s6 b (total_size n)); assumption).
  assert (Hold : hdr s6 b = mk_header (total_size n) NULL NULL (is_free (hdr s b))
                                      (is_mmap (hdr s b)))
    by (apply (carve_old s s6 b (total_size n)); assumption).
  assert (D6 : detached s6 b /\ detached s6 nb) by (apply (carve_detached s s6 T b (total_size n)); assumption).
  destruct D6 as [D6b D6n].
  assert (P6 : preserves s T s6 ({[nb]} ∪ T) b) by (apply (carve_preserves s s6 T b (total_size n)); assumption).
  assert (Fn6 : free_tile s6 ({[nb]} ∪ T) nb).
  { split; [set_solver |]. now rewrite Hnew. }
  destruct (add_inv s6 ({[nb]} ∪ T) nb I6 Fn6) as [I7 _];
    [now rewrite Hnew | now rewrite Hnew | exact D6n |].
  exists ({[nb]} ∪ T).
  assert (Hb7 : forall a, hdr (with_stats (add_to_free_list s6 nb)
                                 (stats_split (stats (add_to_free_list s6 nb)))) a =
                          hdr (add_to_free_list s6 nb) a) by reflexivity.
  split; [now apply heap_inv_with_stats |].
  split.
  { split; [destruct Fb; set_solver |]. rewrite Hb7, is_free_add, decide_False by congruence.
    rewrite Hold. apply Fb. }
  split.
  { rewrite Hb7, next_add, decide_False by congruence. now rewrite Hold. }
  split.
  { rewrite Hb7, prev_add. cbv zeta. rewrite decide_False.
    - rewrite decide_False by congruence. now rewrite Hold.
    - intros [_ E]. symmetry in E. now apply D6b in E. }
  split.
  { intros c Hc. change (head (add_to_free_list s6 nb) c = b) in Hc.
    rewrite (head_add _ ({[nb]} ∪ T)) in Hc by assumption.
    case_decide; [congruence | now apply (D6b c)]. }
  split.
  { eapply preserves_trans; [exact P6 |].
    eapply preserves_trans;
      [apply (preserves_free _ _ _ _ nb); [exact I6 | exact Fn6 | apply preserves_add; exact I6] |].
    apply preserves_ext; reflexivity. }
  rewrite Hb7, size_add, Hold. cbn [size].
  split; [lia |]. split; [unfold HDR, MIN_BLOCK_SIZE in *; lia |].
  intros a Ha Hba.
  destruct (decide (a = nb)) as [-> | Hanb]; [subst nb; lia |].
  assert (Ha' : a ∈ T) by set_solver.
  pose proof (hi_disj _ _ I b a (proj1 Fb) Ha'). subst nb. lia.
Qed.

(** * Absorbing the following block *)

Section Merge.
Variables (s : state) (T : gset N) (b nb : N).
Hypothesis I : heap_inv s T.
Hypothesis Fb : free_tile s T b.
Hypothesis Nb : next (hdr s b) = NULL.
Hypothesis Pb : prev (hdr s b) = NULL.
Hypothesis Db : detached s b.
Hypothesis Fn : free_tile s T nb.
Hypothesis Nn : next (hdr s nb) = NULL.
Hypothesis Pn : prev (hdr s nb) = NULL.
Hypothesis Dn : detached s nb.
Hypothesis Hnb : nb = b + size (hdr s b).

Let s2 := set_size s b (size (hdr s b) + size (hdr s nb)).

Lemma merge_other a : a <> b -> hdr s2 a = hdr s a.
Proof.
  intros Hab. unfold s2. rewrite hdr_set_size.
  now rewrite decide_False by congruence.
Qed.

Lemma merge_free a : free_tile s2 (T ∖ {[nb]}) a -> free_tile s T a /\ a <> nb.
Proof.
  intros [Ha Fa]. unfold s2 in Fa. autorewrite with fld_rw in Fa.
  split; [split; [set_solver | exact Fa] | set_solver].
Qed.

Lemma merge_free' a : free_tile s T a -> a <> nb -> free_tile s2 (T ∖ {[nb]}) a.
Proof.
  intros [Ha Fa] Han. split; [set_solver |].
  unfold s2. now autorewrite with fld_rw.
Qed.

Lemma merge_inv : heap_inv s2 (T ∖ {[nb]}).
Proof.
  pose proof Fb as [Hb Hfb]. pose proof Fn as [Hn Hfn].
  pose proof (hi_in _ _ I b Hb) as Hinb. pose proof (hi_in _ _ I nb Hn) as Hinn.
  pose proof (hi_min _ _ I b Hb) as Hmb. pose proof (hi_min _ _ I nb Hn) as Hmn.
  assert (Hbn : b <> nb) by (unfold MIN_BLOCK_SIZE in *; lia).
  assert (SZ : forall x, x ∈ T ∖ {[nb]} ->
     (x = b /\ size (hdr s2 x) = size (hdr s b) + size (hdr s nb)) \/
     (x ∈ T /\ x <> b /\ x <> nb /\ hdr s2 x = hdr s x)).
  { intros x Hx. destruct (decide (x = b)) as [-> | Hxb].
    - left. split; [reflexivity |]. unfold s2. autorewrite with fld_rw.
      now rewrite decide_True.
    - right. split; [set_solver |]. split; [exact Hxb |]. split; [set_solver |].
      now apply merge_other. }
  constructor.
  - apply (hi_len _ _ I).
  - intros x Hx. change (heap_start s <= x /\ x + size (hdr s2 x) <= heap_end s).
    destruct (SZ x Hx) as [[-> E] | (Hx' & _ & _ & E)]; rewrite E.
    + lia.
    + now apply (hi_in _ _ I).
  - intros x Hx.
    destruct (SZ x Hx) as [[-> E] | (Hx' & _ & _ & E)]; rewrite E.
    + lia.
    + now apply (hi_min _ _ I).
  - intros x Hx. change (heap_end s2) with (heap_end s).
    destruct (SZ x Hx) as [[-> E] | (Hx' & Hxb & Hxn & E)]; rewrite E.
    + replace (b + (size (hdr s b) + size (hdr s nb))) with (nb + size (hdr s nb)) by lia.
      destruct (hi_succ _ _ I nb Hn) as [? | Hs]; [now left | right].
      apply elem_of_difference. split; [exact Hs |].
      rewrite elem_of_singleton. unfold MIN_BLOCK_SIZE in *. lia.
    + destruct (hi_succ _ _ I x Hx') as [? | Hs]; [now left | right].
      apply elem_of_difference. split; [exact Hs |].
      rewrite elem_of_singleton.
      pose proof (hi_disj _ _ I x b Hx' Hb Hxb). pose proof (hi_min _ _ I x Hx').
      unfold MIN_BLOCK_SIZE in *. lia.
  - intros x y Hx Hy Hxy.
    destruct (SZ x Hx) as [[-> Ex] | (Hx' & Hxb & Hxn & Ex)];
    destruct (SZ y Hy) as [[-> Ey] | (Hy' & Hyb & Hyn & Ey)];
    rewrite ?Ex, ?Ey; try congruence.
    + pose proof (hi_disj _ _ I b y Hb Hy' ltac:(congruence)).
      pose proof (hi_disj _ _ I nb y Hn Hy' ltac:(congruence)).
      pose proof (hi_min _ _ I y Hy'). unfold MIN_BLOCK_SIZE in *. lia.
    + pose proof (hi_disj _ _ I b x Hb Hx' ltac:(congruence)).
      pose proof (hi_disj _ _ I nb x Hn Hx' ltac:(congruence)).
      pose proof (hi_min _ _ I x Hx'). unfold MIN_BLOCK_SIZE in *. lia.
    + now apply (hi_disj _ _ I).
  - intros x Hx. unfold s2. autorewrite with fld_rw.
    apply (hi_nomap _ _ I). set_solver.
  - intros c x Hc Hx. change (head s2 c) with (head s c) in Hc.
    destruct (hi_head _ _ I c x Hc Hx) as (Fx & Px & Cx).
    assert (x <> b) by (intros ->; now apply (Db c)).
    assert (x <> nb) by (intros ->; now apply (Dn c)).
    rewrite merge_other by assumption.
    split; [now apply merge_free' | now split].
  - intros t x Ft Hx Hx0. destruct (merge_free _ Ft) as [Ft0 Htn].
    destruct (decide (t = b)) as [-> | Htb].
    { unfold s2 in Hx. autorewrite with fld_rw in Hx. nullc. }
    rewrite (merge_other t) in * by assumption.
    destruct (hi_next _ _ I t x Ft0 Hx Hx0) as (Fx & Px & Cx).
    assert (x <> b) by (intros ->; now apply (no_next_to _ _ _ I Hb Pb t Ft0)).
    assert (x <> nb) by (intros ->; now apply (no_next_to _ _ _ I Hn Pn t Ft0)).
    rewrite merge_other by assumption.
    split; [now apply merge_free' | now split].
  - intros x t Fx Ht Ht0. destruct (merge_free _ Fx) as [Fx0 Hxn].
    destruct (decide (x = b)) as [-> | Hxb].
    { unfold s2 in Ht. autorewrite with fld_rw in Ht. nullc. }
    rewrite (merge_other x) in * by assumption.
    destruct (hi_prev _ _ I x t Fx0 Ht Ht0) as (Ft & Nt).
    assert (t <> b) by (intros ->; now apply (no_prev_to _ _ _ I Hb Nb x Fx0)).
    assert (t <> nb) by (intros ->; now apply (no_prev_to _ _ _ I Hn Nn x Fx0)).
    rewrite merge_other by assumption.
    split; [now apply merge_free' | exact Nt].
  - intros x Hx Ux. unfold s2 in *. autorewrite with fld_rw in *.
    apply (hi_used _ _ I); [set_solver | exact Ux].
  - change (heap_start s2) with (heap_start s). change (heap_end s2) with (heap_end s).
    change (os s2) with (os s).
    destruct (hi_heap _ _ I) as [(_ & _ & E) | H]; [rewrite E in Hb; set_solver | now right].
  - apply (hi_os _ _ I).
  - intros t Ht. unfold s2 in Ht. autorewrite with fld_rw in Ht.
    apply merge_free'; [now apply (hi_links _ _ I) |].
    intros ->. unfold NULL in *. congruence.
  - destruct (hi_rank _ _ I) as [rank Hr]. exists rank. intros t Ht.
    unfold s2 in Ht |- *. autorewrite with fld_rw in Ht |- *. now apply Hr.
  - intros Hbrk x Hx. change (os s2) with (os s) in Hbrk.
    pose proof (hi_align _ _ I Hbrk b Hb) as [Ab Asb].
    pose proof (hi_align _ _ I Hbrk nb Hn) as [An Asn].
    destruct (SZ x Hx) as [[-> E] | (Hx' & _ & _ & E)]; rewrite E.
    + unfold ALIGNMENT in *. lia.
    + now apply (hi_align _ _ I).
Qed.

Lemma merge_preserves : preserves s T s2 (T ∖ {[nb]}) b.
Proof.
  clear - I Fn. intros a G Hab.
  assert (a <> nb) by (intros ->; now apply (guarded_not_free _ _ _ I G)).
  assert (E : hdr s2 a = hdr s a) by now apply merge_other.
  split; [exact E |]. unfold guarded in *. rewrite E. change (os s2) with (os s).
  destruct G as [[Ha Ua] | Ha]; [left; split; [set_solver | exact Ua] | now right].
Qed.

End Merge.

(** Unlinking [x] leaves another block with null links as it is. *)
Lemma remove_keeps_detached s T x b :
  heap_inv s T -> free_tile s T x -> free_tile s T b -> b <> x ->
  next (hdr s b) = NULL -> prev (hdr s b) = NULL -> detached s b ->
  next (hdr (remove_from_free_list s x) b) = NULL /\
  prev (hdr (remove_from_free_list s x) b) = NULL /\
  detached (remove_from_free_list s x) b.
Proof.
  intros I Fx Fb Hbx Nb Pb Db.
  pose proof (tile_nonnull _ _ _ I (proj1 Fb)) as Hb0.
  split; [| split].
  - rewrite next_remove, decide_False by assumption.
    case_decide as E; [| exact Nb]. destruct E as [Hp E].
    destruct (hi_prev _ _ I x _ Fx eq_refl Hp) as [_ Hn].
    rewrite <- E in Hn. pose proof (tile_nonnull _ _ _ I (proj1 Fx)). nullc.
  - rewrite prev_remove, decide_False by assumption.
    case_decide as E; [| exact Pb]. destruct E as [Hn E].
    destruct (hi_next _ _ I x _ Fx eq_refl Hn) as (_ & Hp & _).
    rewrite <- E in Hp. pose proof (tile_nonnull _ _ _ I (proj1 Fx)). nullc.
  - intros c Hc. rewrite (head_remove _ T) in Hc by assumption.
    case_decide as E; [| now apply (Db c)].
    destruct (hi_next _ _ I x b Fx Hc Hb0) as (_ & Hp & _).
    pose proof (tile_nonnull _ _ _ I (proj1 Fx)). nullc.
Qed.

(** * [coalesce] *)

Lemma coalesce_inv fuel : forall s T b b' s',
  heap_inv s T -> free_tile s T b ->
  next (hdr s b) = NULL -> prev (hdr s b) = NULL -> detached s b ->
  coalesce fuel s b = Done (b', s') ->
  b' = b /\
  exists T',
    heap_inv s' T' /\ free_tile s' T' b /\
    next (hdr s' b) = NULL /\ prev (hdr s' b) = NULL /\ detached s' b /\
    preserves s T s' T' b /\ T' ⊆ T /\
    size (hdr s b) <= size (hdr s' b).
Proof.
  induction fuel as [| fuel IH]; intros s T b b' s' I Fb Nb Pb Db H; [discriminate |].
  cbn [coalesce] in H.
  pose proof Fb as [Hb Hfb].
  pose proof (tile_nonnull _ _ _ I Hb) as Hb0.
  apply N.eqb_neq in Hb0 as Eb. rewrite Eb in H.
  assert (Em : truthy (is_mmap (hdr s b)) = false).
  { apply truthy_false. now apply (hi_nomap _ _ I). }
  rewrite Em in H. cbn [orb] in H.
  assert (Stop : Done (b, s) = Done (b', s') ->
    b' = b /\
    exists T', heap_inv s' T' /\ free_tile s' T' b /\
      next (hdr s' b) = NULL /\ prev (hdr s' b) = NULL /\ detached s' b /\
      preserves s T s' T' b /\ T' ⊆ T /\ size (hdr s b) <= size (hdr s' b)).
  { intros E. apply Done_pair_inj in E as [<- <-]. split; [reflexivity |].
    exists T. repeat (split; [assumption || apply preserves_refl || reflexivity |]). lia. }
  destruct ((heap_end s <=? b + size (hdr s b)) || (b + size (hdr s b) <? heap_start s)) eqn:E1;
    [now apply Stop |].
  destruct (heap_end s <? b + size (hdr s b) + HDR) eqn:E2; [now apply Stop |].
  destruct (truthy (is_free (hdr s (b + size (hdr s b)))) &&
            negb (truthy (is_mmap (hdr s (b + size (hdr s b)))))) eqn:E3;
    [| now apply Stop].
  clear Stop.
  apply orb_false_iff in E1 as [E1 _]. apply N.leb_gt in E1.
  apply andb_true_iff in E3 as [E3 _]. apply truthy_true in E3.
  set (nb := b + size (hdr s b)) in *.
  assert (Hn : nb ∈ T).
  { destruct (hi_succ _ _ I b Hb) as [E | E]; [fold nb in E; lia | exact E]. }
  assert (Fn : free_tile s T nb) by now split.
  pose proof (hi_min _ _ I b Hb) as Hmb.
  assert (Hbn : b <> nb) by (subst nb; unfold MIN_BLOCK_SIZE in *; lia).
  destruct (remove_inv s T nb I Fn) as (I1 & Nn1 & Pn1 & Dn1).
  destruct (remove_keeps_detached s T nb b I Fn Fb Hbn Nb Pb Db) as (Nb1 & Pb1 & Db1).
  set (s1 := remove_from_free_list s nb) in *.
  assert (Fb1 : free_tile s1 T b).
  { split; [exact Hb |]. unfold s1. now rewrite is_free_remove. }
  assert (Fn1 : free_tile s1 T nb).
  { split; [exact Hn |]. unfold s1. now rewrite is_free_remove. }
  assert (Sb1 : size (hdr s1 b) = size (hdr s b)) by apply size_remove.
  assert (Sn1 : size (hdr s1 nb) = size (hdr s nb)) by apply size_remove.
  assert (Hnb1 : nb = b + size (hdr s1 b)) by now rewrite Sb1.
  pose proof (tile_size_lt _ _ _ I Hn) as Hlt.
  assert (Hw : wadd (size (hdr s1 b)) (size (hdr s1 nb)) =
               size (hdr s1 b) + size (hdr s1 nb)).
  { unfold wadd. apply wrap_small. rewrite Sb1, Sn1. subst nb. lia. }
  rewrite Hw in H.
  pose proof (merge_inv s1 T b nb I1 Fb1 Nb1 Pb1 Db1 Fn1 Nn1 Pn1 Dn1 Hnb1) as I2.
  pose proof (merge_preserves s1 T b nb I1 Fn1) as P2.
  set (s2 := set_size s1 b (size (hdr s1 b) + size (hdr s1 nb))) in *.
  assert (I3 : heap_inv (with_stats s2 (stats_coalesce (stats s2))) (T ∖ {[nb]}))
    by now apply heap_inv_with_stats.
  destruct (IH _ (T ∖ {[nb]}) b b' s' I3) as (-> & T' & I' & F' & N' & P' & D' & Pr' & Sub & Sz');
    try exact H.
  - split; [clear - Hb Hbn; set_solver |]. change (is_free (hdr s2 b) <> 0).
    unfold s2. autorewrite with fld_rw. apply Fb1.
  - change (next (hdr s2 b) = NULL). unfold s2. now autorewrite with fld_rw.
  - change (prev (hdr s2 b) = NULL). unfold s2. now autorewrite with fld_rw.
  - exact Db1.
  - split; [reflexivity |]. exists T'.
    repeat (split; [assumption |]). split; [| split].
    + eapply preserves_trans;
        [apply (preserves_free _ _ _ _ nb); [exact I | exact Fn | now apply preserves_remove] |].
      eapply preserves_trans; [exact P2 |].
      eapply preserves_trans; [| exact Pr'].
      apply preserves_ext; reflexivity.
    + clear - Sub; set_solver.
    + change (size (hdr (with_stats s2 (stats_coalesce (stats s2))) b))
        with (size (hdr s2 b)) in Sz'.
      unfold s2 in Sz'. autorewrite with fld_rw in Sz'.
      rewrite decide_True in Sz' by reflexivity. lia.
Qed.

(** * [expand_heap] *)

Lemma expand_heap_success s t b s1 :
  let alloc_size := if t <? BRK_INCREMENT then BRK_INCREMENT else align_size t in
  os_inv (os s) -> alloc_size <> 0 -> t < MMAP_THRESHOLD ->
  expand_heap s t = (b, s1) -> b <> NULL ->
  brk (os s) + alloc_size <= brk_limit (os s) /\
  b = brk (os s) /\
  free_lists s1 = free_lists s /\
  heap_start s1 = (if heap_start s =? NULL then brk (os s) else heap_start s) /\
  heap_end s1 = brk (os s) + alloc_size /\
  brk (os s1) = brk (os s) + alloc_size /\
  brk_base (os s1) = brk_base (os s) /\ brk_limit (os s1) = brk_limit (os s) /\
  mmap_next (os s1) = mmap_next (os s) /\ mmap_limit (os s1) = mmap_limit (os s) /\
  maps (os s1) = maps (os s) /\
  forall a, hdr s1 a =
    if decide (brk (os s) = a) then mk_header alloc_size NULL NULL 1 0 else hdr s a.
Proof.
  intros alloc_size O Ha Ht H Hb.
  pose proof O as [oi_brk0 oi_base0 oi_brk_le0 oi_limit0 oi_next0 oi_max0 oi_maps0 oi_disj0 oi_align0].
  destruct (expand_heap_os _ _ _ _ H) as (G & Hm & Hn & _).
  destruct (G Ht) as (G1 & G2 & G3 & _).
  assert (Hpos : alloc_size < two63).
  { pose proof (alloc_size_positive t Ht) as [_ Hlt]. fold alloc_size in Hlt.
    unfold MMAP_THRESHOLD, ALIGNMENT, two63 in *. lia. }
  destruct (N.le_gt_cases (brk (os s) + alloc_size) (brk_limit (os s))) as [Hroom | Hno].
  - destruct (expand_heap_spec s t oi_brk0 Ha Hpos Hroom) as (s1' & E & F1 & _ & F3 & F4 & F5 & F6).
    { unfold SIZE_MAX in *. lia. }
    fold alloc_size in F4, F5, F6.
    rewrite E in H. apply pair_equal_spec in H as [<- <-].
    repeat (split; [assumption || reflexivity |]). exact F6.
  - exfalso. apply Hb. unfold expand_heap in H. fold alloc_size in H.
    destruct (sbrk (os s) 0) as [old_brk o1] eqn:E0.
    pose proof (sbrk_zero _ _ _ E0) as ->. cbv zeta in H. rewrite with_os_same in H.
    destruct (old_brk =? SBRK_FAILED); [now apply pair_equal_spec in H as [<- _] |].
    assert (E1 : sbrk (os s) alloc_size = (SBRK_FAILED, os s)).
    { unfold sbrk. apply N.ltb_lt in Hpos as ->. apply N.leb_gt in Hno. now rewrite Hno. }
    rewrite E1, N.eqb_refl in H. now apply pair_equal_spec in H as [<- _].
Qed.

Section Grow.
Variables (s s1 : state) (T : gset N) (alloc : N).
Hypothesis I : heap_inv s T.
Hypothesis Hmin : MIN_BLOCK_SIZE <= alloc.
Hypothesis Halloc : alloc mod ALIGNMENT = 0.
Hypothesis Hroom : brk (os s) + alloc <= brk_limit (os s).
Hypothesis Hfl : free_lists s1 = free_lists s.
Hypothesis Hhs : heap_start s1 = (if heap_start s =? NULL then brk (os s) else heap_start s).
Hypothesis Hhe : heap_end s1 = brk (os s) + alloc.
Hypothesis Hbrk : brk (os s1) = brk (os s) + alloc.
Hypothesis Hbase : brk_base (os s1) = brk_base (os s).
Hypothesis Hlim : brk_limit (os s1) = brk_limit (os s).
Hypothesis Hnext : mmap_next (os s1) = mmap_next (os s).
Hypothesis Hmlim : mmap_limit (os s1) = mmap_limit (os s).
Hypothesis Hmaps : maps (os s1) = maps (os s).
Hypothesis H1 : forall a, hdr s1 a =
  if decide (brk (os s) = a) then mk_header alloc NULL NULL 1 0 else hdr s a.

Local Abbreviation b := (brk (os s)).

Lemma grow_fresh : b ∉ T.
Proof.
  clear - I. intros Hb. pose proof (hi_in _ _ I b Hb). pose proof (hi_min _ _ I b Hb).
  destruct (hi_heap _ _ I) as [(_ & _ & E) | (_ & He & _)]; [rewrite E in Hb; set_solver |].
  unfold MIN_BLOCK_SIZE in *. lia.
Qed.

Lemma grow_new : hdr s1 b = mk_header alloc NULL NULL 1 0.
Proof. clear - H1. rewrite H1. now rewrite decide_True. Qed.

Lemma grow_tile a : a ∈ T -> hdr s1 a = hdr s a.
Proof.
  clear - I H1. intros Ha. rewrite H1. rewrite decide_False; [reflexivity |].
  intros E. apply grow_fresh. now rewrite E.
Qed.

Lemma grow_os : os_inv (os s1).
Proof.
  clear - I Hroom Hbrk Hbase Hlim Hnext Hmlim Hmaps.
  destruct (hi_os _ _ I). constructor; rewrite ?Hbrk, ?Hbase, ?Hlim, ?Hnext, ?Hmlim, ?Hmaps;
    try assumption; lia.
Qed.

Lemma grow_inv : heap_inv s1 ({[b]} ∪ T).
Proof.
  pose proof grow_fresh as Hfresh. pose proof grow_new as Hnew.
  pose proof (oi_brk _ (hi_os _ _ I)) as Hb0.
  assert (Hd : forall c, head s1 c = head s c) by (intros c; unfold head; now rewrite Hfl).
  assert (FT : forall x, free_tile s T x -> free_tile s1 ({[b]} ∪ T) x).
  { intros x [Hx Fx]. split; [set_solver |]. now rewrite grow_tile. }
  assert (FT' : forall x, free_tile s1 ({[b]} ∪ T) x -> x <> b -> free_tile s T x).
  { intros x [Hx Fx] Hxb. assert (Hx' : x ∈ T) by set_solver.
    split; [exact Hx' |]. now rewrite grow_tile in Fx. }
  assert (Hst : forall x, x ∈ T -> heap_start s <> NULL /\ heap_end s = b /\
                                  heap_start s1 = heap_start s).
  { intros x Hx. destruct (hi_heap _ _ I) as [(_ & _ & E) | (Hs & He & _)];
      [rewrite E in Hx; set_solver |].
    split; [exact Hs |]. split; [exact He |].
    rewrite Hhs. apply N.eqb_neq in Hs. now rewrite Hs. }
  assert (SZ : forall x, x ∈ ({[b]} ∪ T : gset N) ->
     (x = b /\ hdr s1 x = mk_header alloc NULL NULL 1 0) \/
     (x ∈ T /\ x <> b /\ hdr s1 x = hdr s x)).
  { intros x Hx. destruct (decide (x = b)) as [-> | Hxb]; [left; now split |].
    right. assert (Hx' : x ∈ T) by set_solver.
    split; [exact Hx' |]. split; [exact Hxb |]. now apply grow_tile. }
  constructor.
  - rewrite Hfl. apply (hi_len _ _ I).
  - intros x Hx. rewrite Hhe.
    destruct (SZ x Hx) as [[-> E] | (Hx' & Hxb & E)]; rewrite E; cbn [size].
    + split; [| lia]. rewrite Hhs.
      destruct (heap_start s =? NULL) eqn:E0; [lia |].
      destruct (hi_heap _ _ I) as [(E1 & _) | (_ & He & _ & Hle)];
        [apply N.eqb_neq in E0; contradiction | lia].
    + destruct (Hst x Hx') as (_ & He & ->).
      pose proof (hi_in _ _ I x Hx'). lia.
  - intros x Hx.
    destruct (SZ x Hx) as [[-> E] | (Hx' & Hxb & E)]; rewrite E; cbn [size].
    + exact Hmin.
    + now apply (hi_min _ _ I).
  - intros x Hx. rewrite Hhe.
    destruct (SZ x Hx) as [[-> E] | (Hx' & Hxb & E)]; rewrite E; cbn [size].
    + now left.
    + destruct (Hst x Hx') as (_ & He & _).
      destruct (hi_succ _ _ I x Hx') as [Hs | Hs]; right; [rewrite Hs, He |]; set_solver.
  - intros x y Hx Hy Hxy.
    destruct (SZ x Hx) as [[-> Ex] | (Hx' & Hxb & Ex)];
    destruct (SZ y Hy) as [[-> Ey] | (Hy' & Hyb & Ey)];
    rewrite ?Ex, ?Ey; cbn [size]; try congruence.
    + destruct (Hst y Hy') as (_ & He & _). pose proof (hi_in _ _ I y Hy'). lia.
    + destruct (Hst x Hx') as (_ & He & _). pose proof (hi_in _ _ I x Hx'). lia.
    + now apply (hi_disj _ _ I).
  - intros x Hx.
    destruct (SZ x Hx) as [[-> E] | (Hx' & Hxb & E)]; rewrite E; cbn [is_mmap].
    + reflexivity.
    + now apply (hi_nomap _ _ I).
  - intros c x Hc Hx. rewrite Hd in Hc.
    destruct (hi_head _ _ I c x Hc Hx) as (Fx & Px & Cx).
    rewrite (grow_tile x (proj1 Fx)). split; [now apply FT | now split].
  - intros t x Ft Hx Hx0.
    destruct (decide (t = b)) as [-> | Htb]; [rewrite Hnew in Hx; cbn in Hx; nullc |].
    pose proof (FT' t Ft Htb) as Ft0. rewrite (grow_tile t (proj1 Ft0)) in *.
    destruct (hi_next _ _ I t x Ft0 Hx Hx0) as (Fx & Px & Cx).
    rewrite (grow_tile x (proj1 Fx)). split; [now apply FT | now split].
  - intros x t Fx Ht Ht0.
    destruct (decide (x = b)) as [-> | Hxb]; [rewrite Hnew in Ht; cbn in Ht; nullc |].
    pose proof (FT' x Fx Hxb) as Fx0. rewrite (grow_tile x (proj1 Fx0)) in *.
    destruct (hi_prev _ _ I x t Fx0 Ht Ht0) as (Ft & Nt).
    rewrite (grow_tile t (proj1 Ft)). split; [now apply FT | exact Nt].
  - intros x Hx Ux.
    destruct (SZ x Hx) as [[-> E] | (Hx' & Hxb & E)]; rewrite E in *; cbn in Ux.
    + discriminate.
    + now apply (hi_used _ _ I).
  - right. rewrite Hhe, Hbrk, Hbase, Hhs.
    destruct (hi_os _ _ I).
    destruct (heap_start s =? NULL) eqn:E0.
    + repeat split; try assumption; lia.
    + apply N.eqb_neq in E0.
      destruct (hi_heap _ _ I) as [(E1 & _) | (_ & He & Hb1 & Hle)]; [contradiction |].
      repeat split; try assumption; lia.
  - apply grow_os.
  - intros t Ht.
    destruct (decide (t = b)) as [-> | Htb]; [rewrite Hnew in Ht; now cbn in Ht |].
    rewrite H1 in Ht. rewrite decide_False in Ht by congruence.
    now apply FT, (hi_links _ _ I).
  - destruct (hi_rank _ _ I) as [rank Hr]. exists rank. intros t Ht.
    destruct (decide (t = b)) as [-> | Htb]; [rewrite Hnew in Ht; now cbn in Ht |].
    rewrite (H1 t) in Ht |- *. rewrite decide_False in Ht |- * by congruence. now apply Hr.
  - intros Hb16 x Hx. rewrite Hbrk in Hb16.
    assert (Hb : brk (os s) mod ALIGNMENT = 0) by (unfold ALIGNMENT in *; lia).
    destruct (SZ x Hx) as [[-> E] | (Hx' & Hxb & E)]; rewrite E; cbn [size].
    + split; assumption.
    + now apply (hi_align _ _ I).
Qed.

Lemma grow_detached : detached s1 b.
Proof.
  clear - I Hfl. intros c Hc. unfold head in Hc. rewrite Hfl in Hc.
  pose proof (oi_brk _ (hi_os _ _ I)) as Hb0.
  destruct (hi_head _ _ I c b Hc Hb0) as ([Hb _] & _). now apply grow_fresh.
Qed.

Lemma grow_preserves x : preserves s T s1 ({[b]} ∪ T) x.
Proof.
  clear - I H1 Hmin Hroom Hlim. intros a G _.
  assert (Hab : a <> b).
  { intros ->. destruct G as [[Ha _] | Ha]; [now apply grow_fresh | unfold MIN_BLOCK_SIZE in *; lia]. }
  assert (E : hdr s1 a = hdr s a) by (rewrite H1; now rewrite decide_False by congruence).
  split; [exact E |]. unfold guarded in *. rewrite E, Hlim.
  destruct G as [[Ha Ua] | Ha]; [left; split; [set_solver | exact Ua] | now right].
Qed.

End Grow.

(** * Searching the free lists *)

Lemma scan_list_tile fuel : forall s T cur sz r,
  heap_inv s T -> cur = NULL \/ free_tile s T cur ->
  scan_list fuel s cur sz = Done r ->
  r = NULL \/ (free_tile s T r /\ sz <= size (hdr s r)).
Proof.
  induction fuel as [| fuel IH]; intros s T cur sz r I Hc H; [discriminate |].
  cbn [scan_list] in H.
  destruct (N.eqb_spec cur NULL) as [-> | Hn]; [left; now apply Done_inj in H |].
  destruct Hc as [? | Fc]; [contradiction |].
  destruct (truthy (is_free (hdr s cur)) && (sz <=? size (hdr s cur))) eqn:E.
  - apply Done_inj in H as <-. right. split; [exact Fc |].
    apply andb_true_iff in E as [_ E]. now apply N.leb_le.
  - apply (IH s T (next (hdr s cur)) sz r I); [| exact H].
    destruct (N.eq_dec (next (hdr s cur)) NULL) as [E0 | E0]; [now left | right].
    now apply (hi_next _ _ I cur).
Qed.

Lemma scan_classes_tile fuel s T sz : forall n i r,
  heap_inv s T -> scan_classes fuel s i n sz = Done r ->
  r = NULL \/ (free_tile s T r /\ sz <= size (hdr s r)).
Proof.
  induction n as [| n IH]; intros i r I H; cbn [scan_classes] in H.
  - left. now apply Done_inj in H.
  - destruct (scan_list fuel s (head s i) sz) as [found | |] eqn:E; cbn [obind] in H;
      try discriminate.
    destruct (found =? NULL); [now apply (IH (S i)) |].
    apply Done_inj in H as <-. apply (scan_list_tile fuel s T (head s i) sz); [exact I | | exact E].
    destruct (N.eq_dec (head s i) NULL) as [E0 | E0]; [now left | right].
    now apply (hi_head _ _ I i).
Qed.

Lemma find_free_block_tile fuel s T sz r :
  heap_inv s T -> find_free_block fuel s sz = Done r ->
  r = NULL \/ (free_tile s T r /\ sz <= size (hdr s r)).
Proof. unfold find_free_block. apply scan_classes_tile. Qed.

(** * [mem_malloc] keeps the heap well formed *)

Lemma alloc_size_bounds t :
  MIN_BLOCK_SIZE <= t -> t < MMAP_THRESHOLD ->
  let alloc_size := if t <? BRK_INCREMENT then BRK_INCREMENT else align_size t in
  t <= alloc_size /\ MIN_BLOCK_SIZE <= alloc_size.
Proof.
  intros H1 H2. cbv zeta. unfold MIN_BLOCK_SIZE, MMAP_THRESHOLD, BRK_INCREMENT in *.
  destruct (N.ltb_spec t (64 * 1024)); [lia |].
  pose proof (align_size_ge t). unfold two64 in *. lia.
Qed.

Lemma malloc_heap_inv fuel s T n p s' :
  heap_inv s T -> request_ok n -> total_size n < MMAP_THRESHOLD ->
  mem_malloc fuel s n = Done (p, s') -> p <> NULL ->
  exists T',
    heap_inv s' T' /\ HDR <= p /\
    n + HDR <= size (hdr s' (p - HDR)) /\
    p - HDR ∈ T' /\ is_free (hdr s' (p - HDR)) = 0 /\
    fresh_for s T (p - HDR) /\
    preserves s T s' T' (p - HDR) /\
    maps (os s') = maps (os s).
Proof.
  intros I Hn Hsmall H Hp.
  destruct (request_total n Hn) as [Hlo Hhi].
  unfold mem_malloc in H. fold (total_size n) in H.
  destruct (n =? 0); [apply Done_pair_inj in H as [<- _]; contradiction |].
  apply N.leb_gt in Hsmall as Els. rewrite Els in H.
  destruct (find_free_block fuel s (total_size n)) as [found | |] eqn:Ef; cbn [obind] in H;
    try discriminate.
  destruct (if found =? NULL then expand_heap s (total_size n) else (found, s))
    as [b s1] eqn:E1.
  destruct (N.eqb_spec b NULL) as [-> | Hb0];
    [apply Done_pair_inj in H as [<- _]; contradiction |].
  apply Done_pair_inj in H as [<- <-].
  assert (Htot : MIN_BLOCK_SIZE <= total_size n) by (unfold MIN_BLOCK_SIZE, HDR in *; lia).
  assert (Base : exists T1,
    heap_inv s1 T1 /\ free_tile s1 T1 b /\ total_size n <= size (hdr s1 b) /\
    preserves s T s1 T1 b /\ fresh_for s T b /\ maps (os s1) = maps (os s)).
  { destruct (N.eqb_spec found NULL) as [-> | Hf].
    - destruct (alloc_size_bounds (total_size n) Htot Hsmall) as [Ha1 Ha2].
      destruct (expand_heap_success s (total_size n) b s1 (hi_os _ _ I)) as
        (Hroom & -> & Hfl & Hhs & Hhe & Hbrk & Hbase & Hlim & Hnext & Hmlim & Hmaps & H1);
        [unfold MIN_BLOCK_SIZE in *; lia | exact Hsmall | exact E1 | exact Hb0 |].
      exists ({[brk (os s)]} ∪ T).
      assert (Ha3 : (if total_size n <? BRK_INCREMENT then BRK_INCREMENT
                     else align_size (total_size n)) mod ALIGNMENT = 0).
      { destruct (_ <? _); [reflexivity |]. rewrite align_size_spec. unfold ALIGNMENT. lia. }
      split; [now apply (grow_inv s s1 T _ I Ha2 Ha3 Hroom) |].
      pose proof (grow_new s s1 _ H1) as Hnew.
      pose proof (grow_fresh s T I) as Hfr.
      split; [split; [set_solver | now rewrite Hnew] |].
      split; [now rewrite Hnew |].
      split; [now apply (grow_preserves s s1 T _ I Ha2 Hroom) |].
      split; [| exact Hmaps].
      split; [intros [Hx _]; contradiction |].
      intros len Hl. pose proof (oi_maps _ (hi_os _ _ I) _ _ Hl).
      unfold MIN_BLOCK_SIZE in *. lia.
    - apply pair_equal_spec in E1 as [<- <-].
      destruct (find_free_block_tile _ _ T _ _ I Ef) as [? | [Ff Hsz]]; [contradiction |].
      exists T. split; [exact I |]. split; [exact Ff |]. split; [exact Hsz |].
      split; [apply preserves_refl |]. split; [| reflexivity].
      split; [intros [_ Hu]; now apply Ff |].
      intros len Hl. pose proof (oi_maps _ (hi_os _ _ I) _ _ Hl).
      pose proof (tile_below_limit _ _ _ I (proj1 Ff)). lia. }
  clear E1 Ef.
  destruct Base as (T1 & I1 & F1 & Hsz1 & P1 & Fr & M1).
  destruct (remove_inv s1 T1 b I1 F1) as (I2 & N2 & P2 & D2).
  pose proof (preserves_remove s1 T1 b I1 F1) as Pr2.
  assert (O2 : os (remove_from_free_list s1 b) = os s1) by apply os_remove_from_free_list.
  assert (S2 : size (hdr (remove_from_free_list s1 b) b) = size (hdr s1 b)) by apply size_remove.
  assert (F2 : free_tile (remove_from_free_list s1 b) T1 b).
  { split; [apply F1 |]. rewrite is_free_remove. apply F1. }
  set (s2 := remove_from_free_list s1 b) in *. clearbody s2.
  destruct (split_inv s2 T1 b n I2 F2 N2 P2 D2 Hn) as
    (T3 & I3 & F3 & N3 & P3 & D3 & Pr3 & Sz3 & _ & _).
  { now apply N.leb_gt. }
  assert (O3 : os (split_block s2 b n) = os s2) by apply os_split_block.
  set (s3 := split_block s2 b n) in *. clearbody s3.
  pose proof (mark_used_inv s3 T3 b I3 F3 N3 P3 D3) as I4.
  pose proof (preserves_set_is_free s3 T3 b 0 I3) as Pr4.
  replace (b + HDR - HDR) with b by lia.
  exists T3.
  split; [now apply heap_inv_with_stats |].
  split; [lia |].
  split.
  { rewrite hdr_with_stats. autorewrite with fld_rw. lia. }
  split; [apply F3 |].
  split.
  { rewrite hdr_with_stats. autorewrite with fld_rw. now rewrite decide_True. }
  split; [exact Fr |].
  split.
  { eapply preserves_trans; [exact P1 |].
    eapply preserves_trans; [exact Pr2 |].
    eapply preserves_trans; [exact Pr3 |].
    eapply preserves_trans; [exact Pr4 |].
    apply preserves_ext; reflexivity. }
  autorewrite with proj_rw. now rewrite O3, O2.
Qed.

(** A state that agrees with [s] on the headers of the tiling, the list
    heads, the heap bounds and the data segment satisfies the same
    invariant. *)
Lemma heap_inv_frame s s' T :
  (forall a, a ∈ T -> hdr s' a = hdr s a) ->
  (forall a, a ∉ T -> next (hdr s' a) = NULL \/ hdr s' a = hdr s a) ->
  free_lists s' = free_lists s ->
  heap_start s' = heap_start s -> heap_end s' = heap_end s ->
  brk (os s') = brk (os s) -> brk_base (os s') = brk_base (os s) ->
  os_inv (os s') ->
  heap_inv s T -> heap_inv s' T.
Proof.
  intros Hh Hout Hl Hs He Hb Hbb Ho I.
  assert (Hd : forall c, head s' c = head s c) by (intros c; unfold head; now rewrite Hl).
  assert (FT : forall x, free_tile s' T x <-> free_tile s T x).
  { intros x. unfold free_tile. split; intros [Hx Fx]; (split; [exact Hx |]);
      [rewrite <- Hh | rewrite Hh]; assumption. }
  constructor.
  - rewrite Hl. apply (hi_len _ _ I).
  - intros x Hx. rewrite Hh, Hs, He by assumption. now apply (hi_in _ _ I).
  - intros x Hx. rewrite Hh by assumption. now apply (hi_min _ _ I).
  - intros x Hx. rewrite Hh, He by assumption. now apply (hi_succ _ _ I).
  - intros x y Hx Hy Hxy. rewrite !Hh by assumption. now apply (hi_disj _ _ I).
  - intros x Hx. rewrite Hh by assumption. now apply (hi_nomap _ _ I).
  - intros c x Hc Hx. rewrite Hd in Hc.
    destruct (hi_head _ _ I c x Hc Hx) as (Fx & Px & Cx).
    rewrite FT, Hh by apply Fx. now split.
  - intros t x Ft Hx Hx0. apply FT in Ft. rewrite Hh in Hx by apply Ft.
    destruct (hi_next _ _ I t x Ft Hx Hx0) as (Fx & Px & Cx).
    rewrite FT, (Hh x), (Hh t) by (apply Fx || apply Ft). now split.
  - intros x t Fx Ht Ht0. apply FT in Fx. rewrite Hh in Ht by apply Fx.
    destruct (hi_prev _ _ I x t Fx Ht Ht0) as (Ft & Nt).
    rewrite FT, Hh by apply Ft. now split.
  - intros x Hx Ux. rewrite Hh in * by assumption. now apply (hi_used _ _ I).
  - rewrite Hs, He, Hb, Hbb. apply (hi_heap _ _ I).
  - exact Ho.
  - intros t Ht. apply FT. destruct (decide (t ∈ T)) as [Hin | Hnin].
    + rewrite Hh in Ht by assumption. now apply (hi_links _ _ I).
    + destruct (Hout t Hnin) as [E | E]; [contradiction |].
      rewrite E in Ht. now apply (hi_links _ _ I).
  - destruct (hi_rank _ _ I) as [rank Hr]. exists rank. intros t Ht.
    assert (E : hdr s' t = hdr s t).
    { destruct (decide (t ∈ T)) as [Hin | Hnin]; [now apply Hh |].
      destruct (Hout t Hnin) as [E | E]; [contradiction | exact E]. }
    rewrite E in Ht |- *. now apply Hr.
  - intros Hbrk x Hx. rewrite Hb in Hbrk. rewrite Hh by assumption.
    now apply (hi_align _ _ I).
Qed.

Lemma page_round_aligned len : page_round len mod ALIGNMENT = 0.
Proof. unfold page_round, PAGE_SIZE, ALIGNMENT. lia. Qed.

Lemma page_round_ge len : len <= page_round len.
Proof. unfold page_round, PAGE_SIZE. lia. Qed.

Lemma mmap_os_inv o len ptr o' :
  os_inv o -> mmap o len = (ptr, o') -> ptr <> MAP_FAILED ->
  os_inv o' /\ ptr = mmap_next o /\ len <> 0 /\
  maps o' = (ptr, len) :: maps o /\
  brk o' = brk o /\ brk_base o' = brk_base o /\ brk_limit o' = brk_limit o.
Proof.
  intros O H Hp. unfold mmap in H.
  destruct (len =? 0) eqn:E0; cbn [negb andb] in H;
    [apply pair_equal_spec in H as [<- _]; contradiction |].
  apply N.eqb_neq in E0.
  destruct (N.leb_spec (mmap_next o + page_round len) (mmap_limit o)) as [Hle | Hgt];
    [| apply pair_equal_spec in H as [<- _]; contradiction].
  apply pair_equal_spec in H as [<- <-]. cbn.
  split; [| repeat split; assumption].
  destruct O as [oi_brk0 oi_base0 oi_brk_le0 oi_limit0 oi_next0 oi_max0 oi_maps0 oi_disj0 oi_align0]. pose proof (page_round_ge len).
  constructor; cbn; try assumption; try lia.
  - intros a l Hin. apply elem_of_cons in Hin as [[= -> ->] | Hin]; [lia |].
    pose proof (oi_maps0 _ _ Hin). lia.
  - intros a l a' l' Hin Hin' Hne.
    apply elem_of_cons in Hin as [[= -> ->] | Hin];
      apply elem_of_cons in Hin' as [[= -> ->] | Hin'].
    + contradiction.
    + pose proof (oi_maps0 _ _ Hin'). lia.
    + pose proof (oi_maps0 _ _ Hin). lia.
    + now apply (oi_disj0 a l a' l').
  - intros Hal a l Hin. pose proof (page_round_aligned len).
    assert (Hal0 : mmap_next o mod ALIGNMENT = 0) by (unfold ALIGNMENT in *; lia).
    apply elem_of_cons in Hin as [[= -> ->] | Hin]; [exact Hal0 |].
    now apply (oi_align0 Hal0 a l).
Qed.

Lemma malloc_mmap_inv fuel s T n p s' :
  heap_inv s T -> request_ok n -> MMAP_THRESHOLD <= total_size n ->
  mem_malloc fuel s n = Done (p, s') -> p <> NULL ->
  heap_inv s' T /\ HDR <= p /\
  n + HDR <= size (hdr s' (p - HDR)) /\
  is_mmap (hdr s' (p - HDR)) <> 0 /\
  (p - HDR, size (hdr s' (p - HDR))) ∈ maps (os s') /\
  fresh_for s T (p - HDR) /\
  preserves s T s' T (p - HDR) /\
  maps (os s') = (p - HDR, total_size n) :: maps (os s).
Proof.
  intros I Hn Hbig H Hp.
  destruct (request_total n Hn) as [Hlo Hhi].
  unfold mem_malloc in H. fold (total_size n) in H.
  destruct (n =? 0); [apply Done_pair_inj in H as [<- _]; contradiction |].
  apply N.leb_le in Hbig as Ebig. rewrite Ebig in H.
  destruct (mmap (os s) (total_size n)) as [ptr o1] eqn:Em.
  destruct (N.eqb_spec ptr MAP_FAILED) as [-> | Hf];
    [apply Done_pair_inj in H as [<- _]; contradiction |].
  apply Done_pair_inj in H as [<- <-].
  destruct (mmap_os_inv _ _ _ _ (hi_os _ _ I) Em Hf) as (O1 & -> & Hl0 & Hm & Hb & Hbb & Hlim).
  replace (mmap_next (os s) + HDR - HDR) with (mmap_next (os s)) by lia.
  set (b := mmap_next (os s)) in *.
  assert (HbT : b ∉ T).
  { intros Hx. pose proof (tile_below_limit _ _ _ I Hx).
    pose proof (oi_limit _ (hi_os _ _ I)). subst b. lia. }
  set (s7 := with_stats _ _).
  assert (H7 : forall a, a <> b -> hdr s7 a = hdr s a).
  { intros a Hab. subst s7. autorewrite with hdr_rw.
    rewrite !decide_False by congruence. reflexivity. }
  assert (Hb7 : hdr s7 b = mk_header (total_size n) NULL NULL 0 1).
  { subst s7. hdr_norm. reflexivity. }
  assert (Ho7 : os s7 = o1) by (subst s7; now autorewrite with proj_rw).
  assert (Hs7 : free_lists s7 = free_lists s /\ heap_start s7 = heap_start s /\
                heap_end s7 = heap_end s) by (subst s7; now autorewrite with proj_rw).
  destruct Hs7 as (Hfl & Hhs & Hhe). clearbody s7.
  split.
  { apply (heap_inv_frame s); try assumption; rewrite ?Ho7; try assumption.
    - intros a Ha. apply H7. intros ->. contradiction.
    - intros a _. destruct (decide (a = b)) as [-> | Hab];
        [left; now rewrite Hb7 | right; now apply H7]. }
  split; [lia |].
  rewrite Hb7, Ho7, Hm. cbn [size is_mmap].
  split; [lia |]. split; [discriminate |]. split; [apply elem_of_cons; now left |].
  split.
  { split; [intros [Hx _]; contradiction |].
    intros len Hl. pose proof (oi_maps _ (hi_os _ _ I) _ _ Hl).
    pose proof (page_round_ge len). subst b. lia. }
  split; [| reflexivity].
  intros a G Hab. rewrite (H7 a Hab). split; [reflexivity |].
  unfold guarded in *. now rewrite (H7 a Hab), Ho7, Hlim.
Qed.

(** * [mem_free] keeps the heap well formed *)

Lemma free_heap_inv fuel s T p s' :
  heap_inv s T -> HDR <= p -> p - HDR ∈ T -> is_free (hdr s (p - HDR)) = 0 ->
  mem_free fuel s p = Done s' ->
  exists T',
    heap_inv s' T' /\ T' ⊆ T /\
    free_tile s' T' (p - HDR) /\
    head s' (get_size_class (size (hdr s' (p - HDR)))) = p - HDR /\
    size (hdr s (p - HDR)) <= size (hdr s' (p - HDR)) /\
    preserves s T s' T' (p - HDR) /\
    os s' = os s.
Proof.
  intros I Hp Hb Hu H.
  unfold mem_free in H.
  assert (Ep : (p =? NULL) = false) by (apply N.eqb_neq; unfold NULL, HDR in *; lia).
  rewrite Ep in H.
  set (b := p - HDR) in *.
  assert (Em : truthy (is_mmap (hdr s b)) = false).
  { apply truthy_false. now apply (hi_nomap _ _ I). }
  rewrite Em in H.
  set (s1 := with_stats s _) in H.
  assert (I1 : heap_inv s1 T) by now apply heap_inv_with_stats.
  assert (U1 : is_free (hdr s1 b) = 0) by exact Hu.
  destruct (mark_free_inv s1 T b I1 Hb U1) as (I2 & F2 & N2 & P2 & D2).
  pose proof (preserves_set_is_free s1 T b 1 I1) as Pr2.
  assert (S2 : size (hdr (set_is_free s1 b 1) b) = size (hdr s b)).
  { autorewrite with fld_rw. reflexivity. }
  assert (O2 : os (set_is_free s1 b 1) = os s) by reflexivity.
  set (s2 := set_is_free s1 b 1) in *.
  assert (Pr1 : preserves s T s1 T b) by (apply preserves_ext; reflexivity).
  clearbody s2 s1.
  destruct (coalesce fuel s2 b) as [[b' s3] | |] eqn:Ec; cbn [obind] in H; try discriminate.
  apply Done_inj in H as <-.
  pose proof (coalesce_os _ _ _ _ _ Ec) as O3.
  destruct (coalesce_inv fuel s2 T b b' s3 I2 F2 N2 P2 D2 Ec) as
    (-> & T3 & I3 & F3 & N3 & P3 & D3 & Pr3 & Sub & Sz3).
  destruct (add_inv s3 T3 b I3 F3 N3 P3 D3) as [I4 H4].
  exists T3.
  split; [exact I4 |]. split; [exact Sub |].
  split.
  { split; [apply F3 |]. rewrite is_free_add. now rewrite decide_True. }
  split; [now rewrite size_add |].
  split; [rewrite size_add; lia |].
  split.
  { eapply preserves_trans; [exact Pr1 |].
    eapply preserves_trans; [exact Pr2 |].
    eapply preserves_trans; [exact Pr3 |].
    apply preserves_add; exact I3. }
  rewrite os_add_to_free_list, O3. exact O2.
Qed.

Lemma munmap_os_inv o addr len : os_inv o -> os_inv (munmap o addr len).
Proof.
  intros [oi_brk0 oi_base0 oi_brk_le0 oi_limit0 oi_next0 oi_max0 oi_maps0 oi_disj0 oi_align0]. unfold munmap. constructor; cbn; try assumption.
  - intros a l Hin. apply list_elem_of_filter in Hin as [_ Hin]. now apply oi_maps0.
  - intros a l a' l' Hin Hin'.
    apply list_elem_of_filter in Hin as [_ Hin].
    apply list_elem_of_filter in Hin' as [_ Hin']. now apply oi_disj0.
  - intros Hal a l Hin. apply list_elem_of_filter in Hin as [_ Hin].
    now apply (oi_align0 Hal a l).
Qed.

Lemma free_mmap_inv fuel s T p s' :
  heap_inv s T -> HDR <= p -> is_mmap (hdr s (p - HDR)) <> 0 ->
  (p - HDR, size (hdr s (p - HDR))) ∈ maps (os s) ->
  mem_free fuel s p = Done s' ->
  heap_inv s' T /\ preserves s T s' T (p - HDR) /\
  brk_limit (os s') = brk_limit (os s) /\
  (forall m, m ∈ maps (os s) -> fst m <> p - HDR -> m ∈ maps (os s')) /\
  (forall m, m ∈ maps (os s') -> m ∈ maps (os s) /\ fst m <> p - HDR).
Proof.
  intros I Hp Hm Hin H.
  assert (Hp0 : p <> NULL) by (unfold NULL, HDR in *; lia).
  rewrite free_mapped in H by (assumption || now apply truthy_true).
  apply Done_inj in H as <-.
  set (b := p - HDR) in *.
  assert (HbT : b ∉ T).
  { intros Hx. pose proof (tile_below_limit _ _ _ I Hx).
    pose proof (oi_maps _ (hi_os _ _ I) _ _ Hin). lia. }
  set (s' := with_hdrs _ _).
  assert (H' : forall a, a <> b -> hdr s' a = hdr s a).
  { intros a Hab. unfold s', hdr. cbn [hdrs with_hdrs with_os with_stats].
    now rewrite lookup_delete_ne by congruence. }
  assert (O' : os s' = munmap (os s) b (size (hdr s b))) by reflexivity.
  assert (L' : free_lists s' = free_lists s /\ heap_start s' = heap_start s /\
               heap_end s' = heap_end s) by (now unfold s').
  assert (Hz : next (hdr s' b) = NULL).
  { unfold s', hdr. cbn [hdrs with_hdrs with_os with_stats].
    now rewrite lookup_delete_eq. }
  destruct L' as (Hfl & Hhs & Hhe). clearbody s'.
  split.
  { apply (heap_inv_frame s); try assumption; rewrite ?O'; try reflexivity.
    - intros a Ha. apply H'. intros ->. contradiction.
    - intros a _. destruct (decide (a = b)) as [-> | Hab];
        [left; exact Hz | right; now apply H'].
    - apply munmap_os_inv, (hi_os _ _ I). }
  split.
  { intros a G Hab. rewrite (H' a Hab). split; [reflexivity |].
    unfold guarded in *. now rewrite (H' a Hab), O'. }
  rewrite O'. split; [reflexivity |]. unfold munmap; cbn [maps].
  split.
  - intros m Hm' Hne. apply list_elem_of_filter. split; [| exact Hm'].
    apply negb_prop_intro. intros E. apply Is_true_eq_true in E.
    apply N.eqb_eq in E. contradiction.
  - intros m Hm'. apply list_elem_of_filter in Hm' as [Hne Hm']. split; [exact Hm' |].
    intros E. apply negb_prop_elim in Hne. apply Hne. apply Is_true_eq_left.
    now apply N.eqb_eq.
Qed.

(** * The client's addresses across a call *)

Lemma live_guarded s T live q n :
  heap_inv s T -> live_inv s T live -> live !! q = Some n -> guarded s T (q - HDR).
Proof.
  intros I L Hq. destruct (li_kind _ _ _ L q n Hq) as [[Ht Hu] | [_ Hin]].
  - left. now split.
  - right. now apply (oi_maps _ (hi_os _ _ I)) in Hin.
Qed.

Lemma live_not_fresh s T live q n :
  live_inv s T live -> live !! q = Some n -> ~ fresh_for s T (q - HDR).
Proof.
  intros L Hq [F1 F2]. destruct (li_kind _ _ _ L q n Hq) as [Hk | [_ Hin]].
  - now apply F1.
  - now apply F2 in Hin.
Qed.

Lemma live_inv_preserved s T s' T' live b :
  heap_inv s T -> live_inv s T live ->
  preserves s T s' T' b ->
  brk_limit (os s') = brk_limit (os s) ->
  (forall m, m ∈ maps (os s) -> fst m <> b -> m ∈ maps (os s')) ->
  (forall q n, live !! q = Some n -> q - HDR <> b) ->
  live_inv s' T' live.
Proof.
  intros I L P Hlim Hmaps Hne.
  constructor; intros q n Hq;
    pose proof (live_guarded _ _ _ _ _ I L Hq) as G;
    destruct (P _ G (Hne _ _ Hq)) as [E G']; rewrite E.
  - now apply (li_room _ _ _ L).
  - destruct (li_kind _ _ _ L q n Hq) as [[Ht Hu] | [Hm Hin]].
    + left. destruct G' as [[Ht' Hu'] | Hge].
      * split; [exact Ht' | congruence].
      * pose proof (tile_below_limit _ _ _ I Ht). lia.
    + right. split; [exact Hm |]. apply Hmaps; [exact Hin | apply (Hne _ _ Hq)].
Qed.

Lemma acquire_lookup live p n q m :
  acquire live p n !! q = Some m ->
  (p <> NULL /\ q = p /\ m = n) \/ live !! q = Some m.
Proof.
  unfold acquire. case_decide as E; [now right |].
  destruct (decide (q = p)) as [-> | Hqp].
  - rewrite lookup_insert_eq. intros [= <-]. now left.
  - rewrite lookup_insert_ne by congruence. now right.
Qed.

(** A call of [mem_malloc] by the client: the invariant is kept, and an
    address that is returned is not one the client holds already. *)
Lemma malloc_client fuel s live n p s' :
  client_inv s live -> request_ok n ->
  mem_malloc fuel s n = Done (p, s') ->
  client_inv s' (acquire live p n) /\ (p <> NULL -> live !! p = None) /\
  (forall q m, live !! q = Some m -> hdr s' (q - HDR) = hdr s (q - HDR)).
Proof.
  intros (T & I & L) Hn H.
  destruct (N.eq_dec p NULL) as [-> | Hp].
  { assert (s' = s) as ->.
    { eapply malloc_null_unchanged; [| exact H].
      destruct (hi_os _ _ I). unfold os_ok, SIZE_MAX in *. repeat split; try assumption; lia. }
    unfold acquire. rewrite decide_True by reflexivity.
    split; [now exists T |]. split; [contradiction | reflexivity]. }
  pose proof (malloc_os _ _ _ _ _ H) as (_ & Hlim & _ & _).
  assert (Core : exists T',
    heap_inv s' T' /\ HDR <= p /\ n + HDR <= size (hdr s' (p - HDR)) /\
    ((p - HDR ∈ T' /\ is_free (hdr s' (p - HDR)) = 0) \/
     (is_mmap (hdr s' (p - HDR)) <> 0 /\
      (p - HDR, size (hdr s' (p - HDR))) ∈ maps (os s'))) /\
    fresh_for s T (p - HDR) /\ preserves s T s' T' (p - HDR) /\
    (forall m, m ∈ maps (os s) -> m ∈ maps (os s'))).
  { destruct (N.lt_ge_cases (total_size n) MMAP_THRESHOLD) as [Hs | Hb].
    - destruct (malloc_heap_inv fuel s T n p s' I Hn Hs H Hp) as
        (T' & I' & Hp' & Hr & Ht & Hu & Fr & Pr & Hm).
      exists T'. repeat (split; [assumption || (left; now split) |]).
      intros m. now rewrite Hm.
    - destruct (malloc_mmap_inv fuel s T n p s' I Hn Hb H Hp) as
        (I' & Hp' & Hr & Hmm & Hin & Fr & Pr & Hm).
      exists T. repeat (split; [assumption || (right; now split) |]).
      intros m Hx. rewrite Hm. apply elem_of_cons. now right. }
  destruct Core as (T' & I' & Hp' & Hr & Hk & Fr & Pr & Hm).
  assert (Hne : forall q m, live !! q = Some m -> q - HDR <> p - HDR).
  { intros q m Hq E. apply (live_not_fresh _ _ _ _ _ L Hq). now rewrite E. }
  assert (L' : live_inv s' T' live).
  { apply (live_inv_preserved s T s' T' live (p - HDR)); auto. }
  split; [| split].
  - exists T'. split; [exact I' |].
    unfold acquire. rewrite decide_False by assumption.
    constructor; intros q m Hq.
    + destruct (decide (q = p)) as [-> | Hqp].
      * rewrite lookup_insert_eq in Hq. injection Hq as <-. now split.
      * rewrite lookup_insert_ne in Hq by congruence. now apply (li_room _ _ _ L').
    + destruct (decide (q = p)) as [-> | Hqp].
      * exact Hk.
      * rewrite lookup_insert_ne in Hq by congruence. now apply (li_kind _ _ _ L' q m).
  - intros _. destruct (live !! p) as [m |] eqn:E; [| reflexivity].
    exfalso. now apply (Hne p m E).
  - intros q m Hq. apply Pr; [now apply (live_guarded _ _ _ _ _ I L Hq) | now apply (Hne q m)].
Qed.

Lemma live_null_absent s T live : live_inv s T live -> live !! NULL = None.
Proof.
  intros L. destruct (live !! NULL) as [n |] eqn:E; [| reflexivity].
  destruct (li_room _ _ _ L _ _ E) as [H _]. unfold NULL, HDR in H. lia.
Qed.

Lemma live_inv_delete s T live p : live_inv s T live -> live_inv s T (delete p live).
Proof.
  intros L. constructor; intros q n Hq; apply lookup_delete_Some in Hq as [_ Hq].
  - now apply (li_room _ _ _ L).
  - now apply (li_kind _ _ _ L q n).
Qed.

Lemma live_blocks_distinct s T live p q n m :
  live_inv s T live -> live !! p = Some n -> live !! q = Some m ->
  q <> p -> q - HDR <> p - HDR.
Proof.
  intros L Hp Hq Hne E.
  destruct (li_room _ _ _ L _ _ Hp) as [H1 _].
  destruct (li_room _ _ _ L _ _ Hq) as [H2 _]. lia.
Qed.

(** A call of [mem_free] by the client on an address it holds, or on the
    null address. *)
Lemma free_client fuel s live p s' :
  client_inv s live -> p = NULL \/ is_Some (live !! p) ->
  mem_free fuel s p = Done s' ->
  client_inv s' (delete p live) /\
  (forall q m, live !! q = Some m -> q <> p -> hdr s' (q - HDR) = hdr s (q - HDR)).
Proof.
  intros (T & I & L) Hp H.
  destruct Hp as [-> | [n Hp]].
  { unfold mem_free in H. rewrite N.eqb_refl in H. apply Done_inj in H as <-.
    rewrite delete_id by (now apply (live_null_absent s T)).
    split; [now exists T | reflexivity]. }
  destruct (li_room _ _ _ L _ _ Hp) as [Hge Hroom].
  assert (Hne : forall q m, delete p live !! q = Some m -> q - HDR <> p - HDR).
  { intros q m Hq. apply lookup_delete_Some in Hq as [Hqp Hq].
    apply (live_blocks_distinct s T live p q n m); auto. }
  pose proof (free_os _ _ _ _ H) as (_ & Hlim & _ & _).
  destruct (li_kind _ _ _ L p n Hp) as [[Ht Hu] | [Hm Hin]].
  - destruct (free_heap_inv fuel s T p s' I Hge Ht Hu H) as
      (T' & I' & Sub & _ & _ & _ & Pr & Ho).
    split.
    + exists T'. split; [exact I' |].
      apply (live_inv_preserved s T s' T' _ (p - HDR)); auto.
      * now apply live_inv_delete.
      * intros m Hx _. now rewrite Ho.
    + intros q m Hq Hqp. apply Pr; [now apply (live_guarded _ _ _ _ _ I L Hq) |].
      apply (live_blocks_distinct s T live p q n m); auto.
  - destruct (free_mmap_inv fuel s T p s' I Hge Hm Hin H) as (I' & Pr & _ & Hmaps & _).
    split.
    + exists T. split; [exact I' |].
      apply (live_inv_preserved s T s' T _ (p - HDR)); auto.
      now apply live_inv_delete.
    + intros q m Hq Hqp. apply Pr; [now apply (live_guarded _ _ _ _ _ I L Hq) |].
      apply (live_blocks_distinct s T live p q n m); auto.
Qed.

(** Writing payload bytes does not disturb the invariant. *)
Lemma client_inv_bytes s s' live :
  (forall a, hdr s' a = hdr s a) -> free_lists s' = free_lists s ->
  heap_start s' = heap_start s -> heap_end s' = heap_end s -> os s' = os s ->
  client_inv s live -> client_inv s' live.
Proof.
  intros Hh Hl Hs He Ho (T & I & L). exists T.
  split; [now apply (heap_inv_ext s) |].
  constructor; intros q n Hq; rewrite Hh, ?Ho.
  - now apply (li_room _ _ _ L).
  - now apply (li_kind _ _ _ L q n).
Qed.

Lemma memset_client s p c n s' live :
  memset s p c n = Done s' -> client_inv s live -> client_inv s' live.
Proof.
  unfold memset. destruct (accessible _ _ _); [| discriminate].
  intros H. apply Done_inj in H as <-. now apply client_inv_bytes.
Qed.

Lemma memcpy_client s d p n s' live :
  memcpy s d p n = Done s' -> client_inv s live -> client_inv s' live.
Proof.
  unfold memcpy. destruct (_ && _); [| discriminate].
  intros H. apply Done_inj in H as <-. now apply client_inv_bytes.
Qed.

Lemma reset_client s live : client_inv s live -> client_inv (mem_reset s) live.
Proof.
  intros (T & I & L). exists T. split.
  - assert (Hd : forall c, head (mem_reset s) c = NULL) by apply head_reset.
    destruct I. constructor; try assumption.
    + reflexivity.
    + intros c x Hc Hx. rewrite Hd in Hc. congruence.
  - constructor; intros q n Hq.
    + now apply (li_room _ _ _ L).
    + now apply (li_kind _ _ _ L q n).
Qed.

Lemma live_size_lt s T live p n :
  heap_inv s T -> live_inv s T live -> live !! p = Some n ->
  size (hdr s (p - HDR)) < two64.
Proof.
  intros I L Hp. destruct (li_kind _ _ _ L p n Hp) as [[Ht _] | [_ Hin]].
  - pose proof (tile_size_lt _ _ _ I Ht). lia.
  - pose proof (oi_maps _ (hi_os _ _ I) _ _ Hin) as (_ & _ & H).
    pose proof (page_round_ge (size (hdr s (p - HDR)))).
    destruct (hi_os _ _ I). unfold SIZE_MAX, two64 in *. lia.
Qed.

Lemma calloc_overflow fuel s nmemb sz :
  nmemb < two64 -> sz < two64 -> two64 <= nmemb * sz ->
  mem_calloc fuel s nmemb sz = Done (NULL, s).
Proof.
  intros Hn Hs Ho. unfold mem_calloc.
  destruct (N.eqb_spec nmemb 0) as [-> | Hn0]; [reflexivity |].
  destruct (sz =? 0); [reflexivity |]. cbn [orb].
  rewrite (mul_overflow_check nmemb sz Hn0 Hn Hs).
  apply N.ltb_ge in Ho. now rewrite Ho.
Qed.

Lemma memset_hdr s p c n s' a : memset s p c n = Done s' -> hdr s' a = hdr s a.
Proof.
  unfold memset. destruct (accessible _ _ _); [| discriminate].
  intros H. now apply Done_inj in H as <-.
Qed.

Lemma memcpy_hdr s d p n s' a : memcpy s d p n = Done s' -> hdr s' a = hdr s a.
Proof.
  unfold memcpy. destruct (_ && _); [| discriminate].
  intros H. now apply Done_inj in H as <-.
Qed.

Lemma calloc_client fuel s live nmemb sz p s' :
  client_inv s live -> nmemb < two64 -> sz < two64 ->
  two64 <= nmemb * sz \/ request_ok (nmemb * sz) ->
  mem_calloc fuel s nmemb sz = Done (p, s') ->
  client_inv s' (acquire live p (nmemb * sz)) /\ (p <> NULL -> live !! p = None) /\
  (forall q m, live !! q = Some m -> hdr s' (q - HDR) = hdr s (q - HDR)).
Proof.
  intros C Hn Hs Hr H.
  assert (Null : Done (NULL, s) = Done (p, s') ->
    client_inv s' (acquire live p (nmemb * sz)) /\ (p <> NULL -> live !! p = None) /\
    (forall q m, live !! q = Some m -> hdr s' (q - HDR) = hdr s (q - HDR))).
  { intros E. apply Done_pair_inj in E as [<- <-]. unfold acquire.
    rewrite decide_True by reflexivity.
    split; [exact C |]. split; [contradiction | reflexivity]. }
  destruct Hr as [Ho | Hr]; [rewrite calloc_overflow in H by assumption; now apply Null |].
  destruct (N.eq_dec nmemb 0) as [-> | Hn0]; [now apply Null |].
  destruct (N.eq_dec sz 0) as [-> | Hs0].
  { unfold mem_calloc in H. rewrite N.eqb_refl, orb_true_r in H. now apply Null. }
  clear Null.
  rewrite calloc_guards_pass in H; try assumption;
    [| unfold request_ok, two64 in *; lia].
  destruct (mem_malloc fuel s (nmemb * sz)) as [[ptr s1] | |] eqn:Em; cbn [obind] in H;
    try discriminate.
  destruct (malloc_client _ _ _ _ _ _ C Hr Em) as (C1 & Hfresh & Hfr).
  destruct (truthy ptr).
  - destruct (memset s1 ptr 0 (nmemb * sz)) as [s2 | |] eqn:Es; cbn [obind] in H;
      try discriminate.
    apply Done_pair_inj in H as [<- <-].
    split; [now apply (memset_client _ _ _ _ _ _ Es) |]. split; [exact Hfresh |].
    intros q m Hq. rewrite <- (Hfr q m Hq). exact (memset_hdr _ _ _ _ _ _ Es).
  - apply Done_pair_inj in H as [<- <-]. now split.
Qed.

Lemma realloc_client fuel s live p n q s' :
  client_inv s live -> p = NULL \/ is_Some (live !! p) -> request_ok n ->
  mem_realloc fuel s p n = Done (q, s') ->
  let live' := if decide (q = NULL)
               then (if decide (n = 0) then delete p live else live)
               else <[q := n]> (delete p live) in
  client_inv s' live' /\
  (forall x m, live !! x = Some m -> is_Some (live' !! x) ->
     hdr s' (x - HDR) = hdr s (x - HDR)).
Proof.
  intros C Hp Hn H. cbv zeta. unfold mem_realloc in H.
  destruct Hp as [-> | [m Hp]].
  { rewrite N.eqb_refl in H.
    destruct (malloc_client _ _ _ _ _ _ C Hn H) as (C1 & _ & Hfr).
    destruct C as (T & I & L).
    rewrite delete_id by (now apply (live_null_absent s T)).
    split; [| intros x k Hx _; now apply (Hfr x k)].
    unfold acquire in C1. case_decide; [| exact C1]. now case_decide. }
  assert (Hp0 : p <> NULL).
  { destruct C as (T & I & L). intros ->.
    rewrite (live_null_absent s T live L) in Hp. discriminate. }
  apply N.eqb_neq in Hp0 as Ep. rewrite Ep in H.
  destruct (N.eqb_spec n 0) as [-> | Hn0].
  { destruct (mem_free fuel s p) as [s1 | |] eqn:Ef; cbn [obind] in H; try discriminate.
    apply Done_pair_inj in H as [<- <-].
    rewrite !decide_True by reflexivity.
    destruct (free_client _ _ _ _ _ C (or_intror (ex_intro _ m Hp)) Ef) as [C1 Hfr].
    split; [exact C1 |]. intros x k Hx [k' Hx'].
    apply lookup_delete_Some in Hx' as [Hne _]. apply (Hfr x k Hx). congruence. }
  destruct (N.leb_spec n (wsub (size (hdr s (p - HDR))) HDR)) as [Hfit | Hgrow].
  { apply Done_pair_inj in H as [<- <-].
    rewrite decide_False by assumption. rewrite insert_delete_eq.
    split; [| reflexivity].
    destruct C as (T & I & L). exists T. split; [exact I |].
    destruct (li_room _ _ _ L _ _ Hp) as [Hge Hroom].
    pose proof (live_size_lt _ _ _ _ _ I L Hp) as Hlt.
    assert (Hcap : n + HDR <= size (hdr s (p - HDR))).
    { unfold wsub, wrap, two64, HDR in *. lia. }
    constructor; intros x k Hx.
    - destruct (decide (x = p)) as [-> | Hxp].
      + rewrite lookup_insert_eq in Hx. injection Hx as <-. now split.
      + rewrite lookup_insert_ne in Hx by congruence. now apply (li_room _ _ _ L).
    - destruct (decide (x = p)) as [-> | Hxp].
      + now apply (li_kind _ _ _ L p m).
      + rewrite lookup_insert_ne in Hx by congruence. now apply (li_kind _ _ _ L x k). }
  destruct (mem_malloc fuel s n) as [[np s1] | |] eqn:Em; cbn [obind] in H; try discriminate.
  destruct (malloc_client _ _ _ _ _ _ C Hn Em) as (C1 & Hfresh & Hfr1).
  destruct (N.eqb_spec np NULL) as [-> | Hnp].
  { apply Done_pair_inj in H as [<- <-].
    rewrite decide_True by reflexivity. rewrite decide_False by assumption.
    split; [exact C1 |]. intros x k Hx _. now apply (Hfr1 x k). }
  unfold acquire in C1. rewrite decide_False in C1 by assumption.
  destruct (memcpy s1 np p _) as [s2 | |] eqn:Ec; cbn [obind] in H; try discriminate.
  destruct (mem_free fuel s2 p) as [s3 | |] eqn:Ef; cbn [obind] in H; try discriminate.
  apply Done_pair_inj in H as [<- <-].
  rewrite decide_False by assumption.
  assert (Hne : np <> p).
  { intros ->. rewrite (Hfresh Hnp) in Hp. discriminate. }
  pose proof (memcpy_client _ _ _ _ _ _ Ec C1) as C2.
  assert (Hp2 : is_Some (<[np := n]> live !! p)).
  { exists m. now rewrite lookup_insert_ne by congruence. }
  destruct (free_client _ _ _ _ _ C2 (or_intror Hp2) Ef) as [C3 Hfr3].
  split; [now rewrite delete_insert_ne in C3 by congruence |].
  intros x k Hx [k' Hx'].
  assert (Hxn : x <> np).
  { intros ->. rewrite (Hfresh Hnp) in Hx. discriminate. }
  rewrite lookup_insert_ne in Hx' by congruence.
  apply lookup_delete_Some in Hx' as [Hxp _].
  rewrite (Hfr3 x k); [| now rewrite lookup_insert_ne by congruence | congruence].
  rewrite (memcpy_hdr _ _ _ _ _ _ Ec). now apply (Hfr1 x k).
Qed.

(** * Every call of a well-behaved client keeps the invariant *)

Lemma ccall_inv c c' :
  ccall c c' -> client_inv c.1 c.2 -> client_inv c'.1 c'.2.
Proof.
  intros []; cbn [fst snd]; intros C.
  - eapply malloc_client; eauto.
  - eapply free_client; eauto.
  - eapply calloc_client; eauto.
  - eapply (realloc_client fuel s live p n q s'); eauto.
  - now apply reset_client.
Qed.

(** So does every store of the client into a block it holds. *)
Lemma cstep_inv c c' :
  cstep c c' -> client_inv c.1 c.2 -> client_inv c'.1 c'.2.
Proof.
  intros [c0 c0' Hc | s live p n off len v s' Hp Hlen Hw]; cbn [fst snd]; intros C.
  - now apply (ccall_inv c0 c0').
  - exact (memset_client _ _ _ _ _ _ Hw C).
Qed.

(** No call changes the header of a block the client goes on holding. *)
Lemma ccall_frame c c' q m :
  ccall c c' -> client_inv c.1 c.2 ->
  c.2 !! q = Some m -> is_Some (c'.2 !! q) ->
  hdr c'.1 (q - HDR) = hdr c.1 (q - HDR).
Proof.
  intros []; cbn [fst snd]; intros C Hq Hq'.
  - destruct (malloc_client fuel s live n p s' C H H0) as (_ & _ & Hfr).
    now apply (Hfr q m).
  - destruct Hq' as [m' Hq']. apply lookup_delete_Some in Hq' as [Hne _].
    destruct (free_client fuel s live p s' C H H0) as [_ Hfr].
    apply (Hfr q m Hq). congruence.
  - destruct (calloc_client fuel s live nmemb sz p s' C H H0 H1 H2) as (_ & _ & Hfr).
    now apply (Hfr q m).
  - destruct (realloc_client fuel s live p n q0 s' C H H0 H1) as [_ Hfr].
    now apply (Hfr q m).
  - reflexivity.
Qed.

Lemma initial_client_inv o : os_inv o -> client_inv (initial_state o) ∅.
Proof.
  intros O. exists ∅. split.
  - constructor.
    + reflexivity.
    + intros b Hb. set_solver.
    + intros b Hb. set_solver.
    + intros b Hb. set_solver.
    + intros b b' Hb. set_solver.
    + intros b Hb. set_solver.
    + intros c b Hc Hb. exfalso. apply Hb. rewrite <- Hc. unfold head, initial_state.
      cbn [free_lists]. apply nth_replicate_same.
    + intros t b [Ht _]. set_solver.
    + intros b t [Hb _]. set_solver.
    + intros b Hb. set_solver.
    + left. now repeat split.
    + exact O.
    + intros t Ht. now contradict Ht.
    + exists (fun _ => 0%nat). intros t Ht. now contradict Ht.
    + intros _ b Hb. set_solver.
  - constructor; intros p n Hp; rewrite lookup_empty in Hp; discriminate.
Qed.

Lemma client_reachable_inv o s live :
  os_inv o -> client_reachable o s live -> client_inv s live.
Proof.
  intros O R.
  change (client_inv (s, live).1 (s, live).2).
  apply (rtc_ind_r (R := cstep) (fun c => client_inv c.1 c.2) (initial_state o, ∅));
    [now apply initial_client_inv | | exact R].
  intros c c' _ Hs IH. now apply (cstep_inv c c').
Qed.

(** * Payload bytes through the engine *)

Lemma bytes_with_hdrs s h : bytes (with_hdrs s h) = bytes s.
Proof. reflexivity. Qed.
Lemma bytes_with_free_lists s l : bytes (with_free_lists s l) = bytes s.
Proof. reflexivity. Qed.
Lemma bytes_with_stats s st : bytes (with_stats s st) = bytes s.
Proof. reflexivity. Qed.
Lemma bytes_with_heap s lo hi : bytes (with_heap s lo hi) = bytes s.
Proof. reflexivity. Qed.
Lemma bytes_with_os s o : bytes (with_os s o) = bytes s.
Proof. reflexivity. Qed.
Lemma bytes_store_hdr s b h : bytes (store_hdr s b h) = bytes s.
Proof. reflexivity. Qed.
Lemma bytes_set_size s b v : bytes (set_size s b v) = bytes s.
Proof. reflexivity. Qed.
Lemma bytes_set_next s b v : bytes (set_next s b v) = bytes s.
Proof. reflexivity. Qed.
Lemma bytes_set_prev s b v : bytes (set_prev s b v) = bytes s.
Proof. reflexivity. Qed.
Lemma bytes_set_is_free s b v : bytes (set_is_free s b v) = bytes s.
Proof. reflexivity. Qed.
Lemma bytes_set_is_mmap s b v : bytes (set_is_mmap s b v) = bytes s.
Proof. reflexivity. Qed.
Lemma bytes_set_head s i v : bytes (set_head s i v) = bytes s.
Proof. reflexivity. Qed.
Lemma bytes_with_bytes s m : bytes (with_bytes s m) = m.
Proof. reflexivity. Qed.

Create Rewrite HintDb bytes_rw.
#[export] Hint Rewrite bytes_with_hdrs bytes_with_free_lists bytes_with_stats bytes_with_heap bytes_with_os bytes_store_hdr bytes_set_size bytes_set_next bytes_set_prev bytes_set_is_free bytes_set_is_mmap bytes_set_head bytes_with_bytes : bytes_rw.


Lemma bytes_remove_from_free_list s b : bytes (remove_from_free_list s b) = bytes s.
Proof.
  unfold remove_from_free_list. cbv zeta.
  destruct (truthy (prev (hdr s b)));
    match goal with |- context [if ?c then _ else _] => destruct c end;
    now autorewrite with bytes_rw.
Qed.

Lemma bytes_add_to_free_list s b : bytes (add_to_free_list s b) = bytes s.
Proof.
  unfold add_to_free_list. cbv zeta.
  match goal with |- context [if ?c then _ else _] => destruct c end;
    now autorewrite with bytes_rw.
Qed.

Lemma bytes_split_block s b n : bytes (split_block s b n) = bytes s.
Proof.
  unfold split_block. cbv zeta.
  match goal with |- context [if ?c then _ else _] => destruct c end;
    [| reflexivity].
  rewrite bytes_with_stats, bytes_add_to_free_list. now autorewrite with bytes_rw.
Qed.

Lemma bytes_expand_heap s t b s1 : expand_heap s t = (b, s1) -> bytes s1 = bytes s.
Proof.
  unfold expand_heap.
  destruct (sbrk (os s) 0) as [old_brk o1]. cbv zeta.
  destruct (old_brk =? SBRK_FAILED); [now intros [= _ <-] |].
  destruct (sbrk _ _) as [new_brk o2].
  destruct (new_brk =? SBRK_FAILED); [now intros [= _ <-] |].
  match goal with |- context [sbrk ?o 0] => destruct (sbrk o 0) as [cur o3] end.
  intros H. apply pair_equal_spec in H as [_ <-].
  autorewrite with bytes_rw.
  match goal with |- context [if ?c then _ else _] => destruct c end; reflexivity.
Qed.

Lemma bytes_coalesce fuel : forall s b b' s',
  coalesce fuel s b = Done (b', s') -> bytes s' = bytes s.
Proof.
  induction fuel as [| fuel IH]; intros s b b' s' H; cbn [coalesce] in H;
    [discriminate |].
  repeat match type of H with
         | (if ?c then _ else _) = _ => destruct c
         end;
    try (now apply Done_pair_inj in H as [_ <-]).
  apply IH in H. rewrite H. autorewrite with bytes_rw.
  apply bytes_remove_from_free_list.
Qed.

(** [mem_malloc] and [mem_free] never write a payload byte. *)
Lemma bytes_malloc fuel s n p s' :
  mem_malloc fuel s n = Done (p, s') -> bytes s' = bytes s.
Proof.
  unfold mem_malloc. intros H.
  destruct (n =? 0); [now apply Done_pair_inj in H as [_ <-] |].
  destruct (MMAP_THRESHOLD <=? _).
  - destruct (mmap _ _) as [ptr o1].
    destruct (ptr =? MAP_FAILED); now apply Done_pair_inj in H as [_ <-].
  - destruct (find_free_block _ _ _) as [found | |]; cbn [obind] in H; try discriminate.
    destruct (if found =? NULL then _ else _) as [block s1] eqn:E1.
    assert (Hs1 : bytes s1 = bytes s).
    { destruct (found =? NULL).
      - now apply bytes_expand_heap in E1.
      - now apply pair_equal_spec in E1 as [_ <-]. }
    destruct (block =? NULL); apply Done_pair_inj in H as [_ <-]; [exact Hs1 |].
    autorewrite with bytes_rw.
    now rewrite bytes_split_block, bytes_remove_from_free_list.
Qed.

Lemma bytes_free fuel s p s' : mem_free fuel s p = Done s' -> bytes s' = bytes s.
Proof.
  unfold mem_free. intros H.
  destruct (p =? NULL); [now apply Done_inj in H as <- |].
  destruct (truthy _); [now apply Done_inj in H as <- |].
  destruct (coalesce _ _ _) as [[b' s3] | |] eqn:Ec; cbn [obind] in H; try discriminate.
  apply Done_inj in H as <-. apply bytes_coalesce in Ec.
  now rewrite bytes_add_to_free_list, Ec.
Qed.

Lemma bytes_memset s p c n s' a :
  memset s p c n = Done s' -> a < p \/ p + n <= a -> bytes s' a = bytes s a.
Proof.
  unfold memset. destruct (accessible _ _ _); [| discriminate].
  intros H Ha. apply Done_inj in H as <-. cbn [bytes with_bytes].
  destruct (N.leb_spec p a); destruct (N.ltb_spec a (p + n)); cbn; try reflexivity. lia.
Qed.

Lemma bytes_memcpy s d p n s' a :
  memcpy s d p n = Done s' ->
  (a < d \/ d + n <= a -> bytes s' a = bytes s a) /\
  (d <= a -> a < d + n -> bytes s' a = bytes s (p + (a - d))).
Proof.
  unfold memcpy. destruct (_ && _); [| discriminate].
  intros H. apply Done_inj in H as <-. cbn [bytes with_bytes].
  split; intros; destruct (N.leb_spec d a); destruct (N.ltb_spec a (d + n)); cbn;
    try reflexivity; lia.
Qed.

(** * Blocks held by a client *)

Lemma tile_below_brk s T b :
  heap_inv s T -> b ∈ T ->
  brk_base (os s) <= b /\ b + size (hdr s b) <= brk (os s).
Proof.
  intros I Hb. pose proof (hi_in _ _ I b Hb).
  destruct (hi_heap _ _ I) as [(_ & _ & E) | (_ & He & Hbb & _)];
    [rewrite E in Hb; set_solver | lia].
Qed.

Lemma block_extents_disjoint s T live p n q m :
  heap_inv s T -> live_inv s T live ->
  live !! p = Some n -> live !! q = Some m -> p <> q ->
  p - HDR + size (hdr s (p - HDR)) <= q - HDR \/
  q - HDR + size (hdr s (q - HDR)) <= p - HDR.
Proof.
  intros I L Hp Hq Hne.
  assert (Hb : p - HDR <> q - HDR).
  { apply (live_blocks_distinct s T live q p m n); auto. }
  pose proof (hi_os _ _ I) as O.
  destruct (li_kind _ _ _ L p n Hp) as [[Tp _] | [_ Mp]];
    destruct (li_kind _ _ _ L q m Hq) as [[Tq _] | [_ Mq]].
  - now apply (hi_disj _ _ I).
  - left. pose proof (tile_below_brk _ _ _ I Tp). pose proof (oi_maps _ O _ _ Mq).
    pose proof (oi_brk_le _ O). lia.
  - right. pose proof (tile_below_brk _ _ _ I Tq). pose proof (oi_maps _ O _ _ Mp).
    pose proof (oi_brk_le _ O). lia.
  - pose proof (oi_disj _ O _ _ _ _ Mp Mq Hb).
    pose proof (page_round_ge (size (hdr s (p - HDR)))).
    pose proof (page_round_ge (size (hdr s (q - HDR)))). lia.
Qed.

Lemma client_disjoint s live p n q m :
  client_inv s live -> live !! p = Some n -> live !! q = Some m -> p <> q ->
  p + n <= q - HDR \/ q + m <= p - HDR.
Proof.
  intros (T & I & L) Hp Hq Hne.
  destruct (li_room _ _ _ L _ _ Hp) as [Gp Rp].
  destruct (li_room _ _ _ L _ _ Hq) as [Gq Rq].
  destruct (block_extents_disjoint s T live p n q m I L Hp Hq Hne); [left | right]; lia.
Qed.

Lemma client_accessible s live p n :
  client_inv s live -> live !! p = Some n -> accessible (os s) p n = true.
Proof.
  intros (T & I & L) Hp.
  destruct (li_room _ _ _ L _ _ Hp) as [Gp Rp].
  unfold accessible.
  destruct (li_kind _ _ _ L p n Hp) as [[Tp _] | [_ Mp]].
  - pose proof (tile_below_brk _ _ _ I Tp) as [H1 H2].
    apply orb_true_iff. left. apply andb_true_iff. split; apply N.leb_le; lia.
  - apply orb_true_iff. right. apply existsb_exists.
    exists (p - HDR, size (hdr s (p - HDR))). split; [now apply list_elem_of_In |].
    pose proof (page_round_ge (size (hdr s (p - HDR)))).
    cbn [fst snd]. apply andb_true_iff. split; apply N.leb_le; lia.
Qed.

Lemma fresh_os_inv : os_inv fresh_os.
Proof.
  constructor; cbn; try lia; try discriminate.
  - intros a len H. now apply elem_of_nil in H.
  - intros a len a' len' H. now apply elem_of_nil in H.
  - intros _ a len H. now apply elem_of_nil in H.
Qed.

Lemma two_blocks_reachable : client_reachable fresh_os two_blocks_state two_blocks_live.
Proof.
  unfold client_reachable.
  eapply rtc_l.
  { apply cstep_call. apply (ccall_malloc 1 fresh ∅ 100 4128 after_malloc_100).
    - unfold request_ok, HDR, ALIGNMENT, two64. lia.
    - vm_compute. reflexivity. }
  eapply rtc_l; [| apply rtc_refl].
  change two_blocks_live with (acquire (acquire ∅ 4128 100) 4272 200).
  apply cstep_call. apply (ccall_malloc 1 after_malloc_100 _ 200 4272 two_blocks_state).
  - unfold request_ok, HDR, ALIGNMENT, two64. lia.
  - vm_compute. reflexivity.
Qed.

Lemma written_reachable : client_reachable fresh_os written_state two_blocks_live.
Proof.
  eapply rtc_r; [exact two_blocks_reachable |].
  apply (cstep_write two_blocks_state two_blocks_live 4128 100 0 100 7).
  - reflexivity.
  - lia.
  - vm_compute. reflexivity.
Qed.

(** X1. In every state reached from the initial state on a system that
    satisfies [os_inv] by a well-behaved client (one that releases and
    resizes only addresses it holds, asks only for sizes [n] with [n + 47 <
    2^64], and stores only into blocks it holds), two different addresses it
    holds denote disjoint memory: the payload of one ends before the header
    of the other begins. *)
Theorem held_blocks_disjoint o s live p n q m :
  os_inv o -> client_reachable o s live ->
  live !! p = Some n -> live !! q = Some m -> p <> q ->
  p + n <= q - HDR \/ q + m <= p - HDR.
Proof.
  intros O R Hp Hq Hne.
  pose proof (client_reachable_inv o s live O R) as C.
  now apply (client_disjoint s live p n q m).
Qed.

Lemma held_blocks_disjoint_witness :
  4128 + 100 <= 4272 - HDR \/ 4272 + 200 <= 4128 - HDR.
Proof.
  apply (held_blocks_disjoint fresh_os two_blocks_state two_blocks_live 4128 100 4272 200).
  - exact fresh_os_inv.
  - exact two_blocks_reachable.
  - reflexivity.
  - reflexivity.
  - discriminate.
Defined.

(** X2. In every state reached from the initial state on a system that
    satisfies [os_inv] by a well-behaved client (one that releases and
    resizes only addresses it holds, asks only for sizes [n] with [n + 47 <
    2^64], and stores only into blocks it holds), every byte of a block it
    holds is memory of the process: the payload lies in the data segment
    below the break or inside a live mapping, so that filling it with
    [memset] completes. *)
Theorem held_memory_accessible o s live p n c :
  os_inv o -> client_reachable o s live -> live !! p = Some n ->
  accessible (os s) p n = true /\ exists s', memset s p c n = Done s'.
Proof.
  intros O R Hp.
  pose proof (client_reachable_inv o s live O R) as C.
  pose proof (client_accessible s live p n C Hp) as A.
  split; [exact A |]. unfold memset. rewrite A. eauto.
Qed.

Lemma held_memory_accessible_witness :
  accessible (os two_blocks_state) 4272 200 = true /\
  exists s', memset two_blocks_state 4272 0 200 = Done s'.
Proof.
  apply (held_memory_accessible fresh_os two_blocks_state two_blocks_live 4272 200 0).
  - exact fresh_os_inv.
  - exact two_blocks_reachable.
  - reflexivity.
Defined.

(** * What the free lists hold *)

Lemma walk_list_tiles fuel : forall s T cur c b,
  heap_inv s T ->
  cur = NULL \/ (free_tile s T cur /\ get_size_class (size (hdr s cur)) = c) ->
  In b (walk_list fuel s cur) ->
  free_tile s T b /\ get_size_class (size (hdr s b)) = c.
Proof.
  induction fuel as [| fuel IH]; intros s T cur c b I Hc Hin; [contradiction |].
  cbn [walk_list] in Hin.
  destruct (N.eqb_spec cur NULL) as [-> | Hn]; [contradiction |].
  destruct Hc as [? | [Fc Cc]]; [contradiction |].
  destruct Hin as [<- | Hin]; [now split |].
  apply (IH s T (next (hdr s cur)) c b I); [| exact Hin].
  destruct (N.eq_dec (next (hdr s cur)) NULL) as [E0 | E0]; [now left | right].
  destruct (hi_next _ _ I cur _ Fc eq_refl E0) as (Fx & _ & Cx).
  split; [exact Fx | congruence].
Qed.

(** X3. In every state reached from the initial state on a system that
    satisfies [os_inv] by a well-behaved client (one that releases and
    resizes only addresses it holds, asks only for sizes [n] with [n + 47 <
    2^64], and stores only into blocks it holds), each member of the free
    list of class [c] is a free, unmapped block of the heap region whose
    size belongs to class [c], and it shares no byte with a block the client
    holds. *)
Theorem free_list_members_are_free o s live fuel c b :
  os_inv o -> client_reachable o s live ->
  In b (free_list_members fuel s c) ->
  free_block s b = true /\
  get_size_class (size (hdr s b)) = c /\
  heap_start s <= b /\ b + size (hdr s b) <= heap_end s /\
  forall p n, live !! p = Some n ->
    p + n <= b \/ b + size (hdr s b) <= p - HDR.
Proof.
  intros O R Hin.
  destruct (client_reachable_inv o s live O R) as (T & I & L).
  assert (Hb : free_tile s T b /\ get_size_class (size (hdr s b)) = c).
  { apply (walk_list_tiles fuel s T (head s c) c b I); [| exact Hin].
    destruct (N.eq_dec (head s c) NULL) as [E0 | E0]; [now left | right].
    destruct (hi_head _ _ I c _ eq_refl E0) as (Fx & _ & Cx). now split. }
  destruct Hb as [[Tb Fb] Cb].
  split.
  { unfold free_block. apply andb_true_iff. split; [now apply truthy_true |].
    apply negb_true_iff, truthy_false. now apply (hi_nomap _ _ I). }
  split; [exact Cb |].
  pose proof (hi_in _ _ I b Tb) as [H1 H2].
  split; [exact H1 |]. split; [exact H2 |].
  intros p n Hp.
  destruct (li_room _ _ _ L _ _ Hp) as [Gp Rp].
  destruct (li_kind _ _ _ L p n Hp) as [[Tp Up] | [_ Mp]].
  - assert (Hne : p - HDR <> b) by (intros E; rewrite E in Up; contradiction).
    destruct (hi_disj _ _ I (p - HDR) b Tp Tb Hne); [left | right]; lia.
  - right. pose proof (tile_below_brk _ _ _ I Tb).
    pose proof (oi_maps _ (hi_os _ _ I) _ _ Mp).
    pose proof (oi_brk_le _ (hi_os _ _ I)). lia.
Qed.

Lemma free_list_members_are_free_witness :
  free_block two_blocks_state 4480 = true /\
  get_size_class (size (hdr two_blocks_state 4480)) = 9%nat /\
  heap_start two_blocks_state <= 4480 /\
  4480 + size (hdr two_blocks_state 4480) <= heap_end two_blocks_state /\
  forall p n, two_blocks_live !! p = Some n ->
    p + n <= 4480 \/ 4480 + size (hdr two_blocks_state 4480) <= p - HDR.
Proof.
  apply (free_list_members_are_free fresh_os two_blocks_state two_blocks_live 1 9 4480).
  - exact fresh_os_inv.
  - exact two_blocks_reachable.
  - vm_compute. left. reflexivity.
Defined.

(** * What a call does to the client's blocks *)

Lemma cstep_reachable o s live s' live' :
  client_reachable o s live -> cstep (s, live) (s', live') ->
  client_reachable o s' live'.
Proof. intros R H. eapply rtc_r; eauto. Qed.

(** X4. In a state reached from the initial state on a system that satisfies
    [os_inv] by a well-behaved client (one that releases and resizes only
    addresses it holds, asks only for sizes [n] with [n + 47 < 2^64], and
    stores only into blocks it holds), an address returned by [mem_malloc]
    for such a size is new to the client, its block has room for the
    requested bytes, these bytes are memory of the process, and they share
    nothing with the payload or the header of any block the client holds. *)
Theorem malloc_returns_unused_memory o s live fuel n p s' :
  os_inv o -> client_reachable o s live -> request_ok n ->
  mem_malloc fuel s n = Done (p, s') -> p <> NULL ->
  live !! p = None /\ HDR <= p /\
  n + HDR <= size (hdr s' (p - HDR)) /\
  accessible (os s') p n = true /\
  forall q m, live !! q = Some m -> p + n <= q - HDR \/ q + m <= p - HDR.
Proof.
  intros O R Hn H Hp.
  pose proof (client_reachable_inv o s live O R) as C.
  destruct (malloc_client fuel s live n p s' C Hn H) as (C' & Hfresh & _).
  unfold acquire in C'. rewrite decide_False in C' by assumption.
  split; [now apply Hfresh |].
  assert (Hl : <[p := n]> live !! p = Some n) by apply lookup_insert_eq.
  destruct C' as (T' & I' & L').
  destruct (li_room _ _ _ L' _ _ Hl) as [Gp Rp].
  split; [exact Gp |]. split; [exact Rp |].
  split; [apply (client_accessible s' (<[p := n]> live)); [now exists T' | exact Hl] |].
  intros q m Hq.
  assert (Hqp : p <> q) by (intros ->; rewrite (Hfresh Hp) in Hq; discriminate).
  apply (client_disjoint s' (<[p := n]> live)); try assumption; [now exists T' |].
  now rewrite lookup_insert_ne.
Qed.

Lemma malloc_returns_unused_memory_witness :
  two_blocks_live !! 4512 = None /\ HDR <= 4512 /\
  50 + HDR <= size (hdr (state_of (mem_malloc 1 two_blocks_state 50) fresh) (4512 - HDR)) /\
  accessible (os (state_of (mem_malloc 1 two_blocks_state 50) fresh)) 4512 50 = true /\
  forall q m, two_blocks_live !! q = Some m -> 4512 + 50 <= q - HDR \/ q + m <= 4512 - HDR.
Proof.
  apply (malloc_returns_unused_memory fresh_os two_blocks_state two_blocks_live 1 50 4512).
  - exact fresh_os_inv.
  - exact two_blocks_reachable.
  - unfold request_ok, HDR, ALIGNMENT, two64. lia.
  - vm_compute. reflexivity.
  - discriminate.
Defined.

Lemma calloc_bytes fuel s live nmemb sz p s' q m i :
  client_inv s live -> nmemb < two64 -> sz < two64 ->
  two64 <= nmemb * sz \/ request_ok (nmemb * sz) ->
  mem_calloc fuel s nmemb sz = Done (p, s') ->
  live !! q = Some m -> i < m -> bytes s' (q + i) = bytes s (q + i).
Proof.
  intros C Hn Hs Hr H Hq Hi.
  assert (Null : Done (NULL, s) = Done (p, s') -> bytes s' (q + i) = bytes s (q + i)).
  { intros E. now apply Done_pair_inj in E as [_ <-]. }
  destruct Hr as [Ho | Hr]; [rewrite calloc_overflow in H by assumption; now apply Null |].
  destruct (N.eq_dec nmemb 0) as [-> | Hn0]; [now apply Null |].
  destruct (N.eq_dec sz 0) as [-> | Hs0].
  { unfold mem_calloc in H. rewrite N.eqb_refl, orb_true_r in H. now apply Null. }
  clear Null.
  rewrite calloc_guards_pass in H; try assumption;
    [| unfold request_ok, two64 in *; lia].
  destruct (mem_malloc fuel s (nmemb * sz)) as [[ptr s1] | |] eqn:Em; cbn [obind] in H;
    try discriminate.
  destruct (malloc_client _ _ _ _ _ _ C Hr Em) as (C1 & Hfresh & _).
  pose proof (bytes_malloc _ _ _ _ _ Em) as B1.
  destruct (truthy ptr) eqn:Et.
  - apply truthy_true in Et.
    destruct (memset s1 ptr 0 (nmemb * sz)) as [s2 | |] eqn:Es; cbn [obind] in H;
      try discriminate.
    apply Done_pair_inj in H as [<- <-].
    unfold acquire in C1. rewrite decide_False in C1 by assumption.
    assert (Hqp : ptr <> q) by (intros ->; rewrite (Hfresh Et) in Hq; discriminate).
    assert (D : ptr + nmemb * sz <= q - HDR \/ q + m <= ptr - HDR).
    { apply (client_disjoint s1 (<[ptr := nmemb * sz]> live)); try assumption.
      - apply lookup_insert_eq.
      - now rewrite lookup_insert_ne. }
    destruct C1 as (T1 & I1 & L1).
    destruct (li_room _ _ _ L1 ptr _ (lookup_insert_eq _ _ _)) as [G1 _].
    destruct C as (T & I & L). destruct (li_room _ _ _ L _ _ Hq) as [G2 _].
    rewrite (bytes_memset _ _ _ _ _ _ Es) by lia. now rewrite B1.
  - apply Done_pair_inj in H as [_ <-]. now rewrite B1.
Qed.

Lemma realloc_bytes fuel s live p n q s' x m i :
  client_inv s live -> p = NULL \/ is_Some (live !! p) -> request_ok n ->
  mem_realloc fuel s p n = Done (q, s') ->
  live !! x = Some m -> i < m ->
  bytes s' (x + i) = bytes s (x + i).
Proof.
  intros C Hp Hn H Hx Hi. unfold mem_realloc in H.
  destruct (N.eqb_spec p NULL) as [-> | Hp0]; [now rewrite (bytes_malloc _ _ _ _ _ H) |].
  destruct Hp as [? | [k Hp]]; [contradiction |].
  destruct (N.eqb_spec n 0) as [-> | Hn0].
  { destruct (mem_free fuel s p) as [s1 | |] eqn:Ef; cbn [obind] in H; try discriminate.
    apply Done_pair_inj in H as [_ <-]. now rewrite (bytes_free _ _ _ _ Ef). }
  destruct (N.leb_spec n (wsub (size (hdr s (p - HDR))) HDR)) as [Hfit | Hgrow];
    [now apply Done_pair_inj in H as [_ <-] |].
  destruct (mem_malloc fuel s n) as [[np s1] | |] eqn:Em; cbn [obind] in H; try discriminate.
  destruct (malloc_client _ _ _ _ _ _ C Hn Em) as (C1 & Hfresh & Hfr).
  pose proof (bytes_malloc _ _ _ _ _ Em) as B1.
  destruct (N.eqb_spec np NULL) as [-> | Hnp];
    [apply Done_pair_inj in H as [_ <-]; now rewrite B1 |].
  destruct (memcpy s1 np p _) as [s2 | |] eqn:Ec; cbn [obind] in H; try discriminate.
  destruct (mem_free fuel s2 p) as [s3 | |] eqn:Ef; cbn [obind] in H; try discriminate.
  apply Done_pair_inj in H as [<- <-].
  rewrite (bytes_free _ _ _ _ Ef).
  unfold acquire in C1. rewrite decide_False in C1 by assumption.
  assert (Hne : np <> x) by (intros ->; rewrite (Hfresh Hnp) in Hx; discriminate).
  assert (D : np + n <= x - HDR \/ x + m <= np - HDR).
  { apply (client_disjoint s1 (<[np := n]> live)); try assumption.
    - apply lookup_insert_eq.
    - now rewrite lookup_insert_ne. }
  destruct C1 as (T1 & I1 & L1).
  destruct (li_room _ _ _ L1 np _ (lookup_insert_eq _ _ _)) as [G1 _].
  destruct C as (T & I & L). destruct (li_room _ _ _ L _ _ Hx) as [G2 _].
  pose proof (wsub_lt (size (hdr s1 (p - HDR))) HDR).
  destruct (bytes_memcpy _ _ _ _ _ (x + i) Ec) as [Bo _].
  rewrite Bo, B1; [reflexivity | lia].
Qed.

Lemma ccall_bytes c c' q m i :
  ccall c c' -> client_inv c.1 c.2 ->
  c.2 !! q = Some m -> i < m ->
  bytes c'.1 (q + i) = bytes c.1 (q + i).
Proof.
  intros []; cbn [fst snd]; intros C Hq Hi.
  - now rewrite (bytes_malloc _ _ _ _ _ H0).
  - now rewrite (bytes_free _ _ _ _ H0).
  - now apply (calloc_bytes fuel s live nmemb sz p s' q m i).
  - now apply (realloc_bytes fuel s live p n q0 s' q m i).
  - reflexivity.
Qed.

(** X5. In a state reached from the initial state on a system that satisfies
    [os_inv] by a well-behaved client (one that releases and resizes only
    addresses it holds, asks only for sizes [n] with [n + 47 < 2^64], and
    stores only into blocks it holds), no call of the public interface made
    by the client changes a block the client goes on holding: its header and
    every payload byte the client may use, whatever the client stored there,
    are as before the call. *)
Theorem held_blocks_untouched o s live s' live' q m i :
  os_inv o -> client_reachable o s live ->
  ccall (s, live) (s', live') ->
  live !! q = Some m -> is_Some (live' !! q) -> i < m ->
  hdr s' (q - HDR) = hdr s (q - HDR) /\ bytes s' (q + i) = bytes s (q + i).
Proof.
  intros O R Hs Hq Hq' Hi.
  pose proof (client_reachable_inv o s live O R) as C.
  split.
  - exact (ccall_frame (s, live) (s', live') q m Hs C Hq Hq').
  - exact (ccall_bytes (s, live) (s', live') q m i Hs C Hq Hi).
Qed.

Lemma held_blocks_untouched_witness :
  bytes written_state (4128 + 7) = 7 /\
  hdr (state_of (mem_calloc 1 written_state 5 10) fresh) (4128 - HDR) =
    hdr written_state (4128 - HDR) /\
  bytes (state_of (mem_calloc 1 written_state 5 10) fresh) (4128 + 7) =
    bytes written_state (4128 + 7).
Proof.
  split; [reflexivity |].
  apply (held_blocks_untouched fresh_os written_state two_blocks_live
           (state_of (mem_calloc 1 written_state 5 10) fresh)
           (acquire two_blocks_live 4512 (5 * 10)) 4128 100 7).
  - exact fresh_os_inv.
  - exact written_reachable.
  - apply (ccall_calloc 1 written_state two_blocks_live 5 10 4512).
    + reflexivity.
    + reflexivity.
    + right. unfold request_ok, HDR, ALIGNMENT, two64. lia.
    + vm_compute. reflexivity.
  - reflexivity.
  - exists 100. reflexivity.
  - lia.
Defined.

(** * Resizing *)




(** X7. The shrink law for held blocks: in a state reached from the initial
    state on a system that satisfies [os_inv] by a well-behaved client (one
    that releases and resizes only addresses it holds, asks only for sizes
    [n] with [n + 47 < 2^64], and stores only into blocks it holds),
    resizing a held block to a size between 1 and the size it is held with
    returns the same address, with the allocator state unchanged, whatever
    the fuel. *)
Theorem realloc_shrink_held o s live fuel p m n :
  os_inv o -> client_reachable o s live -> live !! p = Some m ->
  0 < n -> n <= m ->
  mem_realloc fuel s p n = Done (p, s).
Proof.
  intros O R Hp Hn Hnm.
  destruct (client_reachable_inv o s live O R) as (T & I & L).
  destruct (li_room _ _ _ L _ _ Hp) as [Gp Rp].
  pose proof (live_size_lt _ _ _ _ _ I L Hp) as Hlt.
  unfold mem_realloc.
  assert ((p =? NULL) = false) as -> by (apply N.eqb_neq; unfold NULL, HDR in *; lia).
  assert ((n =? 0) = false) as -> by (apply N.eqb_neq; lia).
  assert ((n <=? wsub (size (hdr s (p - HDR))) HDR) = true) as ->; [| reflexivity].
  apply N.leb_le. unfold wsub, wrap, two64, HDR in *. lia.
Qed.

Lemma realloc_shrink_held_witness :
  mem_realloc 0 two_blocks_state 4272 25 = Done (4272, two_blocks_state).
Proof.
  apply (realloc_shrink_held fresh_os two_blocks_state two_blocks_live 0 4272 200 25).
  - exact fresh_os_inv.
  - exact two_blocks_reachable.
  - reflexivity.
  - lia.
  - lia.
Defined.

(** * Failure *)

(** X8. A call of [mem_malloc] or [mem_calloc] that returns null leaves the
    whole allocator state as it was, system state included, provided the
    system state is sane (the break is not null and limits fit in 64 bits). *)
Theorem failed_allocation_changes_nothing fuel s :
  os_ok (os s) ->
  (forall n s', mem_malloc fuel s n = Done (NULL, s') -> s' = s) /\
  (forall nmemb sz s', mem_calloc fuel s nmemb sz = Done (NULL, s') -> s' = s).
Proof.
  intros Hok. split.
  - intros n s' H. now apply (malloc_null_unchanged fuel s n).
  - intros nmemb sz s' H. unfold mem_calloc in H.
    destruct ((nmemb =? 0) || (sz =? 0)); [now apply Done_pair_inj in H as [_ <-] |].
    destruct (negb _); [now apply Done_pair_inj in H as [_ <-] |].
    destruct (mem_malloc fuel s (wmul nmemb sz)) as [[ptr s1] | |] eqn:Em;
      cbn [obind] in H; try discriminate.
    destruct (truthy ptr) eqn:Et.
    + destruct (memset _ _ _ _) as [s2 | |]; cbn [obind] in H; try discriminate.
      apply Done_pair_inj in H as [-> _]. discriminate.
    + apply Done_pair_inj in H as [-> <-]. now apply (malloc_null_unchanged fuel s (wmul nmemb sz)).
Qed.

Lemma failed_allocation_changes_nothing_witness :
  (forall n s', mem_malloc 8 tight_after_malloc n = Done (NULL, s') ->
     s' = tight_after_malloc) /\
  (forall nmemb sz s', mem_calloc 8 tight_after_malloc nmemb sz = Done (NULL, s') ->
     s' = tight_after_malloc).
Proof.
  apply (failed_allocation_changes_nothing 8 tight_after_malloc).
  vm_compute. repeat split; discriminate.
Defined.

(** * Reset *)

Lemma scan_classes_no_fuel s sz n i : n <> O -> scan_classes 0 s i n sz = OutOfFuel.
Proof. destruct n; [contradiction | reflexivity]. Qed.

(** X9. [mem_reset] abandons the free blocks: after it every free list is
    empty although the headers are as before, and the next allocation on the
    heap path that returns an address, whatever free memory there was, takes
    its block at the program break. *)
Theorem reset_abandons_free_blocks s fuel n p s' :
  total_size n < MMAP_THRESHOLD ->
  mem_malloc fuel (mem_reset s) n = Done (p, s') -> p <> NULL ->
  p = brk (os s) + HDR /\
  (forall fuel' c, free_list_members fuel' (mem_reset s) c = []) /\
  (forall a, hdr (mem_reset s) a = hdr s a).
Proof.
  intros Hsmall H Hp.
  split; [| split; [| reflexivity]].
  - unfold mem_malloc in H. fold (total_size n) in H.
    destruct (n =? 0); [apply Done_pair_inj in H as [<- _]; contradiction |].
    apply N.leb_gt in Hsmall. rewrite Hsmall in H.
    destruct fuel as [| fuel].
    { unfold find_free_block in H. rewrite scan_classes_no_fuel in H; [discriminate |].
      pose proof (get_size_class_le (total_size n)). unfold NUM_SIZE_CLASSES. lia. }
    rewrite find_free_block_none in H by (intros j _; apply head_reset).
    cbn [obind] in H. change (NULL =? NULL) with true in H. cbv iota in H.
    destruct (expand_heap (mem_reset s) (total_size n)) as [b s1] eqn:Ee.
    destruct (expand_heap_os _ _ _ _ Ee) as (_ & _ & _ & Hb).
    destruct (N.eqb_spec b NULL) as [-> | Hb0];
      [apply Done_pair_inj in H as [<- _]; contradiction |].
    apply Done_pair_inj in H as [<- _].
    destruct Hb as [? | ->]; [contradiction | reflexivity].
  - intros fuel' c. unfold free_list_members. rewrite head_reset. apply walk_list_null.
Qed.

Lemma reset_abandons_free_blocks_witness :
  4096 + 65536 + HDR = brk (os backward_neighbour_state) + HDR /\
  (forall fuel' c, free_list_members fuel' (mem_reset backward_neighbour_state) c = []) /\
  (forall a, hdr (mem_reset backward_neighbour_state) a = hdr backward_neighbour_state a).
Proof.
  apply (reset_abandons_free_blocks backward_neighbour_state 1 100 (4096 + 65536 + HDR)
           (state_of (mem_malloc 1 (mem_reset backward_neighbour_state) 100) fresh)).
  - vm_compute. reflexivity.
  - vm_compute. reflexivity.
  - discriminate.
Defined.

(** * Release followed by allocation *)

(** X10. In a state reached from the initial state on a system that
    satisfies [os_inv] by a well-behaved client (one that releases and
    resizes only addresses it holds, asks only for sizes [n] with [n + 47 <
    2^64], and stores only into blocks it holds), a heap block the client
    releases is free afterwards, at the head of the free list of its size
    class, and is handed out again, at the same address, by the next request
    whose rounded size fits the block and falls in the same class. *)
Theorem released_block_is_reused o s live fuel p m s' :
  os_inv o -> client_reachable o s live -> live !! p = Some m ->
  is_mmap (hdr s (p - HDR)) = 0 ->
  mem_free fuel s p = Done s' ->
  free_block s' (p - HDR) = true /\
  head s' (get_size_class (size (hdr s' (p - HDR)))) = p - HDR /\
  forall fuel' n,
    n <> 0 -> total_size n < MMAP_THRESHOLD ->
    total_size n <= size (hdr s' (p - HDR)) ->
    get_size_class (total_size n) = get_size_class (size (hdr s' (p - HDR))) ->
    exists s'', mem_malloc (S fuel') s' n = Done (p, s'').
Proof.
  intros O R Hp Hm H.
  destruct (client_reachable_inv o s live O R) as (T & I & L).
  destruct (li_room _ _ _ L _ _ Hp) as [Gp Rp].
  destruct (li_kind _ _ _ L p m Hp) as [[Tp Up] | [Mp _]]; [| contradiction].
  destruct (free_heap_inv fuel s T p s' I Gp Tp Up H) as (T' & I' & _ & F' & Hh & _ & _ & _).
  set (b := p - HDR) in *.
  assert (Hb0 : b <> NULL) by (apply (tile_nonnull s' T'); [exact I' | apply F']).
  split.
  { unfold free_block. apply andb_true_iff. split; [apply truthy_true, F' |].
    apply negb_true_iff, truthy_false. apply (hi_nomap _ _ I'). apply F'. }
  split; [exact Hh |].
  intros fuel' n Hn Hsmall Hfit Hc.
  unfold mem_malloc. fold (total_size n).
  apply N.eqb_neq in Hn as ->. apply N.leb_gt in Hsmall as ->.
  assert (Ef : find_free_block (S fuel') s' (total_size n) = Done b).
  { unfold find_free_block. rewrite Hc.
    pose proof (get_size_class_le (size (hdr s' b))) as Hle.
    replace (NUM_SIZE_CLASSES - get_size_class (size (hdr s' b)))%nat
      with (S (9 - get_size_class (size (hdr s' b)))) by (unfold NUM_SIZE_CLASSES; lia).
    cbn [scan_classes]. rewrite Hh.
    rewrite scan_list_head; [| exact Hb0 | apply truthy_true, F' | exact Hfit].
    cbn [obind]. now apply N.eqb_neq in Hb0 as ->. }
  rewrite Ef. cbn [obind].
  apply N.eqb_neq in Hb0 as E0. rewrite E0. cbv beta iota. rewrite E0.
  replace (b + HDR) with p by (subst b; lia).
  eexists. reflexivity.
Qed.

Lemma released_block_is_reused_witness :
  let s' := state_after (mem_free 1 two_blocks_state 4128) fresh in
  free_block s' (4128 - HDR) = true /\
  head s' (get_size_class (size (hdr s' (4128 - HDR)))) = 4128 - HDR /\
  forall fuel' n,
    n <> 0 -> total_size n < MMAP_THRESHOLD ->
    total_size n <= size (hdr s' (4128 - HDR)) ->
    get_size_class (total_size n) = get_size_class (size (hdr s' (4128 - HDR))) ->
    exists s'', mem_malloc (S fuel') s' n = Done (4128, s'').
Proof.
  apply (released_block_is_reused fresh_os two_blocks_state two_blocks_live 1 4128 100).
  - exact fresh_os_inv.
  - exact two_blocks_reachable.
  - reflexivity.
  - vm_compute. reflexivity.
  - vm_compute. reflexivity.
Defined.

(** * Rounding and size classes *)

(** X11. [align_size] rounds a size up to the next multiple of 16 when the
    addition of 15 does not wrap around, and returns 0 when it does; rounding
    twice is rounding once. *)
Theorem align_size_rounds_up x :
  x < two64 ->
  (x + 15 < two64 ->
     align_size x mod ALIGNMENT = 0 /\ x <= align_size x /\ align_size x < x + ALIGNMENT /\
     align_size (align_size x) = align_size x) /\
  (two64 <= x + 15 -> align_size x = 0).
Proof.
  intros Hx. split.
  - intros Hs.
    assert (E : align_size x = 16 * ((x + 15) / 16)).
    { rewrite align_size_spec. now rewrite N.mod_small. }
    assert (E' : align_size (align_size x) = align_size x).
    { rewrite (align_size_spec (align_size x)), E.
      rewrite N.mod_small by (unfold two64 in *; lia). lia. }
    rewrite E'. rewrite E. unfold ALIGNMENT. repeat split; lia.
  - intros Hw. rewrite align_size_spec. unfold two64 in *. lia.
Qed.

Lemma align_size_rounds_up_witness :
  (100 + 15 < two64 ->
     align_size 100 mod ALIGNMENT = 0 /\ 100 <= align_size 100 /\
     align_size 100 < 100 + ALIGNMENT /\
     align_size (align_size 100) = align_size 100) /\
  (two64 <= 100 + 15 -> align_size 100 = 0).
Proof. apply (align_size_rounds_up 100). reflexivity. Defined.

(** X12. [get_size_class] always yields an index of [free_lists], grows with
    the size, and sorts sizes by powers of two: class 0 up to 32 bytes, class
    [c] for sizes in (2^(c+4), 2^(c+5)] up to 8192 bytes, class 9 above. *)
Theorem get_size_class_spec sz :
  (get_size_class sz < NUM_SIZE_CLASSES)%nat /\
  (forall sz', sz <= sz' -> (get_size_class sz <= get_size_class sz')%nat) /\
  (get_size_class sz = 0%nat <-> sz <= 32) /\
  (get_size_class sz = 9%nat <-> 8192 < sz) /\
  (32 < sz -> sz <= 8192 ->
     2 ^ (N.of_nat (get_size_class sz) + 4) < sz /\
     sz <= 2 ^ (N.of_nat (get_size_class sz) + 5)).
Proof.
  split; [pose proof (get_size_class_le sz); unfold NUM_SIZE_CLASSES; lia |].
  split.
  { intros sz' Hle. unfold get_size_class.
    repeat match goal with
           | |- context [?a <=? ?c] => destruct (N.leb_spec a c)
           end; lia. }
  unfold get_size_class.
  repeat match goal with
         | |- context [?a <=? ?c] => destruct (N.leb_spec a c)
         end;
    (split; [split; intros; (lia || discriminate) |]);
    (split; [split; intros; (lia || discriminate) |]);
    intros; cbn; lia.
Qed.

(** * The program break *)

Lemma sbrk_moves o incr r o' :
  incr < two63 -> sbrk o incr = (r, o') -> brk o' = brk o \/ brk o' = brk o + incr.
Proof.
  unfold sbrk. intros Hi. apply N.ltb_lt in Hi as ->.
  destruct (_ <=? _); intros H; apply pair_equal_spec in H as [_ <-]; cbn; auto.
Qed.

(** The rounded size of a request is a multiple of 16 already, so rounding it
    again in [expand_heap] does not change it. *)
Lemma align_total_size n : align_size (total_size n) = total_size n.
Proof.
  unfold total_size. rewrite (align_size_spec (align_size (wadd n HDR))).
  rewrite (align_size_spec (wadd n HDR)).
  unfold two64. lia.
Qed.

Lemma expand_heap_brk s n b s1 :
  total_size n < MMAP_THRESHOLD ->
  expand_heap s (total_size n) = (b, s1) -> brk_raised (os s) (os s1).
Proof.
  intros Ht. unfold expand_heap.
  set (alloc_size := if total_size n <? BRK_INCREMENT then _ else _).
  assert (Ha : BRK_INCREMENT <= alloc_size /\ alloc_size < MMAP_THRESHOLD).
  { subst alloc_size. destruct (N.ltb_spec (total_size n) BRK_INCREMENT).
    - unfold BRK_INCREMENT, MMAP_THRESHOLD. lia.
    - rewrite align_total_size. lia. }
  destruct (sbrk (os s) 0) as [old_brk o1] eqn:E0.
  pose proof (sbrk_zero _ _ _ E0) as ->. clear E0.
  cbv zeta. rewrite with_os_same.
  destruct (old_brk =? SBRK_FAILED).
  { intros H. apply pair_equal_spec in H as [_ <-]. now left. }
  destruct (sbrk (os s) alloc_size) as [new_brk o2] eqn:E1.
  apply sbrk_moves in E1; [| unfold MMAP_THRESHOLD, two63 in *; lia].
  assert (Hr : brk_raised (os s) o2).
  { unfold brk_raised. destruct E1 as [E | E]; rewrite E; [now left | right; lia]. }
  destruct (new_brk =? SBRK_FAILED).
  { intros H. apply pair_equal_spec in H as [_ <-]. now rewrite os_with_os. }
  match goal with |- context [sbrk ?o 0] => destruct (sbrk o 0) as [cur o3] eqn:E2 end.
  pose proof (sbrk_zero _ _ _ E2) as ->.
  intros H. apply pair_equal_spec in H as [_ <-].
  autorewrite with proj_rw.
  destruct (heap_start s =? NULL); autorewrite with proj_rw; exact Hr.
Qed.

Lemma malloc_brk fuel s n p s' :
  mem_malloc fuel s n = Done (p, s') -> brk_raised (os s) (os s').
Proof.
  unfold mem_malloc. fold (total_size n). intros H.
  destruct (n =? 0); [apply Done_pair_inj in H as [_ <-]; now left |].
  destruct (N.leb_spec MMAP_THRESHOLD (total_size n)) as [Hbig | Hsmall].
  - destruct (mmap _ _) as [ptr o1] eqn:Em.
    assert (Hb : brk o1 = brk (os s)).
    { unfold mmap in Em. destruct (_ && _); apply pair_equal_spec in Em as [_ <-];
        reflexivity. }
    destruct (ptr =? MAP_FAILED); apply Done_pair_inj in H as [_ <-];
      autorewrite with proj_rw; now left.
  - destruct (find_free_block _ _ _) as [found | |]; cbn [obind] in H; try discriminate.
    destruct (if found =? NULL then _ else _) as [block s1] eqn:E1.
    assert (Hs1 : brk_raised (os s) (os s1)).
    { destruct (found =? NULL).
      - now apply (expand_heap_brk s n block s1).
      - apply pair_equal_spec in E1 as [_ <-]. now left. }
    destruct (block =? NULL); apply Done_pair_inj in H as [_ <-]; [exact Hs1 |].
    autorewrite with proj_rw.
    now rewrite os_split_block, os_remove_from_free_list.
Qed.

Lemma free_brk fuel s p s' : mem_free fuel s p = Done s' -> brk (os s') = brk (os s).
Proof.
  unfold mem_free. intros H.
  destruct (p =? NULL); [now apply Done_inj in H as <- |].
  destruct (truthy _).
  - apply Done_inj in H as <-. now autorewrite with proj_rw.
  - destruct (coalesce _ _ _) as [[b' s3] | |] eqn:Ec; cbn [obind] in H;
      try discriminate.
    apply Done_inj in H as <-. apply coalesce_os in Ec.
    rewrite os_add_to_free_list, Ec. now autorewrite with proj_rw.
Qed.

Lemma calloc_brk fuel s nmemb sz p s' :
  mem_calloc fuel s nmemb sz = Done (p, s') -> brk_raised (os s) (os s').
Proof.
  unfold mem_calloc. intros H.
  destruct (_ || _); [apply Done_pair_inj in H as [_ <-]; now left |].
  destruct (negb _); [apply Done_pair_inj in H as [_ <-]; now left |].
  destruct (mem_malloc _ _ _) as [[ptr s1] | |] eqn:Em; cbn [obind] in H;
    try discriminate.
  apply malloc_brk in Em.
  destruct (truthy ptr).
  - destruct (memset _ _ _ _) as [s2 | |] eqn:Es; cbn [obind] in H; try discriminate.
    apply Done_pair_inj in H as [_ <-].
    apply memset_stats in Es as (_ & _ & _ & -> & _). assumption.
  - apply Done_pair_inj in H as [_ <-]. exact Em.
Qed.

Lemma realloc_brk fuel s p n q s' :
  mem_realloc fuel s p n = Done (q, s') -> brk_raised (os s) (os s').
Proof.
  unfold mem_realloc. intros H.
  destruct (p =? NULL); [now apply malloc_brk in H |].
  destruct (n =? 0).
  - destruct (mem_free _ _ _) as [s1 | |] eqn:Ef; cbn [obind] in H; try discriminate.
    apply Done_pair_inj in H as [_ <-]. left. now apply free_brk in Ef.
  - destruct (n <=? _); [apply Done_pair_inj in H as [_ <-]; now left |].
    destruct (mem_malloc _ _ _) as [[np s1] | |] eqn:Em; cbn [obind] in H;
      try discriminate.
    apply malloc_brk in Em.
    destruct (np =? NULL); [apply Done_pair_inj in H as [_ <-]; exact Em |].
    destruct (memcpy _ _ _ _) as [s2 | |] eqn:Ec; cbn [obind] in H; try discriminate.
    apply memcpy_stats in Ec as (_ & _ & _ & Ec & _).
    destruct (mem_free _ _ _) as [s3 | |] eqn:Ef; cbn [obind] in H; try discriminate.
    apply Done_pair_inj in H as [_ <-]. apply free_brk in Ef.
    unfold brk_raised in *. rewrite Ef, Ec. exact Em.
Qed.

Lemma step_brk s s' : step s s' -> brk_raised (os s) (os s').
Proof.
  intros [fuel n p H | fuel p H | fuel a b p H | fuel p n q H | ->].
  - now apply malloc_brk in H.
  - left. now apply free_brk in H.
  - now apply calloc_brk in H.
  - now apply realloc_brk in H.
  - now left.
Qed.

(** X13. No sequence of public operations, whatever their arguments, lowers
    the program break or changes the limits of the system: memory obtained
    from [sbrk] is never given back.  [sbrk] would lower the break for a
    negative increment, but the one increment the allocator passes, in
    [expand_heap], is [BRK_INCREMENT] or the rounded request size, and
    [mem_malloc] takes that path only below [MMAP_THRESHOLD]: a single call
    leaves the break where it is or raises it by at least 64 KiB and less
    than 128 KiB. *)
Theorem break_never_lowered s s' :
  rtc step s s' ->
  brk (os s) <= brk (os s') /\ brk_base (os s') = brk_base (os s) /\
  brk_limit (os s') = brk_limit (os s) /\ mmap_limit (os s') = mmap_limit (os s) /\
  (step s s' ->
     brk (os s') = brk (os s) \/
     (brk (os s) + 64 * 1024 <= brk (os s') /\ brk (os s') < brk (os s) + 128 * 1024)).
Proof.
  intros R.
  assert (G : os_grows (os s) (os s')).
  { induction R as [| x y z Hs _ IH]; [apply os_grows_refl |].
    eapply os_grows_trans; [apply step_os; exact Hs | exact IH]. }
  destruct G as (G1 & G2 & G3 & G4).
  repeat (split; [assumption |]).
  intros Hs. exact (step_brk s s' Hs).
Qed.

Lemma break_never_lowered_witness :
  brk (os fresh) <= brk (os after_malloc_100) /\
  brk_base (os after_malloc_100) = brk_base (os fresh) /\
  brk_limit (os after_malloc_100) = brk_limit (os fresh) /\
  mmap_limit (os after_malloc_100) = mmap_limit (os fresh) /\
  (brk (os after_malloc_100) = brk (os fresh) \/
   (brk (os fresh) + 64 * 1024 <= brk (os after_malloc_100) /\
    brk (os after_malloc_100) < brk (os fresh) + 128 * 1024)).
Proof.
  assert (Hs : step fresh after_malloc_100)
    by (apply (step_malloc _ _ 1 100 4128); vm_compute; reflexivity).
  destruct (break_never_lowered fresh after_malloc_100) as (A & B & C & D & E).
  - apply rtc_once. exact Hs.
  - repeat (split; [assumption |]). exact (E Hs).
Defined.

(** * A block of size zero *)

Lemma coalesce_zero_size fuel : forall s b,
  b <> NULL -> is_mmap (hdr s b) = 0 -> size (hdr s b) = 0 ->
  is_free (hdr s b) <> 0 ->
  heap_start s <= b -> b + HDR <= heap_end s ->
  coalesce fuel s b = OutOfFuel.
Proof.
  induction fuel as [| fuel IH]; intros s b Hb Hm Hz Hf Hlo Hhi; [reflexivity |].
  cbn [coalesce]. rewrite Hz, N.add_0_r.
  apply N.eqb_neq in Hb as Eb. rewrite Eb.
  assert (Em : truthy (is_mmap (hdr s b)) = false) by now apply truthy_false.
  assert (Ef : truthy (is_free (hdr s b)) = true) by now apply truthy_true.
  rewrite Em, Ef. cbn [orb andb negb].
  assert ((heap_end s <=? b) = false) as -> by (apply N.leb_gt; unfold HDR in *; lia).
  assert ((b <? heap_start s) = false) as -> by (apply N.ltb_ge; lia).
  assert ((heap_end s <? b + HDR) = false) as -> by (apply N.ltb_ge; lia).
  cbn [orb].
  destruct (heap_bounds_remove_from_free_list s b) as [Hs He].
  apply IH; autorewrite with fld_rw; rewrite ?decide_True by reflexivity;
    rewrite ?size_remove, ?is_free_remove, ?is_mmap_remove; try assumption.
  - rewrite Hz. reflexivity.
  - change (heap_start (remove_from_free_list s b) <= b). now rewrite Hs.
  - change (b + HDR <= heap_end (remove_from_free_list s b)). now rewrite He.
Qed.

(** X14. Releasing a heap block whose size field is 0 never completes: the
    block is its own successor, so [coalesce] merges it with itself without
    end.  [mem_malloc] hands out such a block for a request whose rounded
    size wraps around to 0. *)
Theorem free_of_zero_size_block_diverges s p fuel :
  HDR < p -> size (hdr s (p - HDR)) = 0 -> is_mmap (hdr s (p - HDR)) = 0 ->
  heap_start s <= p - HDR -> p <= heap_end s ->
  mem_free fuel s p = OutOfFuel.
Proof.
  intros Hp Hz Hm Hlo Hhi. unfold mem_free.
  assert ((p =? NULL) = false) as -> by (apply N.eqb_neq; unfold NULL, HDR in *; lia).
  assert (truthy (is_mmap (hdr s (p - HDR))) = false) as -> by now apply truthy_false.
  rewrite coalesce_zero_size; [reflexivity | | | | | |].
  - unfold NULL, HDR in *. lia.
  - now autorewrite with fld_rw.
  - now autorewrite with fld_rw.
  - autorewrite with fld_rw. now rewrite decide_True.
  - exact Hlo.
  - change (p - HDR + HDR <= heap_end s). lia.
Qed.

Lemma free_of_zero_size_block_diverges_witness :
  mem_malloc 1 fresh (SIZE_MAX - 40) = Done (4128, zero_size_state) /\
  mem_free 1000 zero_size_state 4128 = OutOfFuel.
Proof.
  split; [vm_compute; reflexivity |].
  apply (free_of_zero_size_block_diverges zero_size_state 4128 1000).
  - unfold HDR. lia.
  - vm_compute. reflexivity.
  - vm_compute. reflexivity.
  - vm_compute. discriminate.
  - vm_compute. discriminate.
Defined.

(** * Heap extension and the list of the largest class *)

Lemma class9_of_increment t :
  MIN_BLOCK_SIZE <= t -> t < MMAP_THRESHOLD ->
  get_size_class (if t <? BRK_INCREMENT then BRK_INCREMENT else align_size t) = 9%nat.
Proof.
  intros H1 H2. destruct (alloc_size_bounds t H1 H2) as [Ha _].
  apply get_size_class_large.
  unfold BRK_INCREMENT, MIN_BLOCK_SIZE in *.
  destruct (N.ltb_spec t (64 * 1024)); lia.
Qed.

(** The states of [mem_malloc] on the path that extends the heap: blocks of
    class 9 keep their headers, and the class-9 list is left empty or with
    the split remainder alone. *)
Lemma malloc_extend_trace fuel s T n p s' :
  heap_inv s T -> request_ok n -> total_size n < MMAP_THRESHOLD ->
  mem_malloc fuel s n = Done (p, s') -> p = brk (os s) + HDR ->
  (forall a, a ∈ T -> get_size_class (size (hdr s a)) = 9%nat -> hdr s' a = hdr s a) /\
  (head s' 9 = NULL \/ ((head s' 9 ∉ T) /\ next (hdr s' (head s' 9)) = NULL)).
Proof.
  intros I Hn Hsmall H Hp.
  destruct (request_total n Hn) as [Hlo Hhi].
  pose proof (hi_os _ _ I) as O.
  assert (Htot : MIN_BLOCK_SIZE <= total_size n) by (unfold MIN_BLOCK_SIZE, HDR in *; lia).
  unfold mem_malloc in H. fold (total_size n) in H.
  destruct (n =? 0).
  { apply Done_pair_inj in H as [E _]. pose proof (oi_brk _ O).
    unfold NULL, HDR in *. lia. }
  apply N.leb_gt in Hsmall as Els. rewrite Els in H.
  destruct (find_free_block fuel s (total_size n)) as [found | |] eqn:Ef; cbn [obind] in H;
    try discriminate.
  destruct (N.eqb_spec found NULL) as [-> | Hf].
  2:{ destruct (N.eqb_spec found NULL) as [? | _]; [contradiction |].
      apply Done_pair_inj in H as [E _].
      destruct (find_free_block_tile _ _ T _ _ I Ef) as [? | [[Ft _] _]]; [contradiction |].
      pose proof (tile_below_brk _ _ _ I Ft). pose proof (hi_min _ _ I _ Ft).
      unfold MIN_BLOCK_SIZE in *. lia. }
  destruct (expand_heap s (total_size n)) as [b s1] eqn:Ee.
  destruct (N.eqb_spec b NULL) as [-> | Hb0].
  { apply Done_pair_inj in H as [E _]. pose proof (oi_brk _ O).
    unfold NULL, HDR in *. lia. }
  apply Done_pair_inj in H as [_ <-].
  destruct (alloc_size_bounds (total_size n) Htot Hsmall) as [Ha1 Ha2].
  destruct (expand_heap_success s (total_size n) b s1 O) as
    (Hroom & -> & Hfl & _ & _ & _ & _ & _ & _ & _ & _ & H1);
    [unfold MIN_BLOCK_SIZE in *; lia | exact Hsmall | exact Ee | exact Hb0 |].
  set (b := brk (os s)) in *.
  set (alloc := if total_size n <? BRK_INCREMENT then _ else _) in *.
  assert (Hnew : hdr s1 b = mk_header alloc NULL NULL 1 0).
  { rewrite H1. now rewrite decide_True. }
  assert (Hold : forall a, a ∈ T -> hdr s1 a = hdr s a /\ a < b).
  { intros a Ha. pose proof (tile_below_brk _ _ _ I Ha). pose proof (hi_min _ _ I _ Ha).
    split; [| unfold MIN_BLOCK_SIZE in *; subst b; lia].
    rewrite H1. rewrite decide_False; [reflexivity |].
    unfold MIN_BLOCK_SIZE in *. subst b. lia. }
  assert (Hc9 : get_size_class (size (hdr s1 b)) = 9%nat).
  { rewrite Hnew. cbn [size]. now apply class9_of_increment. }
  set (s2 := remove_from_free_list s1 b).
  assert (H2 : forall a, a <> b -> hdr s2 a = hdr s1 a).
  { intros a Hab. unfold s2. apply hdr_ext.
    - apply size_remove.
    - rewrite next_remove, Hnew. cbn [prev next].
      rewrite decide_False by assumption. now rewrite decide_False by (intros [E _]; now apply E).
    - rewrite prev_remove, Hnew. cbn [prev next].
      rewrite decide_False by assumption. now rewrite decide_False by (intros [E _]; now apply E).
    - apply is_free_remove.
    - apply is_mmap_remove. }
  assert (L2 : free_lists s2 = <[9%nat := NULL]> (free_lists s)).
  { unfold s2. rewrite free_lists_remove, Hc9, Hnew. cbn [prev next].
    rewrite decide_True by reflexivity. now rewrite Hfl. }
  assert (Hd2 : forall c, head s2 c = if decide (c = 9%nat) then NULL else head s c).
  { intros c. unfold head. rewrite L2. apply head_insert. rewrite (hi_len _ _ I).
    unfold NUM_SIZE_CLASSES. lia. }
  assert (S2 : size (hdr s2 b) = alloc).
  { unfold s2. rewrite size_remove, Hnew. reflexivity. }
  clearbody s2.
  assert (H3 : (forall a, a ∈ T -> get_size_class (size (hdr s a)) = 9%nat ->
                          hdr (split_block s2 b n) a = hdr s a) /\
               (head (split_block s2 b n) 9 = NULL \/
                ((head (split_block s2 b n) 9 ∉ T) /\
                 head (split_block s2 b n) 9 <> b /\
                 next (hdr (split_block s2 b n) (head (split_block s2 b n) 9)) = NULL))).
  { unfold split_block. fold (total_size n). cbv zeta.
    destruct (_ <=? size (hdr s2 b)).
    2:{ split; [| left; rewrite Hd2; now rewrite decide_True].
        intros a Ha _. destruct (Hold a Ha) as [E Hlt]. rewrite H2 by lia. exact E. }
    set (nb := b + total_size n).
    set (s6 := set_size _ b (total_size n)).
    assert (Hd6 : forall c, head s6 c = head s2 c) by (intros c; reflexivity).
    assert (H6 : forall a, a <> b -> a <> nb -> hdr s6 a = hdr s2 a).
    { intros a Hab Han. unfold s6. apply hdr_ext; autorewrite with fld_rw;
        rewrite ?decide_False by congruence; reflexivity. }
    assert (N6 : next (hdr s6 nb) = NULL).
    { unfold s6. autorewrite with fld_rw. now rewrite decide_True. }
    set (r := get_size_class (size (hdr s6 nb))).
    assert (HnbT : nb ∉ T).
    { intros Hx. destruct (Hold nb Hx) as [_ Hlt]. subst nb. lia. }
    assert (Hnbb : nb <> b) by (subst nb; unfold MIN_BLOCK_SIZE in *; lia).
    split.
    - intros a Ha Hca. destruct (Hold a Ha) as [E Hlt].
      assert (Hab : a <> b) by lia.
      assert (Han : a <> nb) by (intros ->; contradiction).
      rewrite hdr_with_stats. rewrite <- E, <- (H2 a Hab), <- (H6 a Hab Han).
      apply hdr_ext.
      + apply size_add.
      + rewrite next_add. now rewrite decide_False.
      + rewrite prev_add. cbv zeta. fold r. rewrite Hd6, Hd2.
        rewrite decide_False; [now rewrite decide_False |].
        intros [Hh0 Eh]. case_decide as E9; [now apply Hh0 |].
        destruct (hi_head _ _ I r a (eq_sym Eh)) as (_ & _ & Cr).
        { intros ->. now apply Hh0. }
        congruence.
      + rewrite is_free_add. now rewrite decide_False.
      + apply is_mmap_add.
    - assert (Hlen : (r < length (free_lists s6))%nat).
      { change (free_lists s6) with (free_lists s2). rewrite L2, length_insert, (hi_len _ _ I).
        pose proof (get_size_class_le (size (hdr s6 nb))). unfold NUM_SIZE_CLASSES. subst r. lia. }
      assert (Hd7 : head (add_to_free_list s6 nb) 9 =
                    if decide (9%nat = r) then nb else NULL).
      { unfold head. rewrite free_lists_add. fold r.
        rewrite head_insert by exact Hlen.
        case_decide; [reflexivity |].
        change (nth 9 (free_lists s6) NULL) with (head s2 9).
        rewrite Hd2. now rewrite decide_True. }
      change (head (with_stats (add_to_free_list s6 nb)
                      (stats_split (stats (add_to_free_list s6 nb)))) 9)
        with (head (add_to_free_list s6 nb) 9).
      rewrite Hd7. case_decide as E9; [right | now left].
      split; [exact HnbT |]. split; [exact Hnbb |].
      rewrite hdr_with_stats, next_add. rewrite decide_True by reflexivity.
      fold r. rewrite <- E9, Hd6, Hd2. now rewrite decide_True. }
  destruct H3 as [H3a H3b].
  set (s3 := split_block s2 b n) in *. clearbody s3.
  split.
  - intros a Ha Hca. destruct (Hold a Ha) as [_ Hlt].
    rewrite hdr_with_stats, hdr_set_is_free. rewrite decide_False by lia.
    now apply H3a.
  - change (head (with_stats (set_is_free s3 b 0)
                    (stats_alloc (stats (set_is_free s3 b 0))
                       (size (hdr (set_is_free s3 b 0) b)))) 9) with (head s3 9).
    destruct H3b as [E | (E1 & E2 & E3)]; [now left | right].
    split; [exact E1 |].
    rewrite hdr_with_stats, hdr_set_is_free. now rewrite decide_False by congruence.
Qed.

(** X15. In a state reached from the initial state on a system that
    satisfies [os_inv] by a well-behaved client (one that releases and
    resizes only addresses it holds, asks only for sizes [n] with [n + 47 <
    2^64], and stores only into blocks it holds), whenever a [mem_malloc]
    for such a size extends the heap, the blocks that were on the free list
    of class 9 are lost: each of them is still marked free afterwards, but
    is a member of no free list. *)
Theorem heap_extension_drops_class9 o s live fuel n p s' x fuel0 :
  os_inv o -> client_reachable o s live ->
  request_ok n -> total_size n < MMAP_THRESHOLD ->
  mem_malloc fuel s n = Done (p, s') -> p = brk (os s) + HDR ->
  In x (free_list_members fuel0 s 9) ->
  free_block s' x = true /\
  forall fuel' c, ~ In x (free_list_members fuel' s' c).
Proof.
  intros O R Hn Hsmall H Hp Hx.
  pose proof (client_reachable_inv o s live O R) as C.
  destruct (malloc_client fuel s live n p s' C Hn H) as ((T' & I' & _) & _ & _).
  destruct C as (T & I & L).
  assert (Fx : free_tile s T x /\ get_size_class (size (hdr s x)) = 9%nat).
  { apply (walk_list_tiles fuel0 s T (head s 9) 9 x I); [| exact Hx].
    destruct (N.eq_dec (head s 9) NULL) as [E0 | E0]; [now left | right].
    destruct (hi_head _ _ I 9%nat _ eq_refl E0) as (F & _ & Cx). now split. }
  destruct Fx as [[Tx Fx] Cx].
  destruct (malloc_extend_trace fuel s T n p s' I Hn Hsmall H Hp) as [Hk H9].
  pose proof (Hk x Tx Cx) as Ex.
  split.
  { unfold free_block. rewrite Ex. apply andb_true_iff. split; [now apply truthy_true |].
    apply negb_true_iff, truthy_false. now apply (hi_nomap _ _ I). }
  intros fuel' c Hin. unfold free_list_members in Hin.
  destruct (Nat.eq_dec c 9%nat) as [-> | Hc].
  - destruct H9 as [E | [Hh Hnx]].
    + rewrite E, walk_list_null in Hin. contradiction.
    + destruct fuel' as [| fuel']; [contradiction |].
      cbn [walk_list] in Hin.
      destruct (head s' 9 =? NULL); [contradiction |].
      destruct Hin as [<- | Hin]; [contradiction |].
      rewrite Hnx, walk_list_null in Hin. contradiction.
  - assert (Fx' : free_tile s' T' x /\ get_size_class (size (hdr s' x)) = c).
    { apply (walk_list_tiles fuel' s' T' (head s' c) c x I'); [| exact Hin].
      destruct (N.eq_dec (head s' c) NULL) as [E0 | E0]; [now left | right].
      destruct (hi_head _ _ I' c _ eq_refl E0) as (F & _ & Cc). now split. }
    destruct Fx' as [_ Cx']. rewrite Ex in Cx'. congruence.
Qed.

Lemma heap_extension_drops_class9_witness :
  free_block lost_block_state 4240 = true /\
  forall fuel' c, ~ In 4240 (free_list_members fuel' lost_block_state c).
Proof.
  apply (heap_extension_drops_class9 fresh_os after_malloc_100 (acquire ∅ 4128 100)
           2 70000 (4096 + 65536 + HDR) lost_block_state 4240 1).
  - exact fresh_os_inv.
  - apply rtc_once. apply cstep_call. apply (ccall_malloc 1 fresh ∅ 100 4128 after_malloc_100).
    + unfold request_ok, HDR, ALIGNMENT, two64. lia.
    + vm_compute. reflexivity.
  - unfold request_ok, HDR, ALIGNMENT, two64. lia.
  - vm_compute. reflexivity.
  - vm_compute. reflexivity.
  - vm_compute. reflexivity.
  - vm_compute. left. reflexivity.
Defined.

(** * Alignment of what the allocator hands out *)

Lemma same_residue_refl o : same_residue o o.
Proof. now split. Qed.

Lemma same_residue_trans o1 o2 o3 :
  same_residue o1 o2 -> same_residue o2 o3 -> same_residue o1 o3.
Proof. intros [A B] [C D]. split; congruence. Qed.

Lemma sbrk_residue o incr r o' :
  sbrk o incr = (r, o') -> incr mod ALIGNMENT = 0 -> same_residue o o'.
Proof.
  unfold sbrk, same_residue, ALIGNMENT. intros H Hi.
  destruct (incr <? two63).
  - destruct (_ <=? _); apply pair_equal_spec in H as [_ <-]; cbn; [| now split].
    split; [| reflexivity].
    rewrite N.Div0.add_mod, Hi, N.add_0_r, N.Div0.mod_mod. reflexivity.
  - destruct (N.leb_spec (brk_base o + (two64 - incr)) (brk o)) as [Hle | Hgt];
      apply pair_equal_spec in H as [_ <-]; cbn; [| now split].
    split; [| reflexivity]. unfold two64 in *. lia.
Qed.

Lemma mmap_residue o len r o' : mmap o len = (r, o') -> same_residue o o'.
Proof.
  unfold mmap, same_residue. intros H.
  destruct (_ && _); apply pair_equal_spec in H as [_ <-]; cbn; [| now split].
  split; [reflexivity |].
  pose proof (page_round_aligned len) as Hp. unfold ALIGNMENT in *.
  rewrite N.Div0.add_mod, Hp, N.add_0_r, N.Div0.mod_mod. reflexivity.
Qed.

Lemma alloc_size_aligned t :
  (if t <? BRK_INCREMENT then BRK_INCREMENT else align_size t) mod ALIGNMENT = 0.
Proof.
  destruct (t <? BRK_INCREMENT).
  - reflexivity.
  - rewrite align_size_spec. unfold ALIGNMENT. lia.
Qed.

Lemma expand_heap_residue s t b s1 :
  expand_heap s t = (b, s1) -> same_residue (os s) (os s1).
Proof.
  unfold expand_heap.
  pose proof (alloc_size_aligned t) as Ha.
  set (alloc_size := if t <? BRK_INCREMENT then _ else _) in *.
  destruct (sbrk (os s) 0) as [old_brk o1] eqn:E0.
  pose proof (sbrk_zero _ _ _ E0) as ->. clear E0.
  cbv zeta. rewrite with_os_same.
  destruct (old_brk =? SBRK_FAILED).
  { intros [= <- <-]. apply same_residue_refl. }
  destruct (sbrk (os s) alloc_size) as [new_brk o2] eqn:E1.
  apply sbrk_residue in E1; [| exact Ha].
  destruct (new_brk =? SBRK_FAILED).
  { intros [= <- <-]. now rewrite os_with_os. }
  match goal with |- context [sbrk ?o 0] => destruct (sbrk o 0) as [cur o3] eqn:E2 end.
  pose proof (sbrk_zero _ _ _ E2) as ->.
  intros H. apply pair_equal_spec in H as [_ <-].
  autorewrite with proj_rw.
  destruct (heap_start s =? NULL); autorewrite with proj_rw; exact E1.
Qed.

Lemma malloc_residue fuel s n p s' :
  mem_malloc fuel s n = Done (p, s') -> same_residue (os s) (os s').
Proof.
  unfold mem_malloc. intros H.
  destruct (n =? 0); [apply Done_pair_inj in H as [_ <-]; apply same_residue_refl |].
  destruct (MMAP_THRESHOLD <=? _).
  - destruct (mmap _ _) as [ptr o1] eqn:Em. apply mmap_residue in Em.
    destruct (ptr =? MAP_FAILED); apply Done_pair_inj in H as [_ <-];
      autorewrite with proj_rw; exact Em.
  - destruct (find_free_block _ _ _) as [found | |]; cbn [obind] in H; try discriminate.
    destruct (if found =? NULL then _ else _) as [block s1] eqn:E1.
    assert (Hs1 : same_residue (os s) (os s1)).
    { destruct (found =? NULL).
      - now apply expand_heap_residue in E1.
      - apply pair_equal_spec in E1 as [_ <-]. apply same_residue_refl. }
    destruct (block =? NULL); apply Done_pair_inj in H as [_ <-]; [exact Hs1 |].
    autorewrite with proj_rw.
    rewrite os_split_block, os_remove_from_free_list. exact Hs1.
Qed.

Lemma free_residue fuel s p s' :
  mem_free fuel s p = Done s' -> same_residue (os s) (os s').
Proof.
  unfold mem_free. intros H.
  destruct (p =? NULL); [apply Done_inj in H as <-; apply same_residue_refl |].
  destruct (truthy _).
  - apply Done_inj in H as <-. autorewrite with proj_rw.
    unfold same_residue, munmap; cbn. now split.
  - destruct (coalesce _ _ _) as [[b' s3] | |] eqn:Ec; cbn [obind] in H;
      try discriminate.
    apply Done_inj in H as <-. apply coalesce_os in Ec.
    rewrite os_add_to_free_list, Ec. autorewrite with proj_rw.
    apply same_residue_refl.
Qed.

Lemma calloc_residue fuel s nmemb sz p s' :
  mem_calloc fuel s nmemb sz = Done (p, s') -> same_residue (os s) (os s').
Proof.
  unfold mem_calloc. intros H.
  destruct (_ || _); [apply Done_pair_inj in H as [_ <-]; apply same_residue_refl |].
  destruct (negb _); [apply Done_pair_inj in H as [_ <-]; apply same_residue_refl |].
  destruct (mem_malloc _ _ _) as [[ptr s1] | |] eqn:Em; cbn [obind] in H;
    try discriminate.
  apply malloc_residue in Em.
  destruct (truthy ptr).
  - destruct (memset _ _ _ _) as [s2 | |] eqn:Es; cbn [obind] in H; try discriminate.
    apply Done_pair_inj in H as [_ <-].
    apply memset_stats in Es as (_ & _ & _ & -> & _). assumption.
  - apply Done_pair_inj in H as [_ <-]. exact Em.
Qed.

Lemma realloc_residue fuel s p n q s' :
  mem_realloc fuel s p n = Done (q, s') -> same_residue (os s) (os s').
Proof.
  unfold mem_realloc. intros H.
  destruct (p =? NULL); [now apply malloc_residue in H |].
  destruct (n =? 0).
  - destruct (mem_free _ _ _) as [s1 | |] eqn:Ef; cbn [obind] in H; try discriminate.
    apply Done_pair_inj in H as [_ <-]. now apply free_residue in Ef.
  - destruct (n <=? _); [apply Done_pair_inj in H as [_ <-]; apply same_residue_refl |].
    destruct (mem_malloc _ _ _) as [[np s1] | |] eqn:Em; cbn [obind] in H;
      try discriminate.
    apply malloc_residue in Em.
    destruct (np =? NULL); [apply Done_pair_inj in H as [_ <-]; exact Em |].
    destruct (memcpy _ _ _ _) as [s2 | |] eqn:Ec; cbn [obind] in H; try discriminate.
    apply memcpy_stats in Ec as (_ & _ & _ & Ec & _).
    destruct (mem_free _ _ _) as [s3 | |] eqn:Ef; cbn [obind] in H; try discriminate.
    apply Done_pair_inj in H as [_ <-]. apply free_residue in Ef.
    rewrite Ec in Ef. now apply same_residue_trans with (os s1).
Qed.

Lemma ccall_residue c c' : ccall c c' -> same_residue (os c.1) (os c'.1).
Proof.
  intros [fuel s live n p s' _ H | fuel s live p s' _ H
         | fuel s live a b p s' _ _ _ H | fuel s live p n q s' _ _ H | s live];
    cbn [fst].
  - now apply malloc_residue in H.
  - now apply free_residue in H.
  - now apply calloc_residue in H.
  - now apply realloc_residue in H.
  - unfold mem_reset. autorewrite with proj_rw. apply same_residue_refl.
Qed.

Lemma cstep_residue c c' : cstep c c' -> same_residue (os c.1) (os c'.1).
Proof.
  intros [c0 c0' Hc | s live p n off len v s' _ _ Hw]; cbn [fst].
  - now apply ccall_residue.
  - apply memset_stats in Hw as (_ & _ & _ & -> & _). apply same_residue_refl.
Qed.

Lemma client_reachable_residue o s live :
  client_reachable o s live -> same_residue o (os s).
Proof.
  intros R.
  change (same_residue o (os (s, live).1)).
  apply (rtc_ind_r (R := cstep) (fun c => same_residue o (os c.1))
           (initial_state o, ∅)); [apply same_residue_refl | | exact R].
  intros c c' _ Hs IH.
  apply same_residue_trans with (os c.1); [exact IH |].
  now apply cstep_residue.
Qed.

(** X16. On a system that satisfies [os_inv] and whose initial break and
    mapping base are multiples of 16, every address held by a well-behaved
    client (one that releases and resizes only addresses it holds, asks only
    for sizes [n] with [n + 47 < 2^64], and stores only into blocks it
    holds) is a multiple of 16. *)
Theorem held_addresses_aligned o s live p n :
  os_inv o -> brk o mod ALIGNMENT = 0 -> mmap_next o mod ALIGNMENT = 0 ->
  client_reachable o s live -> live !! p = Some n ->
  p mod ALIGNMENT = 0.
Proof.
  intros Ho Hb Hm Hr Hl.
  pose proof (client_reachable_residue _ _ _ Hr) as [Rb Rm].
  rewrite Hb in Rb. rewrite Hm in Rm.
  destruct (client_reachable_inv _ _ _ Ho Hr) as (T & I & L).
  destruct (li_room _ _ _ L _ _ Hl) as [Hp _].
  destruct (li_kind _ _ _ L _ _ Hl) as [[Ht _] | [_ Hin]].
  - destruct (hi_align _ _ I Rb _ Ht) as [Ha _].
    unfold ALIGNMENT, HDR in *. lia.
  - pose proof (oi_align _ (hi_os _ _ I) Rm _ _ Hin) as Ha.
    unfold ALIGNMENT, HDR in *. lia.
Qed.

Lemma held_addresses_aligned_witness : 4272 mod ALIGNMENT = 0.
Proof.
  apply (held_addresses_aligned fresh_os two_blocks_state two_blocks_live 4272 200).
  - exact fresh_os_inv.
  - reflexivity.
  - reflexivity.
  - exact two_blocks_reachable.
  - reflexivity.
Defined.

(** * Calls by a well-behaved client complete *)

(** ** The search of the free lists *)

Lemma scan_list_completes s (rank : N -> nat) :
  (forall t, next (hdr s t) <> NULL -> (rank (next (hdr s t)) < rank t)%nat) ->
  forall fuel cur sz,
    (1 <= fuel)%nat -> (cur <> NULL -> (rank cur + 2 <= fuel)%nat) ->
    exists r, scan_list fuel s cur sz = Done r.
Proof.
  intros Hr. induction fuel as [| fuel IH]; intros cur sz H1 Hc; [lia |].
  cbn [scan_list].
  destruct (N.eqb_spec cur NULL) as [-> | Hn]; [now exists NULL |].
  destruct (truthy (is_free (hdr s cur)) && (sz <=? size (hdr s cur)));
    [now exists cur |].
  specialize (Hc Hn).
  apply IH; [lia |]. intros Hnx. specialize (Hr cur Hnx). lia.
Qed.

Lemma scan_classes_completes s fuel sz :
  (forall i, exists r, scan_list fuel s (head s i) sz = Done r) ->
  forall n i, exists r, scan_classes fuel s i n sz = Done r.
Proof.
  intros Hl. induction n as [| n IH]; intros i; cbn [scan_classes].
  - now exists NULL.
  - destruct (Hl i) as [found ->]. cbn [obind].
    destruct (found =? NULL); [apply IH | now exists found].
Qed.

Lemma head_in_lists s i : head s i = NULL \/ In (head s i) (free_lists s).
Proof.
  unfold head. destruct (nth_in_or_default i (free_lists s) NULL); auto.
Qed.

Lemma find_free_block_completes s T :
  heap_inv s T ->
  exists fuel0, forall fuel sz, (fuel0 <= fuel)%nat ->
    exists r, find_free_block fuel s sz = Done r.
Proof.
  intros I. destruct (hi_rank _ _ I) as [rank Hr].
  exists (list_max (map rank (free_lists s)) + 2)%nat.
  intros fuel sz Hf. unfold find_free_block.
  apply scan_classes_completes. intros i.
  apply (scan_list_completes s rank Hr); [lia |].
  intros Hn. destruct (head_in_lists s i) as [E | Hin]; [contradiction |].
  assert (rank (head s i) <= list_max (map rank (free_lists s)))%nat; [| lia].
  pose proof (proj1 (list_max_le (map rank (free_lists s)) _) (Nat.le_refl _)) as Hall.
  rewrite Forall_forall in Hall. apply Hall. apply list_elem_of_In. now apply in_map.
Qed.

(** ** [mem_malloc] *)

Lemma malloc_completes s T :
  heap_inv s T ->
  exists fuel0, forall fuel n, (fuel0 <= fuel)%nat ->
    exists p s', mem_malloc fuel s n = Done (p, s').
Proof.
  intros I. destruct (find_free_block_completes s T I) as [fuel0 Hfind].
  exists fuel0. intros fuel n Hf. unfold mem_malloc.
  destruct (n =? 0); [now eexists _, _ |].
  destruct (MMAP_THRESHOLD <=? _).
  - destruct (mmap _ _) as [ptr o1].
    destruct (ptr =? MAP_FAILED); now eexists _, _.
  - destruct (Hfind fuel (align_size (wadd n HDR)) Hf) as [found ->]. cbn [obind].
    destruct (if found =? NULL then _ else _) as [block s1].
    destruct (block =? NULL); now eexists _, _.
Qed.

(** ** [coalesce] and [mem_free] *)

(** One turn of the loop of [coalesce]: either it stops, or the tile that
    follows the block is merged into it and the loop goes on from a well
    formed heap with a larger block. *)
Lemma coalesce_turn fuel s T b :
  heap_inv s T -> free_tile s T b ->
  next (hdr s b) = NULL -> prev (hdr s b) = NULL -> detached s b ->
  coalesce (S fuel) s b = Done (b, s) \/
  exists s3 T3,
    coalesce (S fuel) s b = coalesce fuel s3 b /\
    heap_inv s3 T3 /\ free_tile s3 T3 b /\
    next (hdr s3 b) = NULL /\ prev (hdr s3 b) = NULL /\ detached s3 b /\
    heap_end s3 = heap_end s /\
    b + size (hdr s b) < heap_end s /\
    size (hdr s b) < size (hdr s3 b).
Proof.
  intros I Fb Nb Pb Db.
  cbn [coalesce].
  pose proof Fb as [Hb Hfb].
  pose proof (tile_nonnull _ _ _ I Hb) as Hb0.
  apply N.eqb_neq in Hb0 as Eb. rewrite Eb.
  assert (Em : truthy (is_mmap (hdr s b)) = false).
  { apply truthy_false. now apply (hi_nomap _ _ I). }
  rewrite Em. cbn [orb].
  destruct ((heap_end s <=? b + size (hdr s b)) || (b + size (hdr s b) <? heap_start s)) eqn:E1;
    [now left |].
  destruct (heap_end s <? b + size (hdr s b) + HDR) eqn:E2; [now left |].
  destruct (truthy (is_free (hdr s (b + size (hdr s b)))) &&
            negb (truthy (is_mmap (hdr s (b + size (hdr s b)))))) eqn:E3;
    [| now left].
  right.
  apply orb_false_iff in E1 as [E1 _]. apply N.leb_gt in E1.
  apply andb_true_iff in E3 as [E3 _]. apply truthy_true in E3.
  set (nb := b + size (hdr s b)) in *.
  assert (Hn : nb ∈ T).
  { destruct (hi_succ _ _ I b Hb) as [E | E]; [fold nb in E; lia | exact E]. }
  assert (Fn : free_tile s T nb) by now split.
  pose proof (hi_min _ _ I b Hb) as Hmb.
  pose proof (hi_min _ _ I nb Hn) as Hmn.
  assert (Hbn : b <> nb) by (subst nb; unfold MIN_BLOCK_SIZE in *; lia).
  destruct (remove_inv s T nb I Fn) as (I1 & Nn1 & Pn1 & Dn1).
  destruct (remove_keeps_detached s T nb b I Fn Fb Hbn Nb Pb Db) as (Nb1 & Pb1 & Db1).
  set (s1 := remove_from_free_list s nb) in *.
  assert (Fb1 : free_tile s1 T b).
  { split; [exact Hb |]. unfold s1. now rewrite is_free_remove. }
  assert (Fn1 : free_tile s1 T nb).
  { split; [exact Hn |]. unfold s1. now rewrite is_free_remove. }
  assert (Sb1 : size (hdr s1 b) = size (hdr s b)) by apply size_remove.
  assert (Sn1 : size (hdr s1 nb) = size (hdr s nb)) by apply size_remove.
  assert (Hnb1 : nb = b + size (hdr s1 b)) by now rewrite Sb1.
  pose proof (tile_size_lt _ _ _ I Hn) as Hlt.
  assert (Hw : wadd (size (hdr s1 b)) (size (hdr s1 nb)) =
               size (hdr s1 b) + size (hdr s1 nb)).
  { unfold wadd. apply wrap_small. rewrite Sb1, Sn1. subst nb. lia. }
  rewrite Hw.
  pose proof (merge_inv s1 T b nb I1 Fb1 Nb1 Pb1 Db1 Fn1 Nn1 Pn1 Dn1 Hnb1) as I2.
  set (s2 := set_size s1 b (size (hdr s1 b) + size (hdr s1 nb))) in *.
  assert (I3 : heap_inv (with_stats s2 (stats_coalesce (stats s2))) (T ∖ {[nb]}))
    by now apply heap_inv_with_stats.
  exists (with_stats s2 (stats_coalesce (stats s2))), (T ∖ {[nb]}).
  split; [reflexivity |]. split; [exact I3 |].
  split.
  { split; [clear - Hb Hbn; set_solver |]. change (is_free (hdr s2 b) <> 0).
    unfold s2. autorewrite with fld_rw. apply Fb1. }
  split; [change (next (hdr s2 b) = NULL); unfold s2; now autorewrite with fld_rw |].
  split; [change (prev (hdr s2 b) = NULL); unfold s2; now autorewrite with fld_rw |].
  split; [exact Db1 |].
  split.
  { rewrite heap_end_with_stats. unfold s2. rewrite heap_end_set_size.
    apply heap_bounds_remove_from_free_list. }
  split; [exact E1 |].
  change (size (hdr s b) < size (hdr s2 b)).
  unfold s2. autorewrite with fld_rw. rewrite decide_True by reflexivity.
  unfold MIN_BLOCK_SIZE in *. lia.
Qed.

Lemma coalesce_completes fuel : forall s T b,
  heap_inv s T -> free_tile s T b ->
  next (hdr s b) = NULL -> prev (hdr s b) = NULL -> detached s b ->
  (N.to_nat (heap_end s - (b + size (hdr s b))) < fuel)%nat ->
  exists r, coalesce fuel s b = Done r.
Proof.
  induction fuel as [| fuel IH]; intros s T b I Fb Nb Pb Db Hf; [lia |].
  destruct (coalesce_turn fuel s T b I Fb Nb Pb Db) as
    [-> | (s3 & T3 & -> & I3 & F3 & N3 & P3 & D3 & He & Hlt & Hsz)];
    [now eexists |].
  apply (IH s3 T3 b I3 F3 N3 P3 D3). rewrite He. lia.
Qed.

Lemma heap_end_below_limit s T : heap_inv s T -> heap_end s <= brk_limit (os s).
Proof.
  intros I. pose proof (oi_brk_le _ (hi_os _ _ I)).
  destruct (hi_heap _ _ I) as [(_ & -> & _) | (_ & -> & _)]; unfold NULL; lia.
Qed.

Lemma free_completes fuel s live p :
  client_inv s live -> p = NULL \/ is_Some (live !! p) ->
  (N.to_nat (brk_limit (os s)) < fuel)%nat ->
  exists s', mem_free fuel s p = Done s'.
Proof.
  intros (T & I & L) Hp Hf. unfold mem_free.
  destruct Hp as [-> | [n Hp]]; [rewrite N.eqb_refl; now eexists |].
  destruct (p =? NULL); [now eexists |].
  destruct (truthy (is_mmap (hdr s (p - HDR)))) eqn:Em; [now eexists |].
  destruct (li_kind _ _ _ L p n Hp) as [[Ht Hu] | [Hm _]];
    [| apply truthy_false in Em; contradiction].
  set (b := p - HDR) in *.
  set (s1 := with_stats s _).
  assert (I1 : heap_inv s1 T) by now apply heap_inv_with_stats.
  assert (U1 : is_free (hdr s1 b) = 0) by exact Hu.
  destruct (mark_free_inv s1 T b I1 Ht U1) as (I2 & F2 & N2 & P2 & D2).
  pose proof (heap_end_below_limit _ _ I2) as Hle.
  assert (O2 : os (set_is_free s1 b 1) = os s) by reflexivity.
  rewrite O2 in Hle.
  destruct (coalesce_completes fuel (set_is_free s1 b 1) T b I2 F2 N2 P2 D2)
    as [[b' s3] ->]; [lia |].
  cbn [obind]. now eexists.
Qed.

Lemma client_accessible_room s live p n len :
  client_inv s live -> live !! p = Some n ->
  len + HDR <= size (hdr s (p - HDR)) ->
  accessible (os s) p len = true.
Proof.
  intros (T & I & L) Hp Rp.
  destruct (li_room _ _ _ L _ _ Hp) as [Gp _].
  unfold accessible.
  destruct (li_kind _ _ _ L p n Hp) as [[Tp _] | [_ Mp]].
  - pose proof (tile_below_brk _ _ _ I Tp) as [H1 H2].
    apply orb_true_iff. left. apply andb_true_iff. split; apply N.leb_le; lia.
  - apply orb_true_iff. right. apply existsb_exists.
    exists (p - HDR, size (hdr s (p - HDR))). split; [now apply list_elem_of_In |].
    pose proof (page_round_ge (size (hdr s (p - HDR)))).
    cbn [fst snd]. apply andb_true_iff. split; apply N.leb_le; lia.
Qed.

Lemma calloc_completes fuel s live nmemb sz :
  client_inv s live -> nmemb < two64 -> sz < two64 ->
  two64 <= nmemb * sz \/ request_ok (nmemb * sz) ->
  (forall n, exists p s', mem_malloc fuel s n = Done (p, s')) ->
  exists p s', mem_calloc fuel s nmemb sz = Done (p, s').
Proof.
  intros C Hn Hs [Ho | Hr] Hm.
  { rewrite calloc_overflow by assumption. now eexists _, _. }
  unfold mem_calloc.
  destruct (_ || _); [now eexists _, _ |].
  destruct (negb _); [now eexists _, _ |].
  assert (Hw : wmul nmemb sz = nmemb * sz).
  { unfold wmul. apply wrap_small. unfold request_ok in Hr. lia. }
  rewrite Hw.
  destruct (Hm (nmemb * sz)) as (p & s1 & Em). rewrite Em. cbn [obind].
  destruct (truthy p) eqn:Ep; [| now eexists _, _].
  apply truthy_true in Ep.
  destruct (malloc_client _ _ _ _ _ _ C Hr Em) as (C1 & _ & _).
  unfold acquire in C1. rewrite decide_False in C1 by exact Ep.
  unfold memset.
  rewrite (client_accessible s1 _ p (nmemb * sz) C1) by apply lookup_insert_eq.
  cbn [obind]. now eexists _, _.
Qed.

Lemma realloc_completes fuel s live p n :
  client_inv s live -> p = NULL \/ is_Some (live !! p) -> request_ok n ->
  (forall k, exists q s', mem_malloc fuel s k = Done (q, s')) ->
  (N.to_nat (brk_limit (os s)) < fuel)%nat ->
  exists q s', mem_realloc fuel s p n = Done (q, s').
Proof.
  intros C Hp Hn Hm Hf. unfold mem_realloc.
  destruct Hp as [-> | [m Hp]]; [rewrite N.eqb_refl; apply Hm |].
  destruct (p =? NULL); [apply Hm |].
  destruct (n =? 0).
  { destruct (free_completes fuel s live p C (or_intror (ex_intro _ m Hp)) Hf) as [s1 ->].
    cbn [obind]. now eexists _, _. }
  destruct (N.leb_spec n (wsub (size (hdr s (p - HDR))) HDR)) as [Hfit | Hgrow];
    [now eexists _, _ |].
  destruct (Hm n) as (np & s1 & Em). rewrite Em. cbn [obind].
  destruct (malloc_client _ _ _ _ _ _ C Hn Em) as (C1 & Hfresh & Hfr1).
  destruct (N.eqb_spec np NULL) as [-> | Hnp]; [now eexists _, _ |].
  unfold acquire in C1. rewrite decide_False in C1 by assumption.
  assert (Hne : np <> p).
  { intros ->. rewrite (Hfresh Hnp) in Hp. discriminate. }
  assert (Hp1 : <[np := n]> live !! p = Some m) by now rewrite lookup_insert_ne.
  assert (Hold : wsub (size (hdr s (p - HDR))) HDR + HDR <= size (hdr s (p - HDR))).
  { destruct C as (T & I & L).
    destruct (li_room _ _ _ L _ _ Hp) as [_ Hroom].
    pose proof (live_size_lt _ _ _ _ _ I L Hp).
    unfold wsub, wrap, two64, HDR in *. lia. }
  assert (Ec : exists s2, memcpy s1 np p (wsub (size (hdr s (p - HDR))) HDR) = Done s2).
  { unfold memcpy.
    assert (A1 : accessible (os s1) np (wsub (size (hdr s (p - HDR))) HDR) = true).
    { apply (client_accessible_room s1 _ np n _ C1); [apply lookup_insert_eq |].
      destruct C1 as (T1 & I1 & L1).
      destruct (li_room _ _ _ L1 np n (lookup_insert_eq _ _ _)). lia. }
    assert (A2 : accessible (os s1) p (wsub (size (hdr s (p - HDR))) HDR) = true).
    { apply (client_accessible_room s1 _ p m _ C1 Hp1). now rewrite (Hfr1 p m Hp). }
    rewrite A1, A2. now eexists. }
  destruct Ec as [s2 Ec]. rewrite Ec. cbn [obind].
  pose proof (memcpy_client _ _ _ _ _ _ Ec C1) as C2.
  apply memcpy_stats in Ec as (_ & _ & _ & Ec & _).
  pose proof (malloc_os _ _ _ _ _ Em) as (_ & Hlim & _).
  destruct (free_completes fuel s2 _ p C2 (or_intror (ex_intro _ m Hp1))) as [s3 ->].
  { rewrite Ec, Hlim. exact Hf. }
  cbn [obind]. now eexists _, _.
Qed.

(** X17. In every state reached from the initial state on a system that
    satisfies [os_inv] by a well-behaved client (one that releases and
    resizes only addresses it holds, asks only for sizes [n] with [n + 47 <
    2^64], and stores only into blocks it holds), the next call completes
    when given enough fuel: [mem_malloc] of any size, [mem_free] of null or
    of a held address, [mem_calloc] of factors whose product overflows or
    satisfies [n + 47 < 2^64], and [mem_realloc] of null or of a held
    address to such a size. The list walk of [find_free_block] and the
    recursion of [coalesce] end, and [memset] and [memcpy] stay inside the
    memory of the process. *)
Theorem client_calls_complete o s live :
  os_inv o -> client_reachable o s live ->
  exists fuel0, forall fuel, (fuel0 <= fuel)%nat ->
    (forall n, exists p s', mem_malloc fuel s n = Done (p, s')) /\
    (forall p, p = NULL \/ is_Some (live !! p) ->
       exists s', mem_free fuel s p = Done s') /\
    (forall nmemb sz, nmemb < two64 -> sz < two64 ->
       two64 <= nmemb * sz \/ request_ok (nmemb * sz) ->
       exists p s', mem_calloc fuel s nmemb sz = Done (p, s')) /\
    (forall p n, p = NULL \/ is_Some (live !! p) -> request_ok n ->
       exists q s', mem_realloc fuel s p n = Done (q, s')).
Proof.
  intros Ho Hr.
  pose proof (client_reachable_inv _ _ _ Ho Hr) as C.
  destruct C as (T & I & L).
  destruct (malloc_completes s T I) as [f1 Hm].
  exists (Nat.max f1 (S (N.to_nat (brk_limit (os s))))).
  intros fuel Hf.
  assert (C : client_inv s live) by now exists T.
  assert (Hm' : forall n, exists p s', mem_malloc fuel s n = Done (p, s')).
  { intros n. apply Hm. lia. }
  split; [exact Hm' |].
  split; [intros p Hp; apply (free_completes fuel s live p C Hp); lia |].
  split.
  - intros nmemb sz Hn Hs Hq. now apply (calloc_completes fuel s live).
  - intros p n Hp Hn. apply (realloc_completes fuel s live p n C Hp Hn Hm'). lia.
Qed.

Lemma client_calls_complete_witness :
  exists fuel0, forall fuel, (fuel0 <= fuel)%nat ->
    (forall n, exists p s', mem_malloc fuel two_blocks_state n = Done (p, s')) /\
    (forall p, p = NULL \/ is_Some (two_blocks_live !! p) ->
       exists s', mem_free fuel two_blocks_state p = Done s') /\
    (forall nmemb sz, nmemb < two64 -> sz < two64 ->
       two64 <= nmemb * sz \/ request_ok (nmemb * sz) ->
       exists p s', mem_calloc fuel two_blocks_state nmemb sz = Done (p, s')) /\
    (forall p n, p = NULL \/ is_Some (two_blocks_live !! p) -> request_ok n ->
       exists q s', mem_realloc fuel two_blocks_state p n = Done (q, s')).
Proof.
  apply (client_calls_complete fresh_os two_blocks_state two_blocks_live).
  - exact fresh_os_inv.
  - exact two_blocks_reachable.
Defined.
